(** * viz_p5: layered rendering of a dependency graph

    A shallow embedding of [scripts/viz_p5.py].  The script reads a JSON
    document, normalises its node and edge records ([load_graph]), builds a
    directed graph that keeps only the edges whose two endpoints are nodes
    ([build_graph]), places every node from its layer alone
    ([layered_layout]) and draws the result ([draw_graph], [main]).

    The Python values the script handles are the ones [json.load] produces.
    Functions that can raise return a [result]; the order in which the
    script evaluates its sub-expressions is kept, so that the exception that
    surfaces is the one Python raises first. *)

From Stdlib Require Import ZArith List Bool Lia String Ascii.
From Stdlib Require Import Permutation Sorted.
From Stdlib Require Import Floats.SpecFloat.
Import ListNotations.

Set Warnings "-register-all".
Local Open Scope Z_scope.

(** ** Exceptions and results *)

Inductive exn : Type :=
| TypeError
| ValueError
| AttributeError
| OverflowError
| KeyError.

Inductive result (A : Type) : Type :=
| Ok (a : A)
| Raise (e : exn).

Arguments Ok {A} a.
Arguments Raise {A} e.

Definition bind {A B : Type} (m : result A) (k : A -> result B) : result B :=
  match m with
  | Ok a => k a
  | Raise e => Raise e
  end.

Notation "x <- m ;; k" := (bind m (fun x => k))
  (at level 61, m at next level, right associativity).

(** [for x in xs: ys.append(f(x))], stopping at the first exception. *)
Fixpoint mapM {A B : Type} (f : A -> result B) (xs : list A) : result (list B) :=
  match xs with
  | [] => Ok []
  | x :: xs' => y <- f x ;; ys <- mapM f xs' ;; Ok (y :: ys)
  end.

(** ** Python values

    A [str] is its sequence of code points.  A JSON number is an [int] or a
    [float]; the floats [json.load] yields are the finite binary64 values
    [m * 2^e], the two infinities (a literal such as [1e999] overflows to
    infinity) and NaN, for [json.load] also accepts the literals [Infinity],
    [-Infinity] and [NaN].  Every [NaN] of a document is one and the same
    object, the constant the decoder returns for the literal.  Scalars are
    the hashable values; lists and dicts are not hashable. *)

Definition pystr : Type := list N.

Definition str (s : string) : pystr :=
  map N_of_ascii (list_ascii_of_string s).

Inductive jfloat : Type :=
| JFin (m e : Z)
| JInf (neg : bool)
| JNaN.

Inductive atom : Type :=
| ANone
| ABool (b : bool)
| AInt (z : Z)
| AFloat (f : jfloat)
| AStr (s : pystr).

Inductive pyval : Type :=
| PAtom (a : atom)
| PList (l : list pyval)
| PDict (d : list (pystr * pyval)).

Coercion PAtom : atom >-> pyval.

Definition PNone : pyval := PAtom ANone.
Definition PInt (z : Z) : pyval := PAtom (AInt z).
Definition PStr (s : string) : pyval := PAtom (AStr (str s)).

(** *** Truth value, used by [or] and [not] *)

Definition jfloat_truthy (f : jfloat) : bool :=
  match f with
  | JFin m _ => negb (m =? 0)
  | JInf _ => true
  | JNaN => true
  end.

Definition atom_truthy (a : atom) : bool :=
  match a with
  | ANone => false
  | ABool b => b
  | AInt z => negb (z =? 0)
  | AFloat f => jfloat_truthy f
  | AStr s => match s with [] => false | _ => true end
  end.

Definition truthy (v : pyval) : bool :=
  match v with
  | PAtom a => atom_truthy a
  | PList l => match l with [] => false | _ => true end
  | PDict d => match d with [] => false | _ => true end
  end.

(** [a or b]: [b] is evaluated only when [a] is false. *)
Definition py_or (a : pyval) (b : result pyval) : result pyval :=
  if truthy a then Ok a else b.

(** *** Strings *)

Fixpoint pystr_eqb (s t : pystr) : bool :=
  match s, t with
  | [], [] => true
  | c :: s', d :: t' => (c =? d)%N && pystr_eqb s' t'
  | _, _ => false
  end.

(** [s < t] on [str]: lexicographic on code points, a proper prefix first. *)
Fixpoint pystr_ltb (s t : pystr) : bool :=
  match s, t with
  | _, [] => false
  | [], _ :: _ => true
  | c :: s', d :: t' =>
      match (c ?= d)%N with
      | Lt => true
      | Gt => false
      | Eq => pystr_ltb s' t'
      end
  end.

(** *** Dictionaries of a JSON object, [d.get(k, default)] *)

Fixpoint lookup (k : pystr) (d : list (pystr * pyval)) : option pyval :=
  match d with
  | [] => None
  | (k', v) :: d' => if pystr_eqb k k' then Some v else lookup k d'
  end.

Definition dict_get (d : list (pystr * pyval)) (k : string) (default : pyval) : pyval :=
  match lookup (str k) d with
  | Some v => v
  | None => default
  end.

(** [v.get(k, default)]: only a dict has the method. *)
Definition py_get (v : pyval) (k : string) (default : pyval) : result pyval :=
  match v with
  | PDict d => Ok (dict_get d k default)
  | _ => Raise AttributeError
  end.

(** [for x in v]: the elements of a list, the keys of a dict, the
    characters of a string. *)
Definition py_iter (v : pyval) : result (list pyval) :=
  match v with
  | PList l => Ok l
  | PDict d => Ok (map (fun kv => PAtom (AStr (fst kv))) d)
  | PAtom (AStr s) => Ok (map (fun c => PAtom (AStr [c])) s)
  | PAtom _ => Raise TypeError
  end.

(** *** Numbers: equality and order across [bool], [int] and [float] *)

Definition atom_num (a : atom) : option jfloat :=
  match a with
  | ABool b => Some (JFin (if b then 1 else 0) 0)
  | AInt z => Some (JFin z 0)
  | AFloat f => Some f
  | _ => None
  end.

(** The numbers in the order of their values, by exact comparison of
    [m1 * 2^e1] with [m2 * 2^e2].  NaN has no value; it is set after all of
    them and is equal to itself only, as the one object it is. *)
Definition jfloat_compare (f g : jfloat) : comparison :=
  match f, g with
  | JNaN, JNaN => Eq
  | JNaN, _ => Gt
  | _, JNaN => Lt
  | JInf true, JInf true => Eq
  | JInf false, JInf false => Eq
  | JInf true, _ => Lt
  | _, JInf true => Gt
  | JInf false, _ => Gt
  | _, JInf false => Lt
  | JFin m1 e1, JFin m2 e2 =>
      let e := Z.min e1 e2 in
      (m1 * 2 ^ (e1 - e)) ?= (m2 * 2 ^ (e2 - e))
  end.

(** The equality a dict or a set uses for its keys: the same object, or
    [a == b] ([True == 1 == 1.0]).  NaN is the same key as NaN, being the
    same object, although [NaN == NaN] is false. *)
Definition atom_eqb (a b : atom) : bool :=
  match a, b with
  | ANone, ANone => true
  | AStr s, AStr t => pystr_eqb s t
  | _, _ =>
      match atom_num a, atom_num b with
      | Some f, Some g => match jfloat_compare f g with Eq => true | _ => false end
      | _, _ => false
      end
  end.

Definition is_nan (a : atom) : bool :=
  match a with
  | AFloat JNaN => true
  | _ => false
  end.

(** [a == b], the operator: no number equals NaN, NaN itself included. *)
Definition atom_eq (a b : atom) : bool := negb (is_nan a) && atom_eqb a b.

(** [f < g] on numbers: false whenever one of them is NaN. *)
Definition jfloat_ltb (f g : jfloat) : bool :=
  match f, g with
  | JNaN, _ => false
  | _, JNaN => false
  | _, _ => match jfloat_compare f g with Lt => true | _ => false end
  end.

(** [a < b]: numbers with numbers, strings with strings; anything else,
    [None < None] included, is a TypeError. *)
Definition atom_lt (a b : atom) : result bool :=
  match a, b with
  | AStr s, AStr t => Ok (pystr_ltb s t)
  | _, _ =>
      match atom_num a, atom_num b with
      | Some f, Some g => Ok (jfloat_ltb f g)
      | _, _ => Raise TypeError
      end
  end.

(** [sorted(l)]: a stable sort that only asks [<].  An element is compared
    as soon as there is another one, so a list of two or more values that
    are not all numbers or all strings raises.  Where [<] orders the
    values, every stable sort returns the same list.  Where it does not (a
    NaN among other numbers), the answers of [<] leave the elements where
    the sort met them: a list of two stays as it is, and the order of a
    longer one is a matter of the sorting algorithm, on which no statement
    below relies. *)
Fixpoint insert_sorted (x : atom) (l : list atom) : result (list atom) :=
  match l with
  | [] => Ok [x]
  | y :: l' =>
      b <- atom_lt y x ;;
      if b then (r <- insert_sorted x l' ;; Ok (y :: r)) else Ok (x :: y :: l')
  end.

Fixpoint py_sorted (l : list atom) : result (list atom) :=
  match l with
  | [] => Ok []
  | x :: l' => r <- py_sorted l' ;; insert_sorted x r
  end.

(** [hash(v)]: what a dict, a set or a graph accepts as a key. *)
Definition hashable (v : pyval) : result atom :=
  match v with
  | PAtom a => Ok a
  | _ => Raise TypeError
  end.

(** *** Dictionaries keyed by hashable values, in insertion order *)

(** [d.get(k)] *)
Fixpoint assoc {V : Type} (k : atom) (d : list (atom * V)) : option V :=
  match d with
  | [] => None
  | (k', v) :: d' => if atom_eqb k k' then Some v else assoc k d'
  end.

(** [d[k] = v]: an equal key keeps its place and its first spelling. *)
Fixpoint assoc_set {V : Type} (k : atom) (v : V) (d : list (atom * V)) : list (atom * V) :=
  match d with
  | [] => [(k, v)]
  | (k', v') :: d' =>
      if atom_eqb k k' then (k', v) :: d' else (k', v') :: assoc_set k v d'
  end.

(** [int(v)].  A float is truncated towards zero; an infinity overflows and
    NaN is a ValueError; [None], a list or a dict is a TypeError.  For a string, [int] parses an
    integer literal: that parser belongs to the language runtime and is a
    parameter here, [None] standing for the ValueError of a rejected
    literal. *)
Definition jfloat_trunc (f : jfloat) : result Z :=
  match f with
  | JFin m e => Ok (if 0 <=? e then m * 2 ^ e else Z.quot m (2 ^ (- e)))
  | JInf _ => Raise OverflowError
  | JNaN => Raise ValueError
  end.

Definition py_int (int_of_str : pystr -> option Z) (v : pyval) : result Z :=
  match v with
  | PAtom ANone => Raise TypeError
  | PAtom (ABool b) => Ok (if b then 1 else 0)
  | PAtom (AInt z) => Ok z
  | PAtom (AFloat f) => jfloat_trunc f
  | PAtom (AStr s) =>
      match int_of_str s with
      | Some z => Ok z
      | None => Raise ValueError
      end
  | PList _ | PDict _ => Raise TypeError
  end.

(** A plain decimal literal parser, [[+-]?[0-9]+], used to run the model on
    concrete documents. *)
Definition digit_of (c : N) : option Z :=
  if ((48 <=? c) && (c <=? 57))%N then Some (Z.of_N c - 48) else None.

Fixpoint digits_value (acc : Z) (s : pystr) : option Z :=
  match s with
  | [] => Some acc
  | c :: s' =>
      match digit_of c with
      | Some d => digits_value (10 * acc + d) s'
      | None => None
      end
  end.

Definition decimal_int_of_str (s : pystr) : option Z :=
  match s with
  | [] => None
  | c :: s' =>
      if (c =? 45)%N then
        match s' with [] => None | _ => option_map Z.opp (digits_value 0 s') end
      else if (c =? 43)%N then
        match s' with [] => None | _ => digits_value 0 s' end
      else digits_value 0 s
  end.

(** ** Normalised records

    [load_graph] turns every raw record into a dict with four fixed keys;
    the dicts are records here, one field per key. *)

Record node : Type := {
  node_id : pyval;
  node_name : pyval;
  node_layer : Z;
  node_kind : pyval
}.

Record edge : Type := {
  edge_id : pyval;
  edge_source : pyval;
  edge_target : pyval;
  edge_type : pyval
}.

Section LoadGraph.

Variable int_of_str : pystr -> option Z.

(** The body of [for n in nodes]. *)
Definition norm_node (n : pyval) : result node :=
  id0 <- py_get n "id" PNone ;;
  nid <- py_or id0 (py_get n "ID" PNone) ;;
  name0 <- py_get n "name" PNone ;;
  name <- py_or name0
            (name1 <- py_get n "Name" PNone ;;
             py_or name1 (py_get n "id" PNone)) ;;
  layer0 <- py_get n "layer" (PInt 0) ;;
  layer <- py_int int_of_str layer0 ;;
  kind <- py_get n "kind" (PStr "unknown") ;;
  Ok {| node_id := nid; node_name := name; node_layer := layer; node_kind := kind |}.

(** The body of [for e in edges]. *)
Definition norm_edge (e : pyval) : result edge :=
  eid <- py_get e "id" PNone ;;
  source <- py_get e "source" PNone ;;
  target <- py_get e "target" PNone ;;
  type <- py_get e "type" (PStr "depends_on") ;;
  Ok {| edge_id := eid; edge_source := source; edge_target := target; edge_type := type |}.

(** [load_graph], from the parsed document on. *)
Definition load_graph (data : pyval) : result (list node * list edge) :=
  gs <- py_get data "graph_state" data ;;
  nodes <- py_get gs "nodes" (PList []) ;;
  edges <- py_get gs "edges" (PList []) ;;
  ns <- py_iter nodes ;;
  norm_nodes <- mapM norm_node ns ;;
  es <- py_iter edges ;;
  norm_edges <- mapM norm_edge es ;;
  Ok (norm_nodes, norm_edges).

End LoadGraph.

(** ** The graph library

    What [build_graph] and [draw_graph] use of networkx's [DiGraph]: an
    insertion-ordered dict of nodes and, for every node, an
    insertion-ordered dict of its successors.  Keys are compared with [==].
    The attributes of a node are the four keys [build_graph] passes with
    [**n], its [id] being the key itself and therefore hashable. *)

Record nattr : Type := {
  attr_id : atom;
  attr_name : pyval;
  attr_layer : Z;
  attr_kind : pyval
}.

Module nx.

Record DiGraph : Type := {
  _node : list (atom * nattr);
  _succ : list (atom * list (atom * edge))
}.

Definition empty : DiGraph := {| _node := []; _succ := [] |}.

Definition has_node (G : DiGraph) (k : atom) : bool :=
  match assoc k (_node G) with
  | Some _ => true
  | None => false
  end.

(** [v in G.nodes]: a lookup in the node dict, which hashes [v]. *)
Definition contains (G : DiGraph) (v : pyval) : result bool :=
  k <- hashable v ;; Ok (has_node G k).

(** [G.add_node(k, **attr)]: a new node is appended, unless it is [None],
    which the library refuses with [ValueError("None cannot be a node")]
    (networkx 2.6 and later); a known node has its attributes updated. *)
Definition add_node (G : DiGraph) (k : atom) (attr : nattr) : result DiGraph :=
  if has_node G k then
    Ok {| _node := assoc_set k attr (_node G); _succ := _succ G |}
  else
    match k with
    | ANone => Raise ValueError
    | _ => Ok {| _node := _node G ++ [(k, attr)]; _succ := _succ G ++ [(k, [])] |}
    end.

(** [G.add_edge(u, v, **attr)] between two nodes of the graph, the only
    way [build_graph] calls it: the attributes are stored under [v] in
    the successors of [u]. *)
Definition add_edge (G : DiGraph) (u v : atom) (attr : edge) : DiGraph :=
  match assoc u (_succ G) with
  | Some nbrs => {| _node := _node G; _succ := assoc_set u (assoc_set v attr nbrs) (_succ G) |}
  | None => G
  end.

(** [G.has_edge(u, v)] *)
Definition has_edge (G : DiGraph) (u v : atom) : bool :=
  match assoc u (_succ G) with
  | Some nbrs => match assoc v nbrs with Some _ => true | None => false end
  | None => false
  end.

(** [G.nodes], in insertion order. *)
Definition nodes (G : DiGraph) : list atom := map fst (_node G).

(** [G.edges(data=True)]: node by node, successor by successor. *)
Definition edges (G : DiGraph) : list (atom * atom * edge) :=
  flat_map (fun un => map (fun vd => (fst un, fst vd, snd vd)) (snd un)) (_succ G).

End nx.

(** ** build_graph *)

Definition add_node_of (G : nx.DiGraph) (n : node) : result nx.DiGraph :=
  k <- hashable (node_id n) ;;
  nx.add_node G k {| attr_id := k; attr_name := node_name n;
                     attr_layer := node_layer n; attr_kind := node_kind n |}.

Definition add_edge_of (G : nx.DiGraph) (e : edge) : result nx.DiGraph :=
  src_in <- nx.contains G (edge_source e) ;;
  if src_in then
    tgt_in <- nx.contains G (edge_target e) ;;
    if tgt_in then
      u <- hashable (edge_source e) ;;
      v <- hashable (edge_target e) ;;
      Ok (nx.add_edge G u v e)
    else Ok G
  else Ok G.

(** [for x in xs: G = step(G, x)]. *)
Fixpoint foldM {A S : Type} (step : S -> A -> result S) (xs : list A) (s : S) : result S :=
  match xs with
  | [] => Ok s
  | x :: xs' => s' <- step s x ;; foldM step xs' s'
  end.

Definition build_graph (nodes : list node) (edges : list edge) : result nx.DiGraph :=
  G <- foldM add_node_of nodes nx.empty ;;
  foldM add_edge_of edges G.

(** ** Floating point

    A Python [float] is an IEEE 754 binary64 value; its operations are the
    correctly rounded ones (round to nearest, ties to even). *)

Definition float : Type := spec_float.

Definition prec : Z := 53.
Definition emax : Z := 1024.

Definition fmul : float -> float -> float := SFmul prec emax.
Definition fsub : float -> float -> float := SFsub prec emax.
Definition fdiv : float -> float -> float := SFdiv prec emax.
Definition fltb : float -> float -> bool := SFltb.

(** An [int] meeting a [float] in an arithmetic operation is first
    converted, rounding to nearest even; a magnitude beyond the largest
    float is an OverflowError. *)
Definition float_of_int (z : Z) : result float :=
  match binary_normalize prec emax z 0 false with
  | S754_infinity _ => Raise OverflowError
  | f => Ok f
  end.

(** The literals [2.0] and [2.2]. *)
Definition two : float := S754_finite false 4503599627370496 (-51).
Definition gap : float := S754_finite false 4953959590107546 (-51).

(** ** layered_layout *)

Definition coord : Type := (float * float)%type.

(** [layers.setdefault(k, []).append(x)] *)
Fixpoint setdefault_append (k : Z) (x : atom) (layers : list (Z * list atom))
  : list (Z * list atom) :=
  match layers with
  | [] => [(k, [x])]
  | (k', xs) :: layers' =>
      if k =? k' then (k', xs ++ [x]) :: layers'
      else (k', xs) :: setdefault_append k x layers'
  end.

(** [layers[k]] *)
Fixpoint layer_ids (layers : list (Z * list atom)) (k : Z) : list atom :=
  match layers with
  | [] => []
  | (k', xs) :: layers' => if k =? k' then xs else layer_ids layers' k
  end.

(** [sorted] on the layer numbers, which are all [int]. *)
Fixpoint insert_Z (x : Z) (l : list Z) : list Z :=
  match l with
  | [] => [x]
  | y :: l' => if y <? x then y :: insert_Z x l' else x :: y :: l'
  end.

Fixpoint sort_Z (l : list Z) : list Z :=
  match l with
  | [] => []
  | x :: l' => insert_Z x (sort_Z l')
  end.

(** [enumerate(l)] *)
Fixpoint enumerate_from {A : Type} (i : Z) (l : list A) : list (Z * A) :=
  match l with
  | [] => []
  | x :: l' => (i, x) :: enumerate_from (i + 1) l'
  end.

Definition enumerate {A : Type} (l : list A) : list (Z * A) := enumerate_from 0 l.

Definition xgap : float := gap.
Definition ygap : float := gap.

(** [x = (i - (n - 1) / 2.0) * xgap] *)
Definition x_coord (i n : Z) : result float :=
  fn <- float_of_int (n - 1) ;;
  fi <- float_of_int i ;;
  Ok (fmul (fsub fi (fdiv fn two)) xgap).

(** [y = -layer * ygap] *)
Definition y_coord (layer : Z) : result float :=
  fl <- float_of_int (- layer) ;;
  Ok (fmul fl ygap).

(** The body of [for i, nid in enumerate(ids)]. *)
Definition place_node (layer n : Z) (pos : list (atom * coord)) (inid : Z * atom)
  : result (list (atom * coord)) :=
  x <- x_coord (fst inid) n ;;
  y <- y_coord layer ;;
  Ok (assoc_set (snd inid) (x, y) pos).

(** The body of [for layer in sorted(layers.keys())]. *)
Definition place_layer (layers : list (Z * list atom)) (pos : list (atom * coord)) (layer : Z)
  : result (list (atom * coord)) :=
  ids <- py_sorted (layer_ids layers layer) ;;
  let n := Z.of_nat (List.length ids) in
  foldM (place_node layer n) (enumerate ids) pos.

(** The body of [for n in nodes]. *)
Definition group_step (layers : list (Z * list atom)) (n : nattr) : list (Z * list atom) :=
  setdefault_append (attr_layer n) (attr_id n) layers.

Definition group_layers (nodes : list nattr) : list (Z * list atom) :=
  fold_left group_step nodes [].

Definition layered_layout (nodes : list nattr) : result (list (atom * coord)) :=
  let layers := group_layers nodes in
  foldM (place_layer layers) (sort_Z (map fst layers)) [].

(** ** _short_label *)

(** [len(v)] *)
Definition py_len (v : pyval) : result Z :=
  match v with
  | PAtom (AStr s) => Ok (Z.of_nat (List.length s))
  | PList l => Ok (Z.of_nat (List.length l))
  | PDict d => Ok (Z.of_nat (List.length d))
  | PAtom _ => Raise TypeError
  end.

(** The horizontal ellipsis, U+2026. *)
Definition ellipsis : N := 8230%N.

(** [v[:23] + "…"]: defined on a string.  A list cannot be concatenated
    with a string (TypeError); a dict is looked up with the slice as its key
    and has no such key (KeyError; before Python 3.12 a slice was not
    hashable and the lookup was a TypeError). *)
Definition truncate (v : pyval) : result pyval :=
  match v with
  | PAtom (AStr s) => Ok (PAtom (AStr (firstn 23 s ++ [ellipsis])))
  | PDict _ => Raise KeyError
  | _ => Raise TypeError
  end.

(** [nattr.get("name") or nattr.get("id") or ""] *)
Definition label_of (a : nattr) : pyval :=
  if truthy (attr_name a) then attr_name a
  else if atom_truthy (attr_id a) then PAtom (attr_id a)
  else PStr "".

Definition _short_label (a : nattr) : result pyval :=
  let label := label_of a in
  n <- py_len label ;;
  if 26 <? n then truncate label else Ok label.

(** ** draw_graph

    The drawing library is outside the script; what the script decides is
    what it hands over: the node groups with their colours, the edge groups
    with their line styles, the positions, the labels and the legend. *)

(** A [linestyle] is a name or an (offset, on-off sequence) pair. *)
Inductive linestyle : Type :=
| Named (name : string)
| Dashes (offset : Z) (onoff : list Z).

Definition style_map : list (atom * linestyle) :=
  [ (AStr (str "depends_on"), Named "solid");
    (AStr (str "invokes"), Named "solid");
    (AStr (str "exchanges"), Dashes 0 [4; 2]);
    (AStr (str "persists"), Dashes 0 [2; 2]);
    (AStr (str "configures"), Dashes 0 [6; 1; 1; 1]);
    (AStr (str "observes"), Dashes 0 [1; 1]);
    (AStr (str "contains"), Named "solid") ].

(** [style_map.get(et, "solid")] *)
Definition edge_style (et : atom) : linestyle :=
  match assoc et style_map with
  | Some st => st
  | None => Named "solid"
  end.

(** [set(l)] keeps one element of every class of equal keys.  A set has no
    order of its own; the only use of this one is [sorted(set(...))], whose
    result does not depend on it where [<] orders the values. *)
Fixpoint set_of (l : list atom) : list atom :=
  match l with
  | [] => []
  | x :: l' => x :: filter (fun y => negb (atom_eqb y x)) (set_of l')
  end.

Fixpoint set_of_Z (l : list Z) : list Z :=
  match l with
  | [] => []
  | x :: l' => x :: filter (fun y => negb (y =? x)) (set_of_Z l')
  end.

(** [d.get("type") == et] *)
Definition type_is (et : atom) (d : edge) : bool :=
  match edge_type d with
  | PAtom a => atom_eq a et
  | _ => false
  end.

(** The palette [tab20] has twenty colours. *)
Definition cmap_N : Z := 20.

Record figure : Type := {
  fig_size : float * float;
  fig_font_size : Z;
  fig_pos : list (atom * coord);
  (* one [draw_networkx_nodes] call per layer: layer, colour, nodes *)
  fig_nodes : list (Z * Z * list atom);
  (* one [draw_networkx_edges] call per type: type, style, edges *)
  fig_edges : list (atom * linestyle * list (atom * atom));
  fig_labels : option (list (atom * pyval));
  (* legend patches: colour and the layer of its "Layer n" label *)
  fig_legend : list (Z * Z)
}.

Definition draw_graph (G : nx.DiGraph) (figsize : float * float) (with_labels : bool)
  (font_size : Z) : result figure :=
  let node_layers := map (fun ka => (fst ka, attr_layer (snd ka))) (nx._node G) in
  let unique_layers := sort_Z (set_of_Z (map snd node_layers)) in
  let color_map := map (fun il => (snd il, fst il mod cmap_N)) (enumerate unique_layers) in
  pos <- layered_layout (map snd (nx._node G)) ;;
  let node_groups :=
    map (fun lc => (fst lc, snd lc,
                    map fst (filter (fun nl => snd nl =? fst lc) node_layers)))
        color_map in
  types <- mapM (fun uvd => hashable (edge_type (snd uvd))) (nx.edges G) ;;
  edge_types <- py_sorted (set_of types) ;;
  let edge_groups :=
    flat_map (fun et =>
                match map fst (filter (fun uvd => type_is et (snd uvd)) (nx.edges G)) with
                | [] => []
                | es => [(et, edge_style et, es)]
                end)
             edge_types in
  labels <- (if with_labels then
               ls <- mapM (fun ka => l <- _short_label (snd ka) ;; Ok (fst ka, l)) (nx._node G) ;;
               Ok (Some ls)
             else Ok None) ;;
  Ok {| fig_size := figsize; fig_font_size := font_size; fig_pos := pos;
        fig_nodes := node_groups; fig_edges := edge_groups; fig_labels := labels;
        fig_legend := map (fun lc => (snd lc, fst lc)) color_map |}.

(** ** main

    [inp] is read and parsed before anything below happens; [main] starts
    here from the parsed document.  What a run leaves behind is its exit
    status, what it printed, and the image file if one was written. *)

Inductive message : Type :=
| Text (s : string)
| Saved (outp : string) (nodes edges : nat)
| Traceback (e : exn).

Record outcome : Type := {
  status : Z;
  stderr : list message;
  stdout : list message;
  image : option (string * figure)
}.

(** An exception nobody catches: traceback on the error channel, status 1. *)
Definition uncaught (e : exn) : outcome :=
  {| status := 1; stderr := [Traceback e]; stdout := []; image := None |}.

(** [print("No nodes or edges found in input JSON.", file=sys.stderr)]
    followed by [sys.exit(2)]. *)
Definition no_input : message := Text "No nodes or edges found in input JSON.".

Definition nothing_to_draw : outcome :=
  {| status := 2; stderr := [no_input]; stdout := []; image := None |}.

(** The image is written, then
    [print(f"Saved: {outp}  (nodes={len(nodes)}, edges={len(edges)})")].  The
    channels hold what the script itself prints: a warning the drawing
    library may add on the error channel is not recorded. *)
Definition saved (outp : string) (nodes : list node) (edges : list edge) (fig : figure)
  : outcome :=
  {| status := 0;
     stderr := [];
     stdout := [Saved outp (List.length nodes) (List.length edges)];
     image := Some (outp, fig) |}.

(** [not l] *)
Definition is_empty {A : Type} (l : list A) : bool :=
  match l with
  | [] => true
  | _ => false
  end.

Section Main.

Variable int_of_str : pystr -> option Z.

Definition main (data : pyval) (outp : string) (w h : float) (font : Z) : outcome :=
  match load_graph int_of_str data with
  | Raise e => uncaught e
  | Ok (nodes, edges) =>
      if is_empty nodes || is_empty edges then nothing_to_draw
      else
        match build_graph nodes edges with
        | Raise e => uncaught e
        | Ok G =>
            match draw_graph G (w, h) true font with
            | Raise e => uncaught e
            | Ok fig => saved outp nodes edges fig
            end
        end
  end.

End Main.

(** ** Vocabulary of the statements *)

(** The two [or] chains of [load_graph]'s node loop, on a dict. *)
Definition resolve_id (d : list (pystr * pyval)) : pyval :=
  let a := dict_get d "id" PNone in
  if truthy a then a else dict_get d "ID" PNone.

Definition resolve_name (d : list (pystr * pyval)) : pyval :=
  let a := dict_get d "name" PNone in
  if truthy a then a
  else
    let b := dict_get d "Name" PNone in
    if truthy b then b else dict_get d "id" PNone.

(** Equality of two JSON numbers as values. *)
Definition jfloat_eq (f g : jfloat) : Prop := jfloat_compare f g = Eq.

(** [k] is the identifier of the normalised node [n]. *)
Definition is_id (k : atom) (n : node) : bool :=
  match node_id n with
  | PAtom a => atom_eqb k a
  | _ => false
  end.

(** What a graph accepts as a node: a hashable value other than [None]. *)
Definition valid_key (v : pyval) : bool :=
  match v with
  | PAtom ANone => false
  | PAtom _ => true
  | _ => false
  end.

Definition is_atom (v : pyval) : bool :=
  match v with
  | PAtom _ => true
  | _ => false
  end.

Definition is_str (a : atom) : bool :=
  match a with
  | AStr _ => true
  | _ => false
  end.

(** The edge record [e] goes from [u] to [v]. *)
Definition links (u v : atom) (e : edge) : bool :=
  match edge_source e, edge_target e with
  | PAtom s, PAtom t => atom_eqb u s && atom_eqb v t
  | _, _ => false
  end.

(** Both endpoints of [e] are nodes of [G]: the guard of [build_graph]. *)
Definition kept (G : nx.DiGraph) (e : edge) : bool :=
  match edge_source e, edge_target e with
  | PAtom s, PAtom t => nx.has_node G s && nx.has_node G t
  | _, _ => false
  end.

(** The node dict and the successor dict list the same keys. *)
Definition aligned (G : nx.DiGraph) : Prop :=
  map fst (nx._node G) = map fst (nx._succ G).

(** No two keys of a dict are equal. *)
Fixpoint distinct (ks : list atom) : Prop :=
  match ks with
  | [] => True
  | k :: ks' => existsb (atom_eqb k) ks' = false /\ distinct ks'
  end.

Definition unique_keys (G : nx.DiGraph) : Prop :=
  distinct (map fst (nx._succ G)) /\
  Forall (fun un => distinct (map fst (snd un))) (nx._succ G).

(** Every node is stored under its own identifier, a string, with the
    layer of one of the records. *)
Definition stored_from (nodes : list node) (ka : atom * nattr) : Prop :=
  fst ka = attr_id (snd ka) /\ is_str (fst ka) = true /\
  exists n, In n nodes /\ node_layer n = attr_layer (snd ka).

(** The type of the edge record is NaN. *)
Definition nan_typed (d : edge) : bool :=
  match edge_type d with
  | PAtom a => is_nan a
  | _ => false
  end.

(** The drawing has an edge from [u] to [v], in one of its groups. *)
Definition drawn (fig : figure) (u v : atom) : Prop :=
  exists et st es, In (et, st, es) (fig_edges fig) /\ In (u, v) es.

(** The seven relation types the style table is written for: dependency,
    invocation, data exchange, persistence, configuration, observation and
    containment. *)
Definition relation_types : list string :=
  [ "depends_on"; "invokes"; "exchanges"; "persists"; "configures"; "observes";
    "contains" ]%string.

Definition style_of (type : string) : linestyle := edge_style (AStr (str type)).

(** The lexicographic order on strings, as a relation: a proper prefix
    comes first; otherwise the first differing code points decide. *)
Inductive lex_lt : pystr -> pystr -> Prop :=
| lex_prefix (d : N) (t : pystr) : lex_lt [] (d :: t)
| lex_head (c d : N) (s t : pystr) : (c < d)%N -> lex_lt (c :: s) (d :: t)
| lex_tail (c : N) (s t : pystr) : lex_lt s t -> lex_lt (c :: s) (c :: t).

(** Two string identifiers in lexicographic order, equal ones included. *)
Definition atom_le (a b : atom) : Prop :=
  match a, b with
  | AStr s, AStr t => s = t \/ lex_lt s t
  | _, _ => False
  end.

(** The identifiers of the nodes of layer [L], in the order of the nodes. *)
Definition members (nodes : list nattr) (L : Z) : list atom :=
  map attr_id (filter (fun n => attr_layer n =? L) nodes).

(** What the layout may depend on: the identifier and the layer of a node. *)
Definition id_layer (n : nattr) : atom * Z := (attr_id n, attr_layer n).

(** The integer [z] converts to a float. *)
Definition float_ok (z : Z) : bool :=
  match float_of_int z with
  | Ok _ => true
  | Raise _ => false
  end.

(** What the layout needs of one layer: string identifiers, no identifier
    twice, and numbers that convert to floats. *)
Definition layer_ready (layers : list (Z * list atom)) (L : Z) : Prop :=
  forallb is_str (layer_ids layers L) = true /\
  NoDup (layer_ids layers L) /\
  Z.of_nat (List.length (layer_ids layers L)) <= 2 ^ 53 /\
  float_ok (- L) = true.

(** The same for a whole node list: the nodes of a graph have different
    identifiers. *)
Definition well_formed (nodes : list nattr) : Prop :=
  forallb (fun n => is_str (attr_id n)) nodes = true /\
  NoDup (map attr_id nodes) /\
  Z.of_nat (List.length nodes) <= 2 ^ 53 /\
  (forall n, In n nodes -> float_ok (- attr_layer n) = true).

(** The mantissa of [2.2]. *)
Definition mg : positive := 4953959590107546.

(** The floats [0.0] and [1.1], and the opposite of a float. *)
Definition zero : float := S754_zero false.
Definition half_gap : float := S754_finite false mg (-52).
Definition fopp : float -> float := SFopp.

(** ** Vocabulary of the statements, continued *)

(** *** Records [load_graph] accepts *)

(** A JSON object. *)
Definition is_dict (v : pyval) : bool :=
  match v with
  | PDict _ => true
  | _ => false
  end.

(** A node record [load_graph] can normalise: an object whose layer, when
    it has one, is accepted by [int]. *)
Definition node_record_ok (int_of_str : pystr -> option Z) (v : pyval) : bool :=
  match v with
  | PDict d =>
      match py_int int_of_str (dict_get d "layer" (PInt 0)) with
      | Ok _ => true
      | Raise _ => false
      end
  | _ => false
  end.

(** *** Keys and attributes of the built graph *)

(** The key [build_graph] stores the record [n] under. *)
Definition node_key (n : node) : atom :=
  match node_id n with
  | PAtom a => a
  | _ => ANone
  end.

(** The attributes [build_graph] stores for the record [n]. *)
Definition attrs_of (n : node) : nattr :=
  {| attr_id := node_key n; attr_name := node_name n;
     attr_layer := node_layer n; attr_kind := node_kind n |}.

(** The keys of [ks] that are not in [seen], each once, where it first
    occurs. *)
Fixpoint first_keys (seen ks : list atom) : list atom :=
  match ks with
  | [] => []
  | k :: ks' =>
      if existsb (atom_eqb k) seen then first_keys seen ks'
      else k :: first_keys (seen ++ [k]) ks'
  end.

(** What the guard of [build_graph] evaluates on the edge record [e]
    without raising: the source is hashed, the target only when the source
    is a node. *)
Definition edge_ok (nodes : list node) (e : edge) : bool :=
  match edge_source e with
  | PAtom s => if existsb (is_id s) nodes then is_atom (edge_target e) else true
  | _ => false
  end.

(** [G[u][v]]: the attributes of the edge from [u] to [v]. *)
Definition edge_attr (G : nx.DiGraph) (u v : atom) : option edge :=
  match assoc u (nx._succ G) with
  | Some nbrs => assoc v nbrs
  | None => None
  end.

(** The same on the graph built from the nodes. *)
Definition guard_ok (G : nx.DiGraph) (e : edge) : bool :=
  match edge_source e with
  | PAtom s => if nx.has_node G s then is_atom (edge_target e) else true
  | _ => false
  end.

(** *** Groups of a drawing *)

(** The layers of the nodes of a graph, node by node. *)
Definition graph_layers (G : nx.DiGraph) : list Z :=
  map (fun ka => attr_layer (snd ka)) (nx._node G).

(** The nodes of [G] stored with layer [L]. *)
Definition layer_nodes (G : nx.DiGraph) (L : Z) : list atom :=
  map fst (filter (fun ka => attr_layer (snd ka) =? L) (nx._node G)).

(** The edges of [G] whose type equals [et]. *)
Definition typed_edges (G : nx.DiGraph) (et : atom) : list (atom * atom) :=
  map fst (filter (fun uvd => type_is et (snd uvd)) (nx.edges G)).

(** A number in the order of Python: a boolean, an integer or a float. *)
Definition is_num (a : atom) : bool :=
  match atom_num a with
  | Some _ => true
  | None => false
  end.

(** *** Floats of a given value *)

(** The mantissa of a positive integer below [2^53], shifted to 53 bits. *)
Definition mant (p : positive) : positive :=
  fst (shl_align p 0 (Zpos (digits2_pos p) - 53)).

(** The float of value [k * 2^t], for [k] below [2^53] in magnitude. *)
Definition scaled (k t : Z) : float :=
  match k with
  | 0 => S754_zero false
  | Zpos p => S754_finite false (mant p) (Zpos (digits2_pos p) - 53 + t)
  | Zneg p => S754_finite true (mant p) (Zpos (digits2_pos p) - 53 + t)
  end.

(** *** Positions *)

(** Two positions differ in a coordinate. *)
Definition apart (p q : coord) : bool :=
  fltb (fst p) (fst q) || fltb (fst q) (fst p) ||
  fltb (snd p) (snd q) || fltb (snd q) (snd p).

(** *** Documents of the expected shape *)

(** A JSON string. *)
Definition is_strv (v : pyval) : bool :=
  match v with
  | PAtom (AStr _) => true
  | _ => false
  end.

(** A name [_short_label] can render: a string, or a value that is false
    (the label is then the identifier). *)
Definition name_ok (v : pyval) : bool := negb (truthy v) || is_strv v.

(** A normalised node and a normalised edge of the expected shape: a
    string identifier, a name that is a string or missing, a layer below
    [2^53] in magnitude; hashable endpoints and a string type. *)
Definition node_wf (n : node) : bool :=
  is_strv (node_id n) && name_ok (node_name n) && (Z.abs (node_layer n) <? 2 ^ 53).

Definition edge_wf (e : edge) : bool :=
  is_atom (edge_source e) && is_atom (edge_target e) && is_strv (edge_type e).

(** The same on the raw records. *)
Definition node_record_wf (int_of_str : pystr -> option Z) (r : pyval) : bool :=
  match r with
  | PDict d =>
      is_strv (resolve_id d) && name_ok (resolve_name d) &&
      match py_int int_of_str (dict_get d "layer" (PInt 0)) with
      | Ok z => Z.abs z <? 2 ^ 53
      | Raise _ => false
      end
  | _ => false
  end.

Definition edge_record_wf (r : pyval) : bool :=
  match r with
  | PDict d =>
      is_atom (dict_get d "source" PNone) && is_atom (dict_get d "target" PNone) &&
      is_strv (dict_get d "type" (PStr "depends_on"))
  | _ => false
  end.

(** *** Labels of a drawing *)

(** The drawing [fig] with the labels [ls]. *)
Definition labelled (fig : figure) (ls : list (atom * pyval)) : figure :=
  {| fig_size := fig_size fig; fig_font_size := fig_font_size fig; fig_pos := fig_pos fig;
     fig_nodes := fig_nodes fig; fig_edges := fig_edges fig; fig_labels := Some ls;
     fig_legend := fig_legend fig |}.

(** The label of one node of the graph, as [draw_graph] computes it. *)
Definition node_label (ka : atom * nattr) : result (atom * pyval) :=
  l <- _short_label (snd ka) ;; Ok (fst ka, l).

(** ** Example inputs

    [obj] builds a JSON object from its members and [jstr] a JSON string,
    so that the documents of the examples read like their source text. *)

Definition jstr (s : string) : pyval := PStr s.

Definition obj (members : list (string * pyval)) : pyval :=
  PDict (map (fun kv => (str (fst kv), snd kv)) members).

Local Open Scope string_scope.

(** A record that spells its identifier [ID] and has no name. *)
Definition record_ID : pyval := obj [("ID", jstr "x")].

(** A record with no identifier at all. *)
Definition record_no_id : pyval := obj [("name", jstr "orphan")].

(** One node and one edge whose target is not a node. *)
Definition doc_dangling : pyval :=
  obj [("nodes", PList [obj [("id", jstr "a")]]);
       ("edges", PList [obj [("source", jstr "a"); ("target", jstr "b")]])].

(** A document with no node and no edge. *)
Definition doc_empty : pyval := obj [("nodes", PList []); ("edges", PList [])].

(** A node whose layer is not a number, under the [graph_state] wrapper. *)
Definition record_bad_layer : list (string * pyval) :=
  [("id", jstr "a"); ("layer", jstr "top")].

Definition doc_bad_layer : pyval :=
  obj [("graph_state",
        obj [("nodes", PList [obj record_bad_layer]); ("edges", PList [])])].

(** Two nodes, one edge between them and one edge to a node that does not
    exist: as normalised records, and as a document. *)
Definition nodes_ab : list node :=
  [ {| node_id := jstr "a"; node_name := jstr "a"; node_layer := 0;
       node_kind := jstr "unknown" |};
    {| node_id := jstr "b"; node_name := jstr "b"; node_layer := 1;
       node_kind := jstr "unknown" |} ].

Definition edge_ab : edge :=
  {| edge_id := PNone; edge_source := jstr "a"; edge_target := jstr "b";
     edge_type := jstr "depends_on" |}.

Definition edge_a_ghost : edge :=
  {| edge_id := PNone; edge_source := jstr "a"; edge_target := jstr "ghost";
     edge_type := jstr "depends_on" |}.

Definition doc_ghost : pyval :=
  obj [("nodes", PList [obj [("id", jstr "a")]; obj [("id", jstr "b"); ("layer", PInt 1)]]);
       ("edges", PList [obj [("source", jstr "a"); ("target", jstr "b")];
                        obj [("source", jstr "a"); ("target", jstr "ghost")]])].

(** Three nodes [A], [B], [C] in layers 0, 0 and 1, and the edges from [A]
    and from [B] to [C]. *)
Definition doc_abc : pyval :=
  obj [("nodes", PList [obj [("id", jstr "A"); ("name", jstr "A"); ("layer", PInt 0)];
                        obj [("id", jstr "B"); ("name", jstr "B"); ("layer", PInt 0)];
                        obj [("id", jstr "C"); ("name", jstr "C"); ("layer", PInt 1)]]);
       ("edges", PList [obj [("source", jstr "A"); ("target", jstr "C");
                             ("type", jstr "depends_on")];
                        obj [("source", jstr "B"); ("target", jstr "C");
                             ("type", jstr "depends_on")]])].

Local Close Scope string_scope.

(** A node of the graph with a given name and identifier. *)
Definition named (name : pyval) (id : atom) : nattr :=
  {| attr_id := id; attr_name := name; attr_layer := 0; attr_kind := PStr "unknown" |}.

(** Thirty different characters, from ['A'] on. *)
Definition thirty : pystr := map N.of_nat (seq 65 30).

(** Three nodes: [B] and [A] in layer 0, [C] in layer 1. *)
Definition scenario : list nattr :=
  [ {| attr_id := AStr (str "B"); attr_name := PStr "B"; attr_layer := 0; attr_kind := PStr "unknown" |};
    {| attr_id := AStr (str "A"); attr_name := PStr "A"; attr_layer := 0; attr_kind := PStr "unknown" |};
    {| attr_id := AStr (str "C"); attr_name := PStr "C"; attr_layer := 1; attr_kind := PStr "unknown" |} ].

(** The nodes of [scenario] in another order, with other names and kinds. *)
Definition scenario_shuffled : list nattr :=
  [ {| attr_id := AStr (str "C"); attr_name := PNone; attr_layer := 1;
       attr_kind := PStr "service" |};
    {| attr_id := AStr (str "B"); attr_name := PStr "second"; attr_layer := 0;
       attr_kind := PStr "store" |};
    {| attr_id := AStr (str "A"); attr_name := PStr "first"; attr_layer := 0;
       attr_kind := PNone |} ].

(** Two nodes in the layers [2^53] and [2^53 + 1]. *)
Definition tall : list nattr :=
  [ {| attr_id := AStr (str "a"); attr_name := PStr "a";
       attr_layer := 9007199254740992; attr_kind := PStr "unknown" |};
    {| attr_id := AStr (str "b"); attr_name := PStr "b";
       attr_layer := 9007199254740993; attr_kind := PStr "unknown" |} ].

(** *** Further example inputs *)

Local Open Scope string_scope.

(** The document [doc_abc] under the [graph_state] wrapper, beside a
    [nodes] key of the wrapper itself. *)
Definition doc_wrapped : pyval :=
  obj [("nodes", PList [obj [("id", jstr "z")]]); ("graph_state", doc_abc)].

(** A node list whose second record is not an object and whose third has a
    layer [int] rejects, and an edge list that is not a list. *)
Definition doc_two_faults : pyval :=
  obj [("nodes", PList [obj [("id", jstr "a")]; jstr "b"; obj record_bad_layer]);
       ("edges", PInt 5)].

(** The nodes given as an object keyed by identifier, not as a list. *)
Definition doc_keyed : pyval :=
  obj [("nodes", obj [("a", obj [("layer", PInt 0)])]);
       ("edges", PList [obj [("source", jstr "a"); ("target", jstr "a")]])].

(** A second record for the node [a], in another layer. *)
Definition node_a_again : node :=
  {| node_id := jstr "a"; node_name := jstr "again"; node_layer := 2;
     node_kind := jstr "store" |}.

(** A second record for the edge from [a] to [b], of another type. *)
Definition edge_ab_invokes : edge :=
  {| edge_id := PNone; edge_source := jstr "a"; edge_target := jstr "b";
     edge_type := jstr "invokes" |}.

(** An edge whose type is [null]. *)
Definition edge_ba_null : edge :=
  {| edge_id := PNone; edge_source := jstr "b"; edge_target := jstr "a";
     edge_type := PNone |}.

(** Two edges whose target cannot be hashed: from a node that does not
    exist, and from the node [a]. *)
Definition edge_ghost_list : edge :=
  {| edge_id := PNone; edge_source := jstr "ghost"; edge_target := PList [];
     edge_type := jstr "depends_on" |}.

Definition edge_a_list : edge :=
  {| edge_id := PNone; edge_source := jstr "a"; edge_target := PList [];
     edge_type := jstr "depends_on" |}.

(** A node named by a number. *)
Definition node_numbered : node :=
  {| node_id := jstr "n"; node_name := PInt 7; node_layer := 0;
     node_kind := jstr "unknown" |}.

(** The nodes ["a"] and [1] in one layer, and an edge between them. *)
Definition nodes_a1 : list node :=
  [ {| node_id := jstr "a"; node_name := jstr "a"; node_layer := 0;
       node_kind := jstr "unknown" |};
    {| node_id := PInt 1; node_name := PInt 1; node_layer := 0;
       node_kind := jstr "unknown" |} ].

Definition edge_a1 : edge :=
  {| edge_id := PNone; edge_source := jstr "a"; edge_target := PInt 1;
     edge_type := jstr "depends_on" |}.

Definition doc_a1 : pyval :=
  obj [("nodes", PList [obj [("id", jstr "a")]; obj [("id", PInt 1)]]);
       ("edges", PList [obj [("source", jstr "a"); ("target", PInt 1)]])].

(** An edge of type [1] and an edge of type NaN. *)
Definition edge_ab_one : edge :=
  {| edge_id := PNone; edge_source := jstr "a"; edge_target := jstr "b";
     edge_type := PInt 1 |}.

Definition edge_ba_nan : edge :=
  {| edge_id := PNone; edge_source := jstr "b"; edge_target := jstr "a";
     edge_type := PAtom (AFloat JNaN) |}.

Local Close Scope string_scope.

(** The number NaN as an identifier, and the identifier [1]. *)
Definition node_nan : node :=
  {| node_id := PAtom (AFloat JNaN); node_name := PAtom (AFloat JNaN); node_layer := 0;
     node_kind := PStr "unknown" |}.

Definition node_one : node :=
  {| node_id := PInt 1; node_name := PInt 1; node_layer := 0; node_kind := PStr "unknown" |}.

(** The identifiers [10] and [9] in one layer. *)
Definition nine_ten : list nattr :=
  [ named (PInt 10) (AInt 10); named (PInt 9) (AInt 9) ].

(** The graph [build_graph] returns for the records, for examples whose
    records it accepts. *)
Definition graph_of (nodes : list node) (edges : list edge) : nx.DiGraph :=
  match build_graph nodes edges with
  | Ok G => G
  | Raise _ => nx.empty
  end.

(** A layer with a string and a number as identifiers. *)
Definition mixed_layer : list nattr :=
  [ named (PStr "a") (AStr (str "a")); named PNone (AInt 1) ].

(** A node in layer [2^1024]. *)
Definition far_node : nattr :=
  {| attr_id := AStr (str "a"); attr_name := PStr "a"; attr_layer := 2 ^ 1024;
     attr_kind := PStr "unknown" |}.

(** * Properties *)

(** ** The result monad *)

Lemma mapM_Raise_In {A B : Type} (f : A -> result B) (xs : list A) (x : A) (e : exn) :
  In x xs -> f x = Raise e -> exists e', mapM f xs = Raise e'.
Proof.
  induction xs as [| x0 xs IH]; simpl; intros Hin Hx.
  - contradiction.
  - destruct Hin as [-> | Hin].
    + rewrite Hx. simpl. eexists. reflexivity.
    + destruct (f x0) as [y | e0]; simpl.
      * destruct (IH Hin Hx) as [e' ->]. simpl. eexists. reflexivity.
      * eexists. reflexivity.
Qed.

Lemma mapM_In_Ok {A B : Type} (f : A -> result B) (xs : list A) (ys : list B) (x : A) :
  mapM f xs = Ok ys -> In x xs -> exists y, f x = Ok y /\ In y ys.
Proof.
  revert ys. induction xs as [| x0 xs IH]; simpl; intros ys H Hin.
  - contradiction.
  - destruct (f x0) as [y0 | e] eqn:E0; simpl in H; [| discriminate].
    destruct (mapM f xs) as [ys' | e]; simpl in H; [| discriminate].
    injection H as <-. destruct Hin as [-> | Hin].
    + exists y0. split; [exact E0 | left; reflexivity].
    + destruct (IH ys' eq_refl Hin) as (y & Hy & Hiny).
      exists y. split; [exact Hy | right; exact Hiny].
Qed.

Lemma mapM_nth {A B : Type} (f : A -> result B) (xs : list A) (ys : list B)
  (i : nat) (x : A) :
  mapM f xs = Ok ys -> nth_error xs i = Some x ->
  exists y, f x = Ok y /\ nth_error ys i = Some y.
Proof.
  revert ys i. induction xs as [| x0 xs IH]; intros ys i H Hx.
  - destruct i; discriminate Hx.
  - simpl in H. destruct (f x0) as [y0 | e] eqn:E0; simpl in H; [| discriminate].
    destruct (mapM f xs) as [ys' | e]; simpl in H; [| discriminate].
    injection H as <-. destruct i as [| i]; simpl in Hx.
    + injection Hx as <-. exists y0. split; [exact E0 | reflexivity].
    + apply (IH ys' i eq_refl Hx).
Qed.

Lemma foldM_app {A S : Type} (step : S -> A -> result S) (xs ys : list A) (s : S) :
  foldM step (xs ++ ys) s = (s' <- foldM step xs s ;; foldM step ys s').
Proof.
  revert s. induction xs as [| x xs IH]; intros s; simpl.
  - reflexivity.
  - destruct (step s x) as [s1 | e]; simpl; [apply IH | reflexivity].
Qed.

Lemma foldM_ext {A S : Type} (f g : S -> A -> result S) (xs : list A) (s : S) :
  (forall s x, f s x = g s x) -> foldM f xs s = foldM g xs s.
Proof.
  intros H. revert s. induction xs as [| x xs IH]; intros s; simpl; [reflexivity |].
  rewrite H. destruct (g s x); simpl; [apply IH | reflexivity].
Qed.

Lemma existsb_same {A : Type} (f g : A -> bool) (l : list A) :
  (forall x, f x = g x) -> existsb f l = existsb g l.
Proof.
  intros H. induction l as [| x l IH]; simpl; [reflexivity |].
  rewrite H, IH. reflexivity.
Qed.

Lemma forallb_perm {A : Type} (f : A -> bool) (l l' : list A) :
  Permutation l l' -> forallb f l = true -> forallb f l' = true.
Proof.
  intros P H. rewrite forallb_forall in *. intros x Hx. apply H.
  eapply Permutation_in; [apply Permutation_sym; exact P | exact Hx].
Qed.

Lemma forallb_In {A : Type} (f : A -> bool) (l : list A) (x : A) :
  forallb f l = true -> In x l -> f x = true.
Proof. intros H Hx. rewrite forallb_forall in H. apply H. exact Hx. Qed.

(** ** Equality of keys *)

Lemma pystr_eqb_eq (s t : pystr) : pystr_eqb s t = true <-> s = t.
Proof.
  revert t. induction s as [| c s IH]; intros [| d t]; simpl; split; intros H;
    try reflexivity; try discriminate.
  - apply andb_true_iff in H. destruct H as [Hc Hs].
    apply N.eqb_eq in Hc. apply IH in Hs. subst. reflexivity.
  - injection H as -> ->. rewrite N.eqb_refl. simpl. apply IH. reflexivity.
Qed.

Lemma pystr_eqb_refl (s : pystr) : pystr_eqb s s = true.
Proof. apply pystr_eqb_eq. reflexivity. Qed.

(** Two finite values are equal when they agree once both are scaled to
    any common exponent [M] below theirs. *)
Lemma scaled_eq (m1 e1 m2 e2 M : Z) :
  M <= Z.min e1 e2 ->
  (m1 * 2 ^ (e1 - Z.min e1 e2) = m2 * 2 ^ (e2 - Z.min e1 e2) <->
   m1 * 2 ^ (e1 - M) = m2 * 2 ^ (e2 - M)).
Proof.
  intros HM. set (a := Z.min e1 e2) in *.
  assert (Ha1 : a <= e1) by (subst a; lia).
  assert (Ha2 : a <= e2) by (subst a; lia).
  replace (e1 - M) with ((e1 - a) + (a - M)) by lia.
  replace (e2 - M) with ((e2 - a) + (a - M)) by lia.
  rewrite !Z.pow_add_r by lia.
  assert (Hpos : 0 < 2 ^ (a - M)) by (apply Z.pow_pos_nonneg; lia).
  rewrite !Z.mul_assoc. split; intros H.
  - rewrite H. reflexivity.
  - apply Z.mul_reg_r in H; [exact H | lia].
Qed.

Lemma jfloat_eq_refl (f : jfloat) : jfloat_eq f f.
Proof.
  unfold jfloat_eq. destruct f as [m e | [] |]; simpl; try reflexivity.
  apply Z.compare_refl.
Qed.

Lemma jfloat_eq_sym (f g : jfloat) : jfloat_eq f g -> jfloat_eq g f.
Proof.
  unfold jfloat_eq.
  destruct f as [m1 e1 | [] |], g as [m2 e2 | [] |]; simpl;
    try discriminate; try reflexivity.
  rewrite !Z.compare_eq_iff. rewrite (Z.min_comm e2 e1). intros H. symmetry. exact H.
Qed.

Lemma jfloat_eq_trans (f g h : jfloat) : jfloat_eq f g -> jfloat_eq g h -> jfloat_eq f h.
Proof.
  unfold jfloat_eq.
  destruct f as [m1 e1 | [] |], g as [m2 e2 | [] |], h as [m3 e3 | [] |]; simpl;
    try discriminate; try reflexivity.
  rewrite !Z.compare_eq_iff. intros H12 H23.
  set (M := Z.min e1 (Z.min e2 e3)).
  apply (scaled_eq m1 e1 m2 e2 M) in H12; [| subst M; lia].
  apply (scaled_eq m2 e2 m3 e3 M) in H23; [| subst M; lia].
  apply (scaled_eq m1 e1 m3 e3 M); [subst M; lia |].
  congruence.
Qed.

Lemma jfloat_eqb_true (f g : jfloat) :
  match jfloat_compare f g with Eq => true | _ => false end = true <-> jfloat_eq f g.
Proof.
  unfold jfloat_eq. destruct (jfloat_compare f g); split; intros H;
    try reflexivity; discriminate.
Qed.

Lemma atom_eqb_refl (a : atom) : atom_eqb a a = true.
Proof.
  destruct a as [| b | z | f | s]; simpl; try reflexivity.
  - rewrite Z.compare_refl. reflexivity.
  - rewrite Z.compare_refl. reflexivity.
  - apply jfloat_eqb_true, jfloat_eq_refl.
  - apply pystr_eqb_refl.
Qed.

Lemma atom_eqb_sym_true (a b : atom) : atom_eqb a b = true -> atom_eqb b a = true.
Proof.
  destruct a as [| b1 | z1 | f1 | s1], b as [| b2 | z2 | f2 | s2];
    unfold atom_eqb; cbn [atom_num]; intros H;
    try discriminate; try reflexivity;
    try (apply jfloat_eqb_true, jfloat_eq_sym, jfloat_eqb_true; exact H).
  apply pystr_eqb_eq in H. subst. apply pystr_eqb_refl.
Qed.

Lemma atom_eqb_sym (a b : atom) : atom_eqb a b = atom_eqb b a.
Proof.
  destruct (atom_eqb a b) eqn:E1, (atom_eqb b a) eqn:E2; try reflexivity.
  - apply atom_eqb_sym_true in E1. congruence.
  - apply atom_eqb_sym_true in E2. congruence.
Qed.

Lemma atom_eqb_trans (a b c : atom) :
  atom_eqb a b = true -> atom_eqb b c = true -> atom_eqb a c = true.
Proof.
  destruct a as [| b1 | z1 | f1 | s1], b as [| b2 | z2 | f2 | s2], c as [| b3 | z3 | f3 | s3];
    unfold atom_eqb; cbn [atom_num]; intros H1 H2;
    try discriminate; try reflexivity;
    try (apply jfloat_eqb_true in H1; apply jfloat_eqb_true in H2;
         apply jfloat_eqb_true; eapply jfloat_eq_trans; eassumption).
  apply pystr_eqb_eq in H1. apply pystr_eqb_eq in H2. subst. apply pystr_eqb_refl.
Qed.

(** A key equal to a string is that string. *)
Lemma atom_eqb_str (a : atom) (s : pystr) : atom_eqb a (AStr s) = true -> a = AStr s.
Proof.
  destruct a as [| b | z | f | t]; unfold atom_eqb; cbn [atom_num]; intros H;
    try discriminate.
  apply pystr_eqb_eq in H. subst. reflexivity.
Qed.

Lemma str_not_in (k : atom) (ids : list atom) :
  is_str k = true -> ~ In k ids -> forall x, In x ids -> atom_eqb x k = false.
Proof.
  intros Hk Hnin x Hx. destruct (atom_eqb x k) eqn:E; [| reflexivity].
  destruct k as [| | | | s]; try discriminate. apply atom_eqb_str in E. subst x.
  contradiction.
Qed.

Lemma str_neq_eqb (a b : atom) : is_str a = true -> a <> b -> atom_eqb a b = false.
Proof.
  intros Ha Hne. destruct (atom_eqb a b) eqn:E; [| reflexivity].
  destruct a as [| | | | s]; try discriminate.
  rewrite atom_eqb_sym in E. apply atom_eqb_str in E. congruence.
Qed.

(** ** Dictionaries *)

Lemma assoc_set_get {V : Type} (k k' : atom) (v : V) (d : list (atom * V)) :
  assoc k (assoc_set k' v d) = if atom_eqb k k' then Some v else assoc k d.
Proof.
  induction d as [| [k0 v0] d IH]; simpl.
  - reflexivity.
  - destruct (atom_eqb k' k0) eqn:E0; simpl.
    + destruct (atom_eqb k k0) eqn:E1.
      * apply atom_eqb_sym_true in E0.
        rewrite (atom_eqb_trans k k0 k' E1 E0). reflexivity.
      * destruct (atom_eqb k k') eqn:E2; [| reflexivity].
        rewrite (atom_eqb_trans k k' k0 E2 E0) in E1. discriminate.
    + destruct (atom_eqb k k0) eqn:E1.
      * destruct (atom_eqb k k') eqn:E2; [| reflexivity].
        apply atom_eqb_sym_true in E2.
        rewrite (atom_eqb_trans k' k k0 E2 E1) in E0. discriminate.
      * exact IH.
Qed.

Lemma assoc_app {V : Type} (k : atom) (d1 d2 : list (atom * V)) :
  assoc k (d1 ++ d2) = match assoc k d1 with Some v => Some v | None => assoc k d2 end.
Proof.
  induction d1 as [| [k0 v0] d1 IH]; simpl.
  - reflexivity.
  - destruct (atom_eqb k k0); [reflexivity | exact IH].
Qed.

Lemma assoc_set_keys {V : Type} (k : atom) (v : V) (d : list (atom * V)) :
  map fst (assoc_set k v d) =
  match assoc k d with Some _ => map fst d | None => map fst d ++ [k] end.
Proof.
  induction d as [| [k0 v0] d IH]; simpl.
  - reflexivity.
  - destruct (atom_eqb k k0); simpl.
    + reflexivity.
    + rewrite IH. destruct (assoc k d); reflexivity.
Qed.

Lemma assoc_eqb {V : Type} (k k' : atom) (d : list (atom * V)) :
  atom_eqb k k' = true -> assoc k d = assoc k' d.
Proof.
  intros H. induction d as [| [k0 v0] d IH]; simpl.
  - reflexivity.
  - destruct (atom_eqb k k0) eqn:E1.
    + apply atom_eqb_sym_true in H. rewrite (atom_eqb_trans k' k k0 H E1). reflexivity.
    + destruct (atom_eqb k' k0) eqn:E2.
      * rewrite (atom_eqb_trans k k' k0 H E2) in E1. discriminate.
      * exact IH.
Qed.

Lemma assoc_keys {V : Type} (k : atom) (d : list (atom * V)) :
  match assoc k d with Some _ => true | None => false end =
  existsb (atom_eqb k) (map fst d).
Proof.
  induction d as [| [k0 v0] d IH]; simpl.
  - reflexivity.
  - destruct (atom_eqb k k0); simpl; [reflexivity | exact IH].
Qed.

Lemma assoc_In {V : Type} (k : atom) (v : V) (d : list (atom * V)) :
  assoc k d = Some v -> exists k', In (k', v) d /\ atom_eqb k k' = true.
Proof.
  induction d as [| [k0 v0] d IH]; simpl; [discriminate |].
  destruct (atom_eqb k k0) eqn:E.
  - intros H. injection H as <-. exists k0. split; [left; reflexivity | exact E].
  - intros H. destruct (IH H) as (k' & Hin & Hk). exists k'. split; [right; exact Hin | exact Hk].
Qed.

Lemma distinct_snoc (ks : list atom) (k : atom) :
  distinct ks -> existsb (atom_eqb k) ks = false -> distinct (ks ++ [k]).
Proof.
  induction ks as [| k0 ks IH]; simpl; intros Hd Hk.
  - split; [reflexivity | exact I].
  - destruct Hd as [H0 Hd]. apply orb_false_iff in Hk. destruct Hk as [Hk0 Hk].
    split; [| apply IH; assumption].
    rewrite existsb_app, H0. simpl. rewrite atom_eqb_sym, Hk0. reflexivity.
Qed.

Lemma assoc_set_distinct {V : Type} (k : atom) (v : V) (d : list (atom * V)) :
  distinct (map fst d) -> distinct (map fst (assoc_set k v d)).
Proof.
  intros Hd. rewrite assoc_set_keys. pose proof (assoc_keys k d) as Hk.
  destruct (assoc k d); [exact Hd |]. apply distinct_snoc; [exact Hd |].
  symmetry. exact Hk.
Qed.

Lemma assoc_In_distinct {V : Type} (k : atom) (v : V) (d : list (atom * V)) :
  distinct (map fst d) -> In (k, v) d -> assoc k d = Some v.
Proof.
  induction d as [| [k0 v0] d IH]; simpl; [contradiction |].
  intros [H0 Hd] [Heq | Hin].
  - injection Heq as -> ->. rewrite atom_eqb_refl. reflexivity.
  - assert (Hne : atom_eqb k k0 = false).
    { destruct (atom_eqb k k0) eqn:E; [| reflexivity].
      assert (Hex : existsb (atom_eqb k0) (map fst d) = true).
      { apply existsb_exists. exists k. split; [apply (in_map fst _ _ Hin) |].
        rewrite atom_eqb_sym. exact E. }
      congruence. }
    rewrite Hne. apply IH; assumption.
Qed.

Lemma assoc_set_values {V : Type} (Q : V -> Prop) (k : atom) (v : V) (d : list (atom * V)) :
  Forall (fun kv => Q (snd kv)) d -> Q v -> Forall (fun kv => Q (snd kv)) (assoc_set k v d).
Proof.
  intros Hd Hv. induction d as [| [k0 v0] d IH]; simpl.
  - constructor; [exact Hv | constructor].
  - inversion Hd as [| ? ? H0 Hd']; subst. destruct (atom_eqb k k0).
    + constructor; [exact Hv | exact Hd'].
    + constructor; [exact H0 | apply IH; exact Hd'].
Qed.

Lemma assoc_set_entries {V : Type} (P : atom * V -> Prop) (k : atom) (v : V)
  (d : list (atom * V)) :
  Forall P d -> (forall k', atom_eqb k k' = true -> P (k', v)) ->
  Forall P (assoc_set k v d).
Proof.
  intros Hd Hv. induction d as [| [k0 v0] d IH]; simpl.
  - constructor; [apply Hv, atom_eqb_refl | constructor].
  - inversion Hd as [| ? ? H0 Hd']; subst. destruct (atom_eqb k k0) eqn:E.
    + constructor; [apply Hv; exact E | exact Hd'].
    + constructor; [exact H0 | apply IH; exact Hd'].
Qed.

Lemma distinct_NoDup (ks : list atom) : distinct ks -> NoDup ks.
Proof.
  induction ks as [| k ks IH]; simpl; intros H; [constructor |].
  destruct H as [H0 Hd]. constructor; [| apply IH; exact Hd].
  intros Hin.
  assert (Hex : existsb (atom_eqb k) ks = true).
  { apply existsb_exists. exists k. split; [exact Hin | apply atom_eqb_refl]. }
  congruence.
Qed.

(** ** load_graph *)

Lemma norm_node_dict (int_of_str : pystr -> option Z) (d : list (pystr * pyval)) :
  norm_node int_of_str (PDict d) =
  (layer <- py_int int_of_str (dict_get d "layer" (PInt 0)) ;;
   Ok {| node_id := resolve_id d; node_name := resolve_name d;
         node_layer := layer; node_kind := dict_get d "kind" (PStr "unknown") |}).
Proof.
  unfold norm_node, resolve_id, resolve_name, py_or. cbn [py_get bind].
  destruct (truthy (dict_get d "id" PNone));
    destruct (truthy (dict_get d "name" PNone)); cbn [bind];
    try destruct (truthy (dict_get d "Name" PNone)); cbn [bind]; reflexivity.
Qed.

Lemma load_graph_nodes_raise (int_of_str : pystr -> option Z)
  (data gs : pyval) (rs : list pyval) (r : pyval) (e : exn) :
  py_get data "graph_state" data = Ok gs ->
  py_get gs "nodes" (PList []) = Ok (PList rs) ->
  In r rs ->
  norm_node int_of_str r = Raise e ->
  exists e', load_graph int_of_str data = Raise e'.
Proof.
  intros Hgs Hnodes Hin Hr. unfold load_graph. rewrite Hgs. cbn [bind].
  rewrite Hnodes. cbn [bind].
  destruct gs as [a | l | dg]; try discriminate Hnodes. cbn [py_get bind py_iter].
  destruct (mapM_Raise_In _ _ _ _ Hin Hr) as [e' ->]. cbn [bind].
  exists e'. reflexivity.
Qed.

(** C8: a layer that is present and that [int] rejects makes the
    normalisation of the record raise that exception, which reaches the
    caller: [load_graph] raises instead of returning a node with layer 0, and
    [main] ends on the uncaught exception.  A record without a layer field is
    normalised with layer 0. *)
Theorem C8_layer_coercion (int_of_str : pystr -> option Z) :
  (forall data gs rs d v e,
      py_get data "graph_state" data = Ok gs ->
      py_get gs "nodes" (PList []) = Ok (PList rs) ->
      In (PDict d) rs ->
      lookup (str "layer") d = Some v ->
      py_int int_of_str v = Raise e ->
      norm_node int_of_str (PDict d) = Raise e /\
      exists e',
        load_graph int_of_str data = Raise e' /\
        forall outp w h font, main int_of_str data outp w h font = uncaught e') /\
  (forall d,
      lookup (str "layer") d = None ->
      exists nd, norm_node int_of_str (PDict d) = Ok nd /\ node_layer nd = 0).
Proof.
  split.
  - intros data gs rs d v e Hgs Hnodes Hin Hlayer Hint.
    assert (Hnorm : norm_node int_of_str (PDict d) = Raise e).
    { rewrite norm_node_dict. unfold dict_get. rewrite Hlayer, Hint. reflexivity. }
    split; [exact Hnorm |].
    destruct (load_graph_nodes_raise int_of_str data gs rs _ e Hgs Hnodes Hin Hnorm)
      as [e' He'].
    exists e'. split; [exact He' |].
    intros outp w h font. unfold main. rewrite He'. reflexivity.
  - intros d Hlayer. rewrite norm_node_dict. unfold dict_get at 1. rewrite Hlayer.
    cbn [py_int PInt bind]. eexists. split; reflexivity.
Qed.

(** An instance: the layer ["top"] is rejected by [int]; a record without a
    layer gets layer 0. *)
Lemma C8_layer_coercion_witness :
  (norm_node decimal_int_of_str (obj record_bad_layer) = Raise ValueError /\
   exists e',
     load_graph decimal_int_of_str doc_bad_layer = Raise e' /\
     forall outp w h font,
       main decimal_int_of_str doc_bad_layer outp w h font = uncaught e') /\
  (exists nd, norm_node decimal_int_of_str record_ID = Ok nd /\ node_layer nd = 0).
Proof.
  split.
  - apply (proj1 (C8_layer_coercion decimal_int_of_str) doc_bad_layer
             (obj [("nodes"%string, PList [obj record_bad_layer]);
                   ("edges"%string, PList [])])
             [obj record_bad_layer] _ (jstr "top") ValueError).
    + reflexivity.
    + reflexivity.
    + left. reflexivity.
    + reflexivity.
    + reflexivity.
  - apply (proj2 (C8_layer_coercion decimal_int_of_str)). reflexivity.
Defined.

(** When neither [name] nor [Name] is there, the name is what the key [id]
    holds. *)
Lemma resolve_name_default (d : list (pystr * pyval)) :
  truthy (dict_get d "name" PNone) = false ->
  truthy (dict_get d "Name" PNone) = false ->
  resolve_name d = dict_get d "id" PNone.
Proof. intros H1 H2. unfold resolve_name. rewrite H1, H2. reflexivity. Qed.

(** And it is then the identifier exactly when the key [id] supplied the
    identifier. *)
Lemma resolve_name_is_id (d : list (pystr * pyval)) :
  truthy (dict_get d "name" PNone) = false ->
  truthy (dict_get d "Name" PNone) = false ->
  truthy (dict_get d "id" PNone) = true ->
  resolve_name d = resolve_id d.
Proof.
  intros H1 H2 H3. rewrite resolve_name_default by assumption.
  unfold resolve_id. rewrite H3. reflexivity.
Qed.

(** C9 (the code on the failing record): a record that spells its identifier
    [ID] and has no name is normalised with identifier ["x"] and with the
    name [None]: the fallback of the name reads the key [id] only, so the
    name is not the identifier the [ID] key supplied. *)
Theorem C9_name_ignores_ID (int_of_str : pystr -> option Z) :
  norm_node int_of_str record_ID =
    Ok {| node_id := jstr "x"; node_name := PNone; node_layer := 0;
          node_kind := PStr "unknown" |} /\
  jstr "x" <> PNone.
Proof. split; [reflexivity | discriminate]. Qed.

Lemma resolve_id_absent (d : list (pystr * pyval)) :
  lookup (str "id") d = None ->
  lookup (str "ID") d = None ->
  resolve_id d = PNone.
Proof.
  intros H1 H2. unfold resolve_id, dict_get. rewrite H1, H2. reflexivity.
Qed.

(** ** build_graph *)

Lemma has_node_keys (G : nx.DiGraph) (k : atom) :
  nx.has_node G k = existsb (atom_eqb k) (nx.nodes G).
Proof. unfold nx.has_node, nx.nodes. apply assoc_keys. Qed.

Lemma has_node_eqb (G : nx.DiGraph) (k k' : atom) :
  atom_eqb k k' = true -> nx.has_node G k = nx.has_node G k'.
Proof. intros H. unfold nx.has_node. rewrite (assoc_eqb k k' _ H). reflexivity. Qed.

Lemma add_node_spec (G G' : nx.DiGraph) (k : atom) (a : nattr) :
  nx.add_node G k a = Ok G' ->
  (forall k', nx.has_node G' k' = atom_eqb k' k || nx.has_node G k') /\
  (aligned G -> aligned G') /\
  nx.edges G' = nx.edges G /\
  (nx.has_node G k = false -> k <> ANone).
Proof.
  unfold nx.add_node. destruct (nx.has_node G k) eqn:Hk.
  - intros H. injection H as <-. repeat split.
    + intros k'. unfold nx.has_node. cbn [nx._node]. rewrite assoc_set_get.
      destruct (atom_eqb k' k); reflexivity.
    + unfold aligned. cbn [nx._node nx._succ]. intros Hal.
      rewrite assoc_set_keys. unfold nx.has_node in Hk.
      destruct (assoc k (nx._node G)); [exact Hal | discriminate].
    + discriminate.
  - destruct k as [| b | z | f | s]; try discriminate;
      intros H; injection H as <-; (repeat split;
      [ intros k'; unfold nx.has_node; cbn [nx._node]; rewrite assoc_app;
        cbn [assoc]; destruct (assoc k' (nx._node G));
        [ rewrite orb_true_r; reflexivity
        | rewrite orb_false_r; destruct (atom_eqb k' _); reflexivity ]
      | unfold aligned; cbn [nx._node nx._succ]; intros Hal;
        rewrite !map_app, Hal; reflexivity
      | unfold nx.edges; cbn [nx._succ]; rewrite flat_map_app; simpl;
        apply app_nil_r
      | discriminate ]).
Qed.

Lemma add_node_of_valid (G : nx.DiGraph) (n : node) :
  valid_key (node_id n) = true ->
  exists k G', node_id n = PAtom k /\ add_node_of G n = Ok G'.
Proof.
  unfold add_node_of, valid_key.
  destruct (node_id n) as [k | l | d]; try discriminate.
  intros Hk. exists k. cbn [hashable bind]. unfold nx.add_node.
  destruct (nx.has_node G k); [eexists; split; reflexivity |].
  destruct k; try discriminate; eexists; split; reflexivity.
Qed.

Lemma add_node_of_spec (G G' : nx.DiGraph) (n : node) :
  add_node_of G n = Ok G' ->
  (forall k', nx.has_node G' k' = is_id k' n || nx.has_node G k') /\
  (aligned G -> aligned G') /\
  nx.edges G' = nx.edges G /\
  (nx.has_node G ANone = false -> node_id n <> PNone).
Proof.
  unfold add_node_of, is_id. destruct (node_id n) as [k | l | d]; try discriminate.
  cbn [hashable bind]. intros H. apply add_node_spec in H.
  destruct H as (H1 & H2 & H3 & H4). repeat split; try assumption.
  intros HN Hid. unfold PNone in Hid. injection Hid as ->. apply H4; [exact HN | reflexivity].
Qed.

Lemma add_nodes_spec (nodes : list node) (G G' : nx.DiGraph) :
  foldM add_node_of nodes G = Ok G' ->
  (forall k, nx.has_node G' k = existsb (is_id k) nodes || nx.has_node G k) /\
  (aligned G -> aligned G') /\
  nx.edges G' = nx.edges G /\
  (nx.has_node G ANone = false ->
   nx.has_node G' ANone = false /\ forall n, In n nodes -> node_id n <> PNone).
Proof.
  revert G. induction nodes as [| n nodes IH]; intros G; simpl.
  - intros H. injection H as <-.
    split; [reflexivity |]. split; [auto |]. split; [reflexivity |].
    intros HN. split; [exact HN | intros n []].
  - destruct (add_node_of G n) as [G1 | e] eqn:E1; simpl; [| discriminate].
    intros H. apply IH in H. destruct H as (H1 & H2 & H3 & H4).
    apply add_node_of_spec in E1. destruct E1 as (A1 & A2 & A3 & A4).
    split; [| split; [| split]].
    + intros k. rewrite H1, A1. rewrite orb_assoc. f_equal. apply orb_comm.
    + auto.
    + congruence.
    + intros HN.
      assert (HN1 : nx.has_node G1 ANone = false).
      { rewrite A1, HN, orb_false_r. unfold is_id.
        destruct (node_id n) as [a | l | d] eqn:En; try reflexivity.
        destruct a; try reflexivity. exfalso. apply (A4 HN). reflexivity. }
      destruct (H4 HN1) as [H5 H6]. split; [exact H5 |].
      intros n' [<- | Hin]; [apply A4; exact HN | apply H6; exact Hin].
Qed.

Lemma add_nodes_valid (nodes : list node) (G : nx.DiGraph) :
  (forall n, In n nodes -> valid_key (node_id n) = true) ->
  exists G', foldM add_node_of nodes G = Ok G'.
Proof.
  revert G. induction nodes as [| n nodes IH]; intros G Hv; simpl.
  - eexists. reflexivity.
  - destruct (add_node_of_valid G n (Hv n (or_introl eq_refl))) as (k & G1 & _ & ->).
    simpl. apply IH. intros n' Hin. apply Hv. right. exact Hin.
Qed.

Lemma has_node_succ (G : nx.DiGraph) (k : atom) :
  aligned G ->
  nx.has_node G k = match assoc k (nx._succ G) with Some _ => true | None => false end.
Proof.
  intros Hal. unfold nx.has_node. rewrite !assoc_keys, Hal. reflexivity.
Qed.

Lemma add_edge_spec (G : nx.DiGraph) (s t : atom) (e : edge) :
  aligned G ->
  nx.has_node G s = true ->
  nx._node (nx.add_edge G s t e) = nx._node G /\
  aligned (nx.add_edge G s t e) /\
  forall u v,
    nx.has_edge (nx.add_edge G s t e) u v =
    (atom_eqb u s && atom_eqb v t) || nx.has_edge G u v.
Proof.
  intros Hal Hs. rewrite (has_node_succ G s Hal) in Hs.
  unfold nx.add_edge. destruct (assoc s (nx._succ G)) as [nbrs |] eqn:Es; [| discriminate].
  split; [reflexivity |]. split.
  - unfold aligned. cbn [nx._node nx._succ]. rewrite assoc_set_keys, Es. exact Hal.
  - intros u v. unfold nx.has_edge. cbn [nx._succ]. rewrite assoc_set_get.
    destruct (atom_eqb u s) eqn:Eu; cbn [andb orb].
    + rewrite assoc_set_get. rewrite (assoc_eqb u s _ Eu), Es.
      destruct (atom_eqb v t); reflexivity.
    + reflexivity.
Qed.

Lemma add_edge_of_spec (G : nx.DiGraph) (e : edge) :
  aligned G ->
  is_atom (edge_source e) = true ->
  is_atom (edge_target e) = true ->
  exists G',
    add_edge_of G e = Ok G' /\
    nx._node G' = nx._node G /\
    aligned G' /\
    forall u v, nx.has_edge G' u v = (links u v e && kept G e) || nx.has_edge G u v.
Proof.
  intros Hal Hs Ht. unfold add_edge_of, nx.contains, links, kept.
  destruct (edge_source e) as [s | |]; try discriminate.
  destruct (edge_target e) as [t | |]; try discriminate.
  cbn [hashable bind].
  destruct (nx.has_node G s) eqn:Es; cbn [andb].
  - destruct (nx.has_node G t) eqn:Et.
    + destruct (add_edge_spec G s t e Hal Es) as (N & A & E).
      eexists. split; [reflexivity |]. split; [exact N |]. split; [exact A |].
      intros u v. rewrite E, andb_true_r. reflexivity.
    + exists G. split; [reflexivity |]. split; [reflexivity |]. split; [exact Hal |].
      intros u v. rewrite andb_false_r. reflexivity.
  - exists G. split; [reflexivity |]. split; [reflexivity |]. split; [exact Hal |].
    intros u v. rewrite andb_false_r. reflexivity.
Qed.

Lemma kept_same_nodes (G G' : nx.DiGraph) (e : edge) :
  nx._node G' = nx._node G -> kept G' e = kept G e.
Proof. intros H. unfold kept, nx.has_node. rewrite H. reflexivity. Qed.

Lemma add_edges_spec (edges : list edge) (G : nx.DiGraph) :
  aligned G ->
  (forall e, In e edges -> is_atom (edge_source e) = true /\ is_atom (edge_target e) = true) ->
  exists G',
    foldM add_edge_of edges G = Ok G' /\
    nx._node G' = nx._node G /\
    aligned G' /\
    forall u v,
      nx.has_edge G' u v =
      existsb (fun e => links u v e && kept G e) edges || nx.has_edge G u v.
Proof.
  revert G. induction edges as [| e edges IH]; intros G Hal Hat; simpl.
  - exists G. repeat split; auto.
  - destruct (Hat e (or_introl eq_refl)) as [Hs Ht].
    destruct (add_edge_of_spec G e Hal Hs Ht) as (G1 & -> & N1 & A1 & E1). simpl.
    destruct (IH G1 A1 (fun e' H => Hat e' (or_intror H))) as (G' & -> & N & A & E).
    exists G'. split; [reflexivity |]. split; [congruence |]. split; [exact A |].
    intros u v. rewrite E, E1.
    rewrite (existsb_same (fun e0 => links u v e0 && kept G1 e0)
                          (fun e0 => links u v e0 && kept G e0)).
    + rewrite orb_assoc. f_equal. apply orb_comm.
    + intros e0. rewrite (kept_same_nodes G G1 e0 N1). reflexivity.
Qed.

(** What [build_graph] returns on well-formed records. *)
Lemma build_graph_spec (nodes : list node) (edges : list edge) :
  (forall n, In n nodes -> valid_key (node_id n) = true) ->
  (forall e, In e edges -> is_atom (edge_source e) = true /\ is_atom (edge_target e) = true) ->
  exists G,
    build_graph nodes edges = Ok G /\
    aligned G /\
    (forall k, nx.has_node G k = existsb (is_id k) nodes) /\
    (forall u v, nx.has_edge G u v = existsb (fun e => links u v e && kept G e) edges).
Proof.
  intros Hn He. unfold build_graph.
  destruct (add_nodes_valid nodes nx.empty Hn) as [G0 E0]. rewrite E0. cbn [bind].
  destruct (add_nodes_spec nodes nx.empty G0 E0) as (N0 & A0 & D0 & _).
  assert (Hal0 : aligned G0) by (apply A0; reflexivity).
  destruct (add_edges_spec edges G0 Hal0 He) as (G & -> & N & A & E).
  exists G. split; [reflexivity |]. split; [exact A |]. split.
  - intros k. unfold nx.has_node. rewrite N. fold (nx.has_node G0 k).
    rewrite N0. unfold nx.has_node at 1. simpl. apply orb_false_r.
  - intros u v. rewrite E.
    assert (H0 : nx.has_edge G0 u v = false).
    { unfold nx.has_edge.
      destruct (assoc u (nx._succ G0)) as [nbrs |] eqn:Eu; [| reflexivity].
      destruct (assoc v nbrs) as [d |] eqn:Ev; [| reflexivity].
      exfalso.
      assert (Hin : In (u, v, d) (nx.edges G0) -> False) by (rewrite D0; intros []).
      clear - Eu Ev D0. unfold nx.edges in D0.
      induction (nx._succ G0) as [| [k0 n0] l IH]; simpl in *; [discriminate |].
      apply app_eq_nil in D0. destruct D0 as [D1 D2].
      destruct (atom_eqb u k0).
      - injection Eu as ->. destruct nbrs; [discriminate | discriminate].
      - apply IH; assumption. }
    rewrite H0, orb_false_r.
    apply existsb_same. intros e0. rewrite (kept_same_nodes G0 G e0 N). reflexivity.
Qed.

Lemma add_edge_of_nodes (G G' : nx.DiGraph) (e : edge) :
  add_edge_of G e = Ok G' -> nx._node G' = nx._node G.
Proof.
  unfold add_edge_of, nx.contains.
  destruct (hashable (edge_source e)) as [u | ]; cbn [bind]; [| discriminate].
  destruct (nx.has_node G u); [| intros H; injection H as <-; reflexivity].
  destruct (hashable (edge_target e)) as [v | ]; cbn [bind]; [| discriminate].
  destruct (nx.has_node G v); [| intros H; injection H as <-; reflexivity].
  intros H. injection H as <-. unfold nx.add_edge.
  destruct (assoc u (nx._succ G)); reflexivity.
Qed.

Lemma add_edges_nodes (edges : list edge) (G G' : nx.DiGraph) :
  foldM add_edge_of edges G = Ok G' -> nx._node G' = nx._node G.
Proof.
  revert G. induction edges as [| e edges IH]; intros G; simpl.
  - intros H. injection H as <-. reflexivity.
  - destruct (add_edge_of G e) as [G1 |] eqn:E1; simpl; [| discriminate].
    intros H. apply IH in H. rewrite H. apply add_edge_of_nodes with e. exact E1.
Qed.

Lemma build_graph_nodes (nodes : list node) (edges1 edges2 : list edge)
  (G1 G2 : nx.DiGraph) :
  build_graph nodes edges1 = Ok G1 -> build_graph nodes edges2 = Ok G2 ->
  nx._node G1 = nx._node G2.
Proof.
  unfold build_graph. destruct (foldM add_node_of nodes nx.empty) as [G0 |]; cbn [bind];
    [| discriminate].
  intros H1 H2. apply add_edges_nodes in H1, H2. congruence.
Qed.

Lemma add_node_unique (G G' : nx.DiGraph) (k : atom) (a : nattr) :
  nx.add_node G k a = Ok G' -> aligned G -> unique_keys G -> unique_keys G'.
Proof.
  unfold nx.add_node. intros H Hal [Hd Hf].
  destruct (nx.has_node G k) eqn:Hk.
  - injection H as <-. split; assumption.
  - assert (Hnew : unique_keys {| nx._node := nx._node G ++ [(k, a)];
                                   nx._succ := nx._succ G ++ [(k, [])] |}).
    { unfold unique_keys. cbn [nx._succ]. split.
      - rewrite map_app. apply distinct_snoc; [exact Hd |].
        rewrite <- Hal. fold (nx.nodes G). rewrite <- has_node_keys. exact Hk.
      - apply Forall_app. split; [exact Hf |]. constructor; [exact I | constructor]. }
    destruct k; try discriminate; injection H as <-; exact Hnew.
Qed.

Lemma add_edge_unique (G : nx.DiGraph) (u v : atom) (e : edge) :
  unique_keys G -> unique_keys (nx.add_edge G u v e).
Proof.
  intros [Hd Hf]. unfold nx.add_edge.
  destruct (assoc u (nx._succ G)) as [nbrs |] eqn:Eu; [| split; assumption].
  unfold unique_keys. cbn [nx._succ]. split.
  - apply assoc_set_distinct. exact Hd.
  - apply (assoc_set_values (fun nbrs => distinct (map fst nbrs))); [exact Hf |].
    apply assoc_set_distinct.
    destruct (assoc_In _ _ _ Eu) as (u' & Hin & _).
    rewrite Forall_forall in Hf. apply (Hf (u', nbrs) Hin).
Qed.

Lemma add_edge_of_inv (G G' : nx.DiGraph) (e : edge) :
  add_edge_of G e = Ok G' -> aligned G -> unique_keys G -> aligned G' /\ unique_keys G'.
Proof.
  unfold add_edge_of, nx.contains. intros H Hal Hu.
  destruct (hashable (edge_source e)) as [u |]; cbn [bind] in H; [| discriminate].
  destruct (nx.has_node G u) eqn:Hnu; [| injection H as <-; split; assumption].
  destruct (hashable (edge_target e)) as [v |]; cbn [bind] in H; [| discriminate].
  destruct (nx.has_node G v); [| injection H as <-; split; assumption].
  injection H as <-. split.
  - apply (add_edge_spec G u v e Hal Hnu).
  - apply add_edge_unique. exact Hu.
Qed.

Lemma build_graph_unique (nodes : list node) (edges : list edge) (G : nx.DiGraph) :
  build_graph nodes edges = Ok G -> aligned G /\ unique_keys G.
Proof.
  unfold build_graph.
  assert (Hn : forall ns G0 G1, foldM add_node_of ns G0 = Ok G1 ->
                 aligned G0 -> unique_keys G0 -> aligned G1 /\ unique_keys G1).
  { induction ns as [| n ns IH]; simpl; intros G0 G1 H Hal Hu.
    - injection H as <-. split; assumption.
    - destruct (add_node_of G0 n) as [G0' |] eqn:E; cbn [bind] in H; [| discriminate].
      apply (IH G0' G1 H).
      + apply (add_node_of_spec G0 G0' n E). exact Hal.
      + unfold add_node_of in E.
        destruct (hashable (node_id n)) as [k |]; cbn [bind] in E; [| discriminate].
        apply (add_node_unique G0 G0' k _ E Hal Hu). }
  assert (He : forall es G0 G1, foldM add_edge_of es G0 = Ok G1 ->
                 aligned G0 -> unique_keys G0 -> aligned G1 /\ unique_keys G1).
  { induction es as [| e es IH]; simpl; intros G0 G1 H Hal Hu.
    - injection H as <-. split; assumption.
    - destruct (add_edge_of G0 e) as [G0' |] eqn:E; cbn [bind] in H; [| discriminate].
      destruct (add_edge_of_inv G0 G0' e E Hal Hu) as [Hal' Hu'].
      apply (IH G0' G1 H Hal' Hu'). }
  destruct (foldM add_node_of nodes nx.empty) as [G0 |] eqn:E0; cbn [bind]; [| discriminate].
  intros H. destruct (Hn nodes nx.empty G0 E0) as [Hal0 Hu0].
  - reflexivity.
  - split; [exact I | constructor].
  - apply (He edges G0 G H Hal0 Hu0).
Qed.

Lemma In_edges_has_edge (G : nx.DiGraph) (u v : atom) (d : edge) :
  unique_keys G -> In (u, v, d) (nx.edges G) -> nx.has_edge G u v = true.
Proof.
  intros [Hd Hf] Hin. unfold nx.edges in Hin. apply in_flat_map in Hin.
  destruct Hin as ([u0 nbrs] & Hun & Hvd). cbn [fst snd] in Hvd.
  apply in_map_iff in Hvd. destruct Hvd as ([v0 d0] & Heq & Hvd).
  cbn [fst snd] in Heq. injection Heq as -> -> ->.
  unfold nx.has_edge. rewrite (assoc_In_distinct u nbrs _ Hd Hun).
  rewrite Forall_forall in Hf.
  rewrite (assoc_In_distinct v d nbrs (Hf (u, nbrs) Hun) Hvd). reflexivity.
Qed.

Lemma has_edge_In_edges (G : nx.DiGraph) (u v : atom) :
  nx.has_edge G u v = true ->
  exists u' v' d, In (u', v', d) (nx.edges G) /\
                  atom_eqb u u' = true /\ atom_eqb v v' = true.
Proof.
  unfold nx.has_edge. destruct (assoc u (nx._succ G)) as [nbrs |] eqn:Eu; [| discriminate].
  destruct (assoc v nbrs) as [d |] eqn:Ev; [| discriminate]. intros _.
  destruct (assoc_In _ _ _ Eu) as (u' & Hu' & Euu).
  destruct (assoc_In _ _ _ Ev) as (v' & Hv' & Evv).
  exists u', v', d. split; [| split; assumption].
  unfold nx.edges. apply in_flat_map. exists (u', nbrs). split; [exact Hu' |].
  cbn [fst snd]. apply in_map_iff. exists (v', d). split; [reflexivity | exact Hv'].
Qed.

Lemma links_kept (G : nx.DiGraph) (u v : atom) (e e' : edge) :
  links u v e = true -> links u v e' = true -> kept G e = kept G e'.
Proof.
  unfold links, kept.
  destruct (edge_source e) as [s | |]; try discriminate.
  destruct (edge_target e) as [t | |]; try discriminate.
  destruct (edge_source e') as [s' | |]; try discriminate.
  destruct (edge_target e') as [t' | |]; try discriminate.
  intros H H'. apply andb_true_iff in H, H'. destruct H as [Hs Ht], H' as [Hs' Ht'].
  rewrite <- (has_node_eqb G u s Hs), <- (has_node_eqb G v t Ht).
  rewrite <- (has_node_eqb G u s' Hs'), <- (has_node_eqb G v t' Ht'). reflexivity.
Qed.

Lemma add_node_of_stored (nodes : list node) (G G' : nx.DiGraph) (n : node) :
  add_node_of G n = Ok G' -> In n nodes ->
  (exists s, node_id n = PAtom (AStr s)) ->
  Forall (stored_from nodes) (nx._node G) -> Forall (stored_from nodes) (nx._node G').
Proof.
  unfold add_node_of. intros H Hin [s Hs] Hst. rewrite Hs in H. cbn [hashable bind] in H.
  unfold nx.add_node in H.
  assert (Hnew : forall k', atom_eqb (AStr s) k' = true ->
            stored_from nodes
              (k', {| attr_id := AStr s; attr_name := node_name n;
                      attr_layer := node_layer n; attr_kind := node_kind n |})).
  { intros k' Hk'. rewrite atom_eqb_sym in Hk'. apply atom_eqb_str in Hk'. subst k'.
    split; [reflexivity |]. split; [reflexivity |]. exists n. split; [exact Hin | reflexivity]. }
  destruct (nx.has_node G (AStr s)); injection H as <-; cbn [nx._node].
  - apply assoc_set_entries; assumption.
  - apply Forall_app. split; [exact Hst |].
    constructor; [apply Hnew, atom_eqb_refl | constructor].
Qed.

Lemma add_nodes_length (nodes : list node) (G G' : nx.DiGraph) :
  foldM add_node_of nodes G = Ok G' ->
  (List.length (nx._node G') <= List.length (nx._node G) + List.length nodes)%nat.
Proof.
  revert G. induction nodes as [| n nodes IH]; intros G; simpl.
  - intros H. injection H as <-. lia.
  - destruct (add_node_of G n) as [G1 |] eqn:E; cbn [bind]; [| discriminate].
    intros H. apply IH in H.
    assert (List.length (nx._node G1) <= S (List.length (nx._node G)))%nat; [| lia].
    unfold add_node_of in E.
    destruct (hashable (node_id n)) as [k |]; cbn [bind] in E; [| discriminate].
    unfold nx.add_node in E.
    destruct (nx.has_node G k) eqn:Hk.
    + injection E as <-. cbn [nx._node].
      assert (Hlen : List.length (assoc_set k
                 {| attr_id := k; attr_name := node_name n; attr_layer := node_layer n;
                    attr_kind := node_kind n |} (nx._node G)) =
              List.length (map fst (assoc_set k
                 {| attr_id := k; attr_name := node_name n; attr_layer := node_layer n;
                    attr_kind := node_kind n |} (nx._node G)))) by (symmetry; apply length_map).
      rewrite Hlen, assoc_set_keys. unfold nx.has_node in Hk.
      destruct (assoc k (nx._node G)); [| discriminate]. rewrite length_map. lia.
    + destruct k; try discriminate; injection E as <-; cbn [nx._node];
        rewrite length_app; simpl; lia.
Qed.

(** The nodes of a graph built from records with string identifiers are
    what the layout asks for: string identifiers, none of them twice. *)
Lemma graph_nodes_ready (nodes : list node) (edges : list edge) (G : nx.DiGraph) :
  build_graph nodes edges = Ok G ->
  (forall n, In n nodes -> exists s, node_id n = PAtom (AStr s)) ->
  forallb (fun a => is_str (attr_id a)) (map snd (nx._node G)) = true /\
  NoDup (map attr_id (map snd (nx._node G))) /\
  (List.length (map snd (nx._node G)) <= List.length nodes)%nat /\
  (forall a, In a (map snd (nx._node G)) ->
             exists n, In n nodes /\ node_layer n = attr_layer a).
Proof.
  intros HG Hstr.
  destruct (build_graph_unique nodes edges G HG) as [Hal [Hd _]].
  unfold build_graph in HG.
  destruct (foldM add_node_of nodes nx.empty) as [G0 |] eqn:E0; cbn [bind] in HG;
    [| discriminate].
  pose proof (add_edges_nodes edges G0 G HG) as Hnodes.
  assert (Hst : Forall (stored_from nodes) (nx._node G0)).
  { assert (Hgen : forall ns G1 G2,
              foldM add_node_of ns G1 = Ok G2 -> (forall n, In n ns -> In n nodes) ->
              Forall (stored_from nodes) (nx._node G1) ->
              Forall (stored_from nodes) (nx._node G2)).
    { induction ns as [| n ns IH]; simpl; intros G1 G2 H Hsub Hst1.
      - injection H as <-. exact Hst1.
      - destruct (add_node_of G1 n) as [G1' |] eqn:E; cbn [bind] in H; [| discriminate].
        apply (IH G1' G2 H); [intros n' Hn'; apply Hsub; right; exact Hn' |].
        apply (add_node_of_stored nodes G1 G1' n E); [apply Hsub; left; reflexivity | |
                                                        exact Hst1].
        apply Hstr. apply Hsub. left. reflexivity. }
    apply (Hgen nodes nx.empty G0 E0); [auto | constructor]. }
  rewrite <- Hnodes in Hst. rewrite Forall_forall in Hst.
  assert (Hids : map attr_id (map snd (nx._node G)) = map fst (nx._node G)).
  { rewrite map_map. apply map_ext_in. intros ka Hka. symmetry. apply (Hst ka Hka). }
  split; [| split; [| split]].
  - apply forallb_forall. intros a Ha. apply in_map_iff in Ha.
    destruct Ha as (ka & <- & Hka). destruct (Hst ka Hka) as (Hk & Hs & _).
    rewrite <- Hk. exact Hs.
  - rewrite Hids. apply distinct_NoDup. rewrite Hal. exact Hd.
  - rewrite length_map, Hnodes.
    pose proof (add_nodes_length nodes nx.empty G0 E0) as Hlen. simpl in Hlen. exact Hlen.
  - intros a Ha. apply in_map_iff in Ha. destruct Ha as (ka & <- & Hka).
    apply (Hst ka Hka).
Qed.

(** The hypotheses of the layout theorems hold of every graph that
    [build_graph] makes of records with string identifiers. *)
Lemma graph_well_formed (nodes : list node) (edges : list edge) (G : nx.DiGraph) :
  build_graph nodes edges = Ok G ->
  (forall n, In n nodes -> exists s, node_id n = PAtom (AStr s)) ->
  Z.of_nat (List.length nodes) <= 2 ^ 53 ->
  (forall n, In n nodes -> float_ok (- node_layer n) = true) ->
  well_formed (map snd (nx._node G)).
Proof.
  intros HG Hstr Hsize Hfl.
  destruct (graph_nodes_ready nodes edges G HG Hstr) as (H1 & H2 & H3 & H4).
  split; [exact H1 |]. split; [exact H2 |]. split; [lia |].
  intros a Ha. destruct (H4 a Ha) as (n & Hin & <-). apply Hfl. exact Hin.
Qed.

(** A node list with a [None] identifier never becomes a graph. *)
Lemma build_graph_None_id (ns1 ns2 : list node) (nd : node) (es : list edge) :
  node_id nd = PNone ->
  exists e, build_graph (ns1 ++ nd :: ns2) es = Raise e.
Proof.
  intros Hid. unfold build_graph. rewrite foldM_app.
  destruct (foldM add_node_of ns1 nx.empty) as [G1 | e] eqn:E1; cbn [bind].
  - destruct (add_nodes_spec ns1 nx.empty G1 E1) as (_ & _ & _ & HN).
    destruct (HN eq_refl) as [HN1 _].
    cbn [foldM]. unfold add_node_of at 1. rewrite Hid. cbn [PNone hashable bind].
    unfold nx.add_node. rewrite HN1. cbn [bind]. eexists. reflexivity.
  - eexists. reflexivity.
Qed.

(** C10 (as amended): a record with neither [id] nor [ID], whose layer is
    absent or accepted by [int], is normalised with identifier [None]; it is
    not skipped: [load_graph] returns it at the position of the record.
    [build_graph] then does not admit it: the graph library refuses [None]
    as a node, so building a graph from a node list that contains it raises
    (a ValueError when it is the first node) and nothing is stored under the
    key [None]. *)
Theorem C10_missing_id (int_of_str : pystr -> option Z)
  (d : list (pystr * pyval)) (z : Z) :
  lookup (str "id") d = None ->
  lookup (str "ID") d = None ->
  py_int int_of_str (dict_get d "layer" (PInt 0)) = Ok z ->
  exists nd,
    norm_node int_of_str (PDict d) = Ok nd /\
    node_id nd = PNone /\
    (forall data gs rs ns es i,
        py_get data "graph_state" data = Ok gs ->
        py_get gs "nodes" (PList []) = Ok (PList rs) ->
        nth_error rs i = Some (PDict d) ->
        load_graph int_of_str data = Ok (ns, es) ->
        nth_error ns i = Some nd) /\
    (forall ns es, build_graph (nd :: ns) es = Raise ValueError) /\
    (forall ns1 ns2 es, exists e, build_graph (ns1 ++ nd :: ns2) es = Raise e).
Proof.
  intros Hid HID Hlayer.
  assert (Hnorm : norm_node int_of_str (PDict d) =
                  Ok {| node_id := PNone; node_name := resolve_name d; node_layer := z;
                        node_kind := dict_get d "kind" (PStr "unknown") |}).
  { rewrite norm_node_dict, Hlayer. cbn [bind].
    rewrite (resolve_id_absent d Hid HID). reflexivity. }
  eexists. split; [exact Hnorm |]. split; [reflexivity |]. split; [| split].
  - intros data gs rs ns es i Hgs Hnodes Hnth Hload.
    unfold load_graph in Hload. rewrite Hgs in Hload. cbn [bind] in Hload.
    rewrite Hnodes in Hload. cbn [bind] in Hload.
    destruct (py_get gs "edges" (PList [])) as [edges |]; cbn [bind] in Hload;
      [| discriminate].
    cbn [py_iter bind] in Hload.
    destruct (mapM (norm_node int_of_str) rs) as [ns' |] eqn:Ens; cbn [bind] in Hload;
      [| discriminate].
    destruct (py_iter edges) as [es0 |]; cbn [bind] in Hload; [| discriminate].
    destruct (mapM norm_edge es0) as [es' |]; cbn [bind] in Hload; [| discriminate].
    injection Hload as <- <-.
    destruct (mapM_nth _ _ _ _ _ Ens Hnth) as (y & Hy & Hnthy).
    rewrite Hnorm in Hy. injection Hy as <-. exact Hnthy.
  - intros ns es. reflexivity.
  - intros ns1 ns2 es. apply build_graph_None_id. reflexivity.
Qed.

(** An instance: the record [{"name": "orphan"}]. *)
Lemma C10_missing_id_witness :
  exists nd,
    norm_node decimal_int_of_str record_no_id = Ok nd /\
    node_id nd = PNone /\
    build_graph [nd] [] = Raise ValueError.
Proof.
  destruct (C10_missing_id decimal_int_of_str
              (map (fun kv => (str (fst kv), snd kv)) [("name"%string, jstr "orphan")]) 0)
    as (nd & Hnorm & Hid & _ & Hbuild & _).
  - reflexivity.
  - reflexivity.
  - reflexivity.
  - exists nd. split; [exact Hnorm |]. split; [exact Hid |]. apply Hbuild.
Defined.

(** C10 (counterexample): the record [{"name": "orphan"}] has no identifier;
    it is normalised with identifier [None], and [build_graph] on it raises
    instead of returning a graph with a node [None]. *)
Lemma C10_counterexample :
  exists nd,
    norm_node decimal_int_of_str record_no_id = Ok nd /\
    node_id nd = PNone /\
    ~ (exists G, build_graph [nd] [] = Ok G /\ nx.has_node G ANone = true).
Proof.
  eexists. split; [reflexivity |]. split; [reflexivity |].
  intros (G & HG & _). discriminate HG.
Qed.

(** ** main *)

Lemma main_draws (int_of_str : pystr -> option Z) (data : pyval)
  (nodes : list node) (edges : list edge) (G : nx.DiGraph)
  (outp : string) (w h : float) (font : Z) :
  load_graph int_of_str data = Ok (nodes, edges) ->
  nodes <> [] ->
  edges <> [] ->
  build_graph nodes edges = Ok G ->
  main int_of_str data outp w h font =
  match draw_graph G (w, h) true font with
  | Ok fig => saved outp nodes edges fig
  | Raise e => uncaught e
  end.
Proof.
  intros Hl Hn He Hb. unfold main. rewrite Hl.
  destruct nodes as [| n nodes]; [contradiction |].
  destruct edges as [| e edges]; [contradiction |].
  cbn [is_empty orb]. rewrite Hb. reflexivity.
Qed.

(** C2 (as amended): when the normalised node list or the normalised edge
    list is empty, the run ends with status 2, prints the diagnostic on the
    error channel, prints nothing else and writes no image.  Status 2 is
    neither the status of a completed run nor that of an uncaught
    exception. *)
Theorem C2_empty_input (int_of_str : pystr -> option Z) (data : pyval)
  (nodes : list node) (edges : list edge) (outp : string) (w h : float) (font : Z) :
  load_graph int_of_str data = Ok (nodes, edges) ->
  nodes = [] \/ edges = [] ->
  main int_of_str data outp w h font = nothing_to_draw /\
  status nothing_to_draw = 2 /\
  stderr nothing_to_draw = [no_input] /\
  image nothing_to_draw = None /\
  (forall fig, status nothing_to_draw <> status (saved outp nodes edges fig)) /\
  (forall e, status nothing_to_draw <> status (uncaught e)).
Proof.
  intros Hl Hempty. split.
  - unfold main. rewrite Hl.
    destruct Hempty as [-> | ->]; [reflexivity |].
    destruct nodes; reflexivity.
  - repeat split; intros; discriminate.
Qed.

(** An instance: a document with no node and no edge. *)
Lemma C2_empty_input_witness :
  main decimal_int_of_str doc_empty "graph.png" two two 8 = nothing_to_draw.
Proof.
  apply (C2_empty_input decimal_int_of_str doc_empty [] [] "graph.png" two two 8).
  - reflexivity.
  - left. reflexivity.
Defined.

(** C2 (counterexample): one node and one edge to a node that does not exist.
    After the dangling edge is dropped the graph has no edge, yet the run
    completes with status 0 and writes the image: the emptiness test looks at
    the lists before the graph is built. *)
Lemma C2_counterexample :
  exists nodes edges G fig,
    load_graph decimal_int_of_str doc_dangling = Ok (nodes, edges) /\
    build_graph nodes edges = Ok G /\
    nx.edges G = [] /\
    main decimal_int_of_str doc_dangling "graph.png" two two 8
      = saved "graph.png" nodes edges fig /\
    ~ (status (main decimal_int_of_str doc_dangling "graph.png" two two 8) = 2 /\
       image (main decimal_int_of_str doc_dangling "graph.png" two two 8) = None).
Proof.
  do 4 eexists. split; [reflexivity |]. split; [reflexivity |].
  split; [reflexivity |]. split; [reflexivity |].
  intros [H _]. vm_compute in H. discriminate H.
Qed.

(** The drawing of three nodes in two layers: [A] and [B] share layer 0 at
    [y = 0] and at opposite [x]; [C] is alone in layer 1, centred, one gap
    below; the two edges form one solid group; each layer has its colour. *)
Example main_three_nodes :
  exists nodes edges fig,
    main decimal_int_of_str doc_abc "graph.png" two two 8 = saved "graph.png" nodes edges fig /\
    fig_pos fig = [ (AStr (str "A"), (fopp half_gap, zero));
                    (AStr (str "B"), (half_gap, zero));
                    (AStr (str "C"), (zero, fopp gap)) ] /\
    fig_nodes fig = [ (0, 0, [AStr (str "A"); AStr (str "B")]);
                      (1, 1, [AStr (str "C")]) ] /\
    map (fun g => (snd (fst g), snd g)) (fig_edges fig) =
      [ (Named "solid", [ (AStr (str "A"), AStr (str "C"));
                          (AStr (str "B"), AStr (str "C")) ]) ] /\
    fig_legend fig = [(0, 0); (1, 1)].
Proof.
  do 3 eexists. split; [reflexivity |]. repeat split.
Qed.

(** ** Edge styles *)

(** C4 (as amended): an edge type that is not a key of the style table is
    drawn solid.  The seven relation types are all keys of the table; data
    exchange, persistence, configuration and observation have four dash
    patterns that differ from one another and from the solid line, while
    dependency, invocation and containment are all three drawn solid. *)
Theorem C4_edge_styles :
  (forall et, assoc et style_map = None -> edge_style et = Named "solid") /\
  (forall type, In type relation_types -> assoc (AStr (str type)) style_map <> None) /\
  NoDup [ Named "solid"; style_of "exchanges"; style_of "persists";
          style_of "configures"; style_of "observes" ] /\
  style_of "depends_on" = Named "solid" /\
  style_of "invokes" = Named "solid" /\
  style_of "contains" = Named "solid".
Proof.
  split; [| split; [| split]].
  - intros et H. unfold edge_style. rewrite H. reflexivity.
  - intros type Hin. simpl in Hin.
    repeat (destruct Hin as [<- | Hin]; [discriminate |]). contradiction.
  - repeat constructor; simpl; intros H;
      repeat (destruct H as [H | H]; [discriminate H |]); contradiction.
  - repeat split.
Qed.

(** An instance: the types ["calls"] and [7] are not in the table. *)
Lemma C4_edge_styles_witness :
  edge_style (AStr (str "calls")) = Named "solid" /\
  edge_style (AInt 7) = Named "solid".
Proof.
  split.
  - apply (proj1 C4_edge_styles). reflexivity.
  - apply (proj1 C4_edge_styles). reflexivity.
Defined.

(** C4 (counterexample): the styles of the seven relation types are not
    pairwise different: dependency and invocation are both solid. *)
Lemma C4_counterexample :
  style_of "depends_on" = style_of "invokes" /\
  ~ NoDup (map style_of relation_types).
Proof.
  split; [reflexivity |].
  intros H. inversion H as [| x l Hnotin _]. subst. apply Hnotin. left. reflexivity.
Qed.

(** ** Labels *)

Lemma firstn_ellipsis_length (s : pystr) :
  (23 <= List.length s)%nat -> List.length (firstn 23 s ++ [ellipsis]) = 24%nat.
Proof.
  intros H. rewrite length_app, length_firstn.
  change (List.length [ellipsis]) with 1%nat. lia.
Qed.

(** C5: the label is the name when the name is true (for a string: not
    empty), else the identifier when that is true, else the empty string.
    A label that is a string of more than 26 characters is rendered as its
    first 23 characters followed by one ellipsis character, 24 characters in
    all; a string of 26 characters or fewer is rendered as it is. *)
Theorem C5_short_label (a : nattr) :
  (truthy (attr_name a) = true -> label_of a = attr_name a) /\
  (truthy (attr_name a) = false -> atom_truthy (attr_id a) = true ->
   label_of a = PAtom (attr_id a)) /\
  (truthy (attr_name a) = false -> atom_truthy (attr_id a) = false ->
   label_of a = PAtom (AStr [])) /\
  (forall s, truthy (PAtom (AStr s)) = true <-> s <> []) /\
  (forall s,
      label_of a = PAtom (AStr s) ->
      (26 < List.length s)%nat ->
      _short_label a = Ok (PAtom (AStr (firstn 23 s ++ [ellipsis]))) /\
      List.length (firstn 23 s ++ [ellipsis]) = 24%nat) /\
  (forall s,
      label_of a = PAtom (AStr s) ->
      (List.length s <= 26)%nat ->
      _short_label a = Ok (PAtom (AStr s))).
Proof.
  split; [| split; [| split; [| split; [| split]]]].
  - intros H. unfold label_of. rewrite H. reflexivity.
  - intros H1 H2. unfold label_of. rewrite H1, H2. reflexivity.
  - intros H1 H2. unfold label_of. rewrite H1, H2. reflexivity.
  - intros s. destruct s; simpl; split; intros H; try reflexivity; try discriminate.
    contradiction.
  - intros s Hl Hlen. unfold _short_label. rewrite Hl. cbn [py_len bind].
    replace (26 <? Z.of_nat (List.length s)) with true by (symmetry; apply Z.ltb_lt; lia).
    split; [reflexivity |]. apply firstn_ellipsis_length. lia.
  - intros s Hl Hlen. unfold _short_label. rewrite Hl. cbn [py_len bind].
    replace (26 <? Z.of_nat (List.length s)) with false by (symmetry; apply Z.ltb_ge; lia).
    reflexivity.
Qed.

(** An instance: a name of 30 characters, a name of 26, and a node without
    a name. *)
Lemma C5_short_label_witness :
  _short_label (named (PAtom (AStr thirty)) (AStr (str "n1")))
    = Ok (PAtom (AStr (firstn 23 thirty ++ [ellipsis]))) /\
  _short_label (named (PAtom (AStr (firstn 26 thirty))) (AStr (str "n1")))
    = Ok (PAtom (AStr (firstn 26 thirty))) /\
  _short_label (named PNone (AStr (str "n1"))) = Ok (PAtom (AStr (str "n1"))).
Proof.
  split; [| split].
  - apply (proj1 (proj2 (proj2 (proj2 (proj2
              (C5_short_label (named (PAtom (AStr thirty)) (AStr (str "n1"))))))))).
    + reflexivity.
    + simpl. lia.
  - apply (proj2 (proj2 (proj2 (proj2 (proj2
              (C5_short_label (named (PAtom (AStr (firstn 26 thirty))) (AStr (str "n1"))))))))).
    + reflexivity.
    + simpl. lia.
  - apply (proj2 (proj2 (proj2 (proj2 (proj2
              (C5_short_label (named PNone (AStr (str "n1"))))))))).
    + apply (proj1 (proj2 (C5_short_label (named PNone (AStr (str "n1")))))); reflexivity.
    + simpl. lia.
Defined.

(** ** Order on strings *)

Lemma pystr_ltb_lex (s t : pystr) : pystr_ltb s t = true <-> lex_lt s t.
Proof.
  revert t. induction s as [| c s IH]; intros [| d t]; simpl.
  - split; [discriminate | intros H; inversion H].
  - split; [intros _; constructor | reflexivity].
  - split; [discriminate | intros H; inversion H].
  - destruct (N.compare_spec c d) as [Heq | Hlt | Hgt].
    + subst d. rewrite IH. split; intros H.
      * apply lex_tail. exact H.
      * inversion H; subst; [lia | assumption].
    + split; [intros _; apply lex_head; exact Hlt | reflexivity].
    + split; [discriminate |]. intros H. inversion H; subst; lia.
Qed.

Lemma pystr_ltb_irrefl (s : pystr) : pystr_ltb s s = false.
Proof.
  induction s as [| c s IH]; simpl; [reflexivity |].
  rewrite N.compare_refl. exact IH.
Qed.

Lemma pystr_ltb_trans (s t u : pystr) :
  pystr_ltb s t = true -> pystr_ltb t u = true -> pystr_ltb s u = true.
Proof.
  revert t u. induction s as [| c s IH]; intros [| d t] [| f u]; simpl;
    try discriminate; try reflexivity.
  destruct (N.compare_spec c d) as [-> | Hcd | Hcd]; try discriminate.
  - destruct (N.compare_spec d f) as [-> | Hdf | Hdf]; try discriminate.
    + apply IH.
    + reflexivity.
  - destruct (N.compare_spec d f) as [-> | Hdf | Hdf]; try discriminate; intros _ _.
    + destruct (N.compare_spec c f); try reflexivity; lia.
    + destruct (N.compare_spec c f); try reflexivity; lia.
Qed.

Lemma pystr_ltb_total (s t : pystr) :
  pystr_ltb s t = false -> pystr_ltb t s = false -> s = t.
Proof.
  revert t. induction s as [| c s IH]; intros [| d t]; simpl;
    try discriminate; try reflexivity.
  rewrite (N.compare_antisym c d).
  destruct (N.compare_spec c d) as [-> | Hcd | Hcd]; simpl; try discriminate.
  intros H1 H2. f_equal. apply IH; assumption.
Qed.

(** "Not greater" is transitive. *)
Lemma pystr_leb_trans (s t u : pystr) :
  pystr_ltb t s = false -> pystr_ltb u t = false -> pystr_ltb u s = false.
Proof.
  intros Hts Hut. destruct (pystr_ltb u s) eqn:Hus; [| reflexivity].
  destruct (pystr_ltb s t) eqn:Hst.
  - rewrite (pystr_ltb_trans u s t Hus Hst) in Hut. discriminate.
  - assert (s = t) by (apply pystr_ltb_total; assumption). subst t. congruence.
Qed.

Lemma atom_le_ltb (s t : pystr) : atom_le (AStr s) (AStr t) <-> pystr_ltb t s = false.
Proof.
  simpl. split.
  - intros [-> | H]; [apply pystr_ltb_irrefl |].
    apply pystr_ltb_lex in H. destruct (pystr_ltb t s) eqn:E; [| reflexivity].
    pose proof (pystr_ltb_trans s t s H E) as Hss. rewrite pystr_ltb_irrefl in Hss.
    discriminate.
  - intros H. destruct (pystr_ltb s t) eqn:E.
    + right. apply pystr_ltb_lex. exact E.
    + left. apply pystr_ltb_total; assumption.
Qed.

Lemma atom_le_antisym (a b : atom) : atom_le a b -> atom_le b a -> a = b.
Proof.
  destruct a as [| | | | s], b as [| | | | t]; simpl; try contradiction.
  intros H1 H2. f_equal.
  apply (proj1 (atom_le_ltb s t)) in H1. apply (proj1 (atom_le_ltb t s)) in H2.
  apply pystr_ltb_total; assumption.
Qed.

Lemma atom_le_trans (a b c : atom) : atom_le a b -> atom_le b c -> atom_le a c.
Proof.
  destruct a as [| | | | s], b as [| | | | t], c as [| | | | u]; try (simpl; tauto).
  rewrite !atom_le_ltb. intros H1 H2. eapply pystr_leb_trans; eassumption.
Qed.

(** ** Sorting *)

(** Two sorted lists with the same elements are the same list. *)
Lemma sorted_perm_unique {A : Type} (R : A -> A -> Prop) (l1 l2 : list A) :
  (forall a b, R a b -> R b a -> a = b) ->
  StronglySorted R l1 -> StronglySorted R l2 -> Permutation l1 l2 -> l1 = l2.
Proof.
  intros Hanti. revert l2. induction l1 as [| a l1 IH]; intros l2 S1 S2 P.
  - apply Permutation_nil in P. symmetry. exact P.
  - destruct l2 as [| b l2].
    + apply Permutation_sym, Permutation_nil in P. discriminate P.
    + inversion S1 as [| ? ? S1' F1]; subst. inversion S2 as [| ? ? S2' F2]; subst.
      assert (Hab : a = b).
      { assert (Ha : In a (b :: l2)) by (eapply Permutation_in; [exact P | left; reflexivity]).
        assert (Hb : In b (a :: l1))
          by (eapply Permutation_in; [apply Permutation_sym; exact P | left; reflexivity]).
        destruct Ha as [<- | Ha]; [reflexivity |].
        destruct Hb as [<- | Hb]; [reflexivity |].
        rewrite Forall_forall in F1, F2. apply Hanti; [apply F1 | apply F2]; assumption. }
      subst b. f_equal. apply IH; try assumption.
      eapply Permutation_cons_inv. exact P.
Qed.

Lemma insert_Z_perm (x : Z) (l : list Z) : Permutation (x :: l) (insert_Z x l).
Proof.
  induction l as [| y l IH]; simpl; [apply Permutation_refl |].
  destruct (y <? x); [| apply Permutation_refl].
  eapply Permutation_trans; [apply perm_swap |]. apply perm_skip. exact IH.
Qed.

Lemma sort_Z_perm (l : list Z) : Permutation l (sort_Z l).
Proof.
  induction l as [| x l IH]; simpl; [constructor |].
  eapply Permutation_trans; [apply perm_skip; exact IH | apply insert_Z_perm].
Qed.

Lemma insert_Z_sorted (x : Z) (l : list Z) :
  StronglySorted Z.le l -> StronglySorted Z.le (insert_Z x l).
Proof.
  induction l as [| y l IH]; simpl; intros S.
  - repeat constructor.
  - inversion S as [| ? ? S' F]; subst. destruct (Z.ltb_spec y x) as [Hlt | Hge].
    + constructor; [apply IH; exact S' |].
      rewrite Forall_forall in *. intros z Hz.
      apply (Permutation_in _ (Permutation_sym (insert_Z_perm x l))) in Hz.
      destruct Hz as [<- | Hz]; [lia | apply F; exact Hz].
    + constructor; [exact S |].
      constructor; [exact Hge |].
      rewrite Forall_forall in *. intros z Hz. specialize (F z Hz). lia.
Qed.

Lemma sort_Z_sorted (l : list Z) : StronglySorted Z.le (sort_Z l).
Proof.
  induction l as [| x l IH]; simpl; [constructor | apply insert_Z_sorted; exact IH].
Qed.

Lemma sort_Z_perm_eq (l1 l2 : list Z) : Permutation l1 l2 -> sort_Z l1 = sort_Z l2.
Proof.
  intros P. apply (sorted_perm_unique Z.le).
  - intros a b; lia.
  - apply sort_Z_sorted.
  - apply sort_Z_sorted.
  - eapply Permutation_trans; [apply Permutation_sym, sort_Z_perm |].
    eapply Permutation_trans; [exact P | apply sort_Z_perm].
Qed.

(** [sorted] keeps the elements it is given. *)
Lemma insert_sorted_perm (x : atom) (l l' : list atom) :
  insert_sorted x l = Ok l' -> Permutation (x :: l) l'.
Proof.
  revert l'. induction l as [| y l IH]; simpl; intros l' H.
  - injection H as <-. apply Permutation_refl.
  - destruct (atom_lt y x) as [[|] | e]; simpl in H; try discriminate.
    + destruct (insert_sorted x l) as [r | e]; simpl in H; [| discriminate].
      injection H as <-.
      eapply Permutation_trans; [apply perm_swap |]. apply perm_skip. apply IH. reflexivity.
    + injection H as <-. apply Permutation_refl.
Qed.

Lemma py_sorted_perm (l l' : list atom) : py_sorted l = Ok l' -> Permutation l l'.
Proof.
  revert l'. induction l as [| x l IH]; simpl; intros l' H.
  - injection H as <-. constructor.
  - destruct (py_sorted l) as [r | e]; simpl in H; [| discriminate].
    eapply Permutation_trans; [apply perm_skip; apply IH; reflexivity |].
    apply insert_sorted_perm. exact H.
Qed.

Lemma insert_sorted_str (x : atom) (l : list atom) :
  is_str x = true -> forallb is_str l = true -> StronglySorted atom_le l ->
  exists l', insert_sorted x l = Ok l' /\ StronglySorted atom_le l'.
Proof.
  intros Hx. induction l as [| y l IH]; simpl; intros Hl S.
  - eexists. split; [reflexivity |]. repeat constructor.
  - apply andb_true_iff in Hl. destruct Hl as [Hy Hl].
    inversion S as [| ? ? S' F]; subst.
    destruct x as [| | | | s]; try discriminate. destruct y as [| | | | t]; try discriminate.
    cbn [atom_lt bind]. destruct (pystr_ltb t s) eqn:Ets.
    + destruct (IH Hl S') as (r & Hr & Sr). rewrite Hr. cbn [bind].
      eexists. split; [reflexivity |]. constructor; [exact Sr |].
      rewrite Forall_forall in *. intros z Hz.
      apply (Permutation_in _ (Permutation_sym (insert_sorted_perm _ _ _ Hr))) in Hz.
      destruct Hz as [<- | Hz]; [| apply F; exact Hz].
      right. apply pystr_ltb_lex. exact Ets.
    + eexists. split; [reflexivity |]. constructor; [exact S |].
      constructor; [apply atom_le_ltb; exact Ets |].
      rewrite Forall_forall in *. intros z Hz.
      apply (atom_le_trans _ (AStr t)); [apply atom_le_ltb; exact Ets | apply F; exact Hz].
Qed.

(** On string identifiers [sorted] succeeds and sorts lexicographically. *)
Lemma py_sorted_str (l : list atom) :
  forallb is_str l = true ->
  exists l', py_sorted l = Ok l' /\ Permutation l l' /\ StronglySorted atom_le l'.
Proof.
  induction l as [| x l IH]; simpl; intros Hl.
  - eexists. split; [reflexivity |]. split; constructor.
  - apply andb_true_iff in Hl. destruct Hl as [Hx Hl].
    destruct (IH Hl) as (r & Hr & Pr & Sr). rewrite Hr. cbn [bind].
    destruct (insert_sorted_str x r Hx (forallb_perm _ _ _ Pr Hl) Sr) as (l' & Hl' & Sl').
    exists l'. split; [exact Hl' |]. split; [| exact Sl'].
    eapply Permutation_trans; [apply perm_skip; exact Pr |].
    apply insert_sorted_perm. exact Hl'.
Qed.

(** The order of the input does not matter. *)
Lemma py_sorted_str_perm (l1 l2 : list atom) :
  forallb is_str l1 = true -> Permutation l1 l2 -> py_sorted l1 = py_sorted l2.
Proof.
  intros H1 P.
  destruct (py_sorted_str l1 H1) as (r1 & E1 & P1 & S1).
  destruct (py_sorted_str l2 (forallb_perm _ _ _ P H1)) as (r2 & E2 & P2 & S2).
  rewrite E1, E2. f_equal. apply (sorted_perm_unique atom_le).
  - apply atom_le_antisym.
  - exact S1.
  - exact S2.
  - eapply Permutation_trans; [apply Permutation_sym; exact P1 |].
    eapply Permutation_trans; [exact P | exact P2].
Qed.

(** ** draw_graph *)

Lemma set_of_rep (l : list atom) (a : atom) :
  In a l -> exists a', In a' (set_of l) /\ atom_eqb a a' = true.
Proof.
  induction l as [| x l IH]; simpl; [contradiction |].
  intros [<- | Hin].
  - exists x. split; [left; reflexivity | apply atom_eqb_refl].
  - destruct (IH Hin) as (a' & Ha' & Haa').
    destruct (atom_eqb a' x) eqn:E.
    + exists x. split; [left; reflexivity |]. apply (atom_eqb_trans a a' x Haa' E).
    + exists a'. split; [| exact Haa']. right. apply filter_In. split; [exact Ha' |].
      rewrite E. reflexivity.
Qed.

Lemma draw_graph_fig_edges (G : nx.DiGraph) (figsize : float * float) (with_labels : bool)
  (font : Z) (fig : figure) :
  draw_graph G figsize with_labels font = Ok fig ->
  exists types edge_types,
    mapM (fun uvd => hashable (edge_type (snd uvd))) (nx.edges G) = Ok types /\
    py_sorted (set_of types) = Ok edge_types /\
    fig_edges fig =
    flat_map (fun et =>
                match map fst (filter (fun uvd => type_is et (snd uvd)) (nx.edges G)) with
                | [] => []
                | es => [(et, edge_style et, es)]
                end)
             edge_types.
Proof.
  unfold draw_graph. destruct (layered_layout (map snd (nx._node G))) as [pos |];
    cbn [bind]; [| discriminate].
  destruct (mapM _ (nx.edges G)) as [types |] eqn:Et; cbn [bind]; [| discriminate].
  destruct (py_sorted (set_of types)) as [ets |] eqn:Es; cbn [bind]; [| discriminate].
  destruct with_labels.
  - destruct (mapM _ (nx._node G)) as [ls |]; cbn [bind]; [| discriminate].
    intros H. injection H as <-. exists types, ets.
    split; [reflexivity | split; [exact Es | reflexivity]].
  - cbn [bind]. intros H. injection H as <-. exists types, ets.
    split; [reflexivity | split; [exact Es | reflexivity]].
Qed.

(** The edges handed to the drawing library are the edges of the graph
    whose type is not NaN: a type that is NaN equals no type. *)
Lemma draw_graph_edges (G : nx.DiGraph) (figsize : float * float) (with_labels : bool)
  (font : Z) (fig : figure) (u v : atom) :
  draw_graph G figsize with_labels font = Ok fig ->
  (drawn fig u v <-> exists d, In (u, v, d) (nx.edges G) /\ nan_typed d = false).
Proof.
  intros H. destruct (draw_graph_fig_edges _ _ _ _ _ H) as (types & ets & Ht & Hs & Hf).
  unfold drawn. rewrite Hf. split.
  - intros (et & st & es & Hin & Huv). apply in_flat_map in Hin.
    destruct Hin as (et' & _ & Hin).
    destruct (map fst (filter (fun uvd => type_is et' (snd uvd)) (nx.edges G)))
      as [| e0 es0] eqn:El; [contradiction |].
    destruct Hin as [Heq | []]. injection Heq as _ _ <-.
    rewrite <- El in Huv. apply in_map_iff in Huv.
    destruct Huv as ([[u0 v0] d] & Heq & Hin). cbn [fst] in Heq. injection Heq as -> ->.
    apply filter_In in Hin. destruct Hin as [Hin Hty]. exists d. split; [exact Hin |].
    cbn [snd] in Hty. unfold type_is, atom_eq in Hty. unfold nan_typed.
    destruct (edge_type d) as [a | |]; try reflexivity.
    destruct (is_nan a); [discriminate Hty | reflexivity].
  - intros (d & Hin & Hnan).
    destruct (mapM_In_Ok _ _ _ _ Ht Hin) as (a & Ha & Hina). cbn [snd] in Ha.
    destruct (set_of_rep types a Hina) as (a' & Ha' & Haa').
    assert (Hets : In a' ets)
      by (eapply Permutation_in; [apply py_sorted_perm; exact Hs | exact Ha']).
    assert (Hfil : In (u, v) (map fst (filter (fun uvd => type_is a' (snd uvd)) (nx.edges G)))).
    { apply in_map_iff. exists (u, v, d). split; [reflexivity |].
      apply filter_In. split; [exact Hin |]. cbn [snd]. unfold type_is.
      unfold nan_typed in Hnan.
      destruct (edge_type d) as [b | |]; try discriminate Ha.
      cbn [hashable] in Ha. injection Ha as ->. unfold atom_eq.
      rewrite Hnan, Haa'. reflexivity. }
    exists a', (edge_style a'),
      (map fst (filter (fun uvd => type_is a' (snd uvd)) (nx.edges G))).
    split; [| exact Hfil].
    apply in_flat_map. exists a'. split; [exact Hets |].
    destruct (map fst (filter (fun uvd => type_is a' (snd uvd)) (nx.edges G)));
      [contradiction | left; reflexivity].
Qed.

Lemma draw_graph_pos (G : nx.DiGraph) (figsize : float * float) (with_labels : bool)
  (font : Z) (fig : figure) :
  draw_graph G figsize with_labels font = Ok fig ->
  layered_layout (map snd (nx._node G)) = Ok (fig_pos fig).
Proof.
  unfold draw_graph. destruct (layered_layout (map snd (nx._node G))) as [pos |];
    cbn [bind]; [| discriminate].
  destruct (mapM _ (nx.edges G)) as [types |]; cbn [bind]; [| discriminate].
  destruct (py_sorted (set_of types)) as [ets |]; cbn [bind]; [| discriminate].
  destruct with_labels.
  - destruct (mapM _ (nx._node G)) as [ls |]; cbn [bind]; [| discriminate].
    intros H. injection H as <-. reflexivity.
  - cbn [bind]. intros H. injection H as <-. reflexivity.
Qed.

(** ** Grouping by layer *)

Lemma layer_ids_setdefault (k k' : Z) (x : atom) (layers : list (Z * list atom)) :
  layer_ids (setdefault_append k x layers) k' =
  if k' =? k then layer_ids layers k' ++ [x] else layer_ids layers k'.
Proof.
  induction layers as [| [k0 xs] layers IH]; simpl.
  - destruct (k' =? k); reflexivity.
  - destruct (Z.eqb_spec k k0) as [-> | Hne]; simpl.
    + destruct (k' =? k0); reflexivity.
    + destruct (Z.eqb_spec k' k0) as [-> | Hne'].
      * destruct (Z.eqb_spec k0 k); [congruence | reflexivity].
      * exact IH.
Qed.

Lemma keys_setdefault (k : Z) (x : atom) (layers : list (Z * list atom)) :
  map fst (setdefault_append k x layers) =
  if existsb (Z.eqb k) (map fst layers) then map fst layers else map fst layers ++ [k].
Proof.
  induction layers as [| [k0 xs] layers IH]; simpl.
  - reflexivity.
  - destruct (k =? k0); simpl; [reflexivity |].
    rewrite IH. destruct (existsb (Z.eqb k) (map fst layers)); reflexivity.
Qed.

Lemma group_fold_ids (nodes : list nattr) (acc : list (Z * list atom)) (L : Z) :
  layer_ids (fold_left group_step nodes acc) L = layer_ids acc L ++ members nodes L.
Proof.
  revert acc. induction nodes as [| n nodes IH]; intros acc; simpl.
  - unfold members. simpl. symmetry. apply app_nil_r.
  - rewrite IH. unfold group_step. rewrite layer_ids_setdefault.
    unfold members. simpl. rewrite (Z.eqb_sym L).
    destruct (attr_layer n =? L); simpl.
    + rewrite <- app_assoc. reflexivity.
    + reflexivity.
Qed.

Lemma group_fold_keys (nodes : list nattr) (acc : list (Z * list atom)) (L : Z) :
  In L (map fst (fold_left group_step nodes acc)) <->
  In L (map fst acc) \/ exists n, In n nodes /\ attr_layer n = L.
Proof.
  revert acc. induction nodes as [| n nodes IH]; intros acc; simpl.
  - split; [intros H; left; exact H | intros [H | (n & [] & _)]; exact H].
  - rewrite IH. unfold group_step. rewrite keys_setdefault.
    destruct (existsb (Z.eqb (attr_layer n)) (map fst acc)) eqn:Eex.
    + apply existsb_exists in Eex. destruct Eex as (k & Hk & Ek).
      apply Z.eqb_eq in Ek. subst k. split.
      * intros [H | (n' & Hin & HL)]; [left; exact H |].
        right. exists n'. split; [right; exact Hin | exact HL].
      * intros [H | (n' & [<- | Hin] & HL)].
        -- left. exact H.
        -- left. rewrite <- HL. exact Hk.
        -- right. exists n'. split; assumption.
    + rewrite in_app_iff. simpl. split.
      * intros [[H | [H | []]] | (n' & Hin & HL)].
        -- left. exact H.
        -- right. exists n. split; [left; reflexivity | exact H].
        -- right. exists n'. split; [right; exact Hin | exact HL].
      * intros [H | (n' & [<- | Hin] & HL)].
        -- left. left. exact H.
        -- left. right. left. exact HL.
        -- right. exists n'. split; assumption.
Qed.

Lemma group_fold_NoDup (nodes : list nattr) (acc : list (Z * list atom)) :
  NoDup (map fst acc) -> NoDup (map fst (fold_left group_step nodes acc)).
Proof.
  revert acc. induction nodes as [| n nodes IH]; intros acc Hnd; simpl.
  - exact Hnd.
  - apply IH. unfold group_step. rewrite keys_setdefault.
    destruct (existsb (Z.eqb (attr_layer n)) (map fst acc)) eqn:Eex; [exact Hnd |].
    apply NoDup_app; [exact Hnd | repeat constructor; intros [] |].
    intros k Hk [<- | []].
    assert (Hex : existsb (Z.eqb (attr_layer n)) (map fst acc) = true).
    { apply existsb_exists. exists (attr_layer n). split; [exact Hk | apply Z.eqb_refl]. }
    congruence.
Qed.

Lemma group_layers_ids (nodes : list nattr) (L : Z) :
  layer_ids (group_layers nodes) L = members nodes L.
Proof. unfold group_layers. apply (group_fold_ids nodes [] L). Qed.

Lemma group_layers_keys (nodes : list nattr) (L : Z) :
  In L (map fst (group_layers nodes)) <-> exists n, In n nodes /\ attr_layer n = L.
Proof.
  unfold group_layers. rewrite (group_fold_keys nodes [] L). simpl. tauto.
Qed.

Lemma group_layers_NoDup (nodes : list nattr) : NoDup (map fst (group_layers nodes)).
Proof. unfold group_layers. apply (group_fold_NoDup nodes []). constructor. Qed.

Lemma NoDup_map_inj {A B : Type} (f : A -> B) (l : list A) (a b : A) :
  NoDup (map f l) -> In a l -> In b l -> f a = f b -> a = b.
Proof.
  induction l as [| c l IH]; simpl; intros H Ha Hb Hf; [contradiction |].
  inversion H as [| ? ? Hnin Hnd]; subst.
  destruct Ha as [-> | Ha], Hb as [-> | Hb].
  - reflexivity.
  - exfalso. apply Hnin. rewrite Hf. apply in_map. exact Hb.
  - exfalso. apply Hnin. rewrite <- Hf. apply in_map. exact Ha.
  - apply IH; assumption.
Qed.

Lemma members_In (nodes : list nattr) (L : Z) (x : atom) :
  In x (members nodes L) <-> exists n, In n nodes /\ attr_layer n = L /\ attr_id n = x.
Proof.
  unfold members. rewrite in_map_iff. split.
  - intros (n & Hid & Hin). apply filter_In in Hin. destruct Hin as [Hin HL].
    apply Z.eqb_eq in HL. exists n. tauto.
  - intros (n & Hin & HL & Hid). exists n. split; [exact Hid |].
    apply filter_In. split; [exact Hin | apply Z.eqb_eq; exact HL].
Qed.

(** A layer of a graph lists no identifier twice. *)
Lemma members_NoDup (nodes : list nattr) (L : Z) :
  NoDup (map attr_id nodes) -> NoDup (members nodes L).
Proof.
  unfold members. induction nodes as [| n nodes IH]; simpl; intros Hnd.
  - constructor.
  - inversion Hnd as [| ? ? Hnotin Hrest]; subst.
    destruct (attr_layer n =? L); simpl; [| apply IH; exact Hrest].
    constructor; [| apply IH; exact Hrest].
    intros Hin. apply Hnotin. apply in_map_iff in Hin.
    destruct Hin as (n' & Hid & Hin'). apply filter_In in Hin'.
    apply in_map_iff. exists n'. split; [exact Hid | apply Hin'].
Qed.

Lemma members_str (nodes : list nattr) (L : Z) :
  forallb (fun n => is_str (attr_id n)) nodes = true ->
  forallb is_str (members nodes L) = true.
Proof.
  intros Hstr. apply forallb_forall. intros x Hx. apply members_In in Hx.
  destruct Hx as (n' & Hin' & _ & <-).
  apply (forallb_In (fun n => is_str (attr_id n)) nodes n' Hstr Hin').
Qed.

Lemma members_id_layer (nodes : list nattr) (L : Z) :
  members nodes L = map fst (filter (fun p => snd p =? L) (map id_layer nodes)).
Proof.
  unfold members. induction nodes as [| n nodes IH]; simpl; [reflexivity |].
  destruct (attr_layer n =? L); simpl; rewrite IH; reflexivity.
Qed.

Lemma filter_perm {A : Type} (p : A -> bool) (l l' : list A) :
  Permutation l l' -> Permutation (filter p l) (filter p l').
Proof.
  induction 1 as [| x l l' _ IH | x y l | l1 l2 l3 _ IH1 _ IH2]; simpl.
  - constructor.
  - destruct (p x); [apply perm_skip |]; exact IH.
  - destruct (p x), (p y); try apply Permutation_refl. apply perm_swap.
  - eapply Permutation_trans; eassumption.
Qed.

Lemma members_perm (nodes nodes' : list nattr) (L : Z) :
  Permutation (map id_layer nodes) (map id_layer nodes') ->
  Permutation (members nodes L) (members nodes' L).
Proof.
  intros P. rewrite !members_id_layer. apply Permutation_map, filter_perm. exact P.
Qed.

Lemma layers_perm (nodes nodes' : list nattr) :
  Permutation (map id_layer nodes) (map id_layer nodes') ->
  sort_Z (map fst (group_layers nodes)) = sort_Z (map fst (group_layers nodes')).
Proof.
  intros P. apply sort_Z_perm_eq. apply NoDup_Permutation.
  - apply group_layers_NoDup.
  - apply group_layers_NoDup.
  - intros L. rewrite !group_layers_keys.
    assert (H : forall ns, (exists n, In n ns /\ attr_layer n = L) <->
                           In L (map snd (map id_layer ns))).
    { intros ns. rewrite map_map. rewrite in_map_iff. unfold id_layer. simpl.
      split; intros (n & H1 & H2); exists n; tauto. }
    rewrite !H. split; apply Permutation_in.
    + apply Permutation_map. exact P.
    + apply Permutation_map, Permutation_sym. exact P.
Qed.

(** ** Integers as floats

    An integer below [2^53] in magnitude converts exactly: its mantissa is
    shifted to 53 bits and nothing is rounded. *)

Lemma digits2_iter_xO (p : positive) (k : positive) :
  digits2_pos (Pos.iter xO p k) = (digits2_pos p + k)%positive.
Proof.
  revert p. induction k using Pos.peano_ind; intros p.
  - simpl. lia.
  - rewrite Pos.iter_succ. simpl. rewrite IHk. lia.
Qed.

Lemma digits2_pos_lower (p : positive) : 2 ^ (Zpos (digits2_pos p) - 1) <= Zpos p.
Proof.
  induction p as [p IH | p IH |]; simpl digits2_pos.
  - rewrite Pos2Z.inj_succ. replace (Z.succ (Zpos (digits2_pos p)) - 1) with (Z.succ (Zpos (digits2_pos p) - 1)) by lia.
    rewrite Z.pow_succ_r by lia. lia.
  - rewrite Pos2Z.inj_succ. replace (Z.succ (Zpos (digits2_pos p)) - 1) with (Z.succ (Zpos (digits2_pos p) - 1)) by lia.
    rewrite Z.pow_succ_r by lia. lia.
  - simpl. lia.
Qed.

Lemma digits2_pos_upper (p : positive) : Zpos p < 2 ^ (Zpos (digits2_pos p)).
Proof.
  induction p as [p IH | p IH |]; simpl digits2_pos.
  - rewrite Pos2Z.inj_succ, Z.pow_succ_r by lia. lia.
  - rewrite Pos2Z.inj_succ, Z.pow_succ_r by lia. lia.
  - simpl. lia.
Qed.

Lemma digits2_pos_le_53 (p : positive) : Zpos p < 2 ^ 53 -> Zpos (digits2_pos p) <= 53.
Proof.
  intros Hp. pose proof (digits2_pos_lower p) as Hlow.
  destruct (Z.le_gt_cases (Zpos (digits2_pos p)) 53) as [H | H]; [exact H |].
  exfalso.
  assert (2 ^ 53 <= 2 ^ (Zpos (digits2_pos p) - 1)) by (apply Z.pow_le_mono_r; lia).
  lia.
Qed.

Lemma digits2_pos_unique (p : positive) (d : Z) :
  2 ^ (d - 1) <= Zpos p < 2 ^ d -> Zpos (digits2_pos p) = d.
Proof.
  intros [Hlo Hhi].
  pose proof (digits2_pos_lower p) as Hl. pose proof (digits2_pos_upper p) as Hu.
  set (D := Zpos (digits2_pos p)) in *.
  assert (HD : 0 < D) by (subst D; lia).
  assert (Hd : 0 < d).
  { destruct (Z.lt_ge_cases 0 d) as [H | H]; [exact H |].
    exfalso. assert (2 ^ d <= 2 ^ 0) by (apply Z.pow_le_mono_r; lia).
    change (2 ^ 0) with 1 in *. lia. }
  destruct (Z.lt_trichotomy D d) as [H | [H | H]]; [| exact H |]; exfalso.
  - assert (2 ^ D <= 2 ^ (d - 1)) by (apply Z.pow_le_mono_r; lia). lia.
  - assert (2 ^ d <= 2 ^ (D - 1)) by (apply Z.pow_le_mono_r; lia). lia.
Qed.

Lemma pow2_lt_inv (a b : Z) : 0 <= b -> 2 ^ a < 2 ^ b -> a < b.
Proof.
  intros Hb H. destruct (Z.lt_ge_cases a b) as [Hlt | Hge]; [exact Hlt |].
  exfalso. assert (2 ^ b <= 2 ^ a) by (apply Z.pow_le_mono_r; lia). lia.
Qed.

Lemma binary_round_aux_exact (s : bool) (m : positive) (e : Z) :
  digits2_pos m = 53%positive -> -1074 <= e <= 971 ->
  binary_round_aux prec emax s (Zpos m) e loc_Exact = S754_finite s m e.
Proof.
  intros Hd He. unfold binary_round_aux, shr_fexp. cbn [Zdigits2 shr_record_of_loc].
  rewrite Hd.
  assert (Hf : fexp prec emax (53 + e) - e = 0).
  { unfold fexp, emin, prec, emax. lia. }
  rewrite Hf. cbn [shr shr_m loc_of_shr_record round_nearest_even Zdigits2].
  rewrite Hd, Hf. cbn [shr shr_m].
  replace (e <=? emax - prec) with true; [reflexivity |].
  symmetry. apply Z.leb_le. unfold emax, prec. lia.
Qed.

Lemma shl_align_digits (p : positive) :
  Zpos p < 2 ^ 53 ->
  let me := shl_align p 0 (Zpos (digits2_pos p) - 53) in
  digits2_pos (fst me) = 53%positive /\ snd me = Zpos (digits2_pos p) - 53 /\
  Zpos (fst me) = Zpos p * 2 ^ (53 - Zpos (digits2_pos p)).
Proof.
  intros Hp. pose proof (digits2_pos_le_53 p Hp) as Hd.
  unfold shl_align. rewrite Z.sub_0_r.
  destruct (Zpos (digits2_pos p) - 53) as [| q | q] eqn:Eq; cbn [fst snd].
  - assert (digits2_pos p = 53%positive) by lia. rewrite H.
    repeat split; try lia. 
  - lia.
  - rewrite digits2_iter_xO. repeat split; try lia.
    replace (53 - Zpos (digits2_pos p)) with (Zpos q) by lia.
    clear. induction q using Pos.peano_ind.
    + simpl. lia.
    + rewrite Pos.iter_succ. rewrite Pos2Z.inj_succ, Z.pow_succ_r by lia.
      rewrite Pos2Z.inj_xO. lia.
Qed.

Lemma float_of_int_pos (p : positive) :
  Zpos p < 2 ^ 53 ->
  float_of_int (Zpos p) =
  Ok (S754_finite false (fst (shl_align p 0 (Zpos (digits2_pos p) - 53)))
                        (Zpos (digits2_pos p) - 53)).
Proof.
  intros Hp. destruct (shl_align_digits p Hp) as (Hd & He & _).
  unfold float_of_int, binary_normalize, binary_round.
  assert (Hf : fexp prec emax (Zpos (digits2_pos p) + 0) = Zpos (digits2_pos p) - 53).
  { unfold fexp, emin, prec, emax. lia. }
  rewrite Hf.
  destruct (shl_align p 0 (Zpos (digits2_pos p) - 53)) as [mz ez] eqn:E.
  cbn [fst snd] in *. subst ez.
  rewrite binary_round_aux_exact; [reflexivity | exact Hd |].
  pose proof (digits2_pos_le_53 p Hp). lia.
Qed.

Lemma float_of_int_neg (p : positive) :
  Zpos p < 2 ^ 53 ->
  float_of_int (Zneg p) =
  Ok (S754_finite true (fst (shl_align p 0 (Zpos (digits2_pos p) - 53)))
                       (Zpos (digits2_pos p) - 53)).
Proof.
  intros Hp. destruct (shl_align_digits p Hp) as (Hd & He & _).
  unfold float_of_int, binary_normalize, binary_round.
  assert (Hf : fexp prec emax (Zpos (digits2_pos p) + 0) = Zpos (digits2_pos p) - 53).
  { unfold fexp, emin, prec, emax. lia. }
  rewrite Hf.
  destruct (shl_align p 0 (Zpos (digits2_pos p) - 53)) as [mz ez] eqn:E.
  cbn [fst snd] in *. subst ez.
  rewrite binary_round_aux_exact; [reflexivity | exact Hd |].
  pose proof (digits2_pos_le_53 p Hp). lia.
Qed.

Lemma float_ok_small (z : Z) : Z.abs z < 2 ^ 53 -> float_ok z = true.
Proof.
  intros Hz. unfold float_ok. destruct z as [| p | p].
  - reflexivity.
  - rewrite float_of_int_pos; [reflexivity | lia].
  - rewrite float_of_int_neg; [reflexivity | lia].
Qed.

Lemma float_ok_Ok (z : Z) : float_ok z = true -> exists f, float_of_int z = Ok f.
Proof.
  unfold float_ok. destruct (float_of_int z) as [f | e]; [| discriminate].
  intros _. exists f. reflexivity.
Qed.

Lemma x_coord_Ok (i n : Z) :
  0 <= i < n -> n <= 2 ^ 53 ->
  exists fi fn,
    float_of_int i = Ok fi /\ float_of_int (n - 1) = Ok fn /\
    x_coord i n = Ok (fmul (fsub fi (fdiv fn two)) gap).
Proof.
  intros Hi Hn.
  destruct (float_ok_Ok i) as [fi Hfi]; [apply float_ok_small; lia |].
  destruct (float_ok_Ok (n - 1)) as [fn Hfn]; [apply float_ok_small; lia |].
  exists fi, fn. split; [exact Hfi |]. split; [exact Hfn |].
  unfold x_coord. rewrite Hfn, Hfi. reflexivity.
Qed.

Lemma y_coord_Ok (L : Z) :
  float_ok (- L) = true ->
  exists fl, float_of_int (- L) = Ok fl /\ y_coord L = Ok (fmul fl gap).
Proof.
  intros H. destruct (float_ok_Ok _ H) as [fl Hfl]. exists fl.
  split; [exact Hfl |]. unfold y_coord. rewrite Hfl. reflexivity.
Qed.

(** The two literals are the floats nearest to 2 and to 22/10. *)
Lemma gap_value :
  float_of_int 2 = Ok two /\
  (a <- float_of_int 22 ;; b <- float_of_int 10 ;; Ok (fdiv a b)) = Ok gap /\
  xgap = gap /\ ygap = gap.
Proof. repeat split. Qed.

(** ** layered_layout *)

Lemma place_nodes_spec (layer n : Z) (y : float) (ids : list atom) :
  y_coord layer = Ok y ->
  forall (i0 : Z) (pos : list (atom * coord)),
    0 <= i0 -> i0 + Z.of_nat (List.length ids) <= n -> n <= 2 ^ 53 ->
    exists pos',
      foldM (place_node layer n) (enumerate_from i0 ids) pos = Ok pos' /\
      (forall k, (forall x, In x ids -> atom_eqb k x = false) -> assoc k pos' = assoc k pos) /\
      (forallb is_str ids = true -> NoDup ids ->
       forall j nid, nth_error ids j = Some nid ->
         exists x, x_coord (i0 + Z.of_nat j) n = Ok x /\ assoc nid pos' = Some (x, y)).
Proof.
  intros Hy. induction ids as [| nid ids IH]; intros i0 pos Hi0 Hlen Hn.
  - exists pos. split; [reflexivity |]. split; [reflexivity |].
    intros _ _ j nid' Hj. destruct j; discriminate Hj.
  - cbn [List.length] in Hlen. rewrite Nat2Z.inj_succ in Hlen.
    destruct (x_coord_Ok i0 n) as (fi & fn & _ & _ & Hx); [lia | lia |].
    cbn [enumerate_from foldM]. unfold place_node at 1. cbn [fst snd].
    rewrite Hx, Hy. cbn [bind].
    destruct (IH (i0 + 1) (assoc_set nid (fmul (fsub fi (fdiv fn two)) gap, y) pos))
      as (pos' & Hfold & Hother & Hnth); [lia | lia | lia |].
    exists pos'. split; [exact Hfold |]. split.
    + intros k Hk. rewrite Hother.
      * rewrite assoc_set_get, (Hk nid (or_introl eq_refl)). reflexivity.
      * intros x Hx'. apply Hk. right. exact Hx'.
    + intros Hstr Hnd j nid' Hj. cbn [forallb] in Hstr.
      apply andb_true_iff in Hstr. destruct Hstr as [Hs Hstr].
      inversion Hnd as [| ? ? Hnin Hnd']; subst.
      destruct j as [| j]; cbn [nth_error] in Hj.
      * injection Hj as <-. rewrite Z.add_0_r. eexists. split; [exact Hx |].
        rewrite Hother.
        -- rewrite assoc_set_get, atom_eqb_refl. reflexivity.
        -- intros x Hx'. rewrite atom_eqb_sym. apply (str_not_in nid ids); assumption.
      * destruct (Hnth Hstr Hnd' j nid' Hj) as (x & Hxj & Hassoc).
        exists x. split; [| exact Hassoc].
        rewrite Nat2Z.inj_succ. replace (i0 + Z.succ (Z.of_nat j)) with (i0 + 1 + Z.of_nat j) by lia.
        exact Hxj.
Qed.

Lemma place_layers_spec (layers : list (Z * list atom)) (Ls : list Z) :
  NoDup Ls ->
  (forall L, In L Ls -> layer_ready layers L) ->
  (forall L L' x, In L Ls -> In L' Ls -> L <> L' ->
                  In x (layer_ids layers L) -> In x (layer_ids layers L') -> False) ->
  forall pos,
  exists pos',
    foldM (place_layer layers) Ls pos = Ok pos' /\
    (forall k, (forall L x, In L Ls -> In x (layer_ids layers L) -> atom_eqb k x = false) ->
               assoc k pos' = assoc k pos) /\
    (forall L, In L Ls ->
       exists ids y,
         py_sorted (layer_ids layers L) = Ok ids /\ y_coord L = Ok y /\
         forall j nid, nth_error ids j = Some nid ->
           exists x, x_coord (Z.of_nat j) (Z.of_nat (List.length ids)) = Ok x /\
                     assoc nid pos' = Some (x, y)).
Proof.
  induction Ls as [| L Ls IH]; intros Hnd Hready Hdisj pos.
  - exists pos. split; [reflexivity |]. split; [reflexivity |]. intros L [].
  - inversion Hnd as [| ? ? HnotinL Hnd']; subst.
    destruct (Hready L (or_introl eq_refl)) as (Hstr & HndL & Hsize & Hfl).
    destruct (py_sorted_str _ Hstr) as (ids & Hsort & Hperm & Hsorted).
    destruct (y_coord_Ok L Hfl) as (fl & _ & Hy).
    assert (Hlen : List.length ids = List.length (layer_ids layers L))
      by (symmetry; apply Permutation_length; exact Hperm).
    destruct (place_nodes_spec L (Z.of_nat (List.length ids)) _ ids Hy 0 pos)
      as (pos1 & Hfold1 & Hother1 & Hnth1); [lia | lia | rewrite Hlen; exact Hsize |].
    destruct (IH Hnd' (fun L' H => Hready L' (or_intror H))
                 (fun L1 L2 x H1 H2 => Hdisj L1 L2 x (or_intror H1) (or_intror H2)) pos1)
      as (pos' & Hfold & Hother & Hlayers).
    exists pos'. split; [| split].
    + cbn [foldM]. unfold place_layer at 1. rewrite Hsort. cbn [bind].
      unfold enumerate. rewrite Hfold1. cbn [bind]. exact Hfold.
    + intros k Hk. rewrite Hother.
      * apply Hother1. intros x Hx. apply (Hk L x (or_introl eq_refl)).
        eapply Permutation_in; [apply Permutation_sym; exact Hperm | exact Hx].
      * intros L' x HL' Hx. apply (Hk L' x (or_intror HL') Hx).
    + intros L' [<- | HL'].
      * exists ids, (fmul fl gap). split; [exact Hsort |]. split; [exact Hy |].
        intros j nid Hj.
        assert (Hstr' : forallb is_str ids = true) by (eapply forallb_perm; eassumption).
        assert (HndI : NoDup ids) by (eapply Permutation_NoDup; eassumption).
        destruct (Hnth1 Hstr' HndI j nid Hj) as (x & Hx & Hassoc).
        exists x. split; [exact Hx |].
        rewrite Hother; [exact Hassoc |].
        intros L' x' HL' Hx'.
        assert (Hin : In nid ids) by (eapply nth_error_In; exact Hj).
        apply str_neq_eqb; [apply (forallb_In _ _ _ Hstr' Hin) |].
        intros ->. apply (Hdisj L L' x' (or_introl eq_refl) (or_intror HL')).
        -- intros ->. contradiction.
        -- eapply Permutation_in; [apply Permutation_sym; exact Hperm | exact Hin].
        -- exact Hx'.
      * apply Hlayers. exact HL'.
Qed.

Lemma layout_spec (nodes : list nattr) :
  well_formed nodes ->
  exists pos,
    layered_layout nodes = Ok pos /\
    forall L, (exists n, In n nodes /\ attr_layer n = L) ->
      exists ids y,
        py_sorted (members nodes L) = Ok ids /\ y_coord L = Ok y /\
        forall j nid, nth_error ids j = Some nid ->
          exists x, x_coord (Z.of_nat j) (Z.of_nat (List.length ids)) = Ok x /\
                    assoc nid pos = Some (x, y).
Proof.
  intros (Hstr & Hnd & Hsize & Hfl). unfold layered_layout.
  set (layers := group_layers nodes).
  assert (Hkeys : forall L, In L (sort_Z (map fst layers)) <->
                            exists n, In n nodes /\ attr_layer n = L).
  { intros L. rewrite <- group_layers_keys. fold layers. split; intros H.
    - eapply Permutation_in; [apply Permutation_sym, sort_Z_perm | exact H].
    - eapply Permutation_in; [apply sort_Z_perm | exact H]. }
  destruct (place_layers_spec layers (sort_Z (map fst layers))) with (pos := @nil (atom * coord))
    as (pos & Hfold & _ & Hlayers).
  - eapply Permutation_NoDup; [apply sort_Z_perm | apply group_layers_NoDup].
  - intros L HL. apply Hkeys in HL. destruct HL as (n & Hin & HLn).
    unfold layer_ready, layers. rewrite group_layers_ids. repeat split.
    + apply forallb_forall. intros x Hx. apply members_In in Hx.
      destruct Hx as (n' & Hin' & _ & <-).
      apply (forallb_In (fun n => is_str (attr_id n)) nodes n' Hstr Hin').
    + apply members_NoDup. exact Hnd.
    + unfold members. rewrite length_map.
      pose proof (filter_length_le (fun n => attr_layer n =? L) nodes). lia.
    + rewrite <- HLn. apply Hfl. exact Hin.
  - intros L L' x _ _ Hne H1 H2. unfold layers in H1, H2.
    rewrite group_layers_ids in H1, H2. apply members_In in H1, H2.
    destruct H1 as (n1 & Hin1 & HL1 & Hid1). destruct H2 as (n2 & Hin2 & HL2 & Hid2).
    assert (n1 = n2) by (apply (NoDup_map_inj attr_id nodes); congruence).
    subst n2. congruence.
  - exists pos. split; [exact Hfold |].
    intros L HL. apply Hkeys in HL. destruct (Hlayers L HL) as (ids & y & Hs & Hy & Hn).
    unfold layers in Hs. rewrite group_layers_ids in Hs.
    exists ids, y. repeat split; assumption.
Qed.

(** C1 (as amended): for nodes with pairwise different string identifiers,
    at most [2^53] of them, whose negated layer numbers convert to floats,
    [layered_layout] returns a position for every node: in every layer [L]
    the member identifiers are put in lexicographic order, and the [i]-th of
    the [n] identifiers (counting from 0) is placed at
    [x = (i - (n - 1) / 2.0) * 2.2] and [y = -L * 2.2], computed in floating
    point, with the one constant [gap] on both axes. *)
Theorem C1_layered_layout (nodes : list nattr) :
  forallb (fun n => is_str (attr_id n)) nodes = true ->
  NoDup (map attr_id nodes) ->
  Z.of_nat (List.length nodes) <= 2 ^ 53 ->
  (forall n, In n nodes -> float_ok (- attr_layer n) = true) ->
  exists pos,
    layered_layout nodes = Ok pos /\
    forall L, (exists n, In n nodes /\ attr_layer n = L) ->
      exists ids,
        Permutation (members nodes L) ids /\
        StronglySorted atom_le ids /\
        forall i nid, nth_error ids i = Some nid ->
          exists fi fn fl,
            float_of_int (Z.of_nat i) = Ok fi /\
            float_of_int (Z.of_nat (List.length ids) - 1) = Ok fn /\
            float_of_int (- L) = Ok fl /\
            assoc nid pos = Some (fmul (fsub fi (fdiv fn two)) gap, fmul fl gap).
Proof.
  intros Hstr Hnd Hsize Hfl.
  destruct (layout_spec nodes) as (pos & Hpos & Hlayers).
  { repeat split; assumption. }
  exists pos. split; [exact Hpos |].
  intros L HL. destruct (Hlayers L HL) as (ids & y & Hsort & Hy & Hnth).
  assert (HstrL : forallb is_str (members nodes L) = true).
  { apply forallb_forall. intros x Hx. apply members_In in Hx.
    destruct Hx as (n' & Hin' & _ & <-).
    apply (forallb_In (fun n => is_str (attr_id n)) nodes n' Hstr Hin'). }
  destruct (py_sorted_str _ HstrL) as (ids' & Hsort' & Hperm & Hsorted).
  rewrite Hsort in Hsort'. injection Hsort' as <-.
  exists ids. split; [exact Hperm |]. split; [exact Hsorted |].
  intros i nid Hi. destruct (Hnth i nid Hi) as (x & Hx & Hassoc).
  assert (Hlt : (i < List.length ids)%nat) by (apply nth_error_Some; congruence).
  assert (Hlen : (List.length ids <= List.length nodes)%nat).
  { rewrite <- (Permutation_length Hperm). unfold members. rewrite length_map.
    apply filter_length_le. }
  destruct (x_coord_Ok (Z.of_nat i) (Z.of_nat (List.length ids)))
    as (fi & fn & Hfi & Hfn & Hx'); [lia | lia |].
  destruct HL as (n & Hin & <-).
  destruct (y_coord_Ok (attr_layer n) (Hfl n Hin)) as (fl & Hfl' & Hy').
  exists fi, fn, fl. repeat split; try assumption.
  rewrite Hassoc. congruence.
Qed.

(** An instance: [B] and [A] in layer 0 and [C] in layer 1. *)
Lemma C1_layered_layout_witness :
  exists pos,
    layered_layout scenario = Ok pos /\
    forall L, (exists n, In n scenario /\ attr_layer n = L) ->
      exists ids,
        Permutation (members scenario L) ids /\
        StronglySorted atom_le ids /\
        forall i nid, nth_error ids i = Some nid ->
          exists fi fn fl,
            float_of_int (Z.of_nat i) = Ok fi /\
            float_of_int (Z.of_nat (List.length ids) - 1) = Ok fn /\
            float_of_int (- L) = Ok fl /\
            assoc nid pos = Some (fmul (fsub fi (fdiv fn two)) gap, fmul fl gap).
Proof.
  apply C1_layered_layout.
  - reflexivity.
  - repeat constructor; simpl; intuition discriminate.
  - simpl. lia.
  - intros n [<- | [<- | [<- | []]]]; reflexivity.
Defined.

(** C1 (counterexample): identifiers that are numbers are put in the order
    of their values, [9] before [10], not in the lexicographic order of
    their digits, in which ["10"] comes first; a layer that holds a string
    and a number has no order at all, and a layer number of [2^1024] has no
    float: in both cases no node gets a coordinate. *)
Lemma C1_counterexample :
  (exists pos,
     layered_layout nine_ten = Ok pos /\
     assoc (AInt 9) pos = Some (fopp half_gap, zero) /\
     assoc (AInt 10) pos = Some (half_gap, zero) /\
     pystr_ltb (str "10") (str "9") = true) /\
  layered_layout mixed_layer = Raise TypeError /\
  layered_layout [far_node] = Raise OverflowError.
Proof.
  split; [| split].
  - eexists. split; [vm_compute; reflexivity |]. split; [reflexivity |].
    split; reflexivity.
  - reflexivity.
  - vm_compute. reflexivity.
Qed.

Lemma layout_perm (nodes nodes' : list nattr) :
  forallb (fun n => is_str (attr_id n)) nodes = true ->
  Permutation (map id_layer nodes) (map id_layer nodes') ->
  layered_layout nodes = layered_layout nodes'.
Proof.
  intros Hstr P. unfold layered_layout. rewrite (layers_perm nodes nodes' P).
  apply foldM_ext. intros pos L. unfold place_layer.
  rewrite !group_layers_ids.
  rewrite (py_sorted_str_perm (members nodes L) (members nodes' L)).
  - reflexivity.
  - apply members_str. exact Hstr.
  - apply members_perm. exact P.
Qed.

(** ** Rounding

    What the multiplication of a converted integer by [2.2] computes: the
    shift that brings the product of the mantissas back to 53 bits, and the
    rounding of what is shifted out. *)

Lemma shr_1_spec (m : Z) (r s : bool) :
  0 <= m ->
  shr_1 {| shr_m := m; shr_r := r; shr_s := s |} =
  {| shr_m := m / 2; shr_r := Z.odd m; shr_s := r || s |}.
Proof.
  intros Hm. destruct m as [| p | p]; [reflexivity | | lia].
  destruct p as [p | p |]; unfold shr_1.
  - rewrite Pos2Z.inj_xI. replace ((2 * Zpos p + 1) / 2) with (Zpos p); [reflexivity |].
    apply Z.div_unique with 1; lia.
  - rewrite Pos2Z.inj_xO. replace ((2 * Zpos p) / 2) with (Zpos p); [reflexivity |].
    apply Z.div_unique with 0; lia.
  - reflexivity.
Qed.

Lemma iter_pos_nat {A : Type} (f : A -> A) (n : positive) (x : A) :
  iter_pos f n x = Nat.iter (Pos.to_nat n) f x.
Proof.
  revert x. induction n as [n IH | n IH |]; intros x; simpl iter_pos.
  - rewrite !IH. rewrite Pos2Nat.inj_xI. 
    replace (S (2 * Pos.to_nat n)) with (Pos.to_nat n + S (Pos.to_nat n))%nat by lia.
    rewrite Nat.iter_add. rewrite Nat.iter_succ_r. reflexivity.
  - rewrite !IH. rewrite Pos2Nat.inj_xO.
    replace (2 * Pos.to_nat n)%nat with (Pos.to_nat n + Pos.to_nat n)%nat by lia.
    rewrite Nat.iter_add. reflexivity.
  - reflexivity.
Qed.

Lemma mod_pow2_succ (m k : Z) :
  0 <= k ->
  m mod 2 ^ (k + 1) = m mod 2 ^ k + 2 ^ k * (if Z.odd (m / 2 ^ k) then 1 else 0).
Proof.
  intros Hk. rewrite Z.pow_add_r by lia. change (2 ^ 1) with 2.
  rewrite Z.rem_mul_r by (try apply Z.pow_nonzero; lia).
  rewrite Zmod_odd. reflexivity.
Qed.

Lemma shr_iter (m : Z) (k : nat) :
  0 <= m ->
  Nat.iter (S k) shr_1 {| shr_m := m; shr_r := false; shr_s := false |} =
  {| shr_m := m / 2 ^ (Z.of_nat (S k));
     shr_r := Z.odd (m / 2 ^ (Z.of_nat k));
     shr_s := negb (m mod 2 ^ (Z.of_nat k) =? 0) |}.
Proof.
  intros Hm. induction k as [| k IH].
  - unfold Nat.iter. cbn [nat_rect]. rewrite shr_1_spec by exact Hm.
    change (Z.of_nat 1) with 1. change (Z.of_nat 0) with 0. 
    rewrite Z.pow_1_r, Z.pow_0_r, Z.div_1_r, Z.mod_1_r. reflexivity.
  - rewrite Nat.iter_succ, IH.
    rewrite shr_1_spec by (apply Z.div_pos; [exact Hm | apply Z.pow_pos_nonneg; lia]).
    f_equal.
    + rewrite Z.div_div by (try apply Z.pow_pos_nonneg; lia).
      rewrite (Nat2Z.inj_succ (S k)), Z.pow_succ_r by lia. 
      f_equal. lia.
    + rewrite (Nat2Z.inj_succ k). unfold Z.succ.
      rewrite (mod_pow2_succ m (Z.of_nat k)) by lia.
      assert (H0 : 0 <= m mod 2 ^ Z.of_nat k) by (apply Z.mod_pos_bound, Z.pow_pos_nonneg; lia).
      assert (H1 : 0 < 2 ^ Z.of_nat k) by (apply Z.pow_pos_nonneg; lia).
      destruct (Z.odd (m / 2 ^ Z.of_nat k)); simpl.
      * symmetry. apply negb_true_iff, Z.eqb_neq. lia.
      * rewrite Z.mul_0_r, Z.add_0_r. reflexivity.
Qed.

(** Rounding to nearest even, as arithmetic on the mantissa. *)
Lemma round_nearest_even_spec (P n : Z) :
  0 <= P -> 1 <= n ->
  let m1 := P / 2 ^ n in
  let m2 := round_nearest_even m1
              (loc_of_shr_record {| shr_m := m1;
                                    shr_r := Z.odd (P / 2 ^ (n - 1));
                                    shr_s := negb (P mod 2 ^ (n - 1) =? 0) |}) in
  m1 <= m2 <= m1 + 1 /\ 2 * Z.abs (m2 * 2 ^ n - P) <= 2 ^ n.
Proof.
  intros HP Hn m1 m2.
  assert (Hpow : 2 ^ n = 2 * 2 ^ (n - 1)).
  { replace n with (Z.succ (n - 1)) at 1 by lia. apply Z.pow_succ_r. lia. }
  assert (Hpos : 0 < 2 ^ (n - 1)) by (apply Z.pow_pos_nonneg; lia).
  pose proof (Z.div_mod P (2 ^ n) ltac:(lia)) as Hdm. fold m1 in Hdm.
  pose proof (mod_pow2_succ P (n - 1) ltac:(lia)) as Hrem.
  replace (n - 1 + 1) with n in Hrem by lia.
  pose proof (Z.mod_pos_bound P (2 ^ (n - 1)) Hpos) as Hlow.
  subst m2. cbn [loc_of_shr_record].
  destruct (Z.odd (P / 2 ^ (n - 1))) eqn:Er;
    destruct (Z.eqb_spec (P mod 2 ^ (n - 1)) 0) as [Es | Es];
    cbn [negb round_nearest_even].
  - destruct (Z.even m1); split; lia.
  - split; lia.
  - split; lia.
  - split; lia.
Qed.

Lemma shr_exact (p : positive) (e0 : Z) (q : positive) :
  shr (shr_record_of_loc (Zpos p) loc_Exact) e0 (Zpos q) =
  ({| shr_m := Zpos p / 2 ^ Zpos q;
      shr_r := Z.odd (Zpos p / 2 ^ (Zpos q - 1));
      shr_s := negb (Zpos p mod 2 ^ (Zpos q - 1) =? 0) |}, e0 + Zpos q).
Proof.
  cbn [shr shr_record_of_loc]. f_equal. rewrite iter_pos_nat.
  destruct (Pos2Nat.is_succ q) as [k Hk]. rewrite Hk.
  rewrite shr_iter by lia.
  assert (Hq : Zpos q = Z.of_nat (S k)) by lia.
  rewrite Hq. replace (Z.of_nat (S k) - 1) with (Z.of_nat k) by lia. reflexivity.
Qed.

Lemma binary_round_aux_spec (s : bool) (p : positive) (e0 : Z) :
  let D := Zpos (digits2_pos p) in
  54 <= D -> -1074 <= D + e0 - 53 -> D + e0 - 52 <= 971 ->
  exists mf ef,
    binary_round_aux prec emax s (Zpos p) e0 loc_Exact = S754_finite s mf ef /\
    digits2_pos mf = 53%positive /\
    e0 + (D - 53) <= ef /\
    2 * Z.abs (Zpos mf * 2 ^ (ef - e0) - Zpos p) <= 2 ^ (D - 53).
Proof.
  intros D HD Hlo Hhi.
  pose proof (digits2_pos_lower p) as Hl. pose proof (digits2_pos_upper p) as Hu.
  fold D in Hl, Hu.
  set (n := D - 53). assert (Hn : 1 <= n) by (subst n; lia).
  assert (HDn : D = n + 53) by (subst n; lia).
  assert (Hpn : 0 < 2 ^ n) by (apply Z.pow_pos_nonneg; lia).
  destruct (round_nearest_even_spec (Zpos p) n ltac:(lia) Hn) as [Hm2 Herr].
  set (m1 := Zpos p / 2 ^ n) in *.
  assert (Hm1 : 2 ^ 52 <= m1 < 2 ^ 53).
  { subst m1. split.
    - apply Z.div_le_lower_bound; [exact Hpn |].
      rewrite <- Z.pow_add_r by lia. replace (n + 52) with (D - 1) by lia. exact Hl.
    - apply Z.div_lt_upper_bound; [exact Hpn |].
      rewrite <- Z.pow_add_r by lia. replace (n + 53) with D by lia. exact Hu. }
  unfold binary_round_aux, shr_fexp. cbn [Zdigits2]. fold D.
  replace (fexp prec emax (D + e0) - e0) with n
    by (unfold fexp, emin, prec, emax; lia).
  destruct n as [| q | q] eqn:En; try lia.
  rewrite shr_exact. cbn [shr_m]. fold m1.
  set (m2 := round_nearest_even m1 _) in *.
  destruct m2 as [| p2 | p2] eqn:Em2; try lia.
  destruct (Z.eq_dec (Zpos p2) (2 ^ 53)) as [Heq | Hne].
  - (* the mantissa carried into a 54th bit *)
    assert (Hp2 : p2 = 9007199254740992%positive) by (change (2 ^ 53) with 9007199254740992 in Heq; lia).
    subst p2. cbn [Zdigits2 digits2_pos Pos.succ].
    replace (fexp prec emax (54 + (e0 + Zpos q)) - (e0 + Zpos q)) with 1
      by (unfold fexp, emin, prec, emax; lia).
    cbn [shr shr_record_of_loc iter_pos shr_1 shr_m].
    replace (e0 + Zpos q + 1 <=? emax - prec) with true
      by (symmetry; apply Z.leb_le; unfold emax, prec; lia).
    eexists. eexists. split; [reflexivity |]. split; [reflexivity |]. split; [lia |].
    replace (e0 + Zpos q + 1 - e0) with (Z.succ (Zpos q)) by lia.
    rewrite Z.pow_succ_r by lia.
    replace (Zpos 4503599627370496 * (2 * 2 ^ Zpos q)) with (2 ^ 53 * 2 ^ Zpos q)
      by (change (2 ^ 53) with 9007199254740992; lia).
    rewrite <- Heq. replace (D - 53) with (Zpos q) by lia. exact Herr.
  - assert (Hd2 : Zpos (digits2_pos p2) = 53) by (apply digits2_pos_unique; lia).
    cbn [Zdigits2]. rewrite Hd2.
    replace (fexp prec emax (53 + (e0 + Zpos q)) - (e0 + Zpos q)) with 0
      by (unfold fexp, emin, prec, emax; lia).
    cbn [shr shr_record_of_loc shr_m].
    replace (e0 + Zpos q <=? emax - prec) with true
      by (symmetry; apply Z.leb_le; unfold emax, prec; lia).
    exists p2, (e0 + Zpos q). split; [reflexivity |]. split; [lia |]. split; [lia |].
    replace (e0 + Zpos q - e0) with (Zpos q) by lia.
    replace (D - 53) with (Zpos q) by lia. exact Herr.
Qed.

Lemma fmul_gap_spec (s : bool) (p : positive) :
  Zpos p <= 2 ^ 52 ->
  exists mf ef,
    fmul (S754_finite s (fst (shl_align p 0 (Zpos (digits2_pos p) - 53)))
                        (Zpos (digits2_pos p) - 53)) gap
      = S754_finite s mf ef /\
    digits2_pos mf = 53%positive /\
    0 <= ef + 104 /\
    2 * Z.abs (Zpos mf * 2 ^ (ef + 104) - Zpos p * Zpos mg * 2 ^ 53) <= 2 ^ 105.
Proof.
  intros Hp.
  assert (Hp53 : Zpos p < 2 ^ 53) by (change (2 ^ 53) with (2 * 2 ^ 52); lia).
  destruct (shl_align_digits p Hp53) as (HdM & _ & HM).
  pose proof (digits2_pos_le_53 p Hp53) as Hdp.
  set (dp := Zpos (digits2_pos p)) in *.
  set (Ma := fst (shl_align p 0 (dp - 53))) in *.
  assert (Hdp0 : 1 <= dp) by (subst dp; lia).
  assert (HMa : 2 ^ 52 <= Zpos Ma < 2 ^ 53).
  { pose proof (digits2_pos_lower Ma). pose proof (digits2_pos_upper Ma).
    rewrite HdM in *. change (53 - 1) with 52 in *. lia. }
  unfold fmul, gap. cbn [SFmul]. rewrite xorb_false_r. fold mg.
  set (P := (Ma * mg)%positive).
  assert (HP : Zpos P = Zpos Ma * Zpos mg) by reflexivity.
  assert (HPlo : 2 ^ 104 <= Zpos P).
  { rewrite HP. change (2 ^ 104) with (2 ^ 52 * 2 ^ 52).
    apply Z.mul_le_mono_nonneg; try lia. unfold mg. change (2 ^ 52) with 4503599627370496. lia. }
  pose proof (digits2_pos_lower P) as HDl. pose proof (digits2_pos_upper P) as HDu.
  set (D := Zpos (digits2_pos P)) in *.
  assert (HD105 : 105 <= D).
  { assert (104 < D); [| lia]. apply pow2_lt_inv; [subst D; lia | lia]. }
  (* P * 2^dp = p * mg * 2^53 *)
  assert (Hscale : Zpos P * 2 ^ dp = Zpos p * Zpos mg * 2 ^ 53).
  { rewrite HP, HM. replace 53 with ((53 - dp) + dp) at 2 by lia.
    rewrite (Z.pow_add_r 2 (53 - dp) dp) by lia. ring. }
  assert (HDdp : D + dp <= 158).
  { assert (D - 1 + dp < 158); [| lia]. apply pow2_lt_inv; [lia |].
    rewrite Z.pow_add_r by lia.
    apply Z.le_lt_trans with (Zpos P * 2 ^ dp).
    - apply Z.mul_le_mono_nonneg_r; [apply Z.pow_nonneg; lia | exact HDl].
    - rewrite Hscale. change (2 ^ 158) with (2 ^ 52 * 2 ^ 53 * 2 ^ 53).
      apply Z.mul_lt_mono_pos_r; [reflexivity |].
      apply Z.le_lt_trans with (2 ^ 52 * Zpos mg).
      + apply Z.mul_le_mono_nonneg_r; lia.
      + apply Z.mul_lt_mono_pos_l; [reflexivity |]. unfold mg. reflexivity. }
  destruct (binary_round_aux_spec s P (dp - 53 + -51)) as (mf & ef & Hr & Hdf & Hef & Herr);
    fold D; try lia.
  exists mf, ef. split; [exact Hr |]. split; [exact Hdf |]. split; [lia |].
  fold D in Hef, Herr.
  rewrite <- Hscale.
  replace (ef + 104) with ((ef - (dp - 53 + -51)) + dp) by lia.
  rewrite Z.pow_add_r by lia.
  assert (Hdp_pos : 0 < 2 ^ dp) by (apply Z.pow_pos_nonneg; lia).
  replace (Zpos mf * (2 ^ (ef - (dp - 53 + -51)) * 2 ^ dp) - Zpos P * 2 ^ dp)
    with ((Zpos mf * 2 ^ (ef - (dp - 53 + -51)) - Zpos P) * 2 ^ dp) by ring.
  rewrite Z.abs_mul, (Z.abs_eq (2 ^ dp)) by lia.
  apply Z.le_trans with (2 ^ (D - 53) * 2 ^ dp).
  - rewrite Z.mul_assoc. apply Z.mul_le_mono_nonneg_r; [lia | exact Herr].
  - rewrite <- Z.pow_add_r by lia. apply Z.pow_le_mono_r; lia.
Qed.

Lemma lex_of_value (m1 m2 : positive) (e1 e2 K : Z) :
  digits2_pos m1 = 53%positive -> digits2_pos m2 = 53%positive ->
  0 <= e1 + K -> 0 <= e2 + K ->
  Zpos m1 * 2 ^ (e1 + K) < Zpos m2 * 2 ^ (e2 + K) ->
  e1 < e2 \/ (e1 = e2 /\ (m1 < m2)%positive).
Proof.
  intros H1 H2 HK1 HK2 Hlt.
  pose proof (digits2_pos_lower m1) as L1. pose proof (digits2_pos_upper m1) as U1.
  pose proof (digits2_pos_lower m2) as L2. pose proof (digits2_pos_upper m2) as U2.
  rewrite H1 in L1, U1. rewrite H2 in L2, U2. change (53 - 1) with 52 in *.
  destruct (Z.lt_trichotomy e1 e2) as [H | [H | H]].
  - left. exact H.
  - right. split; [exact H |]. subst e2.
    apply Z.mul_lt_mono_pos_r in Hlt; [lia | apply Z.pow_pos_nonneg; lia].
  - exfalso.
    assert (Hp : 0 < 2 ^ (e2 + K)) by (apply Z.pow_pos_nonneg; lia).
    assert (Hge : 2 * 2 ^ (e2 + K) <= 2 ^ (e1 + K)).
    { rewrite <- Z.pow_succ_r by lia. apply Z.pow_le_mono_r; lia. }
    assert (Zpos m2 * 2 ^ (e2 + K) < 2 ^ 53 * 2 ^ (e2 + K))
      by (apply Z.mul_lt_mono_pos_r; lia).
    assert (2 ^ 52 * 2 ^ (e1 + K) <= Zpos m1 * 2 ^ (e1 + K))
      by (apply Z.mul_le_mono_nonneg_r; lia).
    change (2 ^ 53) with (2 ^ 52 * 2) in *.
    assert (2 ^ 52 * (2 * 2 ^ (e2 + K)) <= 2 ^ 52 * 2 ^ (e1 + K))
      by (apply Z.mul_le_mono_nonneg_l; lia).
    lia.
Qed.

(** The products of two positive integers up to [2^52] with [2.2], as
    mantissa and exponent. *)
Lemma fmul_gap_increasing (s : bool) (p1 p2 : positive) :
  (p1 < p2)%positive -> Zpos p2 <= 2 ^ 52 ->
  exists m1 e1 m2 e2,
    fmul (S754_finite s (fst (shl_align p1 0 (Zpos (digits2_pos p1) - 53)))
                        (Zpos (digits2_pos p1) - 53)) gap = S754_finite s m1 e1 /\
    fmul (S754_finite s (fst (shl_align p2 0 (Zpos (digits2_pos p2) - 53)))
                        (Zpos (digits2_pos p2) - 53)) gap = S754_finite s m2 e2 /\
    (e1 < e2 \/ (e1 = e2 /\ (m1 < m2)%positive)).
Proof.
  intros Hlt Hp2.
  destruct (fmul_gap_spec s p1) as (m1 & e1 & H1 & D1 & K1 & E1); [lia |].
  destruct (fmul_gap_spec s p2 Hp2) as (m2 & e2 & H2 & D2 & K2 & E2).
  exists m1, e1, m2, e2. split; [exact H1 |]. split; [exact H2 |].
  apply (lex_of_value m1 m2 e1 e2 104 D1 D2 K1 K2).
  unfold mg in E1, E2.
  change (2 ^ 53) with 9007199254740992 in *.
  change (2 ^ 105) with 40564819207303340847894502572032 in *.
  lia.
Qed.

Lemma compare_cont_lt (m1 m2 : positive) :
  (m1 < m2)%positive -> Pos.compare_cont Eq m1 m2 = Lt.
Proof. intros H. change (Pos.compare_cont Eq m1 m2) with (m1 ?= m2)%positive. exact H. Qed.

Lemma compare_cont_gt (m1 m2 : positive) :
  (m2 < m1)%positive -> Pos.compare_cont Eq m1 m2 = Gt.
Proof.
  intros H. change (Pos.compare_cont Eq m1 m2) with (m1 ?= m2)%positive.
  apply Pos.compare_gt_iff. exact H.
Qed.

Lemma y_coord_decreasing (L1 L2 : Z) :
  L1 < L2 -> - 2 ^ 52 <= L1 -> L2 <= 2 ^ 52 ->
  exists y1 y2, y_coord L1 = Ok y1 /\ y_coord L2 = Ok y2 /\ fltb y2 y1 = true.
Proof.
  intros Hlt Hlo Hhi. unfold y_coord, ygap.
  assert (H53 : 2 ^ 52 < 2 ^ 53) by reflexivity.
  destruct L1 as [| p1 | p1], L2 as [| p2 | p2]; try lia; cbn [Z.opp].
  - (* 0 < p2 *)
    rewrite float_of_int_neg by lia. cbn [bind].
    destruct (fmul_gap_spec true p2 Hhi) as (m2 & e2 & -> & _).
    eexists. eexists. split; [reflexivity |]. split; [reflexivity |]. reflexivity.
  - (* 0 < p1 < p2 *)
    rewrite !float_of_int_neg by lia. cbn [bind].
    destruct (fmul_gap_increasing true p1 p2) as (m1 & e1 & m2 & e2 & -> & -> & Hlex);
      [lia | lia |].
    eexists. eexists. split; [reflexivity |]. split; [reflexivity |].
    unfold fltb, SFltb, SFcompare.
    destruct Hlex as [He | [-> Hm]].
    + rewrite (proj2 (Z.compare_gt_iff e2 e1)) by lia. reflexivity.
    + rewrite Z.compare_refl, compare_cont_gt by exact Hm. reflexivity.
  - (* -p1 < 0 *)
    rewrite float_of_int_pos by lia. cbn [bind].
    destruct (fmul_gap_spec false p1) as (m1 & e1 & -> & _); [lia |].
    eexists. eexists. split; [reflexivity |]. split; [reflexivity |]. reflexivity.
  - (* -p1 < 0 < p2 *)
    rewrite float_of_int_pos, float_of_int_neg by lia. cbn [bind].
    destruct (fmul_gap_spec false p1) as (m1 & e1 & -> & _); [lia |].
    destruct (fmul_gap_spec true p2 Hhi) as (m2 & e2 & -> & _).
    eexists. eexists. split; [reflexivity |]. split; [reflexivity |]. reflexivity.
  - (* -p1 < -p2, that is p2 < p1 *)
    rewrite !float_of_int_pos by lia. cbn [bind].
    destruct (fmul_gap_increasing false p2 p1) as (m2 & e2 & m1 & e1 & -> & -> & Hlex);
      [lia | lia |].
    eexists. eexists. split; [reflexivity |]. split; [reflexivity |].
    unfold fltb, SFltb, SFcompare.
    destruct Hlex as [He | [-> Hm]].
    + rewrite (proj2 (Z.compare_lt_iff e2 e1)) by lia. reflexivity.
    + rewrite Z.compare_refl, compare_cont_lt by exact Hm. reflexivity.
Qed.

(** C7 (counterexample): the layers [2^53] and [2^53 + 1] convert to the
    same float, so their nodes get the same y-coordinate: the node of the
    lower layer is not strictly above the other. *)
Lemma C7_counterexample :
  exists pos xa ya xb yb,
    layered_layout tall = Ok pos /\
    assoc (AStr (str "a")) pos = Some (xa, ya) /\
    assoc (AStr (str "b")) pos = Some (xb, yb) /\
    9007199254740992 < 9007199254740993 /\
    ya = yb /\
    fltb yb ya = false.
Proof.
  do 5 eexists. split; [vm_compute; reflexivity |].
  split; [reflexivity |]. split; [reflexivity |]. split; [reflexivity |].
  split; reflexivity.
Qed.

(** ** load_graph: what it accepts and how it fails *)

Lemma mapM_Forall2 {A B : Type} (f : A -> result B) (xs : list A) (ys : list B) :
  mapM f xs = Ok ys <-> Forall2 (fun x y => f x = Ok y) xs ys.
Proof.
  revert ys. induction xs as [| x xs IH]; intros ys; simpl.
  - split.
    + intros H. injection H as <-. constructor.
    + intros H. inversion H. reflexivity.
  - split.
    + destruct (f x) as [y |] eqn:Ex; cbn [bind]; [| discriminate].
      destruct (mapM f xs) as [ys' |] eqn:Em; cbn [bind]; [| discriminate].
      intros H. injection H as <-. constructor; [exact Ex |]. apply IH. reflexivity.
    + intros H. inversion H as [| x0 y l l' Hxy Hrest]; subst.
      rewrite Hxy. cbn [bind]. apply IH in Hrest. rewrite Hrest. reflexivity.
Qed.

Lemma mapM_first_raise {A B : Type} (f : A -> result B) (xs1 xs2 : list A) (x : A)
  (e : exn) :
  (forall x', In x' xs1 -> exists y, f x' = Ok y) ->
  f x = Raise e ->
  mapM f (xs1 ++ x :: xs2) = Raise e.
Proof.
  intros Hok Hx. induction xs1 as [| x1 xs1 IH]; simpl.
  - rewrite Hx. reflexivity.
  - destruct (Hok x1 (or_introl eq_refl)) as [y ->]. cbn [bind].
    rewrite IH; [reflexivity |]. intros x' Hin. apply Hok. right. exact Hin.
Qed.

Lemma mapM_total {A B : Type} (f : A -> result B) (xs : list A) :
  (forall x, In x xs -> exists y, f x = Ok y) -> exists ys, mapM f xs = Ok ys.
Proof.
  induction xs as [| x xs IH]; intros H; simpl.
  - eexists. reflexivity.
  - destruct (H x (or_introl eq_refl)) as [y ->]. cbn [bind].
    destruct IH as [ys ->]; [intros x' Hin; apply H; right; exact Hin |].
    eexists. reflexivity.
Qed.

Lemma Forall2_In_l {A B : Type} (R : A -> B -> Prop) (xs : list A) (ys : list B) (x : A) :
  Forall2 R xs ys -> In x xs -> exists y, In y ys /\ R x y.
Proof.
  induction 1 as [| x0 y0 xs ys Hxy _ IH]; intros Hin; [contradiction |].
  destruct Hin as [<- | Hin].
  - exists y0. split; [left; reflexivity | exact Hxy].
  - destruct (IH Hin) as (y & Hy & HR). exists y. split; [right; exact Hy | exact HR].
Qed.

Lemma norm_node_ok (int_of_str : pystr -> option Z) (r : pyval) :
  (exists n, norm_node int_of_str r = Ok n) <-> node_record_ok int_of_str r = true.
Proof.
  destruct r as [a | l | d].
  - split; [intros [n H]; discriminate H | discriminate].
  - split; [intros [n H]; discriminate H | discriminate].
  - rewrite norm_node_dict. unfold node_record_ok.
    destruct (py_int int_of_str (dict_get d "layer" (PInt 0))) as [z |]; cbn [bind].
    + split; [reflexivity | intros _; eexists; reflexivity].
    + split; [intros [n H]; discriminate H | discriminate].
Qed.

Lemma norm_edge_ok (r : pyval) :
  (exists e, norm_edge r = Ok e) <-> is_dict r = true.
Proof.
  destruct r as [a | l | d].
  - split; [intros [n H]; discriminate H | discriminate].
  - split; [intros [n H]; discriminate H | discriminate].
  - split; [reflexivity | intros _; eexists; reflexivity].
Qed.

Lemma load_graph_lists (int_of_str : pystr -> option Z) (data : pyval)
  (g : list (pystr * pyval)) (rs : list pyval) :
  py_get data "graph_state" data = Ok (PDict g) ->
  dict_get g "nodes" (PList []) = PList rs ->
  load_graph int_of_str data =
  (norm_nodes <- mapM (norm_node int_of_str) rs ;;
   es <- py_iter (dict_get g "edges" (PList [])) ;;
   norm_edges <- mapM norm_edge es ;;
   Ok (norm_nodes, norm_edges)).
Proof.
  intros Hgs Hn. unfold load_graph. rewrite Hgs. cbn [py_get bind py_iter].
  rewrite Hn. reflexivity.
Qed.

(** X1: a document with a [graph_state] member is read through that member
    and nothing else of the document counts.  [load_graph] gives on the
    document what it gives on the value of [graph_state], result and
    exception alike, as long as that value has no [graph_state] member of
    its own: the wrapper is opened once, not repeatedly. *)
Theorem load_graph_wrapper (int_of_str : pystr -> option Z)
  (d : list (pystr * pyval)) (gs : pyval) :
  lookup (str "graph_state") d = Some gs ->
  (forall d', gs = PDict d' -> lookup (str "graph_state") d' = None) ->
  load_graph int_of_str (PDict d) = load_graph int_of_str gs.
Proof.
  intros Hgs Hin.
  assert (Hg : dict_get d "graph_state" (PDict d) = gs)
    by (unfold dict_get; rewrite Hgs; reflexivity).
  unfold load_graph. cbn [py_get bind]. rewrite Hg.
  destruct gs as [a | l | d']; try reflexivity.
  assert (Hg' : dict_get d' "graph_state" (PDict d') = PDict d')
    by (unfold dict_get; rewrite (Hin d' eq_refl); reflexivity).
  cbn [py_get bind]. rewrite Hg'. reflexivity.
Qed.

(** The wrapper of [doc_wrapped] hides its own [nodes]. *)
Lemma load_graph_wrapper_witness :
  load_graph decimal_int_of_str doc_wrapped = load_graph decimal_int_of_str doc_abc.
Proof.
  apply (load_graph_wrapper decimal_int_of_str
           (map (fun kv => (str (fst kv), snd kv))
                [("nodes"%string, PList [obj [("id"%string, jstr "z")]]);
                 ("graph_state"%string, doc_abc)])
           doc_abc).
  - reflexivity.
  - intros d' H. injection H as <-. reflexivity.
Defined.

(** X2: when the nodes and the edges of a document are lists, [load_graph]
    returns exactly when every node record is an object whose layer [int]
    accepts and every edge record is an object.  The lists it returns then
    hold the normalisation of each record, one per record and in the order
    of the document. *)
Theorem load_graph_succeeds_iff (int_of_str : pystr -> option Z) (data : pyval)
  (g : list (pystr * pyval)) (rs es : list pyval) :
  py_get data "graph_state" data = Ok (PDict g) ->
  dict_get g "nodes" (PList []) = PList rs ->
  dict_get g "edges" (PList []) = PList es ->
  ((exists nodes edges, load_graph int_of_str data = Ok (nodes, edges)) <->
   forallb (node_record_ok int_of_str) rs = true /\ forallb is_dict es = true) /\
  (forall nodes edges,
      load_graph int_of_str data = Ok (nodes, edges) ->
      Forall2 (fun r n => norm_node int_of_str r = Ok n) rs nodes /\
      Forall2 (fun r e => norm_edge r = Ok e) es edges).
Proof.
  intros Hgs Hn He. rewrite (load_graph_lists int_of_str data g rs Hgs Hn), He.
  cbn [py_iter bind]. split; [split |].
  - intros (nodes & edges & H).
    destruct (mapM (norm_node int_of_str) rs) as [ns |] eqn:En; cbn [bind] in H;
      [| discriminate].
    destruct (mapM norm_edge es) as [es' |] eqn:Ee; cbn [bind] in H; [| discriminate].
    apply mapM_Forall2 in En, Ee. split; apply forallb_forall.
    + intros r Hr. apply norm_node_ok.
      destruct (Forall2_In_l _ _ _ _ En Hr) as (n & _ & Hn'). exists n. exact Hn'.
    + intros r Hr. apply norm_edge_ok.
      destruct (Forall2_In_l _ _ _ _ Ee Hr) as (n & _ & Hn'). exists n. exact Hn'.
  - intros [Hrs Hes].
    destruct (mapM_total (norm_node int_of_str) rs) as [ns ->].
    { intros r Hr. apply norm_node_ok. apply (forallb_In _ _ _ Hrs Hr). }
    destruct (mapM_total norm_edge es) as [es' ->].
    { intros r Hr. apply norm_edge_ok. apply (forallb_In _ _ _ Hes Hr). }
    exists ns, es'. reflexivity.
  - intros nodes edges H.
    destruct (mapM (norm_node int_of_str) rs) as [ns |] eqn:En; cbn [bind] in H;
      [| discriminate].
    destruct (mapM norm_edge es) as [es' |] eqn:Ee; cbn [bind] in H; [| discriminate].
    injection H as <- <-. split; apply mapM_Forall2; assumption.
Qed.

(** [doc_abc] is loaded; [doc_bad_layer], whose layer is a word, is not. *)
Lemma load_graph_succeeds_iff_witness :
  (exists nodes edges, load_graph decimal_int_of_str doc_abc = Ok (nodes, edges)) /\
  ~ (exists nodes edges, load_graph decimal_int_of_str doc_bad_layer = Ok (nodes, edges)).
Proof.
  split.
  - apply (proj1 (load_graph_succeeds_iff decimal_int_of_str doc_abc _ _ _
                    eq_refl eq_refl eq_refl)).
    split; reflexivity.
  - intros H.
    apply (proj1 (load_graph_succeeds_iff decimal_int_of_str doc_bad_layer _ _ _
                    eq_refl eq_refl eq_refl)) in H.
    destruct H as [H _]. discriminate H.
Defined.

(** X3: the first node record that cannot be normalised decides the
    outcome.  When the records before it can be normalised, [load_graph]
    raises the exception of that record, whatever the later records and the
    edges are; the exception is [AttributeError] when the record is not an
    object; and [main] ends with that exception uncaught. *)
Theorem load_graph_first_error (int_of_str : pystr -> option Z) (data : pyval)
  (g : list (pystr * pyval)) (rs1 rs2 : list pyval) (r : pyval) (e : exn) :
  py_get data "graph_state" data = Ok (PDict g) ->
  dict_get g "nodes" (PList []) = PList (rs1 ++ r :: rs2) ->
  forallb (node_record_ok int_of_str) rs1 = true ->
  norm_node int_of_str r = Raise e ->
  load_graph int_of_str data = Raise e /\
  (is_dict r = false -> e = AttributeError) /\
  forall outp w h font, main int_of_str data outp w h font = uncaught e.
Proof.
  intros Hgs Hn Hok Hr.
  assert (Hload : load_graph int_of_str data = Raise e).
  { rewrite (load_graph_lists int_of_str data g _ Hgs Hn).
    rewrite (mapM_first_raise (norm_node int_of_str) rs1 rs2 r e); [reflexivity | | exact Hr].
    intros r' Hin. apply norm_node_ok. apply (forallb_In _ _ _ Hok Hin). }
  split; [exact Hload |]. split.
  - intros Hd. destruct r as [a | l | d]; try discriminate Hd.
    + cbn in Hr. injection Hr as <-. reflexivity.
    + cbn in Hr. injection Hr as <-. reflexivity.
  - intros outp w h font. unfold main. rewrite Hload. reflexivity.
Qed.

(** In [doc_two_faults] the string among the node records is met first. *)
Lemma load_graph_first_error_witness :
  load_graph decimal_int_of_str doc_two_faults = Raise AttributeError /\
  forall outp w h font,
    main decimal_int_of_str doc_two_faults outp w h font = uncaught AttributeError.
Proof.
  destruct (load_graph_first_error decimal_int_of_str doc_two_faults
              (map (fun kv => (str (fst kv), snd kv))
                   [("nodes"%string,
                     PList [obj [("id"%string, jstr "a")]; jstr "b"; obj record_bad_layer]);
                    ("edges"%string, PInt 5)])
              [obj [("id"%string, jstr "a")]] [obj record_bad_layer] (jstr "b")
              AttributeError)
    as (H1 & _ & H2).
  - reflexivity.
  - reflexivity.
  - reflexivity.
  - reflexivity.
  - split; [exact H1 | exact H2].
Defined.

Lemma mapM_head_raise {A B : Type} (f : A -> result B) (x : A) (xs : list A) (e : exn) :
  f x = Raise e -> mapM f (x :: xs) = Raise e.
Proof. intros H. cbn [mapM]. rewrite H. reflexivity. Qed.

(** X4: [nodes] must be a list.  When it is a non-empty object or a
    non-empty string, [load_graph] raises [AttributeError], for what the
    loop meets are strings; when it is a number, a boolean or [null] it
    raises [TypeError]; and an empty object or an empty string counts as no
    node at all, so that the run draws nothing. *)
Theorem load_graph_nodes_not_a_list (int_of_str : pystr -> option Z) (data : pyval)
  (g : list (pystr * pyval)) (v : pyval) :
  py_get data "graph_state" data = Ok (PDict g) ->
  dict_get g "nodes" (PList []) = v ->
  (forall kv d, v = PDict (kv :: d) ->
     load_graph int_of_str data = Raise AttributeError) /\
  (forall c s, v = PAtom (AStr (c :: s)) ->
     load_graph int_of_str data = Raise AttributeError) /\
  (forall a, v = PAtom a -> is_str a = false ->
     load_graph int_of_str data = Raise TypeError) /\
  (v = PDict [] \/ v = PAtom (AStr []) ->
     (forall nodes edges, load_graph int_of_str data = Ok (nodes, edges) -> nodes = []) /\
     forall outp w h font,
       image (main int_of_str data outp w h font) = None /\
       status (main int_of_str data outp w h font) <> 0).
Proof.
  intros Hgs Hv.
  assert (Hload : load_graph int_of_str data =
                  (ns <- py_iter v ;;
                   norm_nodes <- mapM (norm_node int_of_str) ns ;;
                   es <- py_iter (dict_get g "edges" (PList [])) ;;
                   norm_edges <- mapM norm_edge es ;;
                   Ok (norm_nodes, norm_edges))).
  { unfold load_graph. rewrite Hgs. cbn [py_get bind]. rewrite Hv. reflexivity. }
  split; [| split; [| split]].
  - intros kv d ->. rewrite Hload. cbn [py_iter map bind].
    rewrite (mapM_head_raise _ _ _ AttributeError); reflexivity.
  - intros c s ->. rewrite Hload. cbn [py_iter map bind].
    rewrite (mapM_head_raise _ _ _ AttributeError); reflexivity.
  - intros a -> Ha. rewrite Hload. destruct a; try discriminate Ha; reflexivity.
  - intros Hempty.
    assert (Hnil : py_iter v = Ok []) by (destruct Hempty as [-> | ->]; reflexivity).
    assert (Hres : forall nodes edges,
               load_graph int_of_str data = Ok (nodes, edges) -> nodes = []).
    { intros nodes edges. rewrite Hload, Hnil. cbn [bind mapM].
      destruct (py_iter (dict_get g "edges" (PList []))) as [es |]; cbn [bind];
        [| discriminate].
      destruct (mapM norm_edge es); cbn [bind]; [| discriminate].
      intros H. injection H as <- _. reflexivity. }
    split; [exact Hres |]. intros outp w h font. unfold main.
    destruct (load_graph int_of_str data) as [[nodes edges] | e] eqn:E.
    + rewrite (Hres nodes edges eq_refl). cbn [is_empty orb nothing_to_draw image status].
      split; [reflexivity | discriminate].
    + cbn [uncaught image status]. split; [reflexivity | discriminate].
Qed.

(** [doc_keyed] gives its nodes as an object keyed by identifier. *)
Lemma load_graph_nodes_not_a_list_witness :
  load_graph decimal_int_of_str doc_keyed = Raise AttributeError.
Proof.
  apply (proj1 (load_graph_nodes_not_a_list decimal_int_of_str doc_keyed
                  (map (fun kv => (str (fst kv), snd kv))
                     [("nodes"%string,
                       obj [("a"%string, obj [("layer"%string, PInt 0)])]);
                      ("edges"%string,
                       PList [obj [("source"%string, jstr "a");
                                   ("target"%string, jstr "a")]])])
                  (obj [("a"%string, obj [("layer"%string, PInt 0)])])
                  eq_refl eq_refl)
               (str "a", obj [("layer"%string, PInt 0)]) []).
  reflexivity.
Defined.

(** ** build_graph: nodes and edges of the graph *)

Lemma forallb_same {A : Type} (f g : A -> bool) (l : list A) :
  (forall x, f x = g x) -> forallb f l = forallb g l.
Proof.
  intros H. induction l as [| x l IH]; simpl; [reflexivity |].
  rewrite H, IH. reflexivity.
Qed.

Lemma add_nodes_hashable (nodes : list node) (G G' : nx.DiGraph) :
  foldM add_node_of nodes G = Ok G' ->
  forall n, In n nodes -> is_atom (node_id n) = true.
Proof.
  revert G. induction nodes as [| n nodes IH]; intros G H n' Hin; [contradiction |].
  cbn [foldM] in H. destruct (add_node_of G n) as [G1 |] eqn:E; cbn [bind] in H;
    [| discriminate].
  destruct Hin as [<- | Hin]; [| apply (IH G1 H n' Hin)].
  unfold add_node_of in E. destruct (node_id n); try discriminate E. reflexivity.
Qed.

Lemma add_nodes_valid_inv (nodes : list node) (G G' : nx.DiGraph) :
  nx.has_node G ANone = false ->
  foldM add_node_of nodes G = Ok G' ->
  forallb (fun n => valid_key (node_id n)) nodes = true.
Proof.
  intros HN H. apply forallb_forall. intros n Hin.
  pose proof (add_nodes_hashable nodes G G' H n Hin) as Hat.
  destruct (add_nodes_spec nodes G G' H) as (_ & _ & _ & Hnone).
  destruct (Hnone HN) as [_ Hne]. specialize (Hne n Hin).
  unfold valid_key. destruct (node_id n) as [a | |]; try discriminate Hat.
  destruct a; try reflexivity. exfalso. apply Hne. reflexivity.
Qed.

Lemma add_edge_of_ok (G : nx.DiGraph) (e : edge) :
  (exists G', add_edge_of G e = Ok G') <-> guard_ok G e = true.
Proof.
  unfold add_edge_of, guard_ok, nx.contains.
  destruct (edge_source e) as [s | |]; cbn [hashable bind];
    try (split; [intros [G' H]; discriminate H | discriminate]).
  destruct (nx.has_node G s).
  - destruct (edge_target e) as [t | |]; cbn [hashable bind is_atom];
      try (split; [intros [G' H]; discriminate H | discriminate]).
    split; [reflexivity |]. intros _. destruct (nx.has_node G t); eexists; reflexivity.
  - split; [reflexivity | intros _; eexists; reflexivity].
Qed.

Lemma guard_ok_same_nodes (G G' : nx.DiGraph) (e : edge) :
  nx._node G' = nx._node G -> guard_ok G' e = guard_ok G e.
Proof. intros H. unfold guard_ok, nx.has_node. rewrite H. reflexivity. Qed.

Lemma add_edges_ok (edges : list edge) (G : nx.DiGraph) :
  (exists G', foldM add_edge_of edges G = Ok G') <-> forallb (guard_ok G) edges = true.
Proof.
  revert G. induction edges as [| e edges IH]; intros G; cbn [foldM forallb].
  - split; [reflexivity | intros _; eexists; reflexivity].
  - split.
    + intros [G' H]. destruct (add_edge_of G e) as [G1 |] eqn:E; cbn [bind] in H;
        [| discriminate].
      apply andb_true_iff. split.
      * apply add_edge_of_ok. exists G1. exact E.
      * rewrite (forallb_same (guard_ok G) (guard_ok G1)).
        -- apply IH. exists G'. exact H.
        -- intros e'. symmetry. apply guard_ok_same_nodes.
           apply (add_edge_of_nodes G G1 e E).
    + intros H. apply andb_true_iff in H. destruct H as [He Hes].
      apply add_edge_of_ok in He. destruct He as [G1 E]. rewrite E. cbn [bind].
      apply IH. rewrite (forallb_same (guard_ok G1) (guard_ok G)); [exact Hes |].
      intros e'. apply guard_ok_same_nodes. apply (add_edge_of_nodes G G1 e E).
Qed.

(** X5: [build_graph] returns a graph exactly when every node identifier
    is hashable and not [None], and every edge record has a hashable source
    and, if that source is the identifier of a node, a hashable target.  The
    target of an edge whose source is no node is never looked at. *)
Theorem build_graph_succeeds_iff (nodes : list node) (edges : list edge) :
  (exists G, build_graph nodes edges = Ok G) <->
  forallb (fun n => valid_key (node_id n)) nodes = true /\
  forallb (edge_ok nodes) edges = true.
Proof.
  unfold build_graph. split.
  - intros [G H].
    destruct (foldM add_node_of nodes nx.empty) as [G0 |] eqn:E0; cbn [bind] in H;
      [| discriminate].
    split; [apply (add_nodes_valid_inv nodes nx.empty G0 eq_refl E0) |].
    destruct (add_nodes_spec nodes nx.empty G0 E0) as (HN & _).
    rewrite (forallb_same (edge_ok nodes) (guard_ok G0)).
    + apply add_edges_ok. exists G. exact H.
    + intros e. unfold edge_ok, guard_ok. destruct (edge_source e) as [s | |]; try reflexivity.
      rewrite HN. change (nx.has_node nx.empty s) with false.
      rewrite orb_false_r. reflexivity.
  - intros [Hn He].
    destruct (add_nodes_valid nodes nx.empty) as [G0 E0].
    { intros n Hin. apply (forallb_In _ _ _ Hn Hin). }
    rewrite E0. cbn [bind].
    destruct (add_nodes_spec nodes nx.empty G0 E0) as (HN & _).
    apply add_edges_ok. rewrite (forallb_same (guard_ok G0) (edge_ok nodes)); [exact He |].
    intros e. unfold edge_ok, guard_ok. destruct (edge_source e) as [s | |]; try reflexivity.
    rewrite HN. change (nx.has_node nx.empty s) with false.
    rewrite orb_false_r. reflexivity.
Qed.

(** An unhashable target is harmless after a source that is no node, and
    fatal after the node [a]. *)
Lemma build_graph_succeeds_iff_witness :
  (exists G, build_graph nodes_ab [edge_ab; edge_ghost_list] = Ok G) /\
  ~ (exists G, build_graph nodes_ab [edge_ab; edge_a_list] = Ok G).
Proof.
  split.
  - apply (proj2 (build_graph_succeeds_iff nodes_ab [edge_ab; edge_ghost_list])).
    split; reflexivity.
  - intros H. apply (proj1 (build_graph_succeeds_iff nodes_ab [edge_ab; edge_a_list])) in H.
    destruct H as [_ H]. discriminate H.
Defined.

(** *** Nodes of the graph *)

Lemma add_node_of_keys (G G' : nx.DiGraph) (n : node) :
  add_node_of G n = Ok G' ->
  node_id n = PAtom (node_key n) /\
  nx.nodes G' = nx.nodes G ++ first_keys (nx.nodes G) [node_key n].
Proof.
  unfold add_node_of, node_key. destruct (node_id n) as [k | |]; try discriminate.
  cbn [hashable bind]. unfold nx.add_node. intros H. split; [reflexivity |].
  cbn [first_keys]. rewrite <- has_node_keys.
  destruct (nx.has_node G k) eqn:Hk.
  - injection H as <-. unfold nx.nodes. cbn [nx._node]. rewrite assoc_set_keys.
    unfold nx.has_node in Hk. destruct (assoc k (nx._node G)); [| discriminate].
    symmetry. apply app_nil_r.
  - destruct k; try discriminate; injection H as <-; unfold nx.nodes; cbn [nx._node];
      rewrite map_app; reflexivity.
Qed.

Lemma add_nodes_keys (nodes : list node) (G G' : nx.DiGraph) :
  foldM add_node_of nodes G = Ok G' ->
  nx.nodes G' = nx.nodes G ++ first_keys (nx.nodes G) (map node_key nodes).
Proof.
  revert G. induction nodes as [| n nodes IH]; intros G; cbn [foldM map first_keys].
  - intros H. injection H as <-. symmetry. apply app_nil_r.
  - destruct (add_node_of G n) as [G1 |] eqn:E; cbn [bind]; [| discriminate].
    intros H. apply IH in H. destruct (add_node_of_keys G G1 n E) as [_ H1].
    cbn [first_keys] in H1. rewrite H. rewrite H1.
    destruct (existsb (atom_eqb (node_key n)) (nx.nodes G)).
    + rewrite app_nil_r. reflexivity.
    + rewrite <- app_assoc. reflexivity.
Qed.

(** X6: the nodes of the built graph are the identifiers of the node
    records, each once, in the order in which they first occur; no two of
    them are equal and [None] is never a node. *)
Theorem build_graph_node_order (nodes : list node) (edges : list edge) (G : nx.DiGraph) :
  build_graph nodes edges = Ok G ->
  (forall n, In n nodes -> node_id n = PAtom (node_key n)) /\
  nx.nodes G = first_keys [] (map node_key nodes) /\
  distinct (nx.nodes G) /\
  nx.has_node G ANone = false.
Proof.
  intros HG. destruct (build_graph_unique nodes edges G HG) as [Hal [Hd _]].
  unfold build_graph in HG.
  destruct (foldM add_node_of nodes nx.empty) as [G0 |] eqn:E0; cbn [bind] in HG;
    [| discriminate].
  pose proof (add_edges_nodes edges G0 G HG) as Hnodes.
  split; [| split; [| split]].
  - intros n Hin. pose proof (add_nodes_hashable nodes nx.empty G0 E0 n Hin) as Hat.
    unfold node_key. destruct (node_id n); try discriminate Hat. reflexivity.
  - unfold nx.nodes. rewrite Hnodes. apply (add_nodes_keys nodes nx.empty G0 E0).
  - unfold nx.nodes. rewrite Hal. exact Hd.
  - destruct (add_nodes_spec nodes nx.empty G0 E0) as (_ & _ & _ & HN).
    unfold nx.has_node. rewrite Hnodes. apply (HN eq_refl).
Qed.

(** A second record for [a] adds no node. *)
Lemma build_graph_node_order_witness :
  nx.nodes (graph_of (nodes_ab ++ [node_a_again]) []) = [AStr (str "a"); AStr (str "b")] /\
  nx.has_node (graph_of (nodes_ab ++ [node_a_again]) []) ANone = false.
Proof.
  destruct (build_graph_node_order (nodes_ab ++ [node_a_again]) []
              (graph_of (nodes_ab ++ [node_a_again]) []))
    as (_ & H1 & _ & H2).
  - reflexivity.
  - split; [exact H1 | exact H2].
Defined.

(** *** Attributes of a node given twice *)

Lemma add_node_of_stores (G G' : nx.DiGraph) (n : node) (k : atom) :
  add_node_of G n = Ok G' -> node_id n = PAtom k ->
  assoc k (nx._node G') = Some (attrs_of n).
Proof.
  unfold add_node_of, attrs_of, node_key. intros H Hk. rewrite Hk in *.
  cbn [hashable bind] in H. unfold nx.add_node in H.
  destruct (nx.has_node G k) eqn:Hn.
  - injection H as <-. cbn [nx._node]. rewrite assoc_set_get, atom_eqb_refl. reflexivity.
  - unfold nx.has_node in Hn.
    destruct k; try discriminate; injection H as <-; cbn [nx._node];
      rewrite assoc_app; destruct (assoc _ (nx._node G)); try discriminate;
      cbn [assoc]; rewrite atom_eqb_refl; reflexivity.
Qed.

Lemma add_node_of_keeps (G G' : nx.DiGraph) (n : node) (k : atom) :
  add_node_of G n = Ok G' -> is_id k n = false ->
  assoc k (nx._node G') = assoc k (nx._node G).
Proof.
  unfold add_node_of, is_id. destruct (node_id n) as [k' | |]; try discriminate.
  cbn [hashable bind]. unfold nx.add_node. intros H Hk.
  destruct (nx.has_node G k').
  - injection H as <-. cbn [nx._node]. rewrite assoc_set_get, Hk. reflexivity.
  - destruct k'; try discriminate; injection H as <-; cbn [nx._node];
      rewrite assoc_app; cbn [assoc]; rewrite Hk;
      destruct (assoc k (nx._node G)); reflexivity.
Qed.

Lemma add_nodes_keep (nodes : list node) (G G' : nx.DiGraph) (k : atom) :
  foldM add_node_of nodes G = Ok G' ->
  (forall n, In n nodes -> is_id k n = false) ->
  assoc k (nx._node G') = assoc k (nx._node G).
Proof.
  revert G. induction nodes as [| n nodes IH]; intros G; cbn [foldM].
  - intros H _. injection H as <-. reflexivity.
  - destruct (add_node_of G n) as [G1 |] eqn:E; cbn [bind]; [| discriminate].
    intros H Hk. rewrite (IH G1 H (fun n' Hin => Hk n' (or_intror Hin))).
    apply (add_node_of_keeps G G1 n k E). apply Hk. left. reflexivity.
Qed.

(** X7: when several node records have the same identifier, the graph
    stores the name, layer and kind of the last of them. *)
Theorem build_graph_last_record_wins (ns1 ns2 : list node) (n : node)
  (edges : list edge) (G : nx.DiGraph) (k : atom) :
  build_graph (ns1 ++ n :: ns2) edges = Ok G ->
  node_id n = PAtom k ->
  (forall n', In n' ns2 -> is_id k n' = false) ->
  assoc k (nx._node G) = Some (attrs_of n).
Proof.
  intros HG Hk Hlast. unfold build_graph in HG.
  destruct (foldM add_node_of (ns1 ++ n :: ns2) nx.empty) as [G0 |] eqn:E0;
    cbn [bind] in HG; [| discriminate].
  rewrite (add_edges_nodes edges G0 G HG).
  rewrite foldM_app in E0.
  destruct (foldM add_node_of ns1 nx.empty) as [G1 |]; cbn [bind foldM] in E0;
    [| discriminate].
  destruct (add_node_of G1 n) as [G2 |] eqn:E2; cbn [bind] in E0; [| discriminate].
  rewrite (add_nodes_keep ns2 G2 G0 k E0 Hlast).
  apply (add_node_of_stores G1 G2 n k E2 Hk).
Qed.

(** The second record for [a] replaces the attributes of the first. *)
Lemma build_graph_last_record_wins_witness :
  assoc (AStr (str "a")) (nx._node (graph_of (nodes_ab ++ [node_a_again]) []))
  = Some (attrs_of node_a_again).
Proof.
  apply (build_graph_last_record_wins nodes_ab [] node_a_again []).
  - reflexivity.
  - reflexivity.
  - intros n' [].
Defined.

(** *** Edges of the graph *)

Lemma assoc_set_shape {V : Type} (k : atom) (v : V) (d : list (atom * V)) :
  match assoc k d with
  | Some v0 =>
      exists d1 k0 d2,
        d = d1 ++ (k0, v0) :: d2 /\ atom_eqb k k0 = true /\
        assoc_set k v d = d1 ++ (k0, v) :: d2
  | None => assoc_set k v d = d ++ [(k, v)]
  end.
Proof.
  induction d as [| [k1 v1] d IH]; cbn [assoc assoc_set].
  - reflexivity.
  - destruct (atom_eqb k k1) eqn:E.
    + exists [], k1, d. repeat split. exact E.
    + destruct (assoc k d) as [v0 |].
      * destruct IH as (d1 & k0 & d2 & -> & Hk & ->).
        exists ((k1, v1) :: d1), k0, d2. repeat split. exact Hk.
      * rewrite IH. reflexivity.
Qed.

Lemma add_edge_edges (G : nx.DiGraph) (s t : atom) (e : edge) (nbrs : list (atom * edge)) :
  assoc s (nx._succ G) = Some nbrs ->
  exists l1 l2 s' mid mid',
    nx.edges G = l1 ++ mid ++ l2 /\
    nx.edges (nx.add_edge G s t e) = l1 ++ mid' ++ l2 /\
    atom_eqb s s' = true /\
    ((exists m1 t' d0 m2, atom_eqb t t' = true /\
        mid = m1 ++ (s', t', d0) :: m2 /\ mid' = m1 ++ (s', t', e) :: m2) \/
     (assoc t nbrs = None /\ mid' = mid ++ [(s', t, e)])).
Proof.
  intros Hs. unfold nx.add_edge. rewrite Hs. unfold nx.edges. cbn [nx._succ].
  pose proof (assoc_set_shape s (assoc_set t e nbrs) (nx._succ G)) as Hshape.
  rewrite Hs in Hshape. destruct Hshape as (d1 & s' & d2 & Hd & Hss & ->).
  rewrite Hd. rewrite !flat_map_app. cbn [flat_map fst snd].
  exists (flat_map (fun un => map (fun vd => (fst un, fst vd, snd vd)) (snd un)) d1),
         (flat_map (fun un => map (fun vd => (fst un, fst vd, snd vd)) (snd un)) d2),
         s',
         (map (fun vd : atom * edge => (s', fst vd, snd vd)) nbrs),
         (map (fun vd : atom * edge => (s', fst vd, snd vd)) (assoc_set t e nbrs)).
  split; [reflexivity |]. split; [reflexivity |]. split; [exact Hss |].
  pose proof (assoc_set_shape t e nbrs) as Hn.
  destruct (assoc t nbrs) as [d0 |].
  - left. destruct Hn as (m1 & t' & m2 & -> & Htt & ->).
    exists (map (fun vd : atom * edge => (s', fst vd, snd vd)) m1), t', d0,
           (map (fun vd : atom * edge => (s', fst vd, snd vd)) m2).
    split; [exact Htt |]. rewrite !map_app. split; reflexivity.
  - right. split; [reflexivity |]. rewrite Hn, map_app. reflexivity.
Qed.

Lemma add_edge_In (G : nx.DiGraph) (s t : atom) (e : edge) (u v : atom) (d : edge) :
  In (u, v, d) (nx.edges (nx.add_edge G s t e)) ->
  In (u, v, d) (nx.edges G) \/
  (d = e /\ atom_eqb s u = true /\ atom_eqb t v = true).
Proof.
  destruct (assoc s (nx._succ G)) as [nbrs |] eqn:Hs.
  - destruct (add_edge_edges G s t e nbrs Hs)
      as (l1 & l2 & s' & mid & mid' & -> & -> & Hss & Hmid).
    rewrite !in_app_iff.
    destruct Hmid as [(m1 & t' & d0 & m2 & Htt & -> & ->) | [_ ->]].
    + rewrite !in_app_iff. cbn [In].
      intros [H | [[H | [H | H]] | H]]; try tauto.
      injection H as <- <- <-. right. repeat split; assumption.
    + rewrite !in_app_iff. cbn [In].
      intros [H | [[H | [H | []]] | H]]; try tauto.
      injection H as <- <- <-. right. repeat split; [exact Hss | apply atom_eqb_refl].
  - unfold nx.add_edge. rewrite Hs. tauto.
Qed.

Lemma add_edge_length (G : nx.DiGraph) (s t : atom) (e : edge) :
  (List.length (nx.edges (nx.add_edge G s t e)) <= S (List.length (nx.edges G)))%nat.
Proof.
  destruct (assoc s (nx._succ G)) as [nbrs |] eqn:Hs.
  - destruct (add_edge_edges G s t e nbrs Hs)
      as (l1 & l2 & s' & mid & mid' & -> & -> & _ & Hmid).
    destruct Hmid as [(m1 & t' & d0 & m2 & _ & -> & ->) | [_ ->]];
      rewrite !length_app; cbn [List.length]; try rewrite !length_app;
      cbn [List.length]; lia.
  - unfold nx.add_edge. rewrite Hs. lia.
Qed.

Lemma add_edge_of_cases (G G' : nx.DiGraph) (e : edge) :
  add_edge_of G e = Ok G' ->
  G' = G \/
  exists s t, edge_source e = PAtom s /\ edge_target e = PAtom t /\
              nx.has_node G s = true /\ nx.has_node G t = true /\
              G' = nx.add_edge G s t e.
Proof.
  unfold add_edge_of, nx.contains.
  destruct (edge_source e) as [s | |]; cbn [hashable bind]; try discriminate.
  destruct (nx.has_node G s) eqn:Hs; [| intros H; injection H as <-; left; reflexivity].
  destruct (edge_target e) as [t | |]; cbn [hashable bind]; try discriminate.
  destruct (nx.has_node G t) eqn:Ht; [| intros H; injection H as <-; left; reflexivity].
  intros H. injection H as <-. right. exists s, t. repeat split; assumption.
Qed.

Lemma add_edges_from_records (edges done : list edge) (G G' : nx.DiGraph) :
  foldM add_edge_of edges G = Ok G' ->
  (forall u v d, In (u, v, d) (nx.edges G) ->
                 In d done /\ links u v d = true /\ kept G d = true) ->
  (forall u v d, In (u, v, d) (nx.edges G') ->
                 In d (done ++ edges) /\ links u v d = true /\ kept G' d = true) /\
  (List.length (nx.edges G') <= List.length (nx.edges G) + List.length edges)%nat.
Proof.
  revert done G. induction edges as [| e edges IH]; intros done G; cbn [foldM].
  - intros H Hinv. injection H as <-. rewrite app_nil_r. split; [exact Hinv | lia].
  - destruct (add_edge_of G e) as [G1 |] eqn:E; cbn [bind]; [| discriminate].
    intros H Hinv.
    pose proof (add_edge_of_nodes G G1 e E) as Hn.
    assert (Hinv1 : forall u v d, In (u, v, d) (nx.edges G1) ->
              In d (done ++ [e]) /\ links u v d = true /\ kept G1 d = true).
    { intros u v d Hin. rewrite (kept_same_nodes G G1 d Hn).
      destruct (add_edge_of_cases G G1 e E) as [-> | (s & t & Hs & Ht & Hns & Hnt & ->)].
      - destruct (Hinv u v d Hin) as (H1 & H2 & H3).
        split; [apply in_or_app; left; exact H1 | split; assumption].
      - apply add_edge_In in Hin. destruct Hin as [Hin | (-> & Hsu & Htv)].
        + destruct (Hinv u v d Hin) as (H1 & H2 & H3).
          split; [apply in_or_app; left; exact H1 | split; assumption].
        + split; [apply in_or_app; right; left; reflexivity |].
          unfold links, kept. rewrite Hs, Ht, Hns, Hnt.
          rewrite (atom_eqb_sym u s), (atom_eqb_sym v t), Hsu, Htv. split; reflexivity. }
    destruct (IH (done ++ [e]) G1 H Hinv1) as [HA HB].
    rewrite <- app_assoc in HA. cbn [app] in HA. split; [exact HA |].
    assert (List.length (nx.edges G1) <= S (List.length (nx.edges G)))%nat.
    { destruct (add_edge_of_cases G G1 e E) as [-> | (s & t & _ & _ & _ & _ & ->)];
        [lia | apply add_edge_length]. }
    cbn [List.length]. lia.
Qed.

(** X8: every edge of the built graph comes from an edge record: the
    attributes of the edge are a record of the input whose source and target
    are the endpoints of the edge, both of them nodes.  The graph has at
    most as many edges as there are edge records. *)
Theorem build_graph_edges_from_records (nodes : list node) (edges : list edge)
  (G : nx.DiGraph) :
  build_graph nodes edges = Ok G ->
  (forall u v d, In (u, v, d) (nx.edges G) ->
                 In d edges /\ links u v d = true /\ kept G d = true) /\
  (List.length (nx.edges G) <= List.length edges)%nat.
Proof.
  unfold build_graph.
  destruct (foldM add_node_of nodes nx.empty) as [G0 |] eqn:E0; cbn [bind];
    [| discriminate].
  intros H. destruct (add_nodes_spec nodes nx.empty G0 E0) as (_ & _ & HE & _).
  change (nx.edges nx.empty) with (@nil (atom * atom * edge)) in HE.
  destruct (add_edges_from_records edges [] G0 G H) as [HA HB].
  - rewrite HE. intros u v d [].
  - rewrite HE in HB. split; [exact HA | exact HB].
Qed.

(** The graph of [nodes_ab] with an edge to a node that does not exist. *)
Lemma build_graph_edges_from_records_witness :
  (forall u v d,
      In (u, v, d) (nx.edges (graph_of nodes_ab [edge_ab; edge_a_ghost])) ->
      In d [edge_ab; edge_a_ghost] /\ links u v d = true /\
      kept (graph_of nodes_ab [edge_ab; edge_a_ghost]) d = true) /\
  (List.length (nx.edges (graph_of nodes_ab [edge_ab; edge_a_ghost])) <= 2)%nat.
Proof.
  apply (build_graph_edges_from_records nodes_ab [edge_ab; edge_a_ghost]). reflexivity.
Defined.

(** *** Parallel edge records *)

Lemma add_edge_attr (G : nx.DiGraph) (s t : atom) (e : edge) (u v : atom) :
  (exists nbrs, assoc s (nx._succ G) = Some nbrs) ->
  edge_attr (nx.add_edge G s t e) u v =
  if atom_eqb u s && atom_eqb v t then Some e else edge_attr G u v.
Proof.
  intros [nbrs Hs]. unfold edge_attr, nx.add_edge. rewrite Hs. cbn [nx._succ].
  rewrite assoc_set_get. destruct (atom_eqb u s) eqn:Eu; cbn [andb].
  - rewrite assoc_set_get. rewrite (assoc_eqb u s _ Eu), Hs. reflexivity.
  - reflexivity.
Qed.

Lemma add_edge_of_attr (G G' : nx.DiGraph) (e : edge) (u v : atom) :
  aligned G ->
  add_edge_of G e = Ok G' ->
  edge_attr G' u v = if links u v e && kept G e then Some e else edge_attr G u v.
Proof.
  intros Hal H. unfold links, kept. unfold add_edge_of, nx.contains in H.
  destruct (edge_source e) as [s | |]; cbn [hashable bind] in H; try discriminate.
  destruct (nx.has_node G s) eqn:Hs; cbn [andb].
  - destruct (edge_target e) as [t | |]; cbn [hashable bind] in H; try discriminate.
    destruct (nx.has_node G t) eqn:Ht.
    + injection H as <-. rewrite andb_true_r.
      rewrite (has_node_succ G s Hal) in Hs.
      destruct (assoc s (nx._succ G)) as [nbrs |] eqn:Es; [| discriminate].
      apply add_edge_attr. exists nbrs. exact Es.
    + injection H as <-. rewrite andb_false_r. reflexivity.
  - injection H as <-. destruct (edge_target e); rewrite ?andb_false_r; reflexivity.
Qed.

Lemma add_edges_attr_keep (edges : list edge) (G G' : nx.DiGraph) (u v : atom) :
  aligned G ->
  foldM add_edge_of edges G = Ok G' ->
  (forall e, In e edges -> links u v e = false) ->
  edge_attr G' u v = edge_attr G u v.
Proof.
  revert G. induction edges as [| e edges IH]; intros G Hal; cbn [foldM].
  - intros H _. injection H as <-. reflexivity.
  - destruct (add_edge_of G e) as [G1 |] eqn:E; cbn [bind]; [| discriminate].
    intros H Hno.
    assert (Hal1 : aligned G1).
    { destruct (add_edge_of_cases G G1 e E) as [-> | (s & t & _ & _ & Hns & _ & ->)];
        [exact Hal | apply (add_edge_spec G s t e Hal Hns)]. }
    rewrite (IH G1 Hal1 H (fun e' Hin => Hno e' (or_intror Hin))).
    rewrite (add_edge_of_attr G G1 e u v Hal E).
    rewrite (Hno e (or_introl eq_refl)). reflexivity.
Qed.

Lemma add_edges_aligned (edges : list edge) (G G' : nx.DiGraph) :
  aligned G -> foldM add_edge_of edges G = Ok G' -> aligned G'.
Proof.
  revert G. induction edges as [| e edges IH]; intros G Hal; cbn [foldM].
  - intros H. injection H as <-. exact Hal.
  - destruct (add_edge_of G e) as [G1 |] eqn:E; cbn [bind]; [| discriminate].
    apply IH.
    destruct (add_edge_of_cases G G1 e E) as [-> | (s & t & _ & _ & Hns & _ & ->)];
      [exact Hal | apply (add_edge_spec G s t e Hal Hns)].
Qed.

Lemma edge_attr_In (G : nx.DiGraph) (u v : atom) (d : edge) :
  edge_attr G u v = Some d ->
  exists u' v', In (u', v', d) (nx.edges G) /\
                atom_eqb u u' = true /\ atom_eqb v v' = true.
Proof.
  unfold edge_attr. destruct (assoc u (nx._succ G)) as [nbrs |] eqn:Eu; [| discriminate].
  intros Ev.
  destruct (assoc_In _ _ _ Eu) as (u' & Hu' & Euu).
  destruct (assoc_In _ _ _ Ev) as (v' & Hv' & Evv).
  exists u', v'. split; [| split; assumption].
  unfold nx.edges. apply in_flat_map. exists (u', nbrs). split; [exact Hu' |].
  cbn [fst snd]. apply in_map_iff. exists (v', d). split; [reflexivity | exact Hv'].
Qed.

(** A key of a dictionary selects one entry. *)
Lemma assoc_filter_one {V : Type} (k : atom) (v : V) (d : list (atom * V)) :
  distinct (map fst d) -> assoc k d = Some v ->
  exists k', filter (fun kv => atom_eqb k (fst kv)) d = [(k', v)].
Proof.
  induction d as [| [k0 v0] d IH]; cbn [map fst assoc filter distinct]; [discriminate |].
  intros [H0 Hd] Ha. destruct (atom_eqb k k0) eqn:E.
  - injection Ha as ->. exists k0. f_equal.
    clear IH Hd. induction d as [| [k1 v1] d IH]; [reflexivity |].
    cbn [map fst existsb] in H0. apply orb_false_iff in H0. destruct H0 as [H01 H0].
    cbn [filter fst]. destruct (atom_eqb k k1) eqn:E1.
    + apply atom_eqb_sym_true in E. rewrite (atom_eqb_trans k0 k k1 E E1) in H01.
      discriminate H01.
    + apply IH. exact H0.
  - apply IH; assumption.
Qed.

(** Two nodes are joined by at most one edge of the graph. *)
Lemma edges_between_one (G : nx.DiGraph) (s t : atom) (e : edge) :
  unique_keys G -> edge_attr G s t = Some e ->
  exists u v,
    filter (fun uvd => atom_eqb s (fst (fst uvd)) && atom_eqb t (snd (fst uvd)))
           (nx.edges G) = [(u, v, e)].
Proof.
  intros [Hd Hf] Ha. unfold edge_attr in Ha.
  destruct (assoc s (nx._succ G)) as [nbrs |] eqn:Es; [| discriminate Ha].
  destruct (assoc_filter_one s nbrs _ Hd Es) as [u Hu].
  assert (Hin : In (u, nbrs) (nx._succ G)).
  { assert (H : In (u, nbrs) (filter (fun kv => atom_eqb s (fst kv)) (nx._succ G)))
      by (rewrite Hu; left; reflexivity).
    apply filter_In in H. apply H. }
  rewrite Forall_forall in Hf.
  destruct (assoc_filter_one t e nbrs (Hf (u, nbrs) Hin) Ha) as [v Hv].
  exists u, v. unfold nx.edges.
  assert (Hgen : forall l,
    filter (fun uvd : atom * atom * edge =>
              atom_eqb s (fst (fst uvd)) && atom_eqb t (snd (fst uvd)))
      (flat_map (fun un : atom * list (atom * edge) =>
                   map (fun vd => (fst un, fst vd, snd vd)) (snd un)) l) =
    flat_map (fun un : atom * list (atom * edge) =>
                map (fun vd => (fst un, fst vd, snd vd))
                    (filter (fun vd => atom_eqb t (fst vd)) (snd un)))
             (filter (fun kv => atom_eqb s (fst kv)) l)).
  { induction l as [| [u0 n0] l IH]; [reflexivity |].
    cbn [flat_map filter fst snd]. rewrite filter_app, IH.
    assert (Hmap : forall n,
      filter (fun uvd : atom * atom * edge =>
                atom_eqb s (fst (fst uvd)) && atom_eqb t (snd (fst uvd)))
             (map (fun vd : atom * edge => (u0, fst vd, snd vd)) n) =
      if atom_eqb s u0
      then map (fun vd : atom * edge => (u0, fst vd, snd vd))
               (filter (fun vd => atom_eqb t (fst vd)) n)
      else []).
    { induction n as [| [v1 d1] n IHn]; cbn [map filter fst snd].
      - destruct (atom_eqb s u0); reflexivity.
      - rewrite IHn. destruct (atom_eqb s u0); cbn [andb]; [| reflexivity].
        destruct (atom_eqb t v1); reflexivity. }
    rewrite Hmap. destruct (atom_eqb s u0); reflexivity. }
  rewrite Hgen, Hu. cbn [flat_map fst snd]. rewrite Hv. reflexivity.
Qed.

(** X9: when several edge records join the same two nodes, the graph has
    one edge between them and it carries the last of these records: the
    edges of the graph from the first node to the second are that one edge
    and no other. *)
Theorem build_graph_last_edge_wins (nodes : list node) (es1 es2 : list edge) (e : edge)
  (G : nx.DiGraph) (s t : atom) :
  build_graph nodes (es1 ++ e :: es2) = Ok G ->
  edge_source e = PAtom s -> edge_target e = PAtom t ->
  nx.has_node G s = true -> nx.has_node G t = true ->
  (forall e', In e' es2 -> links s t e' = false) ->
  edge_attr G s t = Some e /\
  (exists u v, In (u, v, e) (nx.edges G) /\ atom_eqb s u = true /\ atom_eqb t v = true) /\
  (exists u v,
      filter (fun uvd => atom_eqb s (fst (fst uvd)) && atom_eqb t (snd (fst uvd)))
             (nx.edges G) = [(u, v, e)]).
Proof.
  intros HG Hs Ht Hns Hnt Hlast.
  assert (Hattr : edge_attr G s t = Some e).
  { unfold build_graph in HG.
    destruct (foldM add_node_of nodes nx.empty) as [G0 |] eqn:E0; cbn [bind] in HG;
      [| discriminate].
    destruct (add_nodes_spec nodes nx.empty G0 E0) as (_ & Hal0 & _).
    specialize (Hal0 eq_refl).
    pose proof (add_edges_nodes _ G0 G HG) as Hnodes.
    rewrite foldM_app in HG.
    destruct (foldM add_edge_of es1 G0) as [G1 |] eqn:E1; cbn [bind foldM] in HG;
      [| discriminate].
    destruct (add_edge_of G1 e) as [G2 |] eqn:E2; cbn [bind] in HG; [| discriminate].
    pose proof (add_edges_aligned es1 G0 G1 Hal0 E1) as Hal1.
    assert (Hal2 : aligned G2)
      by (apply (add_edges_aligned [e] G1 G2 Hal1); cbn [foldM]; rewrite E2; reflexivity).
    rewrite (add_edges_attr_keep es2 G2 G s t Hal2 HG Hlast).
    rewrite (add_edge_of_attr G1 G2 e s t Hal1 E2).
    unfold links, kept. rewrite Hs, Ht, !atom_eqb_refl.
    pose proof (add_edges_nodes es1 G0 G1 E1) as Hn1.
    unfold nx.has_node in *. rewrite Hn1, <- Hnodes, Hns, Hnt. reflexivity. }
  split; [exact Hattr |]. split; [apply edge_attr_In; exact Hattr |].
  apply edges_between_one; [apply (build_graph_unique _ _ G HG) | exact Hattr].
Qed.

(** Two records for the edge from [a] to [b]: the second one stays. *)
Lemma build_graph_last_edge_wins_witness :
  edge_attr (graph_of nodes_ab [edge_ab; edge_ab_invokes])
            (AStr (str "a")) (AStr (str "b")) = Some edge_ab_invokes /\
  nx.edges (graph_of nodes_ab [edge_ab; edge_ab_invokes]) =
    [(AStr (str "a"), AStr (str "b"), edge_ab_invokes)].
Proof.
  split; [| reflexivity].
  apply (build_graph_last_edge_wins nodes_ab [edge_ab] [] edge_ab_invokes).
  - reflexivity.
  - reflexivity.
  - reflexivity.
  - reflexivity.
  - reflexivity.
  - intros e' [].
Defined.

(** ** draw_graph: groups and legend *)

(** *** Groups that partition a list *)

Lemma groups_cons {K A : Type} (m : K -> A -> bool) (ks : list K) (x : A) (l : list A) :
  Permutation (flat_map (fun k => filter (m k) (x :: l)) ks)
              (map (fun _ => x) (filter (fun k => m k x) ks) ++
               flat_map (fun k => filter (m k) l) ks).
Proof.
  induction ks as [| k ks IH]; cbn [flat_map filter map app].
  - constructor.
  - destruct (m k x); cbn [map app].
    + constructor.
      apply Permutation_trans
        with (filter (m k) l ++
              map (fun _ => x) (filter (fun k0 => m k0 x) ks) ++
              flat_map (fun k0 => filter (m k0) l) ks).
      * apply Permutation_app_head. exact IH.
      * apply Permutation_app_swap_app.
    + apply Permutation_trans
        with (filter (m k) l ++
              map (fun _ => x) (filter (fun k0 => m k0 x) ks) ++
              flat_map (fun k0 => filter (m k0) l) ks).
      * apply Permutation_app_head. exact IH.
      * apply Permutation_app_swap_app.
Qed.

Lemma groups_partition {K A : Type} (m : K -> A -> bool) (ks : list K) (l : list A) :
  (forall x, In x l -> List.length (filter (fun k => m k x) ks) = 1%nat) ->
  Permutation (flat_map (fun k => filter (m k) l) ks) l.
Proof.
  induction l as [| x l IH]; intros Hone.
  - clear. induction ks as [| k ks IH]; cbn [flat_map filter app]; [constructor | exact IH].
  - eapply Permutation_trans; [apply groups_cons |].
    pose proof (Hone x (or_introl eq_refl)) as Hx.
    destruct (filter (fun k => m k x) ks) as [| k0 [| k1 r]]; try discriminate Hx.
    cbn [map app]. constructor. apply IH. intros y Hy. apply Hone. right. exact Hy.
Qed.

(** The same when some elements belong to no group. *)
Lemma groups_select {K A : Type} (m : K -> A -> bool) (p : A -> bool) (ks : list K)
  (l : list A) :
  (forall x, In x l ->
     List.length (filter (fun k => m k x) ks) = if p x then 1%nat else 0%nat) ->
  Permutation (flat_map (fun k => filter (m k) l) ks) (filter p l).
Proof.
  induction l as [| x l IH]; intros Hone.
  - clear. induction ks as [| k ks IH]; cbn [flat_map filter app]; [constructor | exact IH].
  - eapply Permutation_trans; [apply groups_cons |].
    pose proof (Hone x (or_introl eq_refl)) as Hx. cbn [filter].
    assert (IH' : Permutation (flat_map (fun k => filter (m k) l) ks) (filter p l))
      by (apply IH; intros y Hy; apply Hone; right; exact Hy).
    destruct (p x).
    + destruct (filter (fun k => m k x) ks) as [| k0 [| k1 r]]; try discriminate Hx.
      cbn [map app]. constructor. exact IH'.
    + destruct (filter (fun k => m k x) ks) as [| k0 r]; try discriminate Hx.
      exact IH'.
Qed.

Lemma flat_map_map {A B C : Type} (f : B -> C) (g : A -> list B) (l : list A) :
  flat_map (fun a => map f (g a)) l = map f (flat_map g l).
Proof.
  induction l as [| a l IH]; cbn [flat_map]; [reflexivity |].
  rewrite map_app, IH. reflexivity.
Qed.

(** *** Layers without repetition, in order *)

Lemma set_of_Z_In (l : list Z) (x : Z) : In x (set_of_Z l) <-> In x l.
Proof.
  induction l as [| y l IH]; cbn [set_of_Z In]; [tauto |].
  rewrite filter_In, IH. destruct (Z.eqb_spec x y) as [-> | Hne]; cbn [negb].
  - split; [intros [H | [_ H]]; [left; exact H | discriminate] | intros _; left; reflexivity].
  - split; [intros [H | [H _]]; [left; exact H | right; exact H] |
            intros [H | H]; [left; exact H | right; split; [exact H | reflexivity]]].
Qed.

Lemma set_of_Z_NoDup (l : list Z) : NoDup (set_of_Z l).
Proof.
  induction l as [| y l IH]; cbn [set_of_Z]; constructor.
  - rewrite filter_In. intros [_ H]. rewrite Z.eqb_refl in H. discriminate H.
  - apply NoDup_filter. exact IH.
Qed.

Lemma sorted_NoDup_lt (l : list Z) :
  StronglySorted Z.le l -> NoDup l -> StronglySorted Z.lt l.
Proof.
  induction 1 as [| x l Hs IH Hall]; intros Hnd; constructor.
  - apply IH. inversion Hnd. assumption.
  - inversion Hnd as [| ? ? Hnin _]; subst. rewrite Forall_forall in *.
    intros y Hy. specialize (Hall y Hy).
    assert (x <> y) by (intros ->; contradiction). lia.
Qed.

Lemma count_one_Z (Ls : list Z) (v : Z) :
  NoDup Ls -> In v Ls -> List.length (filter (fun L => v =? L) Ls) = 1%nat.
Proof.
  induction Ls as [| L Ls IH]; intros Hnd Hin; [contradiction |].
  inversion Hnd as [| ? ? Hnin Hnd']; subst. cbn [filter].
  destruct (Z.eqb_spec v L) as [-> | Hne].
  - cbn [List.length]. f_equal.
    assert (Hnone : forall l, ~ In L l -> filter (fun L0 => L =? L0) l = []).
    { clear. induction l as [| y l IH]; intros H; cbn [filter]; [reflexivity |].
      destruct (Z.eqb_spec L y) as [-> | _]; [exfalso; apply H; left; reflexivity |].
      apply IH. intros Hin. apply H. right. exact Hin. }
    rewrite (Hnone Ls Hnin). reflexivity.
  - apply IH; [exact Hnd' |]. destruct Hin as [-> | Hin]; [contradiction | exact Hin].
Qed.

Lemma enumerate_from_nth {A : Type} (l : list A) (i0 : Z) (i : nat) (j : Z) (x : A) :
  nth_error (enumerate_from i0 l) i = Some (j, x) ->
  j = i0 + Z.of_nat i /\ nth_error l i = Some x.
Proof.
  revert i0 i. induction l as [| y l IH]; intros i0 i H.
  - destruct i; discriminate H.
  - destruct i as [| i]; cbn [enumerate_from nth_error] in *.
    + injection H as <- <-. split; [lia | reflexivity].
    + destruct (IH (i0 + 1) i H) as [-> Hx]. split; [lia | exact Hx].
Qed.

Lemma enumerate_from_snd {A : Type} (l : list A) (i0 : Z) :
  map snd (enumerate_from i0 l) = l.
Proof.
  revert i0. induction l as [| y l IH]; intros i0; cbn [enumerate_from map]; [reflexivity |].
  rewrite IH. reflexivity.
Qed.

Lemma enumerate_from_fst {A : Type} (l : list A) (i0 : Z) :
  map fst (enumerate_from i0 l) = map (fun i => i0 + Z.of_nat i) (seq 0 (List.length l)).
Proof.
  revert i0. induction l as [| y l IH]; intros i0; cbn [enumerate_from map List.length seq];
    [reflexivity |].
  rewrite IH, <- seq_shift, map_map. cbn [fst]. f_equal; [lia |].
  apply map_ext. intros i. lia.
Qed.

Lemma colours_NoDup (n : nat) :
  (n <= 20)%nat -> NoDup (map (fun i => (0 + Z.of_nat i) mod cmap_N) (seq 0 n)).
Proof.
  intros Hn.
  assert (H : forall l, NoDup l -> (forall i, In i l -> (i < 20)%nat) ->
                        NoDup (map (fun i => (0 + Z.of_nat i) mod cmap_N) l)).
  { induction l as [| i l IH]; intros Hnd Hlt; cbn [map]; constructor.
    - inversion Hnd as [| ? ? Hnin _]; subst. intros Hin. apply in_map_iff in Hin.
      destruct Hin as (j & Hj & Hjl). apply Hnin.
      assert (i < 20)%nat by (apply Hlt; left; reflexivity).
      assert (j < 20)%nat by (apply Hlt; right; exact Hjl).
      unfold cmap_N in Hj. rewrite !Z.mod_small in Hj by lia.
      replace i with j by lia. exact Hjl.
    - inversion Hnd; subst. apply IH; [assumption |].
      intros j Hj. apply Hlt. right. exact Hj. }
  apply H; [apply seq_NoDup |]. intros i Hi. apply in_seq in Hi. lia.
Qed.

(** *** What [draw_graph] hands over *)

Lemma draw_graph_parts (G : nx.DiGraph) (figsize : float * float) (with_labels : bool)
  (font : Z) (fig : figure) :
  draw_graph G figsize with_labels font = Ok fig ->
  let unique_layers := sort_Z (set_of_Z (graph_layers G)) in
  fig_size fig = figsize /\ fig_font_size fig = font /\
  fig_legend fig = map (fun il => (fst il mod cmap_N, snd il)) (enumerate unique_layers) /\
  fig_nodes fig =
    map (fun il => (snd il, fst il mod cmap_N, layer_nodes G (snd il)))
        (enumerate unique_layers).
Proof.
  unfold draw_graph. destruct (layered_layout (map snd (nx._node G))) as [pos |];
    cbn [bind]; [| discriminate].
  destruct (mapM _ (nx.edges G)) as [types |]; cbn [bind]; [| discriminate].
  destruct (py_sorted (set_of types)) as [ets |]; cbn [bind]; [| discriminate].
  assert (Hl : map snd (map (fun ka : atom * nattr => (fst ka, attr_layer (snd ka)))
                            (nx._node G)) = graph_layers G).
  { unfold graph_layers. rewrite map_map. reflexivity. }
  assert (Hn : forall L,
             map fst (filter (fun nl : atom * Z => snd nl =? L)
                        (map (fun ka : atom * nattr => (fst ka, attr_layer (snd ka)))
                             (nx._node G))) = layer_nodes G L).
  { intros L. unfold layer_nodes. clear. induction (nx._node G) as [| ka l IH];
      cbn [map filter fst snd]; [reflexivity |].
    destruct (attr_layer (snd ka) =? L); cbn [map fst]; rewrite IH; reflexivity. }
  intros H.
  assert (Hfig : fig_size fig = figsize /\ fig_font_size fig = font /\
                 fig_legend fig =
                   map (fun lc : Z * Z => (snd lc, fst lc))
                     (map (fun il : Z * Z => (snd il, fst il mod cmap_N))
                        (enumerate (sort_Z (set_of_Z (graph_layers G))))) /\
                 fig_nodes fig =
                   map (fun lc : Z * Z => (fst lc, snd lc, layer_nodes G (fst lc)))
                     (map (fun il : Z * Z => (snd il, fst il mod cmap_N))
                        (enumerate (sort_Z (set_of_Z (graph_layers G)))))).
  { rewrite Hl in H.
    destruct with_labels.
    - destruct (mapM _ (nx._node G)) as [ls |]; cbn [bind] in H; [| discriminate].
      injection H as <-. cbn [fig_size fig_font_size fig_legend fig_nodes].
      repeat split. apply map_ext. intros lc. rewrite Hn. reflexivity.
    - cbn [bind] in H. injection H as <-. cbn [fig_size fig_font_size fig_legend fig_nodes].
      repeat split. apply map_ext. intros lc. rewrite Hn. reflexivity. }
  destruct Hfig as (H1 & H2 & H3 & H4). rewrite !map_map in H3, H4. cbn [fst snd] in H3, H4.
  repeat split; assumption.
Qed.

Lemma unique_layers_spec (G : nx.DiGraph) :
  let Ls := sort_Z (set_of_Z (graph_layers G)) in
  StronglySorted Z.lt Ls /\ NoDup Ls /\ (forall L, In L Ls <-> In L (graph_layers G)).
Proof.
  intros Ls.
  assert (Hnd : NoDup Ls).
  { eapply Permutation_NoDup; [apply sort_Z_perm | apply set_of_Z_NoDup]. }
  split; [| split].
  - apply sorted_NoDup_lt; [apply sort_Z_sorted | exact Hnd].
  - exact Hnd.
  - intros L. split; intros H.
    + apply set_of_Z_In.
      eapply Permutation_in; [apply Permutation_sym, sort_Z_perm | exact H].
    + eapply Permutation_in; [apply sort_Z_perm | apply set_of_Z_In; exact H].
Qed.

(** X10: the legend of a drawing lists the layers of the nodes in strictly
    increasing order, each layer once and no other value; the entry at
    position [i] has the colour of index [i mod 20], so the colours of a
    legend of at most twenty layers all differ. *)
Theorem draw_graph_legend (G : nx.DiGraph) (figsize : float * float) (with_labels : bool)
  (font : Z) (fig : figure) :
  draw_graph G figsize with_labels font = Ok fig ->
  StronglySorted Z.lt (map snd (fig_legend fig)) /\
  (forall L, In L (map snd (fig_legend fig)) <->
             exists k a, In (k, a) (nx._node G) /\ attr_layer a = L) /\
  (forall i c L, nth_error (fig_legend fig) i = Some (c, L) -> c = Z.of_nat i mod 20) /\
  ((List.length (fig_legend fig) <= 20)%nat -> NoDup (map fst (fig_legend fig))).
Proof.
  intros H. destruct (draw_graph_parts _ _ _ _ _ H) as (_ & _ & Hleg & _).
  destruct (unique_layers_spec G) as (Hsort & Hnd & Hin).
  set (Ls := sort_Z (set_of_Z (graph_layers G))) in *.
  assert (Hsnd : map snd (fig_legend fig) = Ls).
  { rewrite Hleg, map_map. cbn [snd]. apply enumerate_from_snd. }
  split; [| split; [| split]].
  - rewrite Hsnd. exact Hsort.
  - intros L. rewrite Hsnd, Hin. unfold graph_layers. rewrite in_map_iff. split.
    + intros ([k a] & HL & Hka). exists k, a. split; assumption.
    + intros (k & a & Hka & HL). exists (k, a). split; assumption.
  - intros i c L Hi. rewrite Hleg in Hi. rewrite nth_error_map in Hi.
    destruct (nth_error (enumerate Ls) i) as [[j x] |] eqn:Ej; [| discriminate].
    cbn [option_map fst snd] in Hi. injection Hi as <- <-.
    destruct (enumerate_from_nth Ls 0 i j x Ej) as [-> _]. reflexivity.
  - intros Hlen. rewrite Hleg, map_map. cbn [fst].
    assert (Hlen' : (List.length Ls <= 20)%nat).
    { rewrite Hleg, length_map in Hlen. rewrite <- (enumerate_from_snd Ls 0), length_map.
      exact Hlen. }
    replace (map (fun il : Z * Z => fst il mod cmap_N) (enumerate Ls))
      with (map (fun i => i mod cmap_N) (map fst (enumerate Ls)))
      by (rewrite map_map; reflexivity).
    unfold enumerate. rewrite enumerate_from_fst, map_map.
    apply colours_NoDup. exact Hlen'.
Qed.

(** The legend of the graph of [nodes_ab]: layers 0 and 1. *)
Lemma draw_graph_legend_witness :
  exists fig,
    draw_graph (graph_of nodes_ab [edge_ab]) (two, two) true 8 = Ok fig /\
    fig_legend fig = [(0, 0); (1, 1)] /\
    StronglySorted Z.lt (map snd (fig_legend fig)) /\
    NoDup (map fst (fig_legend fig)).
Proof.
  eexists. split; [reflexivity |]. split; [reflexivity |].
  destruct (draw_graph_legend (graph_of nodes_ab [edge_ab]) (two, two) true 8 _ eq_refl)
    as (H1 & _ & _ & H4).
  split; [exact H1 |]. apply H4. simpl. lia.
Defined.

Lemma draw_graph_nodes_perm (G : nx.DiGraph) (figsize : float * float)
  (with_labels : bool) (font : Z) (fig : figure) :
  draw_graph G figsize with_labels font = Ok fig ->
  Permutation (flat_map snd (fig_nodes fig)) (nx.nodes G).
Proof.
  intros H. destruct (draw_graph_parts _ _ _ _ _ H) as (_ & _ & _ & Hnodes).
  destruct (unique_layers_spec G) as (_ & Hnd & Hin).
  set (Ls := sort_Z (set_of_Z (graph_layers G))) in *.
  rewrite Hnodes.
  assert (Hflat : flat_map snd
                    (map (fun il : Z * Z => (snd il, fst il mod cmap_N, layer_nodes G (snd il)))
                         (enumerate Ls)) =
                  map fst (flat_map (fun L => filter (fun ka => attr_layer (snd ka) =? L)
                                                (nx._node G)) Ls)).
  { rewrite <- flat_map_map. fold (layer_nodes G).
    rewrite <- (enumerate_from_snd Ls 0) at 2. fold (enumerate Ls).
    generalize (enumerate Ls). intros ils.
    induction ils as [| il ils IH]; [reflexivity |].
    cbn [map flat_map snd]. rewrite IH. reflexivity. }
  rewrite Hflat. unfold nx.nodes. apply Permutation_map.
  apply (groups_partition (fun L (ka : atom * nattr) => attr_layer (snd ka) =? L)).
  intros ka Hka. apply count_one_Z; [exact Hnd |].
  apply Hin. unfold graph_layers.
  apply (in_map (fun ka0 : atom * nattr => attr_layer (snd ka0))). exact Hka.
Qed.

(** X11: the nodes are drawn in one group per legend entry, with the
    colour and the layer of that entry; the group of a layer holds the nodes
    stored with that layer and is never empty; and the groups together hold
    every node of the graph exactly once. *)
Theorem draw_graph_node_groups (G : nx.DiGraph) (figsize : float * float)
  (with_labels : bool) (font : Z) (fig : figure) :
  draw_graph G figsize with_labels font = Ok fig ->
  map (fun g => (snd (fst g), fst (fst g))) (fig_nodes fig) = fig_legend fig /\
  (forall L c ks, In (L, c, ks) (fig_nodes fig) -> ks = layer_nodes G L /\ ks <> []) /\
  Permutation (flat_map snd (fig_nodes fig)) (nx.nodes G).
Proof.
  intros H. destruct (draw_graph_parts _ _ _ _ _ H) as (_ & _ & Hleg & Hnodes).
  destruct (unique_layers_spec G) as (_ & Hnd & Hin).
  set (Ls := sort_Z (set_of_Z (graph_layers G))) in *.
  split; [| split].
  - rewrite Hleg, Hnodes, map_map. reflexivity.
  - intros L c ks Hg. rewrite Hnodes in Hg. apply in_map_iff in Hg.
    destruct Hg as ([i L'] & Heq & Hil). cbn [fst snd] in Heq. injection Heq as -> _ <-.
    split; [reflexivity |].
    assert (HL : In L Ls).
    { rewrite <- (enumerate_from_snd Ls 0). apply in_map_iff. exists (i, L).
      split; [reflexivity | exact Hil]. }
    apply Hin in HL. unfold graph_layers in HL. apply in_map_iff in HL.
    destruct HL as (ka & HkaL & Hka). unfold layer_nodes. intros Hnil.
    assert (Hmem : In (fst ka)
              (map fst (filter (fun ka0 => attr_layer (snd ka0) =? L) (nx._node G)))).
    { apply in_map. apply filter_In. split; [exact Hka | apply Z.eqb_eq; exact HkaL]. }
    rewrite Hnil in Hmem. exact Hmem.
  - apply (draw_graph_nodes_perm G figsize with_labels font fig H).
Qed.

(** The node groups of the graph of [nodes_ab]. *)
Lemma draw_graph_node_groups_witness :
  exists fig,
    draw_graph (graph_of nodes_ab [edge_ab]) (two, two) true 8 = Ok fig /\
    fig_nodes fig = [(0, 0, [AStr (str "a")]); (1, 1, [AStr (str "b")])] /\
    Permutation (flat_map snd (fig_nodes fig)) (nx.nodes (graph_of nodes_ab [edge_ab])).
Proof.
  eexists. split; [reflexivity |]. split; [reflexivity |].
  apply (draw_graph_node_groups (graph_of nodes_ab [edge_ab]) (two, two) true 8 _ eq_refl).
Defined.

(** *** Edge types without repetition *)

Lemma distinct_filter (p : atom -> bool) (l : list atom) :
  distinct l -> distinct (filter p l).
Proof.
  induction l as [| x l IH]; cbn [filter distinct]; [auto |].
  intros [Hx Hd]. destruct (p x); cbn [distinct]; [| apply IH; exact Hd].
  split; [| apply IH; exact Hd].
  destruct (existsb (atom_eqb x) (filter p l)) eqn:E; [| reflexivity].
  apply existsb_exists in E. destruct E as (y & Hy & Hxy). apply filter_In in Hy.
  assert (existsb (atom_eqb x) l = true)
    by (apply existsb_exists; exists y; split; [apply Hy | exact Hxy]).
  congruence.
Qed.

Lemma set_of_distinct (l : list atom) : distinct (set_of l).
Proof.
  induction l as [| x l IH]; cbn [set_of distinct]; [exact I |].
  split; [| apply distinct_filter; exact IH].
  destruct (existsb (atom_eqb x) (filter (fun y => negb (atom_eqb y x)) (set_of l))) eqn:E;
    [| reflexivity].
  apply existsb_exists in E. destruct E as (y & Hy & Hxy). apply filter_In in Hy.
  destruct Hy as [_ Hy]. rewrite atom_eqb_sym, Hxy in Hy. discriminate Hy.
Qed.

Lemma count_one_atom (reps : list atom) (a r : atom) :
  distinct reps -> In r reps -> atom_eqb a r = true ->
  List.length (filter (fun k => atom_eqb a k) reps) = 1%nat.
Proof.
  induction reps as [| k reps IH]; intros Hd Hin Har; [contradiction |].
  destruct Hd as [Hk Hd]. cbn [filter].
  assert (Hnone : forall l, existsb (atom_eqb a) l = false ->
                            filter (fun k0 => atom_eqb a k0) l = []).
  { clear. induction l as [| y l IH]; cbn [existsb filter]; [reflexivity |].
    intros H. apply orb_false_iff in H. destruct H as [-> H]. apply IH. exact H. }
  destruct (atom_eqb a k) eqn:Eak.
  - cbn [List.length]. f_equal. rewrite Hnone; [reflexivity |].
    rewrite <- Hk. apply existsb_same. intros y.
    destruct (atom_eqb a y) eqn:Eay.
    + symmetry. apply (atom_eqb_trans k a y); [rewrite atom_eqb_sym; exact Eak | exact Eay].
    + destruct (atom_eqb k y) eqn:Eky; [| reflexivity].
      rewrite (atom_eqb_trans a k y Eak Eky) in Eay. discriminate Eay.
  - apply IH; [exact Hd | | exact Har].
    destruct Hin as [-> | Hin]; [congruence | exact Hin].
Qed.

Lemma draw_graph_groups (G : nx.DiGraph) (figsize : float * float)
  (with_labels : bool) (font : Z) (fig : figure) :
  draw_graph G figsize with_labels font = Ok fig ->
  exists types ets,
    mapM (fun uvd => hashable (edge_type (snd uvd))) (nx.edges G) = Ok types /\
    Permutation (set_of types) ets /\
    fig_edges fig =
      flat_map (fun et => match typed_edges G et with
                          | [] => []
                          | e0 :: es0 => [(et, edge_style et, e0 :: es0)]
                          end) ets.
Proof.
  intros H. destruct (draw_graph_fig_edges _ _ _ _ _ H) as (types & ets & Ht & Hs & Hf).
  exists types, ets. split; [exact Ht |]. split; [apply (py_sorted_perm _ _ Hs) | exact Hf].
Qed.

Lemma draw_graph_edges_perm (G : nx.DiGraph) (figsize : float * float)
  (with_labels : bool) (font : Z) (fig : figure) :
  draw_graph G figsize with_labels font = Ok fig ->
  Permutation (flat_map snd (fig_edges fig))
              (map fst (filter (fun uvd => negb (nan_typed (snd uvd))) (nx.edges G))).
Proof.
  intros H. destruct (draw_graph_groups _ _ _ _ _ H) as (types & ets & Ht & Hperm & Hf).
  assert (Hd : distinct (set_of types)) by apply set_of_distinct.
  assert (Hflat : flat_map snd (fig_edges fig) =
                  map fst (flat_map (fun et => filter (fun uvd => type_is et (snd uvd))
                                                 (nx.edges G)) ets)).
  { rewrite Hf. rewrite <- flat_map_map. clear.
    induction ets as [| et ets IH]; [reflexivity |].
    cbn [flat_map]. rewrite flat_map_app, IH. f_equal.
    change (map fst (filter (fun uvd : atom * atom * edge => type_is et (snd uvd))
                            (nx.edges G))) with (typed_edges G et).
    destruct (typed_edges G et); cbn [flat_map snd app]; [reflexivity |].
    rewrite app_nil_r. reflexivity. }
  rewrite Hflat. apply Permutation_map.
  apply (groups_select (fun et (uvd : atom * atom * edge) => type_is et (snd uvd))).
  intros [[u v] d] Hin.
  destruct (mapM_In_Ok _ _ _ _ Ht Hin) as (a & Ha & Hina). cbn [snd] in Ha.
  destruct (set_of_rep types a Hina) as (r & Hr & Har).
  cbn [snd]. unfold type_is, nan_typed.
  destruct (edge_type d) as [b | |]; try discriminate Ha.
  cbn [hashable] in Ha. injection Ha as ->. unfold atom_eq.
  destruct (is_nan a); cbn [negb andb].
  - clear. induction ets as [| et ets IH]; [reflexivity | exact IH].
  - rewrite <- (Permutation_length (filter_perm (fun k => atom_eqb a k) _ _ Hperm)).
    apply (count_one_atom (set_of types) a r Hd Hr Har).
Qed.

(** X12: the edges are drawn in groups by type.  The groups together
    hold exactly once every edge of the graph whose type is not NaN, and no
    edge whose type is NaN: no value equals NaN, so the group of that type
    is empty and is skipped.  A group holds the edges of its type, is not
    empty and has the line style of that type, and no two groups have the
    same type. *)
Theorem draw_graph_edge_groups (G : nx.DiGraph) (figsize : float * float)
  (with_labels : bool) (font : Z) (fig : figure) :
  draw_graph G figsize with_labels font = Ok fig ->
  Permutation (flat_map snd (fig_edges fig))
              (map fst (filter (fun uvd => negb (nan_typed (snd uvd))) (nx.edges G))) /\
  (forall et st es, In (et, st, es) (fig_edges fig) ->
                    st = edge_style et /\ es = typed_edges G et /\ es <> []) /\
  NoDup (map (fun g => fst (fst g)) (fig_edges fig)).
Proof.
  intros H. split; [apply (draw_graph_edges_perm G figsize with_labels font fig H) |].
  destruct (draw_graph_groups _ _ _ _ _ H) as (types & ets & Ht & Hperm & Hf).
  assert (Hnd : NoDup ets).
  { eapply Permutation_NoDup; [exact Hperm | apply distinct_NoDup, set_of_distinct]. }
  split.
  - intros et st es Hin. rewrite Hf in Hin. apply in_flat_map in Hin.
    destruct Hin as (et' & _ & Hin).
    destruct (typed_edges G et') as [| e0 es0] eqn:El; [contradiction |].
    destruct Hin as [Heq | []]. injection Heq as <- <- <-.
    split; [reflexivity |]. split; [symmetry; exact El | discriminate].
  - assert (Hsub : forall l, NoDup l ->
              NoDup (map (fun g : atom * linestyle * list (atom * atom) => fst (fst g))
                         (flat_map (fun et => match typed_edges G et with
                                              | [] => []
                                              | e0 :: es0 => [(et, edge_style et, e0 :: es0)]
                                              end) l)) /\
              forall et, In et (map (fun g : atom * linestyle * list (atom * atom) =>
                                       fst (fst g))
                                    (flat_map (fun et => match typed_edges G et with
                                              | [] => []
                                              | e0 :: es0 => [(et, edge_style et, e0 :: es0)]
                                              end) l)) -> In et l).
    { induction l as [| et l IH]; intros Hl; cbn [flat_map map].
      - split; [constructor | intros et []].
      - inversion Hl as [| ? ? Hnin Hl']; subst. destruct (IH Hl') as [IH1 IH2].
        destruct (typed_edges G et); cbn [app map fst].
        + split; [exact IH1 | intros et' Hin; right; apply IH2; exact Hin].
        + split.
          * constructor; [intros Hin; apply Hnin, IH2; exact Hin | exact IH1].
          * intros et' [<- | Hin]; [left; reflexivity | right; apply IH2; exact Hin]. }
    rewrite Hf. apply (Hsub ets Hnd).
Qed.

(** The edge groups of the graph of [nodes_ab] with an edge of type [1] and
    an edge of type NaN: the second edge is in the graph and in no group. *)
Lemma draw_graph_edge_groups_witness :
  exists fig,
    draw_graph (graph_of nodes_ab [edge_ab_one; edge_ba_nan]) (two, two) true 8 = Ok fig /\
    List.length (nx.edges (graph_of nodes_ab [edge_ab_one; edge_ba_nan])) = 2%nat /\
    Permutation (flat_map snd (fig_edges fig)) [(AStr (str "a"), AStr (str "b"))] /\
    NoDup (map (fun g => fst (fst g)) (fig_edges fig)).
Proof.
  eexists. split; [reflexivity |]. split; [reflexivity |].
  destruct (draw_graph_edge_groups (graph_of nodes_ab [edge_ab_one; edge_ba_nan])
              (two, two) true 8 _ eq_refl) as (H1 & _ & H3).
  split; [exact H1 | exact H3].
Defined.

(** *** Sorting values of different kinds *)

Lemma atom_lt_Ok (y x : atom) (b : bool) :
  atom_lt y x = Ok b ->
  (is_str y = true /\ is_str x = true) \/ (is_num y = true /\ is_num x = true).
Proof.
  destruct y, x; cbn; intros H; try discriminate H; auto.
Qed.

Lemma atom_lt_exn (y x : atom) (e : exn) : atom_lt y x = Raise e -> e = TypeError.
Proof.
  unfold atom_lt. destruct y, x; cbn; intros H; try discriminate H;
    injection H as <-; reflexivity.
Qed.

Lemma insert_sorted_exn (x : atom) (l : list atom) (e : exn) :
  insert_sorted x l = Raise e -> e = TypeError.
Proof.
  induction l as [| y l IH]; cbn [insert_sorted]; [discriminate |].
  destruct (atom_lt y x) as [b |] eqn:E; cbn [bind].
  - destruct b; [| discriminate].
    destruct (insert_sorted x l); cbn [bind]; [discriminate |].
    intros H. injection H as <-. apply IH. reflexivity.
  - intros H. injection H as <-. apply (atom_lt_exn y x _ E).
Qed.

Lemma py_sorted_exn (l : list atom) (e : exn) : py_sorted l = Raise e -> e = TypeError.
Proof.
  induction l as [| x l IH]; cbn [py_sorted]; [discriminate |].
  destruct (py_sorted l) as [r |]; cbn [bind].
  - apply insert_sorted_exn.
  - intros H. injection H as <-. apply IH. reflexivity.
Qed.

Lemma py_sorted_same_kind (l r : list atom) :
  py_sorted l = Ok r ->
  (List.length l <= 1)%nat \/ forallb is_str l = true \/ forallb is_num l = true.
Proof.
  revert r. induction l as [| x l IH]; intros r; cbn [py_sorted].
  - intros _. left. cbn. lia.
  - destruct (py_sorted l) as [r0 |] eqn:E0; cbn [bind]; [| discriminate].
    intros Hins. pose proof (py_sorted_perm l r0 E0) as Hperm.
    destruct r0 as [| y r0].
    + apply Permutation_sym, Permutation_nil in Hperm. subst l. left. cbn. lia.
    + cbn [insert_sorted] in Hins.
      destruct (atom_lt y x) as [b |] eqn:Eyx; cbn [bind] in Hins; [| discriminate].
      assert (Hy : In y l)
        by (eapply Permutation_in; [apply Permutation_sym; exact Hperm | left; reflexivity]).
      right. cbn [forallb].
      destruct (atom_lt_Ok y x b Eyx) as [[Hys Hxs] | [Hyn Hxn]].
      * left. rewrite Hxs. cbn [andb].
        destruct (IH (y :: r0) eq_refl) as [Hlen | [Hs | Hn]].
        -- destruct l as [| z [| z' l]]; cbn in Hlen; try lia; [contradiction |].
           destruct Hy as [-> | []]. cbn. rewrite Hys. reflexivity.
        -- exact Hs.
        -- pose proof (forallb_In _ _ _ Hn Hy) as Hyn. destruct y; discriminate.
      * right. rewrite Hxn. cbn [andb].
        destruct (IH (y :: r0) eq_refl) as [Hlen | [Hs | Hn]].
        -- destruct l as [| z [| z' l]]; cbn in Hlen; try lia; [contradiction |].
           destruct Hy as [-> | []]. cbn. rewrite Hyn. reflexivity.
        -- pose proof (forallb_In _ _ _ Hs Hy) as Hys. destruct y; discriminate.
        -- exact Hn.
Qed.

Lemma py_sorted_mixed (l : list atom) (a b : atom) :
  In a l -> In b l -> is_str a = true -> is_str b = false ->
  py_sorted l = Raise TypeError.
Proof.
  intros Ha Hb Hsa Hsb. destruct (py_sorted l) as [r | e] eqn:E.
  - exfalso. destruct (py_sorted_same_kind l r E) as [Hlen | [Hs | Hn]].
    + destruct l as [| z [| z' l]]; cbn in Hlen; try lia; [contradiction |].
      destruct Ha as [-> | []], Hb as [-> | []]. congruence.
    + rewrite (forallb_In _ _ _ Hs Hb) in Hsb. discriminate.
    + pose proof (forallb_In _ _ _ Hn Ha) as Hna. destruct a; discriminate.
  - rewrite (py_sorted_exn l e E). reflexivity.
Qed.

(** X13: a graph with an edge whose type is a string and an edge whose
    type is anything else ([null], a number, a list) cannot be drawn: once
    the layout succeeded, [draw_graph] raises [TypeError]. *)
Theorem draw_graph_mixed_types (G : nx.DiGraph) (figsize : float * float)
  (with_labels : bool) (font : Z) (pos : list (atom * coord))
  (u v u' v' : atom) (d d' : edge) (s : pystr) :
  layered_layout (map snd (nx._node G)) = Ok pos ->
  In (u, v, d) (nx.edges G) -> edge_type d = PAtom (AStr s) ->
  In (u', v', d') (nx.edges G) ->
  (forall s', edge_type d' <> PAtom (AStr s')) ->
  draw_graph G figsize with_labels font = Raise TypeError.
Proof.
  intros Hpos Hd Hs Hd' Hns. unfold draw_graph. rewrite Hpos. cbn [bind].
  destruct (mapM (fun uvd : atom * atom * edge => hashable (edge_type (snd uvd)))
                 (nx.edges G)) as [types | e] eqn:Et; cbn [bind].
  - destruct (mapM_In_Ok _ _ _ _ Et Hd) as (a & Ha & Hina). cbn [snd] in Ha.
    destruct (mapM_In_Ok _ _ _ _ Et Hd') as (b & Hb & Hinb). cbn [snd] in Hb.
    rewrite Hs in Ha. cbn [hashable] in Ha. injection Ha as <-.
    destruct (edge_type d') as [b' | |] eqn:Eb; try discriminate Hb.
    cbn [hashable] in Hb. injection Hb as ->.
    destruct (set_of_rep types _ Hina) as (ra & Hra & Hera).
    destruct (set_of_rep types _ Hinb) as (rb & Hrb & Herb).
    rewrite (py_sorted_mixed (set_of types) ra rb Hra Hrb); [reflexivity | |].
    + destruct ra; try discriminate Hera. reflexivity.
    + destruct rb as [| | | | t]; try reflexivity. exfalso.
      apply atom_eqb_str in Herb. apply (Hns t). rewrite Herb. reflexivity.
  - assert (e = TypeError); [| subst e; reflexivity].
    clear - Et. revert Et. generalize (nx.edges G). intros l. revert e.
    induction l as [| x l IH]; intros e; cbn [mapM]; [discriminate |].
    destruct (edge_type (snd x)) as [a | |]; cbn [hashable bind];
      try (intros H; injection H as <-; reflexivity).
    destruct (mapM _ l) as [ys | e'] eqn:El; cbn [bind]; [discriminate |].
    intros H. injection H as <-. apply (IH e' eq_refl).
Qed.

(** An edge of type [depends_on] beside an edge of type [null]. *)
Lemma draw_graph_mixed_types_witness :
  draw_graph (graph_of nodes_ab [edge_ab; edge_ba_null]) (two, two) true 8
  = Raise TypeError.
Proof.
  eapply (draw_graph_mixed_types (graph_of nodes_ab [edge_ab; edge_ba_null])
            (two, two) true 8 _
            (AStr (str "a")) (AStr (str "b")) (AStr (str "b")) (AStr (str "a"))
            edge_ab edge_ba_null (str "depends_on")).
  - reflexivity.
  - left. reflexivity.
  - reflexivity.
  - right. left. reflexivity.
  - intros s' H. discriminate H.
Defined.

(** ** Exact floats: the horizontal coordinate *)

Lemma mant_spec (p : positive) :
  Zpos p < 2 ^ 53 ->
  digits2_pos (mant p) = 53%positive /\
  Zpos (mant p) = Zpos p * 2 ^ (53 - Zpos (digits2_pos p)) /\
  2 ^ 52 <= Zpos (mant p) < 2 ^ 53.
Proof.
  intros Hp. destruct (shl_align_digits p Hp) as (Hd & _ & Hm). fold (mant p) in Hd, Hm.
  split; [exact Hd |]. split; [exact Hm |].
  pose proof (digits2_pos_lower (mant p)). pose proof (digits2_pos_upper (mant p)).
  rewrite Hd in *. change (53 - 1) with 52 in *. lia.
Qed.

Lemma float_of_int_scaled (k : Z) :
  Z.abs k < 2 ^ 53 -> float_of_int k = Ok (scaled k 0).
Proof.
  intros Hk. destruct k as [| p | p]; cbn [scaled].
  - reflexivity.
  - rewrite Z.add_0_r. apply float_of_int_pos. lia.
  - rewrite Z.add_0_r. apply float_of_int_neg. lia.
Qed.

Lemma scaled_opp (k t : Z) : k <> 0 -> scaled (- k) t = fopp (scaled k t).
Proof. intros Hk. destruct k; [contradiction | reflexivity | reflexivity]. Qed.

(** *** A mantissa that needs no rounding *)

Lemma pow2_split (a b : Z) : 0 <= a -> 0 <= b -> 2 ^ (a + b) = 2 ^ a * 2 ^ b.
Proof. intros. apply Z.pow_add_r; assumption. Qed.

Lemma same_mantissa (m q : Z) (a : Z) :
  2 ^ 52 <= m < 2 ^ 53 -> 2 ^ 52 <= q < 2 ^ 53 -> 0 <= a -> m * 2 ^ a = q ->
  a = 0 /\ m = q.
Proof.
  intros Hm Hq Ha H. destruct (Z.eq_dec a 0) as [-> | Hne].
  - split; [reflexivity |]. rewrite Z.pow_0_r in H. lia.
  - exfalso. assert (2 <= 2 ^ a).
    { change 2 with (2 ^ 1) at 1. apply Z.pow_le_mono_r; lia. }
    change (2 ^ 53) with (2 ^ 52 * 2) in *. nia.
Qed.

Lemma binary_round_aux_multiple (s : bool) (P q : positive) (e0 : Z) :
  let D := Zpos (digits2_pos P) in
  54 <= D -> Zpos P = Zpos q * 2 ^ (D - 53) ->
  -1074 <= D + e0 - 53 -> D + e0 - 52 <= 971 ->
  binary_round_aux prec emax s (Zpos P) e0 loc_Exact = S754_finite s q (e0 + (D - 53)).
Proof.
  intros D HD HP Hlo Hhi.
  destruct (binary_round_aux_spec s P e0 HD Hlo Hhi) as (mf & ef & Hr & Hdf & Hef & Herr).
  fold D in Hef, Herr. rewrite Hr.
  pose proof (digits2_pos_lower P) as Hl. pose proof (digits2_pos_upper P) as Hu.
  fold D in Hl, Hu.
  set (n := D - 53) in *. assert (Hn : 1 <= n) by (subst n; lia).
  assert (Hpn : 0 < 2 ^ n) by (apply Z.pow_pos_nonneg; lia).
  assert (Hq : 2 ^ 52 <= Zpos q < 2 ^ 53).
  { replace (D - 1) with (52 + n) in Hl by (subst n; lia).
    replace D with (53 + n) in Hu by (subst n; lia).
    rewrite pow2_split in Hl, Hu by lia. rewrite HP in Hl, Hu. split; nia. }
  assert (Hmf : 2 ^ 52 <= Zpos mf < 2 ^ 53).
  { pose proof (digits2_pos_lower mf). pose proof (digits2_pos_upper mf).
    rewrite Hdf in *. change (53 - 1) with 52 in *. lia. }
  set (a := ef - e0 - n). assert (Ha : 0 <= a) by (subst a; lia).
  replace (ef - e0) with (a + n) in Herr by (subst a; lia).
  rewrite pow2_split in Herr by lia. rewrite HP in Herr.
  assert (Hpa : 0 < 2 ^ a) by (apply Z.pow_pos_nonneg; lia).
  assert (Heq : Zpos mf * 2 ^ a = Zpos q).
  { replace (Zpos mf * (2 ^ a * 2 ^ n) - Zpos q * 2 ^ n)
      with ((Zpos mf * 2 ^ a - Zpos q) * 2 ^ n) in Herr by ring.
    rewrite Z.abs_mul, (Z.abs_eq (2 ^ n)) in Herr by lia.
    destruct (Z.eq_dec (Zpos mf * 2 ^ a) (Zpos q)) as [E | E]; [exact E |].
    exfalso. assert (1 <= Z.abs (Zpos mf * 2 ^ a - Zpos q)) by lia. nia. }
  destruct (same_mantissa (Zpos mf) (Zpos q) a Hmf Hq Ha Heq) as [Ha0 Hm].
  injection Hm as ->. f_equal. subst a. lia.
Qed.

Lemma iter_xO_value (p d : positive) : Zpos (Pos.iter xO p d) = Zpos p * 2 ^ Zpos d.
Proof.
  induction d using Pos.peano_ind.
  - simpl. lia.
  - rewrite Pos.iter_succ. rewrite Pos2Z.inj_succ, Z.pow_succ_r by lia.
    rewrite Pos2Z.inj_xO. lia.
Qed.

Lemma digits2_pos_shift (p P : positive) (j : Z) :
  0 <= j -> Zpos P = Zpos p * 2 ^ j -> Zpos (digits2_pos P) = Zpos (digits2_pos p) + j.
Proof.
  intros Hj HP. apply digits2_pos_unique.
  pose proof (digits2_pos_lower p) as Hl. pose proof (digits2_pos_upper p) as Hu.
  assert (Hpj : 0 < 2 ^ j) by (apply Z.pow_pos_nonneg; lia).
  replace (Zpos (digits2_pos p) + j - 1) with ((Zpos (digits2_pos p) - 1) + j) by lia.
  rewrite !pow2_split by lia. rewrite HP. split; nia.
Qed.

(** [binary_normalize] on [k * 2^j] at exponent [e], when [k] fits in 53
    bits: the float of value [k * 2^(e + j)]. *)
Lemma binary_normalize_exact (k j e : Z) :
  Z.abs k < 2 ^ 53 -> 0 <= j ->
  -1000 <= e + j <= 900 ->
  binary_normalize prec emax (k * 2 ^ j) e false = scaled k (e + j).
Proof.
  intros Hk Hj He.
  assert (Hpj : 0 < 2 ^ j) by (apply Z.pow_pos_nonneg; lia).
  assert (Hmain : forall (s : bool) (p P : positive),
             Zpos p < 2 ^ 53 -> Zpos P = Zpos p * 2 ^ j ->
             binary_round prec emax s P e =
             S754_finite s (mant p) (Zpos (digits2_pos p) - 53 + (e + j))).
  { intros s p P Hp HP.
    destruct (mant_spec p Hp) as (Hdm & Hm & Hmr).
    pose proof (digits2_pos_le_53 p Hp) as Hdp.
    pose proof (digits2_pos_shift p P j Hj HP) as HD.
    set (dp := Zpos (digits2_pos p)) in *.
    assert (Hdp1 : 1 <= dp) by (subst dp; lia).
    unfold binary_round. rewrite HD.
    replace (fexp prec emax (dp + j + e)) with (dp + j + e - 53)
      by (unfold fexp, emin, prec, emax; lia).
    unfold shl_align.
    destruct (dp + j + e - 53 - e) as [| n | d] eqn:En.
    - (* 53 bits already *)
      assert (HPm : P = mant p).
      { apply Pos2Z.inj. rewrite HP, Hm. f_equal. f_equal. lia. }
      rewrite HPm. rewrite binary_round_aux_exact; [f_equal; lia | exact Hdm | lia].
    - (* more than 53 bits: the low bits are zero *)
      rewrite (binary_round_aux_multiple s P (mant p) e); rewrite ?HD.
      + f_equal. lia.
      + lia.
      + rewrite HP, Hm. rewrite <- Z.mul_assoc. f_equal.
        rewrite <- pow2_split by lia. f_equal. lia.
      + lia.
      + lia.
    - (* fewer than 53 bits: shifted left *)
      assert (HPm : Pos.iter xO P d = mant p).
      { apply Pos2Z.inj. rewrite iter_xO_value, HP, Hm. rewrite <- Z.mul_assoc. f_equal.
        rewrite <- pow2_split by lia. f_equal. lia. }
      rewrite HPm. rewrite binary_round_aux_exact; [f_equal; lia | exact Hdm | lia]. }
  destruct k as [| p | p]; cbn [scaled].
  - rewrite Z.mul_0_l. reflexivity.
  - destruct (Zpos p * 2 ^ j) as [| P | P] eqn:EP; try lia.
    cbn [binary_normalize]. apply Hmain; [lia | symmetry; exact EP].
  - assert (EP : exists P, Zneg p * 2 ^ j = Zneg P /\ Zpos P = Zpos p * 2 ^ j).
    { destruct (Zpos p * 2 ^ j) as [| P | P] eqn:EP; try lia.
      exists P. split; [| reflexivity].
      replace (Zneg p) with (- Zpos p) by reflexivity. rewrite Z.mul_opp_l, EP. reflexivity. }
    destruct EP as (P & -> & HP). cbn [binary_normalize]. apply Hmain; [lia | exact HP].
Qed.

(** *** Halving, and the difference of an integer and a half-integer *)

Lemma fdiv_two_finite (s : bool) (p : positive) :
  Zpos p < 2 ^ 53 ->
  fdiv (S754_finite s (mant p) (Zpos (digits2_pos p) - 53 + 0)) two =
  S754_finite s (mant p) (Zpos (digits2_pos p) - 53 + -1).
Proof.
  intros Hp. destruct (mant_spec p Hp) as (Hdm & Hm & Hmr).
  pose proof (digits2_pos_le_53 p Hp) as Hdp.
  set (dp := Zpos (digits2_pos p)) in *.
  assert (Hdp1 : 1 <= dp) by (subst dp; lia).
  unfold fdiv, two, SFdiv, SFdiv_core_binary. cbn [Zdigits2]. rewrite Hdm.
  change (Zpos (digits2_pos 4503599627370496)) with 53.
  replace (fexp prec emax (53 + (dp - 53 + 0) - (53 + -51))) with (dp - 53 - 2)
    by (unfold fexp, emin, prec, emax; lia).
  replace (Z.min (dp - 53 - 2) (dp - 53 + 0 - -51)) with (dp - 53 - 2) by lia.
  replace (dp - 53 + 0 - -51 - (dp - 53 - 2)) with 53 by lia.
  rewrite Z.shiftl_mul_pow2 by lia.
  assert (Hdiv : Z.div_eucl (Zpos (mant p) * 2 ^ 53) (Zpos 4503599627370496) =
                 (Zpos (mant p)~0, 0)).
  { pose proof (Z.div_eucl_eq (Zpos (mant p) * 2 ^ 53) (Zpos 4503599627370496) ltac:(lia)) as Heq.
    pose proof (Z.mod_pos_bound (Zpos (mant p) * 2 ^ 53) (Zpos 4503599627370496) ltac:(lia)) as Hb.
    unfold Z.modulo in Hb.
    destruct (Z.div_eucl (Zpos (mant p) * 2 ^ 53) (Zpos 4503599627370496)) as [q r].
    change (2 ^ 53) with (2 * 4503599627370496) in Heq.
    assert (r = 0) by lia. subst r.
    assert (q = Zpos (mant p)~0) by lia. subst q. reflexivity. }
  rewrite Hdiv. change (new_location (Zpos 4503599627370496) 0) with loc_Exact.
  rewrite xorb_false_r.
  rewrite (binary_round_aux_multiple s ((mant p)~0) (mant p)).
  - cbn [digits2_pos]. rewrite Hdm. f_equal. lia.
  - cbn [digits2_pos]. rewrite Hdm. lia.
  - cbn [digits2_pos]. rewrite Hdm. change (Zpos (Pos.succ 53) - 53) with 1. lia.
  - cbn [digits2_pos]. rewrite Hdm. lia.
  - cbn [digits2_pos]. rewrite Hdm. lia.
Qed.

Lemma fdiv_two (k : Z) :
  Z.abs k < 2 ^ 53 -> fdiv (scaled k 0) two = scaled k (-1).
Proof.
  intros Hk. destruct k as [| p | p]; cbn [scaled].
  - reflexivity.
  - apply fdiv_two_finite. lia.
  - apply fdiv_two_finite. lia.
Qed.

Lemma shl_align_value (m : positive) (e ez : Z) :
  ez <= e -> Zpos (fst (shl_align m e ez)) = Zpos m * 2 ^ (e - ez).
Proof.
  intros H. unfold shl_align. destruct (ez - e) as [| d | d] eqn:Ed; cbn [fst]; try lia.
  - replace (e - ez) with 0 by lia. lia.
  - rewrite iter_xO_value. f_equal. f_equal. lia.
Qed.

Lemma fsub_half (i m : Z) :
  0 <= i <= m -> m < 2 ^ 53 ->
  fsub (scaled i 0) (scaled m (-1)) = scaled (2 * i - m) (-1).
Proof.
  intros Hi Hm. destruct m as [| pm | pm]; try lia.
  - assert (i = 0) by lia. subst i. reflexivity.
  - destruct i as [| pi | pi]; try lia.
    + reflexivity.
    + destruct (mant_spec pi ltac:(lia)) as (_ & Hmi & _).
      destruct (mant_spec pm Hm) as (_ & Hmm & _).
      pose proof (digits2_pos_le_53 pi ltac:(lia)) as Hdi.
      pose proof (digits2_pos_le_53 pm Hm) as Hdm.
      cbn [scaled]. unfold fsub, SFsub. cbn [cond_Zopp].
      set (di := Zpos (digits2_pos pi)) in *. set (dm := Zpos (digits2_pos pm)) in *.
      assert (Hdi1 : 1 <= di) by (subst di; lia).
      assert (Hdm1 : 1 <= dm) by (subst dm; lia).
      set (ez := Z.min (di - 53 + 0) (dm - 53 + -1)).
      rewrite !shl_align_value by (subst ez; lia).
      rewrite Hmi, Hmm. fold di dm.
      replace (Zpos pi * 2 ^ (53 - di) * 2 ^ (di - 53 + 0 - ez) -
               Zpos pm * 2 ^ (53 - dm) * 2 ^ (dm - 53 + -1 - ez))
        with ((2 * Zpos pi - Zpos pm) * 2 ^ (-1 - ez)).
      * replace (-1) with (ez + (-1 - ez)) at 2 by lia.
        apply binary_normalize_exact; subst ez; lia.
      * rewrite <- !Z.mul_assoc, <- !pow2_split by (subst ez; lia).
        replace (53 - di + (di - 53 + 0 - ez)) with (1 + (-1 - ez)) by lia.
        replace (53 - dm + (dm - 53 + -1 - ez)) with (-1 - ez) by lia.
        rewrite pow2_split by (subst ez; lia). change (2 ^ 1) with 2. ring.
Qed.

(** The horizontal coordinate: the product of an exact half-integer and
    the gap. *)
Lemma x_coord_value (i n : Z) :
  0 <= i < n -> n <= 2 ^ 53 ->
  x_coord i n = Ok (fmul (scaled (2 * i - (n - 1)) (-1)) xgap).
Proof.
  intros Hi Hn. unfold x_coord.
  rewrite !float_of_int_scaled by lia. cbn [bind].
  rewrite fdiv_two by lia. rewrite fsub_half by lia. reflexivity.
Qed.

(** *** The product with the gap *)

Lemma binary_round_aux_opp (s : bool) (m e : Z) (l : location) :
  binary_round_aux prec emax (negb s) m e l = fopp (binary_round_aux prec emax s m e l).
Proof.
  unfold binary_round_aux. destruct (shr_fexp prec emax m e l) as [mrs' e'].
  destruct (shr_fexp prec emax _ e' loc_Exact) as [mrs'' e''].
  destruct (shr_m mrs'') as [| q | q]; [reflexivity | | reflexivity].
  destruct (e'' <=? emax - prec); reflexivity.
Qed.

Lemma fmul_gap_opp (x : float) : fmul (fopp x) xgap = fopp (fmul x xgap).
Proof.
  destruct x as [s | s | | s m e];
    [destruct s; reflexivity | destruct s; reflexivity | reflexivity |].
  unfold fmul, xgap, gap, fopp. cbn [SFmul SFopp]. rewrite !xorb_false_r.
  apply binary_round_aux_opp.
Qed.

Lemma fmul_gap_half_spec (s : bool) (p : positive) :
  Zpos p < 2 ^ 53 ->
  exists mf ef,
    fmul (S754_finite s (mant p) (Zpos (digits2_pos p) - 53 + -1)) xgap
      = S754_finite s mf ef /\
    digits2_pos mf = 53%positive /\
    0 <= ef + 105 /\
    2 * Z.abs (Zpos mf * 2 ^ (ef + 105) - Zpos p * Zpos mg * 2 ^ 53) <= 2 ^ 106.
Proof.
  intros Hp. destruct (mant_spec p Hp) as (HdM & HM & HMa).
  pose proof (digits2_pos_le_53 p Hp) as Hdp.
  set (dp := Zpos (digits2_pos p)) in *.
  set (Ma := mant p) in *.
  assert (Hdp0 : 1 <= dp) by (subst dp; lia).
  unfold fmul, xgap, gap. cbn [SFmul]. rewrite xorb_false_r. fold mg.
  set (P := (Ma * mg)%positive).
  assert (HP : Zpos P = Zpos Ma * Zpos mg) by reflexivity.
  assert (HPlo : 2 ^ 104 <= Zpos P).
  { rewrite HP. change (2 ^ 104) with (2 ^ 52 * 2 ^ 52).
    apply Z.mul_le_mono_nonneg; try lia. unfold mg. change (2 ^ 52) with 4503599627370496. lia. }
  pose proof (digits2_pos_lower P) as HDl. pose proof (digits2_pos_upper P) as HDu.
  set (D := Zpos (digits2_pos P)) in *.
  assert (HD105 : 105 <= D).
  { assert (104 < D); [| lia]. apply pow2_lt_inv; [subst D; lia | lia]. }
  assert (Hscale : Zpos P * 2 ^ dp = Zpos p * Zpos mg * 2 ^ 53).
  { rewrite HP, HM. replace 53 with ((53 - dp) + dp) at 2 by lia.
    rewrite (Z.pow_add_r 2 (53 - dp) dp) by lia. ring. }
  assert (HDdp : D + dp <= 159).
  { assert (D - 1 + dp < 159); [| lia]. apply pow2_lt_inv; [lia |].
    rewrite Z.pow_add_r by lia.
    apply Z.le_lt_trans with (Zpos P * 2 ^ dp).
    - apply Z.mul_le_mono_nonneg_r; [apply Z.pow_nonneg; lia | exact HDl].
    - rewrite Hscale. change (2 ^ 159) with (2 ^ 53 * 2 ^ 53 * 2 ^ 53).
      apply Z.mul_lt_mono_pos_r; [reflexivity |].
      apply Z.lt_le_trans with (2 ^ 53 * Zpos mg).
      + apply Z.mul_lt_mono_pos_r; [reflexivity | exact Hp].
      + apply Z.mul_le_mono_nonneg_l; [lia |]. unfold mg.
        change (2 ^ 53) with 9007199254740992. lia. }
  destruct (binary_round_aux_spec s P (dp - 53 + -1 + -51)) as (mf & ef & Hr & Hdf & Hef & Herr);
    fold D; try lia.
  exists mf, ef. split; [exact Hr |]. split; [exact Hdf |]. split; [lia |].
  fold D in Hef, Herr.
  rewrite <- Hscale.
  replace (ef + 105) with ((ef - (dp - 53 + -1 + -51)) + dp) by lia.
  rewrite Z.pow_add_r by lia.
  assert (Hdp_pos : 0 < 2 ^ dp) by (apply Z.pow_pos_nonneg; lia).
  replace (Zpos mf * (2 ^ (ef - (dp - 53 + -1 + -51)) * 2 ^ dp) - Zpos P * 2 ^ dp)
    with ((Zpos mf * 2 ^ (ef - (dp - 53 + -1 + -51)) - Zpos P) * 2 ^ dp) by ring.
  rewrite Z.abs_mul, (Z.abs_eq (2 ^ dp)) by lia.
  apply Z.le_trans with (2 ^ (D - 53) * 2 ^ dp).
  - rewrite Z.mul_assoc. apply Z.mul_le_mono_nonneg_r; [lia | exact Herr].
  - rewrite <- Z.pow_add_r by lia. apply Z.pow_le_mono_r; lia.
Qed.

(** Two half-integers one apart or more have different products with the
    gap, in the same order. *)
Lemma fmul_gap_half_increasing (s : bool) (p1 p2 : positive) :
  Zpos p1 + 2 <= Zpos p2 -> Zpos p2 < 2 ^ 53 ->
  exists m1 e1 m2 e2,
    fmul (S754_finite s (mant p1) (Zpos (digits2_pos p1) - 53 + -1)) xgap
      = S754_finite s m1 e1 /\
    fmul (S754_finite s (mant p2) (Zpos (digits2_pos p2) - 53 + -1)) xgap
      = S754_finite s m2 e2 /\
    (e1 < e2 \/ (e1 = e2 /\ (m1 < m2)%positive)).
Proof.
  intros Hlt Hp2.
  destruct (fmul_gap_half_spec s p1) as (m1 & e1 & H1 & D1 & K1 & E1); [lia |].
  destruct (fmul_gap_half_spec s p2 Hp2) as (m2 & e2 & H2 & D2 & K2 & E2).
  exists m1, e1, m2, e2. split; [exact H1 |]. split; [exact H2 |].
  apply (lex_of_value m1 m2 e1 e2 105 D1 D2 K1 K2).
  unfold mg in E1, E2.
  change (2 ^ 53) with 9007199254740992 in *.
  change (2 ^ 106) with 81129638414606681695789005144064 in *.
  lia.
Qed.

Lemma fltb_scaled_gap (k1 k2 : Z) :
  k1 + 2 <= k2 -> Z.abs k1 < 2 ^ 53 -> Z.abs k2 < 2 ^ 53 ->
  fltb (fmul (scaled k1 (-1)) xgap) (fmul (scaled k2 (-1)) xgap) = true.
Proof.
  intros Hlt H1 H2.
  destruct k1 as [| p1 | p1], k2 as [| p2 | p2]; try lia; cbn [scaled].
  - destruct (fmul_gap_half_spec false p2) as (m2 & e2 & -> & _); [lia |]. reflexivity.
  - destruct (fmul_gap_half_increasing false p1 p2) as (m1 & e1 & m2 & e2 & -> & -> & Hlex);
      [lia | lia |].
    unfold fltb, SFltb, SFcompare.
    destruct Hlex as [He | [-> Hm]].
    + rewrite (proj2 (Z.compare_lt_iff e1 e2)) by lia. reflexivity.
    + rewrite Z.compare_refl, compare_cont_lt by exact Hm. reflexivity.
  - destruct (fmul_gap_half_spec true p1) as (m1 & e1 & -> & _); [lia |]. reflexivity.
  - destruct (fmul_gap_half_spec true p1) as (m1 & e1 & -> & _); [lia |].
    destruct (fmul_gap_half_spec false p2) as (m2 & e2 & -> & _); [lia |]. reflexivity.
  - destruct (fmul_gap_half_increasing true p2 p1) as (m2 & e2 & m1 & e1 & -> & -> & Hlex);
      [lia | lia |].
    unfold fltb, SFltb, SFcompare.
    destruct Hlex as [He | [-> Hm]].
    + rewrite (proj2 (Z.compare_gt_iff e1 e2)) by lia. reflexivity.
    + rewrite Z.compare_refl, compare_cont_gt by exact Hm. reflexivity.
Qed.

(** Within a layer of at most [2^53] nodes the horizontal coordinate
    grows strictly with the index. *)
Lemma x_coord_increasing (i j n : Z) :
  0 <= i -> i < j -> j < n -> n <= 2 ^ 53 ->
  exists xi xj, x_coord i n = Ok xi /\ x_coord j n = Ok xj /\ fltb xi xj = true.
Proof.
  intros Hi Hij Hj Hn. rewrite !x_coord_value by lia.
  eexists. eexists. split; [reflexivity |]. split; [reflexivity |].
  apply fltb_scaled_gap; lia.
Qed.

(** The coordinates of the indices [i] and [n - 1 - i] are opposite, and
    the coordinate of the middle index is [0.0]. *)
Lemma x_coord_symmetric (i n : Z) :
  0 <= i -> i < n -> n <= 2 ^ 53 ->
  exists x,
    x_coord i n = Ok x /\
    (2 * i <> n - 1 -> x_coord (n - 1 - i) n = Ok (fopp x)) /\
    (2 * i = n - 1 -> x = zero).
Proof.
  intros Hi Hin Hn. rewrite !x_coord_value by lia.
  eexists. split; [reflexivity |]. split.
  - intros Hne. f_equal. rewrite <- fmul_gap_opp, <- scaled_opp by lia.
    f_equal. f_equal. lia.
  - intros Heq. replace (2 * i - (n - 1)) with 0 by lia. reflexivity.
Qed.

(** ** layered_layout: positions *)

(** *** The keys of the layout *)

Lemma first_keys_app (seen l1 l2 : list atom) :
  first_keys seen (l1 ++ l2) =
  first_keys seen l1 ++ first_keys (seen ++ first_keys seen l1) l2.
Proof.
  revert seen. induction l1 as [| k l1 IH]; intros seen; cbn [app first_keys].
  - rewrite app_nil_r. reflexivity.
  - destruct (existsb (atom_eqb k) seen).
    + apply IH.
    + cbn [app]. rewrite IH. rewrite <- app_assoc. reflexivity.
Qed.

Lemma first_keys_fresh (seen l : list atom) :
  forallb is_str l = true -> NoDup l -> (forall x, In x l -> ~ In x seen) ->
  first_keys seen l = l.
Proof.
  revert seen. induction l as [| k l IH]; intros seen Hstr Hnd Hfresh; cbn [first_keys].
  - reflexivity.
  - cbn [forallb] in Hstr. apply andb_true_iff in Hstr. destruct Hstr as [Hk Hstr].
    inversion Hnd as [| ? ? Hnin Hnd']; subst.
    assert (Hex : existsb (atom_eqb k) seen = false).
    { destruct (existsb (atom_eqb k) seen) eqn:E; [| reflexivity].
      apply existsb_exists in E. destruct E as (y & Hy & Hky).
      destruct k as [| | | | s]; try discriminate Hk.
      rewrite atom_eqb_sym in Hky. apply atom_eqb_str in Hky. subst y.
      exfalso. apply (Hfresh (AStr s)); [left; reflexivity | exact Hy]. }
    rewrite Hex. f_equal. apply IH; [exact Hstr | exact Hnd' |].
    intros x Hx Hin. apply in_app_or in Hin. destruct Hin as [Hin | [<- | []]].
    + apply (Hfresh x); [right; exact Hx | exact Hin].
    + contradiction.
Qed.

Lemma place_nodes_keys (layer n : Z) (ids : list atom) (i0 : Z)
  (pos pos' : list (atom * coord)) :
  foldM (place_node layer n) (enumerate_from i0 ids) pos = Ok pos' ->
  map fst pos' = map fst pos ++ first_keys (map fst pos) ids.
Proof.
  revert i0 pos. induction ids as [| k ids IH]; intros i0 pos; cbn [enumerate_from foldM].
  - intros H. injection H as <-. cbn [first_keys]. symmetry. apply app_nil_r.
  - unfold place_node at 1. cbn [fst snd].
    destruct (x_coord i0 n) as [x |]; cbn [bind]; [| discriminate].
    destruct (y_coord layer) as [y |]; cbn [bind]; [| discriminate].
    intros H. apply IH in H. rewrite H. cbn [first_keys].
    rewrite assoc_set_keys. rewrite <- (assoc_keys k pos).
    destruct (assoc k pos); [reflexivity |].
    rewrite <- app_assoc. reflexivity.
Qed.

Lemma place_layers_keys (layers : list (Z * list atom)) (Ls : list Z)
  (pos pos' : list (atom * coord)) :
  foldM (place_layer layers) Ls pos = Ok pos' ->
  exists idss,
    Forall2 (fun L ids => py_sorted (layer_ids layers L) = Ok ids) Ls idss /\
    map fst pos' = map fst pos ++ first_keys (map fst pos) (List.concat idss).
Proof.
  revert pos. induction Ls as [| L Ls IH]; intros pos; cbn [foldM].
  - intros H. injection H as <-. exists []. split; [constructor |].
    cbn [List.concat first_keys]. symmetry. apply app_nil_r.
  - unfold place_layer at 1.
    destruct (py_sorted (layer_ids layers L)) as [ids |] eqn:Es; cbn [bind]; [| discriminate].
    destruct (foldM _ (enumerate ids) pos) as [pos1 |] eqn:E1; cbn [bind]; [| discriminate].
    intros H. apply place_nodes_keys in E1. destruct (IH pos1 H) as (idss & HF & Hk).
    exists (ids :: idss). split; [constructor; assumption |].
    cbn [List.concat]. rewrite first_keys_app, Hk, E1, <- app_assoc. reflexivity.
Qed.

Lemma sorted_layers_concat (nodes : list nattr) (Ls : list Z) (idss : list (list atom)) :
  Forall2 (fun L ids => py_sorted (members nodes L) = Ok ids) Ls idss ->
  Permutation (List.concat idss) (flat_map (members nodes) Ls).
Proof.
  induction 1 as [| L ids Ls idss Hs _ IH]; cbn [List.concat flat_map]; [constructor |].
  apply Permutation_app; [| exact IH].
  apply Permutation_sym. apply (py_sorted_perm _ _ Hs).
Qed.

Lemma layers_cover (nodes : list nattr) :
  Permutation (flat_map (members nodes) (sort_Z (map fst (group_layers nodes))))
              (map attr_id nodes).
Proof.
  unfold members. rewrite flat_map_map. apply Permutation_map.
  apply (groups_partition (fun L (n : nattr) => attr_layer n =? L)).
  intros n Hn. apply count_one_Z.
  - eapply Permutation_NoDup; [apply sort_Z_perm | apply group_layers_NoDup].
  - eapply Permutation_in; [apply sort_Z_perm |].
    apply group_layers_keys. exists n. split; [exact Hn | reflexivity].
Qed.

Lemma layout_keys_perm (nodes : list nattr) (pos : list (atom * coord)) :
  forallb (fun n => is_str (attr_id n)) nodes = true ->
  NoDup (map attr_id nodes) ->
  layered_layout nodes = Ok pos ->
  Permutation (map fst pos) (map attr_id nodes).
Proof.
  intros Hstr Hnd H. unfold layered_layout in H.
  destruct (place_layers_keys _ _ _ _ H) as (idss & HF & Hk).
  cbn [map app] in Hk.
  assert (HF' : Forall2 (fun L ids => py_sorted (members nodes L) = Ok ids)
                        (sort_Z (map fst (group_layers nodes))) idss).
  { eapply Forall2_impl; [| exact HF]. intros L ids HL. cbv beta in HL.
    rewrite group_layers_ids in HL. exact HL. }
  assert (Hperm : Permutation (List.concat idss) (map attr_id nodes)).
  { eapply Permutation_trans; [apply sorted_layers_concat; exact HF' | apply layers_cover]. }
  rewrite Hk, first_keys_fresh; [exact Hperm | | | intros x _ []].
  - eapply forallb_perm; [apply Permutation_sym; exact Hperm |].
    rewrite forallb_forall in *. intros a Ha. apply in_map_iff in Ha.
    destruct Ha as (n & <- & Hn). apply Hstr. exact Hn.
  - eapply Permutation_NoDup; [apply Permutation_sym; exact Hperm | exact Hnd].
Qed.

(** X14: the layout of nodes with different string identifiers has one
    position for each node and no other entry. *)
Theorem layout_one_position_per_node (nodes : list nattr) :
  well_formed nodes ->
  exists pos,
    layered_layout nodes = Ok pos /\
    Permutation (map fst pos) (map attr_id nodes) /\
    NoDup (map fst pos) /\
    List.length pos = List.length nodes.
Proof.
  intros Hwf. destruct (layout_spec nodes Hwf) as (pos & Hpos & _).
  destruct Hwf as (Hstr & Hnd & _).
  pose proof (layout_keys_perm nodes pos Hstr Hnd Hpos) as Hperm.
  exists pos. split; [exact Hpos |]. split; [exact Hperm |]. split.
  - eapply Permutation_NoDup; [apply Permutation_sym; exact Hperm | exact Hnd].
  - rewrite <- (length_map fst pos), (Permutation_length Hperm). apply length_map.
Qed.

(** The three nodes of [scenario] have three positions. *)
Lemma layout_one_position_per_node_witness :
  exists pos,
    layered_layout scenario = Ok pos /\
    Permutation (map fst pos) (map attr_id scenario) /\
    NoDup (map fst pos) /\
    List.length pos = List.length scenario.
Proof.
  apply layout_one_position_per_node.
  split; [reflexivity |]. split; [| split; [simpl; lia |]].
  - repeat constructor; simpl; intuition discriminate.
  - intros n [<- | [<- | [<- | []]]]; reflexivity.
Defined.

(** *** One layer of the layout *)

Lemma layout_layer (nodes : list nattr) (pos : list (atom * coord)) (L : Z) :
  well_formed nodes ->
  layered_layout nodes = Ok pos ->
  (exists n, In n nodes /\ attr_layer n = L) ->
  exists ids y,
    Permutation (members nodes L) ids /\ StronglySorted atom_le ids /\ NoDup ids /\
    Z.of_nat (List.length ids) <= 2 ^ 53 /\
    y_coord L = Ok y /\
    forall j nid, nth_error ids j = Some nid ->
      exists x, x_coord (Z.of_nat j) (Z.of_nat (List.length ids)) = Ok x /\
                assoc nid pos = Some (x, y).
Proof.
  intros Hwf Hpos HL. destruct (layout_spec nodes Hwf) as (pos' & Hpos' & Hlayers).
  rewrite Hpos in Hpos'. injection Hpos' as <-.
  destruct (Hlayers L HL) as (ids & y & Hsort & Hy & Hnth).
  destruct Hwf as (Hstr & Hnd & Hsize & _).
  destruct (py_sorted_str _ (members_str nodes L Hstr)) as (ids' & Hsort' & Hperm & Hsorted).
  rewrite Hsort in Hsort'. injection Hsort' as <-.
  exists ids, y. split; [exact Hperm |]. split; [exact Hsorted |]. split.
  - eapply Permutation_NoDup; [exact Hperm | apply members_NoDup; exact Hnd].
  - split; [| split; assumption].
    rewrite <- (Permutation_length Hperm). unfold members. rewrite length_map.
    pose proof (filter_length_le (fun n => attr_layer n =? L) nodes). lia.
Qed.

Lemma sorted_nth (ids : list atom) (i j : nat) (a b : atom) :
  StronglySorted atom_le ids -> (i < j)%nat ->
  nth_error ids i = Some a -> nth_error ids j = Some b -> atom_le a b.
Proof.
  intros Hs. revert i j. induction Hs as [| x l Hs IH Hall]; intros i j Hij Ha Hb.
  - destruct i; discriminate Ha.
  - destruct j as [| j]; [lia |]. cbn [nth_error] in Hb. destruct i as [| i].
    + cbn [nth_error] in Ha. injection Ha as <-. rewrite Forall_forall in Hall.
      apply Hall. apply (nth_error_In _ _ Hb).
    + cbn [nth_error] in Ha. apply (IH i j); [lia | assumption | assumption].
Qed.

Lemma lex_lt_not_le (s t : pystr) : lex_lt s t -> ~ atom_le (AStr t) (AStr s).
Proof.
  intros Hst Hle. apply pystr_ltb_lex in Hst. apply atom_le_ltb in Hle. congruence.
Qed.

Lemma ids_In_nth (ids : list atom) (a : atom) :
  In a ids -> exists i, nth_error ids i = Some a.
Proof. intros H. apply In_nth_error. exact H. Qed.

Lemma ids_NoDup_nth (ids : list atom) (i j : nat) (a : atom) :
  NoDup ids -> nth_error ids i = Some a -> nth_error ids j = Some a -> i = j.
Proof.
  intros Hnd Hi Hj. apply (proj1 (NoDup_nth_error ids) Hnd).
  - apply nth_error_Some. congruence.
  - congruence.
Qed.

(** X15: nodes with pairwise different string identifiers, at most [2^53]
    of them, whose negated layer numbers convert to floats, are laid out,
    and within a layer they stand from left to right in the lexicographic
    order of their identifiers: two nodes of one layer have the same [y],
    and the one whose identifier comes first has the strictly smaller
    [x]. *)
Theorem layout_left_to_right (nodes : list nattr) :
  well_formed nodes ->
  exists pos,
    layered_layout nodes = Ok pos /\
    forall n1 n2 s1 s2,
      In n1 nodes -> In n2 nodes -> attr_layer n1 = attr_layer n2 ->
      attr_id n1 = AStr s1 -> attr_id n2 = AStr s2 -> lex_lt s1 s2 ->
      exists x1 x2 y,
        assoc (attr_id n1) pos = Some (x1, y) /\
        assoc (attr_id n2) pos = Some (x2, y) /\
        fltb x1 x2 = true.
Proof.
  intros Hwf. destruct (layout_spec nodes Hwf) as (pos & Hpos & _).
  exists pos. split; [exact Hpos |].
  intros n1 n2 s1 s2 Hn1 Hn2 HL Hs1 Hs2 Hlt.
  destruct (layout_layer nodes pos (attr_layer n1) Hwf Hpos)
    as (ids & y & Hperm & Hsorted & Hnd & Hsize & Hy & Hnth).
  { exists n1. split; [exact Hn1 | reflexivity]. }
  assert (Ha : In (attr_id n1) ids).
  { eapply Permutation_in; [exact Hperm |]. apply members_In. exists n1. tauto. }
  assert (Hb : In (attr_id n2) ids).
  { eapply Permutation_in; [exact Hperm |]. apply members_In. exists n2.
    split; [exact Hn2 |]. split; [symmetry; exact HL | reflexivity]. }
  destruct (ids_In_nth ids _ Ha) as [i Hi]. destruct (ids_In_nth ids _ Hb) as [j Hj].
  assert (Hij : (i < j)%nat).
  { destruct (Nat.lt_trichotomy i j) as [H | [H | H]]; [exact H | |]; exfalso.
    - subst j. rewrite Hi in Hj. injection Hj as Heq. rewrite Hs1, Hs2 in Heq.
      injection Heq as ->. apply (lex_lt_not_le s2 s2 Hlt). left. reflexivity.
    - pose proof (sorted_nth ids j i _ _ Hsorted H Hj Hi) as Hle.
      rewrite Hs1, Hs2 in Hle. apply (lex_lt_not_le s1 s2 Hlt Hle). }
  assert (Hjn : (j < List.length ids)%nat) by (apply nth_error_Some; congruence).
  destruct (x_coord_increasing (Z.of_nat i) (Z.of_nat j) (Z.of_nat (List.length ids)))
    as (xi & xj & Hxi & Hxj & Hlt'); try lia.
  destruct (Hnth i _ Hi) as (x1 & Hx1 & Hp1). destruct (Hnth j _ Hj) as (x2 & Hx2 & Hp2).
  rewrite Hxi in Hx1. injection Hx1 as <-. rewrite Hxj in Hx2. injection Hx2 as <-.
  exists xi, xj, y. split; [exact Hp1 |]. split; [exact Hp2 | exact Hlt'].
Qed.

(** In [scenario], [A] stands left of [B]. *)
Lemma layout_left_to_right_witness :
  exists pos,
    layered_layout scenario = Ok pos /\
    exists x1 x2 y,
      assoc (AStr (str "A")) pos = Some (x1, y) /\
      assoc (AStr (str "B")) pos = Some (x2, y) /\
      fltb x1 x2 = true.
Proof.
  destruct (layout_left_to_right scenario) as (pos & Hpos & H).
  - split; [reflexivity |]. split; [| split; [simpl; lia |]].
    + repeat constructor; simpl; intuition discriminate.
    + intros n [<- | [<- | [<- | []]]]; reflexivity.
  - exists pos. split; [exact Hpos |].
    apply (H (named (PStr "A") (AStr (str "A"))) (named (PStr "B") (AStr (str "B")))
             (str "A") (str "B")).
    + right. left. reflexivity.
    + left. reflexivity.
    + reflexivity.
    + reflexivity.
    + reflexivity.
    + apply pystr_ltb_lex. reflexivity.
Defined.

(** X16: nodes with pairwise different string identifiers, at most [2^53]
    of them, whose negated layer numbers convert to floats, are laid out
    with every layer centred on [x = 0]: the node at position [i] of the
    sorted identifiers of a layer and the node at position [i] from the end
    have opposite [x] and equal [y], and the middle node of a layer with an
    odd number of nodes has [x = 0.0]. *)
Theorem layout_symmetric (nodes : list nattr) :
  well_formed nodes ->
  exists pos,
    layered_layout nodes = Ok pos /\
    forall L, (exists n, In n nodes /\ attr_layer n = L) ->
      exists ids,
        Permutation (members nodes L) ids /\ StronglySorted atom_le ids /\
        forall i a b,
          nth_error ids i = Some a ->
          nth_error ids (List.length ids - 1 - i) = Some b ->
          exists x y,
            assoc a pos = Some (x, y) /\
            (a <> b -> assoc b pos = Some (fopp x, y)) /\
            (a = b -> x = zero).
Proof.
  intros Hwf. destruct (layout_spec nodes Hwf) as (pos & Hpos & _).
  exists pos. split; [exact Hpos |]. intros L HL.
  destruct (layout_layer nodes pos L Hwf Hpos HL)
    as (ids & y & Hperm & Hsorted & Hnd & Hsize & Hy & Hnth).
  exists ids. split; [exact Hperm |]. split; [exact Hsorted |].
  intros i a b Hi Hj.
  assert (Hin : (i < List.length ids)%nat) by (apply nth_error_Some; congruence).
  destruct (x_coord_symmetric (Z.of_nat i) (Z.of_nat (List.length ids)))
    as (x & Hx & Hsym & Hmid); try lia.
  destruct (Hnth i a Hi) as (x1 & Hx1 & Hp1). rewrite Hx in Hx1. injection Hx1 as <-.
  exists x, y. split; [exact Hp1 |]. split.
  - intros Hne. destruct (Hnth _ b Hj) as (x2 & Hx2 & Hp2).
    replace (Z.of_nat (List.length ids - 1 - i))
      with (Z.of_nat (List.length ids) - 1 - Z.of_nat i) in Hx2 by lia.
    rewrite Hsym in Hx2.
    + injection Hx2 as <-. exact Hp2.
    + intros Heq. apply Hne.
      assert (Hii : (List.length ids - 1 - i)%nat = i) by lia.
      rewrite Hii in Hj. congruence.
  - intros ->. apply Hmid.
    pose proof (ids_NoDup_nth ids _ _ b Hnd Hi Hj). lia.
Qed.

(** The layers of [scenario] are centred. *)
Lemma layout_symmetric_witness :
  exists pos,
    layered_layout scenario = Ok pos /\
    forall L, (exists n, In n scenario /\ attr_layer n = L) ->
      exists ids,
        Permutation (members scenario L) ids /\ StronglySorted atom_le ids /\
        forall i a b,
          nth_error ids i = Some a ->
          nth_error ids (List.length ids - 1 - i) = Some b ->
          exists x y,
            assoc a pos = Some (x, y) /\
            (a <> b -> assoc b pos = Some (fopp x, y)) /\
            (a = b -> x = zero).
Proof.
  apply layout_symmetric.
  split; [reflexivity |]. split; [| split; [simpl; lia |]].
  - repeat constructor; simpl; intuition discriminate.
  - intros n [<- | [<- | [<- | []]]]; reflexivity.
Defined.

(** X17: nodes with pairwise different string identifiers, at most [2^53]
    of them, in layers between [-2^52] and [2^52], are laid out with no two
    of them at the same place: the positions of two different nodes differ
    in [x] or in [y]. *)
Theorem layout_injective (nodes : list nattr) :
  well_formed nodes ->
  (forall n, In n nodes -> - 2 ^ 52 <= attr_layer n <= 2 ^ 52) ->
  exists pos,
    layered_layout nodes = Ok pos /\
    forall n1 n2, In n1 nodes -> In n2 nodes -> attr_id n1 <> attr_id n2 ->
      exists p1 p2,
        assoc (attr_id n1) pos = Some p1 /\ assoc (attr_id n2) pos = Some p2 /\
        apart p1 p2 = true.
Proof.
  intros Hwf Hb. destruct (layout_spec nodes Hwf) as (pos & Hpos & _).
  exists pos. split; [exact Hpos |]. intros n1 n2 Hn1 Hn2 Hne.
  destruct (layout_layer nodes pos (attr_layer n1) Hwf Hpos)
    as (ids1 & y1 & Hperm1 & Hsorted1 & Hnd1 & Hsize1 & Hy1 & Hnth1).
  { exists n1. split; [exact Hn1 | reflexivity]. }
  destruct (layout_layer nodes pos (attr_layer n2) Hwf Hpos)
    as (ids2 & y2 & Hperm2 & Hsorted2 & Hnd2 & Hsize2 & Hy2 & Hnth2).
  { exists n2. split; [exact Hn2 | reflexivity]. }
  assert (Ha : In (attr_id n1) ids1).
  { eapply Permutation_in; [exact Hperm1 |]. apply members_In. exists n1. tauto. }
  assert (Hb' : In (attr_id n2) ids2).
  { eapply Permutation_in; [exact Hperm2 |]. apply members_In. exists n2. tauto. }
  destruct (ids_In_nth ids1 _ Ha) as [i Hi]. destruct (ids_In_nth ids2 _ Hb') as [j Hj].
  destruct (Hnth1 i _ Hi) as (x1 & Hx1 & Hp1). destruct (Hnth2 j _ Hj) as (x2 & Hx2 & Hp2).
  exists (x1, y1), (x2, y2). split; [exact Hp1 |]. split; [exact Hp2 |].
  unfold apart. cbn [fst snd].
  pose proof (Hb n1 Hn1) as Hb1. pose proof (Hb n2 Hn2) as Hb2.
  destruct (Z.lt_trichotomy (attr_layer n1) (attr_layer n2)) as [HL | [HL | HL]].
  - destruct (y_coord_decreasing _ _ HL) as (y1' & y2' & Hy1' & Hy2' & Hlt); try lia.
    rewrite Hy1 in Hy1'. injection Hy1' as <-. rewrite Hy2 in Hy2'. injection Hy2' as <-.
    rewrite Hlt. rewrite !orb_true_r. reflexivity.
  - (* one layer: the two identifiers have different ranks *)
    rewrite HL in *. rewrite Hy1 in Hy2. injection Hy2 as <-.
    assert (Hsame : ids1 = ids2).
    { apply (sorted_perm_unique atom_le); try assumption.
      - intros a b Hab Hba. apply atom_le_antisym; assumption.
      - eapply Permutation_trans; [apply Permutation_sym; exact Hperm1 | exact Hperm2]. }
    subst ids2.
    assert (Hi' : (i < List.length ids1)%nat) by (apply nth_error_Some; congruence).
    assert (Hj' : (j < List.length ids1)%nat) by (apply nth_error_Some; congruence).
    destruct (Nat.lt_trichotomy i j) as [H | [H | H]].
    + destruct (x_coord_increasing (Z.of_nat i) (Z.of_nat j) (Z.of_nat (List.length ids1)))
        as (xi & xj & Hxi & Hxj & Hlt); try lia.
      rewrite Hxi in Hx1. injection Hx1 as <-. rewrite Hxj in Hx2. injection Hx2 as <-.
      rewrite Hlt. reflexivity.
    + subst j. rewrite Hi in Hj. injection Hj as Heq. contradiction.
    + destruct (x_coord_increasing (Z.of_nat j) (Z.of_nat i) (Z.of_nat (List.length ids1)))
        as (xj & xi & Hxj & Hxi & Hlt); try lia.
      rewrite Hxi in Hx1. injection Hx1 as <-. rewrite Hxj in Hx2. injection Hx2 as <-.
      rewrite Hlt. rewrite orb_true_r. reflexivity.
  - destruct (y_coord_decreasing _ _ HL) as (y2' & y1' & Hy2' & Hy1' & Hlt); try lia.
    rewrite Hy1 in Hy1'. injection Hy1' as <-. rewrite Hy2 in Hy2'. injection Hy2' as <-.
    rewrite Hlt. rewrite !orb_true_r. reflexivity.
Qed.

(** The nodes of [scenario] are drawn at different places. *)
Lemma layout_injective_witness :
  exists pos,
    layered_layout scenario = Ok pos /\
    forall n1 n2, In n1 scenario -> In n2 scenario -> attr_id n1 <> attr_id n2 ->
      exists p1 p2,
        assoc (attr_id n1) pos = Some p1 /\ assoc (attr_id n2) pos = Some p2 /\
        apart p1 p2 = true.
Proof.
  apply layout_injective.
  - split; [reflexivity |]. split; [| split; [simpl; lia |]].
    + repeat constructor; simpl; intuition discriminate.
    + intros n [<- | [<- | [<- | []]]]; reflexivity.
  - intros n [<- | [<- | [<- | []]]]; simpl; lia.
Defined.

(** *** Identifiers of different kinds in one layer *)

Lemma place_nodes_Ok (layer n : Z) (ids : list atom) (pos : list (atom * coord)) :
  float_ok (- layer) = true -> Z.of_nat (List.length ids) <= n -> n <= 2 ^ 53 ->
  exists pos', foldM (place_node layer n) (enumerate ids) pos = Ok pos'.
Proof.
  intros Hfl Hlen Hn. destruct (y_coord_Ok layer Hfl) as (fl & _ & Hy).
  destruct (place_nodes_spec layer n _ ids Hy 0 pos) as (pos' & H & _); try lia.
  exists pos'. exact H.
Qed.

Lemma place_layers_TypeError (layers : list (Z * list atom)) (Ls : list Z) :
  (forall L, In L Ls -> float_ok (- L) = true /\
                        Z.of_nat (List.length (layer_ids layers L)) <= 2 ^ 53) ->
  (exists L, In L Ls /\ py_sorted (layer_ids layers L) = Raise TypeError) ->
  forall pos, foldM (place_layer layers) Ls pos = Raise TypeError.
Proof.
  induction Ls as [| L Ls IH]; intros Hok (Lbad & Hin & Hbad) pos; [contradiction |].
  cbn [foldM]. unfold place_layer at 1.
  destruct (py_sorted (layer_ids layers L)) as [ids | e] eqn:Es; cbn [bind].
  - destruct (Hok L (or_introl eq_refl)) as [Hfl Hlen].
    destruct (place_nodes_Ok L (Z.of_nat (List.length ids)) ids pos Hfl) as [pos1 ->];
      [lia | rewrite <- (Permutation_length (py_sorted_perm _ _ Es)); exact Hlen |].
    cbn [bind]. apply IH.
    + intros L' HL'. apply Hok. right. exact HL'.
    + exists Lbad. split; [| exact Hbad].
      destruct Hin as [-> | Hin]; [congruence | exact Hin].
  - rewrite (py_sorted_exn _ _ Es). reflexivity.
Qed.

(** X18: a layer that holds a string identifier and an identifier that is
    not a string cannot be laid out.  When no other step fails first, that
    is when there are at most [2^53] nodes and the negated layer number of
    every node converts to a float, [layered_layout] raises [TypeError],
    from sorting the identifiers of the layer. *)
Theorem layout_mixed_ids (nodes : list nattr) (n1 n2 : nattr) :
  In n1 nodes -> In n2 nodes -> attr_layer n1 = attr_layer n2 ->
  is_str (attr_id n1) = true -> is_str (attr_id n2) = false ->
  Z.of_nat (List.length nodes) <= 2 ^ 53 ->
  (forall n, In n nodes -> float_ok (- attr_layer n) = true) ->
  layered_layout nodes = Raise TypeError.
Proof.
  intros Hn1 Hn2 HL Hs1 Hs2 Hsize Hfl. unfold layered_layout.
  apply place_layers_TypeError.
  - intros L HIn.
    assert (HL' : exists n, In n nodes /\ attr_layer n = L).
    { apply group_layers_keys.
      eapply Permutation_in; [apply Permutation_sym, sort_Z_perm | exact HIn]. }
    destruct HL' as (n & Hn & <-). split; [apply Hfl; exact Hn |].
    rewrite group_layers_ids. unfold members. rewrite length_map.
    pose proof (filter_length_le (fun n0 => attr_layer n0 =? attr_layer n) nodes). lia.
  - exists (attr_layer n1). split.
    + eapply Permutation_in; [apply sort_Z_perm |]. apply group_layers_keys.
      exists n1. split; [exact Hn1 | reflexivity].
    + rewrite group_layers_ids.
      apply (py_sorted_mixed _ (attr_id n1) (attr_id n2)); try assumption.
      * apply members_In. exists n1. tauto.
      * apply members_In. exists n2. split; [exact Hn2 |]. split; [symmetry; exact HL |
                                                                    reflexivity].
Qed.

(** A layer with the identifiers ["a"] and [1]. *)
Lemma layout_mixed_ids_witness : layered_layout mixed_layer = Raise TypeError.
Proof.
  apply (layout_mixed_ids mixed_layer (named (PStr "a") (AStr (str "a")))
                          (named PNone (AInt 1))).
  - left. reflexivity.
  - right. left. reflexivity.
  - reflexivity.
  - reflexivity.
  - reflexivity.
  - simpl. lia.
  - intros n [<- | [<- | []]]; reflexivity.
Defined.

(** *** Integers beyond the largest float *)

Lemma binary_round_aux_overflow (s : bool) (p : positive) (e0 : Z) :
  let D := Zpos (digits2_pos p) in
  54 <= D -> -1074 <= D + e0 - 53 -> 971 < e0 + (D - 53) ->
  binary_round_aux prec emax s (Zpos p) e0 loc_Exact = S754_infinity s.
Proof.
  intros D HD Hlo Hhi.
  pose proof (digits2_pos_lower p) as Hl. pose proof (digits2_pos_upper p) as Hu.
  fold D in Hl, Hu.
  set (n := D - 53). assert (Hn : 1 <= n) by (subst n; lia).
  assert (HDn : D = n + 53) by (subst n; lia).
  assert (Hpn : 0 < 2 ^ n) by (apply Z.pow_pos_nonneg; lia).
  destruct (round_nearest_even_spec (Zpos p) n ltac:(lia) Hn) as [Hm2 _].
  set (m1 := Zpos p / 2 ^ n) in *.
  assert (Hm1 : 2 ^ 52 <= m1 < 2 ^ 53).
  { subst m1. split.
    - apply Z.div_le_lower_bound; [exact Hpn |].
      rewrite <- Z.pow_add_r by lia. replace (n + 52) with (D - 1) by lia. exact Hl.
    - apply Z.div_lt_upper_bound; [exact Hpn |].
      rewrite <- Z.pow_add_r by lia. replace (n + 53) with D by lia. exact Hu. }
  unfold binary_round_aux, shr_fexp. cbn [Zdigits2]. fold D.
  replace (fexp prec emax (D + e0) - e0) with n
    by (unfold fexp, emin, prec, emax; lia).
  fold n in Hhi.
  destruct n as [| q | q] eqn:En; try lia.
  rewrite shr_exact. cbn [shr_m]. fold m1.
  set (m2 := round_nearest_even m1 _) in *.
  destruct m2 as [| p2 | p2] eqn:Em2; try lia.
  destruct (Z.eq_dec (Zpos p2) (2 ^ 53)) as [Heq | Hne].
  - assert (Hp2 : p2 = 9007199254740992%positive)
      by (change (2 ^ 53) with 9007199254740992 in Heq; lia).
    subst p2. cbn [Zdigits2 digits2_pos Pos.succ].
    replace (fexp prec emax (54 + (e0 + Zpos q)) - (e0 + Zpos q)) with 1
      by (unfold fexp, emin, prec, emax; lia).
    cbn [shr shr_record_of_loc iter_pos shr_1 shr_m].
    replace (e0 + Zpos q + 1 <=? emax - prec) with false
      by (symmetry; apply Z.leb_gt; unfold emax, prec; lia).
    reflexivity.
  - assert (Hd2 : Zpos (digits2_pos p2) = 53) by (apply digits2_pos_unique; lia).
    cbn [Zdigits2]. rewrite Hd2.
    replace (fexp prec emax (53 + (e0 + Zpos q)) - (e0 + Zpos q)) with 0
      by (unfold fexp, emin, prec, emax; lia).
    cbn [shr shr_record_of_loc shr_m].
    replace (e0 + Zpos q <=? emax - prec) with false
      by (symmetry; apply Z.leb_gt; unfold emax, prec; lia).
    reflexivity.
Qed.

Lemma float_of_int_exn (z : Z) (e : exn) : float_of_int z = Raise e -> e = OverflowError.
Proof.
  unfold float_of_int. destruct (binary_normalize prec emax z 0 false); try discriminate.
  intros H. injection H as <-. reflexivity.
Qed.

Lemma float_of_int_overflow (z : Z) :
  2 ^ 1024 <= Z.abs z -> float_of_int z = Raise OverflowError.
Proof.
  intros Hz.
  assert (Hmain : forall (s : bool) (p : positive),
             2 ^ 1024 <= Zpos p -> binary_round prec emax s p 0 = S754_infinity s).
  { intros s p Hp. pose proof (digits2_pos_upper p) as Hu.
    assert (HD : 1024 < Zpos (digits2_pos p)) by (apply pow2_lt_inv; lia).
    unfold binary_round.
    replace (fexp prec emax (Zpos (digits2_pos p) + 0)) with (Zpos (digits2_pos p) - 53)
      by (unfold fexp, emin, prec, emax; lia).
    unfold shl_align.
    destruct (Zpos (digits2_pos p) - 53 - 0) as [| d | d] eqn:Ed; try lia.
    apply binary_round_aux_overflow; lia. }
  unfold float_of_int. destruct z as [| p | p]; cbn [binary_normalize].
  - change (Z.abs 0) with 0 in Hz. assert (0 < 2 ^ 1024) by (apply Z.pow_pos_nonneg; lia). lia.
  - rewrite Hmain by exact Hz. reflexivity.
  - rewrite Hmain by exact Hz. reflexivity.
Qed.

Lemma y_coord_exn (L : Z) (e : exn) : y_coord L = Raise e -> e = OverflowError.
Proof.
  unfold y_coord. destruct (float_of_int (- L)) as [f |] eqn:E; cbn [bind]; [discriminate |].
  intros H. injection H as <-. apply (float_of_int_exn _ _ E).
Qed.

Lemma place_nodes_y (layer n : Z) (ids : list atom) (pos : list (atom * coord)) :
  Z.of_nat (List.length ids) <= n -> n <= 2 ^ 53 ->
  match y_coord layer with
  | Ok _ => exists pos', foldM (place_node layer n) (enumerate ids) pos = Ok pos'
  | Raise e =>
      match ids with
      | [] => foldM (place_node layer n) (enumerate ids) pos = Ok pos
      | _ :: _ => foldM (place_node layer n) (enumerate ids) pos = Raise OverflowError
      end
  end.
Proof.
  intros Hlen Hn. destruct (y_coord layer) as [y | e] eqn:Ey.
  - destruct (place_nodes_spec layer n y ids Ey 0 pos) as (pos' & H & _); try lia.
    exists pos'. exact H.
  - destruct ids as [| k ids]; [reflexivity |].
    cbn [List.length] in Hlen. unfold enumerate. cbn [enumerate_from foldM].
    unfold place_node at 1. cbn [fst snd].
    destruct (x_coord_Ok 0 n) as (fi & fn & _ & _ & ->); [lia | lia |].
    cbn [bind]. rewrite Ey. cbn [bind]. rewrite (y_coord_exn _ _ Ey). reflexivity.
Qed.

Lemma place_layers_overflow (layers : list (Z * list atom)) (Ls : list Z) :
  (forall L, In L Ls -> forallb is_str (layer_ids layers L) = true /\
                        Z.of_nat (List.length (layer_ids layers L)) <= 2 ^ 53) ->
  (exists L, In L Ls /\ layer_ids layers L <> [] /\ y_coord L = Raise OverflowError) ->
  forall pos, foldM (place_layer layers) Ls pos = Raise OverflowError.
Proof.
  induction Ls as [| L Ls IH]; intros Hok (Lbad & Hin & Hne & Hbad) pos; [contradiction |].
  cbn [foldM]. unfold place_layer at 1.
  destruct (Hok L (or_introl eq_refl)) as [Hstr Hlen].
  destruct (py_sorted_str _ Hstr) as (ids & -> & Hperm & _). cbn [bind].
  assert (Hlen' : Z.of_nat (List.length ids) <= 2 ^ 53)
    by (rewrite <- (Permutation_length Hperm); exact Hlen).
  pose proof (place_nodes_y L (Z.of_nat (List.length ids)) ids pos ltac:(lia) Hlen') as Hy.
  assert (Hrest : forall pos1, L <> Lbad ->
            foldM (place_layer layers) Ls pos1 = Raise OverflowError).
  { intros pos1 HLne. apply IH.
    - intros L' HL'. apply Hok. right. exact HL'.
    - exists Lbad. split; [| split; assumption].
      destruct Hin as [-> | Hin]; [contradiction | exact Hin]. }
  destruct (y_coord L) as [y | e] eqn:Ey.
  - destruct Hy as [pos1 ->]. cbn [bind]. apply Hrest. intros ->. congruence.
  - destruct ids as [| k ids].
    + rewrite Hy. cbn [bind]. apply Hrest. intros ->.
      apply Hne. apply Permutation_sym, Permutation_nil in Hperm. exact Hperm.
    + rewrite Hy. reflexivity.
Qed.

(** X19: a layer number of magnitude [2^1024] or more has no float: its
    [y] coordinate raises [OverflowError], and so does the layout of any
    nodes with string identifiers one of which is in such a layer. *)
Theorem layout_overflow (nodes : list nattr) (n : nattr) :
  In n nodes -> 2 ^ 1024 <= Z.abs (attr_layer n) ->
  forallb (fun n => is_str (attr_id n)) nodes = true ->
  Z.of_nat (List.length nodes) <= 2 ^ 53 ->
  y_coord (attr_layer n) = Raise OverflowError /\
  layered_layout nodes = Raise OverflowError.
Proof.
  intros Hn Hbig Hstr Hsize.
  assert (Hy : y_coord (attr_layer n) = Raise OverflowError).
  { unfold y_coord. rewrite float_of_int_overflow; [reflexivity | lia]. }
  split; [exact Hy |]. unfold layered_layout. apply place_layers_overflow.
  - intros L HIn. rewrite group_layers_ids. split; [apply members_str; exact Hstr |].
    unfold members. rewrite length_map.
    pose proof (filter_length_le (fun n0 => attr_layer n0 =? L) nodes). lia.
  - exists (attr_layer n). split; [| split; [| exact Hy]].
    + eapply Permutation_in; [apply sort_Z_perm |]. apply group_layers_keys.
      exists n. split; [exact Hn | reflexivity].
    + rewrite group_layers_ids. intros Hnil.
      assert (Hin : In (attr_id n) (members nodes (attr_layer n)))
        by (apply members_In; exists n; tauto).
      rewrite Hnil in Hin. exact Hin.
Qed.

(** A node in layer [2^1024]. *)
Lemma layout_overflow_witness :
  y_coord (2 ^ 1024) = Raise OverflowError /\
  layered_layout [far_node] = Raise OverflowError.
Proof.
  apply (layout_overflow [far_node] far_node).
  - left. reflexivity.
  - simpl. lia.
  - reflexivity.
  - simpl. lia.
Defined.

(** ** Labels of a drawing *)

Lemma short_label_exn (a : nattr) (e : exn) :
  _short_label a = Raise e -> e = TypeError \/ e = KeyError.
Proof.
  unfold _short_label. destruct (label_of a) as [[| b | z | f | s] | l | d];
    cbn [py_len bind truncate].
  - intros H. injection H as <-. left. reflexivity.
  - intros H. injection H as <-. left. reflexivity.
  - intros H. injection H as <-. left. reflexivity.
  - intros H. injection H as <-. left. reflexivity.
  - destruct (26 <? Z.of_nat (List.length s)); discriminate.
  - destruct (26 <? Z.of_nat (List.length l)); [| discriminate].
    intros H. injection H as <-. left. reflexivity.
  - destruct (26 <? Z.of_nat (List.length d)); [| discriminate].
    intros H. injection H as <-. right. reflexivity.
Qed.

Lemma draw_graph_with_labels (G : nx.DiGraph) (figsize : float * float) (font : Z)
  (fig : figure) :
  draw_graph G figsize false font = Ok fig ->
  fig_labels fig = None /\
  draw_graph G figsize true font =
  (ls <- mapM node_label (nx._node G) ;; Ok (labelled fig ls)).
Proof.
  unfold draw_graph. destruct (layered_layout (map snd (nx._node G))) as [pos |];
    cbn [bind]; [| discriminate].
  destruct (mapM _ (nx.edges G)) as [types |]; cbn [bind]; [| discriminate].
  destruct (py_sorted (set_of types)) as [ets |]; cbn [bind]; [| discriminate].
  intros H. injection H as <-. split; [reflexivity |].
  fold node_label. destruct (mapM node_label (nx._node G)); reflexivity.
Qed.

(** X20: the labels are the only thing [with_labels] changes.  A drawing
    without labels has none; if every node has a label, the drawing with
    labels is the same drawing plus one label per node, in the order of the
    nodes; and if the label of some node raises, the drawing with labels
    raises [TypeError] or [KeyError] although the one without succeeds. *)
Theorem draw_graph_labels_optional (G : nx.DiGraph) (figsize : float * float) (font : Z)
  (fig : figure) :
  draw_graph G figsize false font = Ok fig ->
  fig_labels fig = None /\
  ((forall k a, In (k, a) (nx._node G) -> exists l, _short_label a = Ok l) ->
   exists ls,
     draw_graph G figsize true font = Ok (labelled fig ls) /\
     Forall2 (fun ka kl => fst kl = fst ka /\ _short_label (snd ka) = Ok (snd kl))
             (nx._node G) ls) /\
  (forall k a e,
      In (k, a) (nx._node G) -> _short_label a = Raise e ->
      draw_graph G figsize true font = Raise TypeError \/
      draw_graph G figsize true font = Raise KeyError).
Proof.
  intros H. destruct (draw_graph_with_labels G figsize font fig H) as [Hnone Htrue].
  split; [exact Hnone |]. rewrite Htrue. split.
  - intros Hall.
    destruct (mapM_total node_label (nx._node G)) as [ls Hls].
    { intros [k a] Hin. unfold node_label. cbn [fst snd].
      destruct (Hall k a Hin) as [l ->]. cbn [bind]. eexists. reflexivity. }
    rewrite Hls. cbn [bind]. exists ls. split; [reflexivity |].
    apply mapM_Forall2 in Hls. eapply Forall2_impl; [| exact Hls].
    intros [k a] [k' l] Hkl. unfold node_label in Hkl. cbn [fst snd] in *.
    destruct (_short_label a) as [l0 |]; cbn [bind] in Hkl; [| discriminate].
    injection Hkl as <- <-. split; reflexivity.
  - intros k a e Hin He.
    assert (Hr : node_label (k, a) = Raise e).
    { unfold node_label. cbn [fst snd]. rewrite He. reflexivity. }
    destruct (mapM_Raise_In node_label _ _ _ Hin Hr) as [e' He'].
    rewrite He'. cbn [bind].
    assert (Hcases : e' = TypeError \/ e' = KeyError).
    { clear - He'. revert e' He'. induction (nx._node G) as [| ka l IH]; intros e' He';
        cbn [mapM] in He'; [discriminate |].
      destruct (node_label ka) as [y |] eqn:Ey; cbn [bind] in He'.
      - destruct (mapM node_label l) as [ys | e0]; cbn [bind] in He'; [discriminate |].
        injection He' as <-. apply IH. reflexivity.
      - injection He' as <-. unfold node_label in Ey.
        destruct (_short_label (snd ka)) as [l0 | e0] eqn:El; cbn [bind] in Ey;
          [discriminate |].
        injection Ey as <-. apply (short_label_exn _ _ El). }
    destruct Hcases as [-> | ->]; [left | right]; reflexivity.
Qed.

(** The graph of [nodes_ab] with and without labels, and a graph whose
    node is named by a number. *)
Lemma draw_graph_labels_optional_witness :
  (exists fig0 ls,
     draw_graph (graph_of nodes_ab [edge_ab]) (two, two) false 8 = Ok fig0 /\
     fig_labels fig0 = None /\
     draw_graph (graph_of nodes_ab [edge_ab]) (two, two) true 8 = Ok (labelled fig0 ls)) /\
  (exists fig0,
     draw_graph (graph_of [node_numbered] []) (two, two) false 8 = Ok fig0 /\
     (draw_graph (graph_of [node_numbered] []) (two, two) true 8 = Raise TypeError \/
      draw_graph (graph_of [node_numbered] []) (two, two) true 8 = Raise KeyError)).
Proof.
  split.
  - destruct (draw_graph_labels_optional (graph_of nodes_ab [edge_ab]) (two, two) 8 _ eq_refl)
      as (H1 & H2 & _).
    destruct H2 as (ls & Hls & _).
    + intros k a [H | [H | []]]; injection H as <- <-; eexists; reflexivity.
    + eexists. exists ls. split; [reflexivity |]. split; [exact H1 | exact Hls].
  - destruct (draw_graph_labels_optional (graph_of [node_numbered] []) (two, two) 8 _ eq_refl)
      as (_ & _ & H3).
    eexists. split; [reflexivity |].
    apply (H3 (AStr (str "n")) (attrs_of node_numbered) TypeError).
    + left. reflexivity.
    + reflexivity.
Defined.

(** X21: a label that is a string comes out as a string of at most 26
    characters which starts with the same 23 characters and which
    [_short_label] leaves as it is when it is given as a label again; a
    label that is a number, a boolean or [None] raises [TypeError]. *)
Theorem short_label_bounded (a : nattr) :
  (forall s, label_of a = PAtom (AStr s) ->
     exists t, _short_label a = Ok (PAtom (AStr t)) /\
               (List.length t <= 26)%nat /\
               firstn 23 t = firstn 23 s /\
               forall b, label_of b = PAtom (AStr t) ->
                         _short_label b = Ok (PAtom (AStr t))) /\
  (forall x, label_of a = PAtom x -> is_str x = false ->
     _short_label a = Raise TypeError).
Proof.
  split.
  - intros s Hl.
    assert (Hshort : forall b t, label_of b = PAtom (AStr t) -> (List.length t <= 26)%nat ->
                                 _short_label b = Ok (PAtom (AStr t))).
    { intros b t Hb Ht. unfold _short_label. rewrite Hb. cbn [py_len bind].
      replace (26 <? Z.of_nat (List.length t)) with false
        by (symmetry; apply Z.ltb_ge; lia).
      reflexivity. }
    destruct (Nat.le_gt_cases (List.length s) 26) as [Hle | Hgt].
    + exists s. split; [apply Hshort; assumption |]. split; [exact Hle |].
      split; [reflexivity |]. intros b Hb. apply Hshort; assumption.
    + exists (firstn 23 s ++ [ellipsis]).
      assert (Hlen : List.length (firstn 23 s ++ [ellipsis]) = 24%nat)
        by (apply firstn_ellipsis_length; lia).
      split; [| split; [lia | split]].
      * unfold _short_label. rewrite Hl. cbn [py_len bind].
        replace (26 <? Z.of_nat (List.length s)) with true
          by (symmetry; apply Z.ltb_lt; lia).
        reflexivity.
      * rewrite firstn_app. rewrite length_firstn.
        replace (23 - Nat.min 23 (List.length s))%nat with 0%nat by lia.
        rewrite firstn_O, app_nil_r, firstn_firstn. reflexivity.
      * intros b Hb. apply Hshort; [exact Hb | lia].
  - intros x Hl Hx. unfold _short_label. rewrite Hl.
    destruct x; try discriminate Hx; reflexivity.
Qed.

(** A name of thirty characters, and the name [7]. *)
Lemma short_label_bounded_witness :
  (exists t, _short_label (named (PAtom (AStr thirty)) (AStr (str "n1")))
             = Ok (PAtom (AStr t)) /\ (List.length t <= 26)%nat) /\
  _short_label (named (PInt 7) (AStr (str "n1"))) = Raise TypeError.
Proof.
  split.
  - destruct (proj1 (short_label_bounded (named (PAtom (AStr thirty)) (AStr (str "n1"))))
                thirty eq_refl) as (t & H1 & H2 & _).
    exists t. split; [exact H1 | exact H2].
  - apply (proj2 (short_label_bounded (named (PInt 7) (AStr (str "n1")))) (AInt 7));
      reflexivity.
Defined.

(** ** main: complete runs *)

Lemma mapM_total_with {A B : Type} (f : A -> result B) (P : B -> Prop) (xs : list A) :
  (forall x, In x xs -> exists y, f x = Ok y /\ P y) ->
  exists ys, mapM f xs = Ok ys /\ Forall P ys /\ List.length ys = List.length xs.
Proof.
  induction xs as [| x xs IH]; intros H; cbn [mapM].
  - exists []. repeat split. constructor.
  - destruct (H x (or_introl eq_refl)) as (y & -> & Hy). cbn [bind].
    destruct IH as (ys & -> & Hys & Hlen); [intros x' Hin; apply H; right; exact Hin |].
    cbn [bind]. exists (y :: ys). split; [reflexivity |]. split; [constructor; assumption |].
    cbn [List.length]. rewrite Hlen. reflexivity.
Qed.

Lemma norm_node_wf (int_of_str : pystr -> option Z) (r : pyval) :
  node_record_wf int_of_str r = true ->
  exists n, norm_node int_of_str r = Ok n /\ node_wf n = true.
Proof.
  destruct r as [a | l | d]; try discriminate. unfold node_record_wf. intros H.
  rewrite norm_node_dict.
  destruct (py_int int_of_str (dict_get d "layer" (PInt 0))) as [z |];
    [| rewrite andb_false_r in H; discriminate H].
  cbn [bind]. eexists. split; [reflexivity |]. exact H.
Qed.

Lemma norm_edge_wf (r : pyval) :
  edge_record_wf r = true -> exists e, norm_edge r = Ok e /\ edge_wf e = true.
Proof.
  destruct r as [a | l | d]; try discriminate. unfold edge_record_wf. intros H.
  eexists. split; [reflexivity |]. exact H.
Qed.

(** *** The attributes stored in the graph *)

Lemma add_node_of_attrs (nodes : list node) (G G' : nx.DiGraph) (n : node) :
  add_node_of G n = Ok G' -> In n nodes ->
  Forall (fun ka => exists n', In n' nodes /\ snd ka = attrs_of n') (nx._node G) ->
  Forall (fun ka => exists n', In n' nodes /\ snd ka = attrs_of n') (nx._node G').
Proof.
  unfold add_node_of. intros H Hin Hst.
  destruct (node_id n) as [k | |] eqn:Ek; cbn [hashable bind] in H; try discriminate.
  assert (Hnew : exists n', In n' nodes /\
                   {| attr_id := k; attr_name := node_name n; attr_layer := node_layer n;
                      attr_kind := node_kind n |} = attrs_of n').
  { exists n. split; [exact Hin |]. unfold attrs_of, node_key. rewrite Ek. reflexivity. }
  unfold nx.add_node in H. destruct (nx.has_node G k).
  - injection H as <-. cbn [nx._node].
    apply (assoc_set_values (fun a => exists n', In n' nodes /\ a = attrs_of n'));
      assumption.
  - destruct k; try discriminate; injection H as <-; cbn [nx._node];
      (apply Forall_app; split; [exact Hst | constructor; [exact Hnew | constructor]]).
Qed.

Lemma build_graph_attrs (nodes : list node) (edges : list edge) (G : nx.DiGraph) :
  build_graph nodes edges = Ok G ->
  Forall (fun ka => exists n, In n nodes /\ snd ka = attrs_of n) (nx._node G).
Proof.
  unfold build_graph.
  destruct (foldM add_node_of nodes nx.empty) as [G0 |] eqn:E0; cbn [bind]; [| discriminate].
  intros H. rewrite (add_edges_nodes edges G0 G H).
  assert (Hgen : forall ns G1 G2,
            foldM add_node_of ns G1 = Ok G2 -> (forall n, In n ns -> In n nodes) ->
            Forall (fun ka => exists n, In n nodes /\ snd ka = attrs_of n) (nx._node G1) ->
            Forall (fun ka => exists n, In n nodes /\ snd ka = attrs_of n) (nx._node G2)).
  { induction ns as [| n ns IH]; cbn [foldM]; intros G1 G2 HG Hsub Hst1.
    - injection HG as <-. exact Hst1.
    - destruct (add_node_of G1 n) as [G1' |] eqn:E; cbn [bind] in HG; [| discriminate].
      apply (IH G1' G2 HG); [intros n' Hn'; apply Hsub; right; exact Hn' |].
      apply (add_node_of_attrs nodes G1 G1' n E); [apply Hsub; left; reflexivity | exact Hst1]. }
  apply (Hgen nodes nx.empty G0 E0); [auto | constructor].
Qed.

Lemma build_graph_edges_In (nodes : list node) (edges : list edge) (G : nx.DiGraph)
  (u v : atom) (d : edge) :
  build_graph nodes edges = Ok G -> In (u, v, d) (nx.edges G) -> In d edges.
Proof.
  unfold build_graph.
  destruct (foldM add_node_of nodes nx.empty) as [G0 |] eqn:E0; cbn [bind];
    [| discriminate].
  intros H Hin. destruct (add_nodes_spec nodes nx.empty G0 E0) as (_ & _ & HE & _).
  change (nx.edges nx.empty) with (@nil (atom * atom * edge)) in HE.
  destruct (add_edges_from_records edges [] G0 G H) as [HA _].
  - rewrite HE. intros u0 v0 d0 [].
  - apply (HA u v d Hin).
Qed.

(** *** Labels *)

Lemma short_label_str (a : nattr) :
  name_ok (attr_name a) = true -> is_str (attr_id a) = true ->
  exists s, _short_label a = Ok (PAtom (AStr s)) /\ (List.length s <= 26)%nat.
Proof.
  intros Hn Hi.
  assert (Hl : exists s, label_of a = PAtom (AStr s)).
  { unfold label_of. unfold name_ok in Hn.
    destruct (truthy (attr_name a)) eqn:Et; cbn [negb orb] in Hn.
    - destruct (attr_name a) as [[| | | | s] | |]; try discriminate Hn. exists s. reflexivity.
    - destruct (attr_id a) as [| | | | s]; try discriminate Hi.
      destruct (atom_truthy (AStr s)); [exists s; reflexivity | exists []; reflexivity]. }
  destruct Hl as [s Hl]. unfold _short_label. rewrite Hl. cbn [py_len bind].
  destruct (Z.ltb_spec 26 (Z.of_nat (List.length s))) as [Hlt | Hge].
  - cbn [truncate]. eexists. split; [reflexivity |].
    rewrite firstn_ellipsis_length; lia.
  - exists s. split; [reflexivity | lia].
Qed.

(** *** A run on a well-formed document *)

Lemma draw_graph_Ok (G : nx.DiGraph) (figsize : float * float) (with_labels : bool)
  (font : Z) :
  well_formed (map snd (nx._node G)) ->
  (forall u v d, In (u, v, d) (nx.edges G) -> is_strv (edge_type d) = true) ->
  (forall k a, In (k, a) (nx._node G) ->
               name_ok (attr_name a) = true /\ is_str (attr_id a) = true) ->
  exists fig, draw_graph G figsize with_labels font = Ok fig.
Proof.
  intros Hwf Htypes Hlabels. unfold draw_graph.
  destruct (layout_spec _ Hwf) as (pos & -> & _). cbn [bind].
  destruct (mapM_total_with (fun uvd : atom * atom * edge => hashable (edge_type (snd uvd)))
              (fun a => is_str a = true) (nx.edges G)) as (types & -> & Hstr & _).
  { intros [[u v] d] Hin. cbn [snd]. pose proof (Htypes u v d Hin) as Ht.
    destruct (edge_type d) as [[| | | | s] | |]; try discriminate Ht.
    exists (AStr s). split; reflexivity. }
  cbn [bind].
  destruct (py_sorted_str (set_of types)) as (ets & -> & _).
  { apply forallb_forall. intros a Ha. rewrite Forall_forall in Hstr. apply Hstr.
    clear - Ha. induction types as [| x l IH]; cbn [set_of] in Ha; [contradiction |].
    destruct Ha as [<- | Ha]; [left; reflexivity |].
    apply filter_In in Ha. right. apply IH. apply Ha. }
  cbn [bind]. destruct with_labels.
  - destruct (mapM_total (fun ka : atom * nattr =>
                            l <- _short_label (snd ka) ;; Ok (fst ka, l)) (nx._node G))
      as [ls ->].
    { intros [k a] Hin. cbn [fst snd]. destruct (Hlabels k a Hin) as [Hn Hi].
      destruct (short_label_str a Hn Hi) as (s & -> & _). cbn [bind]. eexists. reflexivity. }
    cbn [bind]. eexists. reflexivity.
  - cbn [bind]. eexists. reflexivity.
Qed.

(** The graph built from records of the expected shape is drawn. *)
Lemma build_graph_draws (nodes : list node) (edges : list edge) (G : nx.DiGraph)
  (figsize : float * float) (with_labels : bool) (font : Z) :
  build_graph nodes edges = Ok G ->
  forallb node_wf nodes = true ->
  forallb edge_wf edges = true ->
  Z.of_nat (List.length nodes) <= 2 ^ 53 ->
  exists fig, draw_graph G figsize with_labels font = Ok fig.
Proof.
  intros HG Hnw Hew Hsize.
  assert (Hnw' : forall n, In n nodes -> node_wf n = true)
    by (intros n Hin; apply (forallb_In _ _ _ Hnw Hin)).
  assert (Hew' : forall e, In e edges -> edge_wf e = true)
    by (intros e Hin; apply (forallb_In _ _ _ Hew Hin)).
  assert (Hid : forall n, In n nodes -> exists s, node_id n = PAtom (AStr s)).
  { intros n Hin. specialize (Hnw' n Hin). unfold node_wf in Hnw'.
    destruct (node_id n) as [[| | | | s] | |]; try discriminate Hnw'. exists s. reflexivity. }
  assert (Hwf : well_formed (map snd (nx._node G))).
  { apply (graph_well_formed nodes edges G HG Hid); [lia |].
    intros n Hin. specialize (Hnw' n Hin). unfold node_wf in Hnw'.
    apply andb_true_iff in Hnw'. destruct Hnw' as [_ Hl]. apply Z.ltb_lt in Hl.
    apply float_ok_small. lia. }
  apply (draw_graph_Ok G figsize with_labels font Hwf).
  - intros u v d Hin. pose proof (build_graph_edges_In nodes edges G u v d HG Hin) as Hd.
    specialize (Hew' d Hd). unfold edge_wf in Hew'. apply andb_true_iff in Hew'. apply Hew'.
  - intros k a Hin. pose proof (build_graph_attrs nodes edges G HG) as Hat.
    rewrite Forall_forall in Hat. destruct (Hat (k, a) Hin) as (n & Hn' & Ha).
    cbn [snd] in Ha. subst a. specialize (Hnw' n Hn'). unfold node_wf in Hnw'.
    apply andb_true_iff in Hnw'. destruct Hnw' as [Hnw' _].
    apply andb_true_iff in Hnw'. destruct Hnw' as [_ Hname].
    split; [exact Hname |]. unfold attrs_of, node_key. cbn [attr_id].
    destruct (Hid n Hn') as [s ->]. reflexivity.
Qed.

(** An edge whose type is a string is not of type NaN. *)
Lemma edge_wf_not_nan (e : edge) : edge_wf e = true -> nan_typed e = false.
Proof.
  unfold edge_wf, nan_typed. intros H. apply andb_true_iff in H. destruct H as [_ H].
  destruct (edge_type e) as [[| | | | s] | |]; try discriminate H; reflexivity.
Qed.

(** X22: a run on a document of the expected shape completes.  When the
    node and edge lists are not empty, there are at most [2^53] node
    records, every node record has a string identifier, a name that is a
    string or missing and a layer below [2^53] in magnitude, and every edge
    record has hashable endpoints and a string type, no step of the script
    raises: [main] hands the drawing over to be written at the output path,
    prints the one line with the numbers of node and edge records and exits
    with status 0. *)
Theorem main_completes (int_of_str : pystr -> option Z) (data : pyval)
  (g : list (pystr * pyval)) (rs es : list pyval)
  (outp : string) (w h : float) (font : Z) :
  py_get data "graph_state" data = Ok (PDict g) ->
  dict_get g "nodes" (PList []) = PList rs ->
  dict_get g "edges" (PList []) = PList es ->
  rs <> [] -> es <> [] ->
  Z.of_nat (List.length rs) <= 2 ^ 53 ->
  forallb (node_record_wf int_of_str) rs = true ->
  forallb edge_record_wf es = true ->
  exists fig,
    status (main int_of_str data outp w h font) = 0 /\
    stdout (main int_of_str data outp w h font) =
      [Saved outp (List.length rs) (List.length es)] /\
    image (main int_of_str data outp w h font) = Some (outp, fig).
Proof.
  intros Hgs Hn He Hrs Hes Hsize Hnwf Hewf.
  destruct (mapM_total_with (norm_node int_of_str) (fun n => node_wf n = true) rs)
    as (nodes & Hnodes & Hnw & Hnlen).
  { intros r Hr. apply norm_node_wf. apply (forallb_In _ _ _ Hnwf Hr). }
  destruct (mapM_total_with norm_edge (fun e => edge_wf e = true) es)
    as (edges & Hedges & Hew & Helen).
  { intros r Hr. apply norm_edge_wf. apply (forallb_In _ _ _ Hewf Hr). }
  assert (Hload : load_graph int_of_str data = Ok (nodes, edges)).
  { rewrite (load_graph_lists int_of_str data g rs Hgs Hn), He. cbn [py_iter bind].
    rewrite Hnodes. cbn [bind]. rewrite Hedges. reflexivity. }
  rewrite Forall_forall in Hnw, Hew.
  destruct (build_graph_spec nodes edges) as (G & HG & _).
  { intros n Hin. specialize (Hnw n Hin). unfold node_wf in Hnw.
    destruct (node_id n) as [[| | | | s] | |]; try discriminate Hnw. reflexivity. }
  { intros e Hin. specialize (Hew e Hin). unfold edge_wf in Hew.
    apply andb_true_iff in Hew. destruct Hew as [Hew _].
    apply andb_true_iff in Hew. exact Hew. }
  destruct (build_graph_draws nodes edges G (w, h) true font HG) as [fig Hfig].
  { apply forallb_forall. exact Hnw. }
  { apply forallb_forall. exact Hew. }
  { lia. }
  exists fig.
  rewrite (main_draws int_of_str data nodes edges G outp w h font Hload); [| | | exact HG].
  - rewrite Hfig. unfold saved. rewrite Hnlen, Helen. cbn [status stdout image].
    repeat split.
  - intros ->. destruct rs; [contradiction | discriminate Hnlen].
  - intros ->. destruct es; [contradiction | discriminate Helen].
Qed.

(** The run on [doc_abc]. *)
Lemma main_completes_witness :
  exists fig,
    status (main decimal_int_of_str doc_abc "graph.png" two two 8) = 0 /\
    stdout (main decimal_int_of_str doc_abc "graph.png" two two 8) =
      [Saved "graph.png" 3 2] /\
    image (main decimal_int_of_str doc_abc "graph.png" two two 8) =
      Some ("graph.png"%string, fig).
Proof.
  apply (main_completes decimal_int_of_str doc_abc
           (map (fun kv => (str (fst kv), snd kv))
              [("nodes"%string,
                PList [obj [("id"%string, jstr "A"); ("name"%string, jstr "A");
                            ("layer"%string, PInt 0)];
                       obj [("id"%string, jstr "B"); ("name"%string, jstr "B");
                            ("layer"%string, PInt 0)];
                       obj [("id"%string, jstr "C"); ("name"%string, jstr "C");
                            ("layer"%string, PInt 1)]]);
               ("edges"%string,
                PList [obj [("source"%string, jstr "A"); ("target"%string, jstr "C");
                            ("type"%string, jstr "depends_on")];
                       obj [("source"%string, jstr "B"); ("target"%string, jstr "C");
                            ("type"%string, jstr "depends_on")]])])
           [obj [("id"%string, jstr "A"); ("name"%string, jstr "A");
                 ("layer"%string, PInt 0)];
            obj [("id"%string, jstr "B"); ("name"%string, jstr "B");
                 ("layer"%string, PInt 0)];
            obj [("id"%string, jstr "C"); ("name"%string, jstr "C");
                 ("layer"%string, PInt 1)]]
           [obj [("source"%string, jstr "A"); ("target"%string, jstr "C");
                 ("type"%string, jstr "depends_on")];
            obj [("source"%string, jstr "B"); ("target"%string, jstr "C");
                 ("type"%string, jstr "depends_on")]]).
  - reflexivity.
  - reflexivity.
  - reflexivity.
  - discriminate.
  - discriminate.
  - simpl. lia.
  - reflexivity.
  - reflexivity.
Defined.

(** *** What a run reports and what it draws *)

Lemma build_graph_sizes (nodes : list node) (edges : list edge) (G : nx.DiGraph) :
  build_graph nodes edges = Ok G ->
  (List.length (nx.nodes G) <= List.length nodes)%nat /\
  (List.length (nx.edges G) <= List.length edges)%nat.
Proof.
  unfold build_graph.
  destruct (foldM add_node_of nodes nx.empty) as [G0 |] eqn:E0; cbn [bind];
    [| discriminate].
  intros H. split.
  - unfold nx.nodes. rewrite length_map, (add_edges_nodes edges G0 G H).
    pose proof (add_nodes_length nodes nx.empty G0 E0) as Hlen. exact Hlen.
  - destruct (add_nodes_spec nodes nx.empty G0 E0) as (_ & _ & HE & _).
    change (nx.edges nx.empty) with (@nil (atom * atom * edge)) in HE.
    destruct (add_edges_from_records edges [] G0 G H) as [_ HB].
    + rewrite HE. intros u v d [].
    + rewrite HE in HB. exact HB.
Qed.

(** X23: an image is written only by a complete run.  If [main] wrote an
    image, then the document was loaded with at least one node and one edge
    record, the graph was built and drawn with labels, the image is at the
    output path, the status is 0 and the one printed line counts the
    records; the drawing holds at most that many nodes and edges. *)
Theorem main_image_written (int_of_str : pystr -> option Z) (data : pyval)
  (outp : string) (w h : float) (font : Z) (path : string) (fig : figure) :
  image (main int_of_str data outp w h font) = Some (path, fig) ->
  exists nodes edges G,
    load_graph int_of_str data = Ok (nodes, edges) /\
    nodes <> [] /\ edges <> [] /\
    build_graph nodes edges = Ok G /\
    draw_graph G (w, h) true font = Ok fig /\
    path = outp /\
    status (main int_of_str data outp w h font) = 0 /\
    stdout (main int_of_str data outp w h font) =
      [Saved outp (List.length nodes) (List.length edges)] /\
    (List.length (flat_map snd (fig_nodes fig)) <= List.length nodes)%nat /\
    (List.length (flat_map snd (fig_edges fig)) <= List.length edges)%nat.
Proof.
  unfold main. destruct (load_graph int_of_str data) as [[nodes edges] |];
    [| discriminate].
  destruct nodes as [| n nodes]; [discriminate |].
  destruct edges as [| e edges]; [discriminate |]. cbn [is_empty orb].
  destruct (build_graph (n :: nodes) (e :: edges)) as [G |] eqn:HG; [| discriminate].
  destruct (draw_graph G (w, h) true font) as [fig' |] eqn:Hfig; [| discriminate].
  cbn [saved image status stdout]. intros H. injection H as <- <-.
  exists (n :: nodes), (e :: edges), G.
  destruct (build_graph_sizes _ _ G HG) as [Hn He].
  split; [reflexivity |]. split; [discriminate |]. split; [discriminate |].
  split; [exact HG |]. split; [exact Hfig |]. split; [reflexivity |].
  split; [reflexivity |]. split; [reflexivity |]. split.
  - rewrite (Permutation_length (draw_graph_nodes_perm G _ _ _ _ Hfig)). exact Hn.
  - rewrite (Permutation_length (draw_graph_edges_perm G _ _ _ _ Hfig)), length_map.
    pose proof (filter_length_le (fun uvd : atom * atom * edge => negb (nan_typed (snd uvd)))
                  (nx.edges G)) as Hf.
    lia.
Qed.

(** The run on [doc_ghost]: two edge records are counted, one edge is
    drawn. *)
Lemma main_image_written_witness :
  exists fig,
    image (main decimal_int_of_str doc_ghost "graph.png" two two 8)
      = Some ("graph.png"%string, fig) /\
    stdout (main decimal_int_of_str doc_ghost "graph.png" two two 8)
      = [Saved "graph.png" 2 2] /\
    List.length (flat_map snd (fig_edges fig)) = 1%nat.
Proof.
  eexists. split; [reflexivity |].
  destruct (main_image_written decimal_int_of_str doc_ghost "graph.png" two two 8
              _ _ eq_refl) as (nodes & edges & G & Hl & _ & _ & _ & _ & _ & _ & Hout & _).
  injection Hl as <- <-. split; [exact Hout | reflexivity].
Defined.

(** ** build_graph and the drawing: dropped edges *)

(** C3 (as amended): on records whose identifiers and endpoints are
    hashable (and no node identifier is [None]), [build_graph] returns a
    graph, without raising; its nodes are the identifiers of the node
    records; an edge record is in the graph exactly when both its source and
    its target are nodes, and the graph has no other edge.  If moreover the
    records have the expected shape (string identifiers, names that are
    strings or count as false, layers below [2^53] in magnitude, string
    edge types)
    and there are at most [2^53] node records, the graph is rendered:
    [draw_graph] returns a drawing, which shows an edge record exactly when
    both its endpoints are nodes, and a run on these records writes that
    drawing and ends with status 0. *)
Theorem C3_edge_kept_iff_endpoints_present (nodes : list node) (edges : list edge) :
  (forall n, In n nodes -> valid_key (node_id n) = true) ->
  (forall e, In e edges ->
             is_atom (edge_source e) = true /\ is_atom (edge_target e) = true) ->
  exists G,
    build_graph nodes edges = Ok G /\
    (forall k, nx.has_node G k = existsb (is_id k) nodes) /\
    (forall e s t,
        In e edges -> edge_source e = PAtom s -> edge_target e = PAtom t ->
        nx.has_edge G s t = nx.has_node G s && nx.has_node G t) /\
    (forall u v,
        nx.has_edge G u v = true ->
        exists e, In e edges /\ links u v e = true /\ kept G e = true) /\
    (forallb node_wf nodes = true ->
     forallb edge_wf edges = true ->
     Z.of_nat (List.length nodes) <= 2 ^ 53 ->
     (forall figsize with_labels font,
        exists fig,
          draw_graph G figsize with_labels font = Ok fig /\
          forall e, In e edges ->
            ((exists u v, drawn fig u v /\ links u v e = true) <-> kept G e = true)) /\
     (forall int_of_str data outp w h font,
        load_graph int_of_str data = Ok (nodes, edges) ->
        nodes <> [] -> edges <> [] ->
        exists fig,
          draw_graph G (w, h) true font = Ok fig /\
          status (main int_of_str data outp w h font) = 0 /\
          image (main int_of_str data outp w h font) = Some (outp, fig))).
Proof.
  intros Hn He.
  destruct (build_graph_spec nodes edges Hn He) as (G & HG & Hal & HN & HE).
  exists G. split; [exact HG |]. split; [exact HN |].
  assert (Hback : forall u v, nx.has_edge G u v = true ->
                              exists e, In e edges /\ links u v e = true /\ kept G e = true).
  { intros u v Huv. rewrite HE in Huv. apply existsb_exists in Huv.
    destruct Huv as (e & Hin & Hlk). apply andb_true_iff in Hlk.
    exists e. split; [exact Hin | exact Hlk]. }
  assert (Hiff : forall e s t,
             In e edges -> edge_source e = PAtom s -> edge_target e = PAtom t ->
             nx.has_edge G s t = nx.has_node G s && nx.has_node G t).
  { intros e s t Hin Hs Ht.
    destruct (nx.has_edge G s t) eqn:Est.
    - destruct (Hback s t Est) as (e' & _ & Hlk & Hkept).
      unfold links in Hlk. unfold kept in Hkept.
      destruct (edge_source e') as [s' | |]; try discriminate.
      destruct (edge_target e') as [t' | |]; try discriminate.
      apply andb_true_iff in Hlk. destruct Hlk as [Hs' Ht'].
      rewrite (has_node_eqb G s s' Hs'), (has_node_eqb G t t' Ht'). symmetry. exact Hkept.
    - rewrite HE in Est. symmetry.
      destruct (nx.has_node G s && nx.has_node G t) eqn:Eboth; [| reflexivity].
      rewrite <- Est. symmetry. apply existsb_exists. exists e. split; [exact Hin |].
      unfold links, kept. rewrite Hs, Ht, !atom_eqb_refl. exact Eboth. }
  split; [exact Hiff |]. split; [exact Hback |].
  intros Hnw Hew Hsize. split.
  - intros figsize with_labels font.
    destruct (build_graph_draws nodes edges G figsize with_labels font HG Hnw Hew Hsize)
      as [fig Hdraw].
    exists fig. split; [exact Hdraw |]. intros e Hin.
    destruct (build_graph_unique nodes edges G HG) as [_ Hu]. split.
    + intros (u & v & Hd & Hlk).
      apply (draw_graph_edges G figsize with_labels font fig u v Hdraw) in Hd.
      destruct Hd as (d & Hd & _). apply (In_edges_has_edge G u v d Hu) in Hd.
      destruct (Hback u v Hd) as (e' & _ & Hlk' & Hkept').
      rewrite (links_kept G u v e e' Hlk Hlk'). exact Hkept'.
    + intros Hkept. destruct (He e Hin) as [Hs Ht].
      destruct (edge_source e) as [s | |] eqn:Es; try discriminate.
      destruct (edge_target e) as [t | |] eqn:Et; try discriminate.
      assert (Hst : nx.has_edge G s t = true).
      { rewrite (Hiff e s t Hin Es Et). unfold kept in Hkept. rewrite Es, Et in Hkept.
        exact Hkept. }
      destruct (has_edge_In_edges G s t Hst) as (u & v & d & Hd & Hsu & Htv).
      exists u, v. split.
      * apply (draw_graph_edges G figsize with_labels font fig u v Hdraw).
        exists d. split; [exact Hd |]. apply edge_wf_not_nan.
        apply (forallb_In _ _ _ Hew). apply (build_graph_edges_In nodes edges G u v d HG Hd).
      * unfold links. rewrite Es, Et.
        rewrite (atom_eqb_sym u s), (atom_eqb_sym v t), Hsu, Htv. reflexivity.
  - intros int_of_str data outp w h font Hl Hne Hee.
    destruct (build_graph_draws nodes edges G (w, h) true font HG Hnw Hew Hsize)
      as [fig Hdraw].
    exists fig. split; [exact Hdraw |].
    rewrite (main_draws int_of_str data nodes edges G outp w h font Hl Hne Hee HG), Hdraw.
    split; reflexivity.
Qed.

(** An instance: of an edge from [a] to [b] and an edge from [a] to a node
    that does not exist, the first is in the graph and in the drawing, the
    second in neither. *)
Lemma C3_edge_kept_iff_endpoints_present_witness :
  exists G fig,
    build_graph nodes_ab [edge_ab; edge_a_ghost] = Ok G /\
    nx.has_edge G (AStr (str "a")) (AStr (str "b")) = true /\
    nx.has_edge G (AStr (str "a")) (AStr (str "ghost")) = false /\
    draw_graph G (two, two) true 8 = Ok fig /\
    map snd (fig_edges fig) = [[(AStr (str "a"), AStr (str "b"))]] /\
    status (main decimal_int_of_str doc_ghost "graph.png" two two 8) = 0 /\
    image (main decimal_int_of_str doc_ghost "graph.png" two two 8) =
      Some ("graph.png"%string, fig).
Proof.
  destruct (C3_edge_kept_iff_endpoints_present nodes_ab [edge_ab; edge_a_ghost])
    as (G & HG & HN & HE & _ & Hdraw).
  - intros n [<- | [<- | []]]; reflexivity.
  - intros e [<- | [<- | []]]; split; reflexivity.
  - destruct Hdraw as [_ Hrun]; [reflexivity | reflexivity | simpl; lia |].
    destruct (Hrun decimal_int_of_str doc_ghost "graph.png"%string two two 8)
      as (fig & Hfig & Hst & Him); [reflexivity | discriminate | discriminate |].
    exists G, fig. split; [exact HG |].
    split; [| split; [| split; [exact Hfig | split; [| split; [exact Hst | exact Him]]]]].
    + rewrite (HE edge_ab _ _ (or_introl eq_refl) eq_refl eq_refl), !HN. reflexivity.
    + rewrite (HE edge_a_ghost _ _ (or_intror (or_introl eq_refl)) eq_refl eq_refl), !HN.
      reflexivity.
    + vm_compute in HG. injection HG as <-. vm_compute in Hfig. injection Hfig as <-.
      reflexivity.
Defined.

(** C3 (counterexample): an edge record fails the check and yet is not
    dropped, and a graph is built and yet not rendered.  The target [[]] of
    an edge from the node [a] is no node, but asking whether it is one
    raises [TypeError]; and the graph of the nodes ["a"] and [1] is built,
    with its edge, but its layout raises [TypeError] and the run ends with
    that exception. *)
Lemma C3_counterexample :
  (edge_source edge_a_list = PStr "a" /\
   edge_target edge_a_list = PList [] /\
   build_graph nodes_ab [edge_ab; edge_a_list] = Raise TypeError) /\
  (exists G,
     build_graph nodes_a1 [edge_a1] = Ok G /\
     nx.has_edge G (AStr (str "a")) (AInt 1) = true /\
     draw_graph G (two, two) true 8 = Raise TypeError /\
     load_graph decimal_int_of_str doc_a1 = Ok (nodes_a1, [edge_a1]) /\
     main decimal_int_of_str doc_a1 "graph.png" two two 8 = uncaught TypeError).
Proof.
  split; [split; [reflexivity | split; reflexivity] |].
  eexists. split; [reflexivity |]. split; [reflexivity |]. split; [reflexivity |].
  split; reflexivity.
Qed.

(** ** layered_layout on any graph: layers from the top down *)

(** *** Where a layout that returns puts a node *)

Lemma existsb_perm {A : Type} (f : A -> bool) (l l' : list A) :
  Permutation l l' -> existsb f l = existsb f l'.
Proof.
  induction 1 as [| x l l' _ IH | x y l | l1 l2 l3 _ IH1 _ IH2]; cbn [existsb].
  - reflexivity.
  - rewrite IH. reflexivity.
  - destruct (f x), (f y); reflexivity.
  - congruence.
Qed.

Lemma place_nodes_inv (layer n : Z) (ids : list atom) :
  forall (i0 : Z) (pos pos' : list (atom * coord)),
    foldM (place_node layer n) (enumerate_from i0 ids) pos = Ok pos' ->
    (forall k, existsb (atom_eqb k) ids = false -> assoc k pos' = assoc k pos) /\
    (forall k, existsb (atom_eqb k) ids = true ->
               exists x y, y_coord layer = Ok y /\ assoc k pos' = Some (x, y)).
Proof.
  induction ids as [| nid ids IH]; intros i0 pos pos'; cbn [enumerate_from foldM].
  - intros H. injection H as <-. split; [reflexivity | discriminate].
  - unfold place_node at 1. cbn [fst snd].
    destruct (x_coord i0 n) as [x |]; cbn [bind]; [| discriminate].
    destruct (y_coord layer) as [y |] eqn:Ey; cbn [bind]; [| discriminate].
    intros H. destruct (IH _ _ _ H) as [Hkeep Hset]. split.
    + intros k Hk. cbn [existsb] in Hk. apply orb_false_iff in Hk. destruct Hk as [Hk1 Hk2].
      rewrite (Hkeep k Hk2), assoc_set_get, Hk1. reflexivity.
    + intros k Hk. cbn [existsb] in Hk.
      destruct (existsb (atom_eqb k) ids) eqn:Erest.
      * destruct (Hset k Erest) as (x' & y' & Hy' & Ha).
        exists x', y'. split; [exact Hy' | exact Ha].
      * rewrite orb_false_r in Hk. exists x, y. split; [reflexivity |].
        rewrite (Hkeep k Erest), assoc_set_get, Hk. reflexivity.
Qed.

Lemma place_layer_inv (layers : list (Z * list atom)) (L : Z)
  (pos pos' : list (atom * coord)) :
  place_layer layers pos L = Ok pos' ->
  (forall k, existsb (atom_eqb k) (layer_ids layers L) = false ->
             assoc k pos' = assoc k pos) /\
  (forall k, existsb (atom_eqb k) (layer_ids layers L) = true ->
             exists x y, y_coord L = Ok y /\ assoc k pos' = Some (x, y)).
Proof.
  unfold place_layer.
  destruct (py_sorted (layer_ids layers L)) as [ids |] eqn:Es; cbn [bind]; [| discriminate].
  intros H. pose proof (py_sorted_perm _ _ Es) as Hperm.
  destruct (place_nodes_inv L _ ids 0 pos pos' H) as [Hkeep Hset].
  split; intros k Hk; rewrite (existsb_perm (atom_eqb k) _ _ Hperm) in Hk;
    [apply Hkeep | apply Hset]; exact Hk.
Qed.

Lemma place_layers_inv (layers : list (Z * list atom)) (Ls : list Z) :
  forall (pos pos' : list (atom * coord)),
    foldM (place_layer layers) Ls pos = Ok pos' ->
    (forall k, (forall L, In L Ls -> existsb (atom_eqb k) (layer_ids layers L) = false) ->
               assoc k pos' = assoc k pos) /\
    (forall k L,
        In L Ls -> existsb (atom_eqb k) (layer_ids layers L) = true ->
        (forall L', In L' Ls -> L' <> L ->
                    existsb (atom_eqb k) (layer_ids layers L') = false) ->
        exists x y, y_coord L = Ok y /\ assoc k pos' = Some (x, y)).
Proof.
  induction Ls as [| L0 Ls IH]; intros pos pos'; cbn [foldM].
  - intros H. injection H as <-. split; [reflexivity | intros k L []].
  - destruct (place_layer layers pos L0) as [pos1 |] eqn:E1; cbn [bind]; [| discriminate].
    intros H. destruct (IH _ _ H) as [Hkeep Hset].
    destruct (place_layer_inv layers L0 pos pos1 E1) as [Hkeep0 Hset0]. split.
    + intros k Hk. rewrite Hkeep; [apply Hkeep0; apply Hk; left; reflexivity |].
      intros L HL. apply Hk. right. exact HL.
    + intros k L HL Hin Hother.
      destruct (in_dec Z.eq_dec L Ls) as [HLs | HLs].
      * apply (Hset k L HLs Hin). intros L' HL' Hne. apply Hother; [right; exact HL' | exact Hne].
      * destruct HL as [-> | HL]; [| contradiction].
        destruct (Hset0 k Hin) as (x & y & Hy & Ha). exists x, y. split; [exact Hy |].
        rewrite Hkeep; [exact Ha |]. intros L' HL'. apply Hother; [right; exact HL' |].
        intros ->. contradiction.
Qed.

(** Two elements of a list of pairwise different keys that are equal as
    keys are the same element. *)
Lemma distinct_same (ks : list atom) (a b : atom) :
  distinct ks -> In a ks -> In b ks -> atom_eqb a b = true -> a = b.
Proof.
  induction ks as [| k ks IH]; cbn [distinct]; [intros _ [] | intros [Hk Hd] Ha Hb Hab].
  assert (Hno : forall x, In x ks -> atom_eqb k x = false).
  { intros x Hx. destruct (atom_eqb k x) eqn:E; [| reflexivity].
    assert (existsb (atom_eqb k) ks = true)
      by (apply existsb_exists; exists x; split; assumption).
    congruence. }
  destruct Ha as [<- | Ha], Hb as [<- | Hb].
  - reflexivity.
  - rewrite (Hno b Hb) in Hab. discriminate.
  - rewrite atom_eqb_sym, (Hno a Ha) in Hab. discriminate.
  - apply IH; assumption.
Qed.

Lemma distinct_layers (nodes : list nattr) (n n' : nattr) :
  distinct (map attr_id nodes) -> In n nodes -> In n' nodes ->
  atom_eqb (attr_id n) (attr_id n') = true -> attr_layer n = attr_layer n'.
Proof.
  induction nodes as [| m nodes IH]; cbn [map distinct];
    [intros _ [] | intros [Hm Hd] Hn Hn' He].
  assert (Hno : forall x, In x nodes -> atom_eqb (attr_id m) (attr_id x) = false).
  { intros x Hx. destruct (atom_eqb (attr_id m) (attr_id x)) eqn:E; [| reflexivity].
    assert (existsb (atom_eqb (attr_id m)) (map attr_id nodes) = true).
    { apply existsb_exists. exists (attr_id x). split; [apply in_map; exact Hx | exact E]. }
    congruence. }
  destruct Hn as [<- | Hn], Hn' as [<- | Hn'].
  - reflexivity.
  - rewrite (Hno n' Hn') in He. discriminate.
  - rewrite atom_eqb_sym, (Hno n Hn) in He. discriminate.
  - apply IH; assumption.
Qed.

(** A layout that returns has placed every node at the height of its
    layer, whatever the identifiers are, as long as they differ as keys. *)
Lemma layout_placed (nodes : list nattr) (pos : list (atom * coord)) :
  layered_layout nodes = Ok pos ->
  distinct (map attr_id nodes) ->
  forall n, In n nodes ->
    exists x y, y_coord (attr_layer n) = Ok y /\ assoc (attr_id n) pos = Some (x, y).
Proof.
  unfold layered_layout. intros H Hd n Hn.
  destruct (place_layers_inv _ _ _ _ H) as [_ Hset].
  apply (Hset (attr_id n) (attr_layer n)).
  - eapply Permutation_in; [apply sort_Z_perm |]. apply group_layers_keys.
    exists n. split; [exact Hn | reflexivity].
  - rewrite group_layers_ids. apply existsb_exists. exists (attr_id n).
    split; [| apply atom_eqb_refl]. apply members_In. exists n. tauto.
  - intros L' _ Hne. rewrite group_layers_ids.
    destruct (existsb (atom_eqb (attr_id n)) (members nodes L')) eqn:E; [| reflexivity].
    exfalso. apply existsb_exists in E. destruct E as (x & Hx & Hnx).
    apply members_In in Hx. destruct Hx as (n' & Hn' & HL' & <-).
    apply Hne. rewrite <- HL'. symmetry.
    apply (distinct_layers nodes n n' Hd Hn Hn' Hnx).
Qed.

(** *** The identifiers stored in a graph *)

Lemma add_node_of_key_id (G G' : nx.DiGraph) (n : node) :
  add_node_of G n = Ok G' ->
  Forall (fun ka => atom_eqb (fst ka) (attr_id (snd ka)) = true) (nx._node G) ->
  Forall (fun ka => atom_eqb (fst ka) (attr_id (snd ka)) = true) (nx._node G').
Proof.
  unfold add_node_of. destruct (node_id n) as [k | |]; cbn [hashable bind]; try discriminate.
  unfold nx.add_node. intros H Hst. destruct (nx.has_node G k).
  - injection H as <-. cbn [nx._node]. apply assoc_set_entries; [exact Hst |].
    intros k' Hk'. cbn [fst snd attr_id]. rewrite atom_eqb_sym. exact Hk'.
  - destruct k; try discriminate; injection H as <-; cbn [nx._node];
      (apply Forall_app; split; [exact Hst |]); constructor; try constructor;
      cbn [fst snd attr_id]; apply atom_eqb_refl.
Qed.

Lemma build_graph_key_id (nodes : list node) (edges : list edge) (G : nx.DiGraph) :
  build_graph nodes edges = Ok G ->
  forall k a, In (k, a) (nx._node G) -> atom_eqb k (attr_id a) = true.
Proof.
  unfold build_graph.
  destruct (foldM add_node_of nodes nx.empty) as [G0 |] eqn:E0; cbn [bind]; [| discriminate].
  intros H. rewrite (add_edges_nodes edges G0 G H).
  assert (Hgen : forall ns G1 G2,
            foldM add_node_of ns G1 = Ok G2 ->
            Forall (fun ka => atom_eqb (fst ka) (attr_id (snd ka)) = true) (nx._node G1) ->
            Forall (fun ka => atom_eqb (fst ka) (attr_id (snd ka)) = true) (nx._node G2)).
  { induction ns as [| n ns IH]; cbn [foldM]; intros G1 G2 HG Hst1.
    - injection HG as <-. exact Hst1.
    - destruct (add_node_of G1 n) as [G1' |] eqn:E; cbn [bind] in HG; [| discriminate].
      apply (IH G1' G2 HG). apply (add_node_of_key_id G1 G1' n E Hst1). }
  pose proof (Hgen nodes nx.empty G0 E0 (Forall_nil _)) as HF.
  rewrite Forall_forall in HF. intros k a Hin. apply (HF (k, a) Hin).
Qed.

(** The identifiers the nodes of a graph carry differ as keys. *)
Lemma build_graph_ids_distinct (nodes : list node) (edges : list edge) (G : nx.DiGraph) :
  build_graph nodes edges = Ok G ->
  distinct (map attr_id (map snd (nx._node G))).
Proof.
  intros HG. destruct (build_graph_unique nodes edges G HG) as [Hal [Hd _]].
  rewrite <- Hal in Hd. pose proof (build_graph_key_id nodes edges G HG) as Hk.
  revert Hd Hk. generalize (nx._node G). intros d.
  induction d as [| [k a] d IH]; cbn [map distinct fst snd]; intros Hd Hk; [exact I |].
  destruct Hd as [Hk0 Hd]. split.
  - rewrite <- Hk0. rewrite map_map.
    rewrite <- (map_map snd attr_id), <- (map_map fst (fun x => x)), map_id.
    assert (Hka : atom_eqb k (attr_id a) = true) by (apply Hk; left; reflexivity).
    assert (Hgen : forall d', (forall k' a', In (k', a') d' -> In (k', a') d) ->
              existsb (atom_eqb (attr_id a)) (map attr_id (map snd d')) =
              existsb (atom_eqb k) (map fst d')).
    { induction d' as [| [k' a'] d' IH']; cbn [map existsb fst snd]; intros Hsub;
        [reflexivity |].
      rewrite IH' by (intros k2 a2 H2; apply Hsub; right; exact H2). f_equal.
      assert (Hk'a' : atom_eqb k' (attr_id a') = true)
        by (apply Hk; right; apply Hsub; left; reflexivity).
      destruct (atom_eqb k k') eqn:E.
      - apply (atom_eqb_trans _ k _); [rewrite atom_eqb_sym; exact Hka |].
        apply (atom_eqb_trans _ k' _); assumption.
      - destruct (atom_eqb (attr_id a) (attr_id a')) eqn:E'; [| reflexivity].
        rewrite <- E. symmetry. apply (atom_eqb_trans _ (attr_id a) _); [exact Hka |].
        apply (atom_eqb_trans _ (attr_id a') _); [exact E' |].
        rewrite atom_eqb_sym. exact Hk'a'. }
    apply Hgen. auto.
  - apply IH; [exact Hd |]. intros k' a' Hin. apply Hk. right. exact Hin.
Qed.

(** C7 (as amended): for a graph whose layer numbers lie between [-2^52]
    and [2^52], whenever [layered_layout] returns positions, every node of a
    layer [L1] has a strictly greater y-coordinate than every node of a
    layer [L2] above it ([L1 < L2]); and it does return positions at least
    when the nodes of the graph are strings and there are at most [2^53] of
    them. *)
Theorem C7_layers_in_order (records : list node) (edges : list edge) (G : nx.DiGraph) :
  build_graph records edges = Ok G ->
  (forall k a, In (k, a) (nx._node G) -> - 2 ^ 52 <= attr_layer a <= 2 ^ 52) ->
  (forallb is_str (nx.nodes G) = true ->
   Z.of_nat (List.length (nx.nodes G)) <= 2 ^ 53 ->
   exists pos, layered_layout (map snd (nx._node G)) = Ok pos) /\
  (forall pos,
      layered_layout (map snd (nx._node G)) = Ok pos ->
      forall k1 a1 k2 a2,
        In (k1, a1) (nx._node G) -> In (k2, a2) (nx._node G) ->
        attr_layer a1 < attr_layer a2 ->
        exists x1 y1 x2 y2,
          assoc k1 pos = Some (x1, y1) /\
          assoc k2 pos = Some (x2, y2) /\
          fltb y2 y1 = true).
Proof.
  intros HG Hrange.
  pose proof (build_graph_key_id records edges G HG) as Hkey.
  pose proof (build_graph_ids_distinct records edges G HG) as Hd.
  split.
  - intros Hstr Hsize.
    destruct (layout_spec (map snd (nx._node G))) as (pos & Hpos & _); [| exists pos; exact Hpos].
    assert (Hids : map attr_id (map snd (nx._node G)) = nx.nodes G).
    { unfold nx.nodes in *. clear - Hkey Hstr.
      induction (nx._node G) as [| [k a] d IH]; cbn [map fst snd]; [reflexivity |].
      cbn [map fst forallb] in Hstr. apply andb_true_iff in Hstr. destruct Hstr as [Hk Hstr].
      rewrite IH; [| intros k' a' Hin; apply Hkey; right; exact Hin | exact Hstr].
      f_equal. destruct k as [| | | | s]; try discriminate Hk.
      specialize (Hkey (AStr s) a (or_introl eq_refl)).
      rewrite atom_eqb_sym in Hkey. apply atom_eqb_str in Hkey. exact Hkey. }
    split; [| split; [| split]].
    + rewrite <- Hids in Hstr. rewrite forallb_forall in *.
      intros a Ha. apply Hstr. apply in_map. exact Ha.
    + apply distinct_NoDup. exact Hd.
    + rewrite length_map. unfold nx.nodes in Hsize. rewrite length_map in Hsize. exact Hsize.
    + intros a Ha. apply in_map_iff in Ha. destruct Ha as ([k a'] & <- & Hin). cbn [snd].
      apply float_ok_small. specialize (Hrange k a' Hin).
      change (2 ^ 53) with (2 * 2 ^ 52). lia.
  - intros pos Hpos k1 a1 k2 a2 H1 H2 Hlt.
    assert (Hplaced : forall k a, In (k, a) (nx._node G) ->
              exists x y, y_coord (attr_layer a) = Ok y /\ assoc k pos = Some (x, y)).
    { intros k a Hin.
      destruct (layout_placed _ pos Hpos Hd a) as (x & y & Hy & Ha).
      - apply in_map_iff. exists (k, a). split; [reflexivity | exact Hin].
      - exists x, y. split; [exact Hy |].
        rewrite (assoc_eqb k (attr_id a) pos (Hkey k a Hin)). exact Ha. }
    destruct (Hplaced k1 a1 H1) as (x1 & y1 & Hy1 & Ha1).
    destruct (Hplaced k2 a2 H2) as (x2 & y2 & Hy2 & Ha2).
    exists x1, y1, x2, y2. split; [exact Ha1 |]. split; [exact Ha2 |].
    destruct (y_coord_decreasing (attr_layer a1) (attr_layer a2) Hlt)
      as (y1' & y2' & E1 & E2 & H).
    + apply (Hrange k1 a1 H1).
    + apply (Hrange k2 a2 H2).
    + congruence.
Qed.

(** An instance: the graph of [nodes_ab], with layers 0 and 1. *)
Lemma C7_layers_in_order_witness :
  exists pos x1 y1 x2 y2,
    layered_layout (map snd (nx._node (graph_of nodes_ab [edge_ab]))) = Ok pos /\
    assoc (AStr (str "a")) pos = Some (x1, y1) /\
    assoc (AStr (str "b")) pos = Some (x2, y2) /\
    fltb y2 y1 = true.
Proof.
  destruct (C7_layers_in_order nodes_ab [edge_ab] (graph_of nodes_ab [edge_ab]))
    as [Hex Hord].
  - reflexivity.
  - intros k a [H | [H | []]]; injection H as <- <-; simpl; lia.
  - destruct Hex as [pos Hpos]; [reflexivity | simpl; lia |].
    destruct (Hord pos Hpos (AStr (str "a")) {| attr_id := AStr (str "a"); attr_name := PStr "a"; attr_layer := 0; attr_kind := PStr "unknown" |}
                (AStr (str "b")) {| attr_id := AStr (str "b"); attr_name := PStr "b"; attr_layer := 1; attr_kind := PStr "unknown" |})
      as (x1 & y1 & x2 & y2 & H1 & H2 & H3).
    + left. reflexivity.
    + right. left. reflexivity.
    + simpl. lia.
    + exists pos, x1, y1, x2, y2. repeat split; assumption.
Defined.

(** ** layered_layout: the order of the records *)

(** *** The order of the numbers *)

Lemma scaled_compare (m1 e1 m2 e2 M : Z) :
  M <= Z.min e1 e2 ->
  (m1 * 2 ^ (e1 - Z.min e1 e2) ?= m2 * 2 ^ (e2 - Z.min e1 e2)) =
  (m1 * 2 ^ (e1 - M) ?= m2 * 2 ^ (e2 - M)).
Proof.
  intros HM. set (a := Z.min e1 e2) in *.
  assert (Ha1 : a <= e1) by (subst a; lia).
  assert (Ha2 : a <= e2) by (subst a; lia).
  replace (e1 - M) with ((e1 - a) + (a - M)) by lia.
  replace (e2 - M) with ((e2 - a) + (a - M)) by lia.
  rewrite !Z.pow_add_r by lia.
  assert (Hpos : 0 < 2 ^ (a - M)) by (apply Z.pow_pos_nonneg; lia).
  rewrite !Z.mul_assoc. generalize (m1 * 2 ^ (e1 - a)) (m2 * 2 ^ (e2 - a)) (2 ^ (a - M)) Hpos.
  clear. intros x y c Hc. destruct (Z.compare_spec x y) as [-> | Hlt | Hgt]; symmetry.
  - apply Z.compare_refl.
  - apply Z.compare_lt_iff. apply Z.mul_lt_mono_pos_r; assumption.
  - apply Z.compare_gt_iff. apply Z.mul_lt_mono_pos_r; assumption.
Qed.

Lemma jfloat_compare_opp (f g : jfloat) :
  jfloat_compare g f = CompOpp (jfloat_compare f g).
Proof.
  destruct f as [m1 e1 | [] |], g as [m2 e2 | [] |]; cbn [jfloat_compare CompOpp];
    try reflexivity.
  rewrite (Z.min_comm e2 e1). apply Z.compare_antisym.
Qed.

Lemma jfloat_compare_lt_trans (f g h : jfloat) :
  jfloat_compare f g = Lt -> jfloat_compare g h = Lt -> jfloat_compare f h = Lt.
Proof.
  destruct f as [m1 e1 | [] |], g as [m2 e2 | [] |], h as [m3 e3 | [] |];
    cbn [jfloat_compare]; try discriminate; try reflexivity.
  set (M := Z.min e1 (Z.min e2 e3)).
  rewrite (scaled_compare m1 e1 m2 e2 M), (scaled_compare m2 e2 m3 e3 M),
    (scaled_compare m1 e1 m3 e3 M) by (subst M; lia).
  rewrite !Z.compare_lt_iff. lia.
Qed.

(** *** [<] on the values [sorted] accepts *)

Lemma atom_lt_true_cases (a b : atom) :
  atom_lt a b = Ok true ->
  (exists s t, a = AStr s /\ b = AStr t /\ pystr_ltb s t = true) \/
  (exists f g, atom_num a = Some f /\ atom_num b = Some g /\
               is_nan a = false /\ is_nan b = false /\ jfloat_compare f g = Lt).
Proof.
  assert (Hnum : forall f g, Ok (jfloat_ltb f g) = Ok true ->
            f <> JNaN /\ g <> JNaN /\ jfloat_compare f g = Lt).
  { intros f g H. injection H as H. unfold jfloat_ltb in H.
    destruct f as [m1 e1 | n1 |], g as [m2 e2 | n2 |]; try discriminate H;
      (split; [discriminate | split; [discriminate |]]);
      destruct (jfloat_compare _ _); try discriminate H; reflexivity. }
  destruct a as [| b1 | z1 | f1 | s1], b as [| b2 | z2 | f2 | s2];
    unfold atom_lt; cbn [atom_num]; try discriminate; intros H.
  all: try (right; destruct (Hnum _ _ H) as (Hf & Hg & Hc);
            eexists; eexists; split; [reflexivity |]; split; [reflexivity |];
            split; [| split; [| exact Hc]]; cbn [is_nan]; try reflexivity).
  - destruct f2; try reflexivity. exfalso. apply Hg. reflexivity.
  - destruct f2; try reflexivity. exfalso. apply Hg. reflexivity.
  - destruct f1; try reflexivity. exfalso. apply Hf. reflexivity.
  - destruct f1; try reflexivity. exfalso. apply Hf. reflexivity.
  - destruct f1; try reflexivity. exfalso. apply Hf. reflexivity.
  - destruct f2; try reflexivity. exfalso. apply Hg. reflexivity.
  - left. exists s1, s2. injection H as H. auto.
Qed.

Lemma atom_lt_num (a b : atom) (f g : jfloat) :
  atom_num a = Some f -> atom_num b = Some g -> atom_lt a b = Ok (jfloat_ltb f g).
Proof.
  destruct a, b; cbn [atom_num]; intros Ha Hb; try discriminate;
    injection Ha as <-; injection Hb as <-; reflexivity.
Qed.

Lemma jfloat_ltb_Lt (a b : atom) (f g : jfloat) :
  atom_num a = Some f -> atom_num b = Some g ->
  is_nan a = false -> is_nan b = false ->
  jfloat_ltb f g = match jfloat_compare f g with Lt => true | _ => false end.
Proof.
  intros Ha Hb Hna Hnb. unfold jfloat_ltb.
  assert (Hf : f <> JNaN).
  { intros ->. destruct a; try discriminate Ha. injection Ha as ->. discriminate Hna. }
  assert (Hg : g <> JNaN).
  { intros ->. destruct b; try discriminate Hb. injection Hb as ->. discriminate Hnb. }
  destruct f as [m1 e1 | n1 |], g as [m2 e2 | n2 |]; try reflexivity;
    try (exfalso; apply Hf; reflexivity); exfalso; apply Hg; reflexivity.
Qed.

Lemma atom_lt_trans (a b c : atom) :
  atom_lt a b = Ok true -> atom_lt b c = Ok true -> atom_lt a c = Ok true.
Proof.
  intros H1 H2.
  destruct (atom_lt_true_cases a b H1)
    as [(s & t & -> & -> & Hst) | (f & g & Hf & Hg & Hna & Hnb & Hfg)];
    destruct (atom_lt_true_cases _ c H2)
      as [(t' & u & Ht' & -> & Htu) | (g' & h & Hg' & Hh & Hnb' & Hnc & Hgh)].
  - injection Ht' as <-. cbn [atom_lt]. rewrite (pystr_ltb_trans s t u Hst Htu). reflexivity.
  - discriminate Hg'.
  - subst b. discriminate Hg.
  - rewrite Hg in Hg'. injection Hg' as <-.
    rewrite (atom_lt_num a c f h Hf Hh), (jfloat_ltb_Lt a c f h Hf Hh Hna Hnc).
    rewrite (jfloat_compare_lt_trans f g h Hfg Hgh). reflexivity.
Qed.

Lemma atom_lt_asym (a b : atom) : atom_lt a b = Ok true -> atom_lt b a = Ok true -> False.
Proof.
  intros H1 H2. pose proof (atom_lt_trans a b a H1 H2) as H.
  destruct (atom_lt_true_cases a a H)
    as [(s & t & Hs & Ht & Hst) | (f & g & Hf & Hg & _ & _ & Hfg)].
  - rewrite Hs in Ht. injection Ht as <-. rewrite pystr_ltb_irrefl in Hst. discriminate.
  - rewrite Hf in Hg. injection Hg as <-.
    pose proof (jfloat_compare_opp f f) as Ho. rewrite Hfg in Ho. discriminate Ho.
Qed.

(** Of two values that [<] compares, neither NaN and not the same key,
    one is smaller. *)
Lemma atom_lt_total (a b : atom) :
  atom_lt b a = Ok false -> is_nan a = false -> is_nan b = false ->
  atom_eqb a b = false -> atom_lt a b = Ok true.
Proof.
  intros Hba Hna Hnb Hab.
  destruct (atom_num a) as [f |] eqn:Ef, (atom_num b) as [g |] eqn:Eg.
  - rewrite (atom_lt_num b a g f Eg Ef), (jfloat_ltb_Lt b a g f Eg Ef Hnb Hna) in Hba.
    rewrite (atom_lt_num a b f g Ef Eg), (jfloat_ltb_Lt a b f g Ef Eg Hna Hnb).
    assert (Heq : atom_eqb a b = match jfloat_compare f g with Eq => true | _ => false end).
    { destruct a, b; cbn [atom_num] in Ef, Eg; try discriminate;
        injection Ef as <-; injection Eg as <-; reflexivity. }
    rewrite Heq in Hab. rewrite (jfloat_compare_opp f g) in Hba.
    destruct (jfloat_compare f g); cbn [CompOpp] in Hba; try discriminate; reflexivity.
  - destruct a, b; cbn [atom_num] in Ef, Eg; try discriminate; discriminate Hba.
  - destruct a, b; cbn [atom_num] in Ef, Eg; try discriminate; discriminate Hba.
  - destruct a as [| | | | s], b as [| | | | t]; cbn [atom_num] in Ef, Eg;
      try discriminate; try discriminate Hba.
    cbn [atom_lt] in *. injection Hba as Hba.
    destruct (pystr_ltb s t) eqn:Est; [reflexivity |].
    rewrite (pystr_ltb_total s t Est Hba) in Hab.
    unfold atom_eqb in Hab. rewrite pystr_eqb_refl in Hab. discriminate Hab.
Qed.

(** *** [sorted] on values that differ as keys *)

Lemma insert_sorted_lt (x : atom) (l r : list atom) :
  insert_sorted x l = Ok r ->
  StronglySorted (fun a b => atom_lt a b = Ok true) l ->
  is_nan x = false -> forallb (fun y => negb (is_nan y)) l = true ->
  existsb (atom_eqb x) l = false ->
  StronglySorted (fun a b => atom_lt a b = Ok true) r.
Proof.
  revert r. induction l as [| y l IH]; intros r; cbn [insert_sorted].
  - intros H _ _ _ _. injection H as <-. repeat constructor.
  - destruct (atom_lt y x) as [b |] eqn:Eyx; cbn [bind]; [| discriminate].
    intros H S Hx Hl Hne. inversion S as [| ? ? S' F]; subst.
    cbn [forallb] in Hl. apply andb_true_iff in Hl. destruct Hl as [Hy Hl].
    apply negb_true_iff in Hy.
    cbn [existsb] in Hne. apply orb_false_iff in Hne. destruct Hne as [Hxy Hne].
    destruct b.
    + destruct (insert_sorted x l) as [r' |] eqn:Er; cbn [bind] in H; [| discriminate].
      injection H as <-. constructor; [apply (IH r' eq_refl S' Hx Hl Hne) |].
      rewrite Forall_forall in *. intros z Hz.
      apply (Permutation_in _ (Permutation_sym (insert_sorted_perm _ _ _ Er))) in Hz.
      destruct Hz as [<- | Hz]; [exact Eyx | apply F; exact Hz].
    + injection H as <-.
      assert (Hlt : atom_lt x y = Ok true) by (apply atom_lt_total; assumption).
      constructor; [exact S |]. constructor; [exact Hlt |].
      rewrite Forall_forall in *. intros z Hz.
      apply (atom_lt_trans x y z Hlt). apply F. exact Hz.
Qed.

Lemma distinct_perm (l l' : list atom) : Permutation l l' -> distinct l -> distinct l'.
Proof.
  induction 1 as [| x l l' P IH | x y l | l1 l2 l3 _ IH1 _ IH2]; cbn [distinct].
  - auto.
  - intros [Hx Hd]. split; [| apply IH; exact Hd].
    rewrite <- (existsb_perm (atom_eqb x) l l' P). exact Hx.
  - cbn [existsb]. intros [Hy [Hx Hd]]. apply orb_false_iff in Hy. destruct Hy as [Hyx Hy].
    split; [| split; assumption]. rewrite atom_eqb_sym, Hyx, Hx. reflexivity.
  - auto.
Qed.

Lemma py_sorted_lt (l r : list atom) :
  py_sorted l = Ok r -> distinct l ->
  forallb (fun y => negb (is_nan y)) l = true ->
  StronglySorted (fun a b => atom_lt a b = Ok true) r.
Proof.
  revert r. induction l as [| x l IH]; intros r; cbn [py_sorted distinct forallb].
  - intros H _ _. injection H as <-. constructor.
  - destruct (py_sorted l) as [r0 |] eqn:E0; cbn [bind]; [| discriminate].
    intros H [Hx Hd] Hn. apply andb_true_iff in Hn. destruct Hn as [Hnx Hn].
    apply negb_true_iff in Hnx. pose proof (py_sorted_perm l r0 E0) as P.
    apply (insert_sorted_lt x r0 r H).
    + apply (IH r0 eq_refl Hd Hn).
    + exact Hnx.
    + apply (forallb_perm _ _ _ P Hn).
    + rewrite <- (existsb_perm (atom_eqb x) l r0 P). exact Hx.
Qed.

Lemma py_sorted_num_Ok (l : list atom) :
  forallb is_num l = true -> exists r, py_sorted l = Ok r.
Proof.
  induction l as [| x l IH]; cbn [py_sorted forallb]; [eexists; reflexivity |].
  intros H. apply andb_true_iff in H. destruct H as [Hx Hl].
  destruct (IH Hl) as [r Hr]. rewrite Hr. cbn [bind].
  assert (Hrn : forallb is_num r = true)
    by (apply (forallb_perm _ _ _ (py_sorted_perm l r Hr) Hl)).
  clear - Hx Hrn. induction r as [| y r IH]; cbn [insert_sorted]; [eexists; reflexivity |].
  cbn [forallb] in Hrn. apply andb_true_iff in Hrn. destruct Hrn as [Hy Hr].
  unfold is_num in Hx, Hy.
  destruct (atom_num x) as [f |] eqn:Ef; [| discriminate].
  destruct (atom_num y) as [g |] eqn:Eg; [| discriminate].
  rewrite (atom_lt_num y x g f Eg Ef). cbn [bind].
  destruct (jfloat_ltb g f); [| eexists; reflexivity].
  destruct (IH Hr) as [r' ->]. cbn [bind]. eexists. reflexivity.
Qed.

(** Whether [sorted] returns depends on the elements only. *)
Lemma py_sorted_Ok_perm (l1 l2 r1 : list atom) :
  Permutation l1 l2 -> py_sorted l1 = Ok r1 -> exists r2, py_sorted l2 = Ok r2.
Proof.
  intros P H. destruct (py_sorted_same_kind l1 r1 H) as [Hlen | [Hs | Hn]].
  - destruct l1 as [| x [| y l1]]; cbn in Hlen; try lia.
    + apply Permutation_nil in P. subst l2. eexists. reflexivity.
    + apply Permutation_length_1_inv in P. subst l2. eexists. reflexivity.
  - destruct (py_sorted_str l2 (forallb_perm _ _ _ P Hs)) as (r2 & E2 & _). exists r2. exact E2.
  - apply py_sorted_num_Ok. apply (forallb_perm _ _ _ P Hn).
Qed.

(** On values that differ as keys, none of them NaN, the order of the
    input does not matter. *)
Lemma py_sorted_perm_eq (l1 l2 : list atom) :
  distinct l1 -> forallb (fun y => negb (is_nan y)) l1 = true ->
  Permutation l1 l2 -> py_sorted l1 = py_sorted l2.
Proof.
  intros Hd Hn P.
  destruct (py_sorted l1) as [r1 | e1] eqn:E1.
  - destruct (py_sorted_Ok_perm l1 l2 r1 P E1) as [r2 E2]. rewrite E2. f_equal.
    apply (sorted_perm_unique (fun a b => atom_lt a b = Ok true)).
    + intros a b Hab Hba. destruct (atom_lt_asym a b Hab Hba).
    + apply (py_sorted_lt l1 r1 E1 Hd Hn).
    + apply (py_sorted_lt l2 r2 E2 (distinct_perm _ _ P Hd) (forallb_perm _ _ _ P Hn)).
    + eapply Permutation_trans; [apply Permutation_sym, (py_sorted_perm _ _ E1) |].
      eapply Permutation_trans; [exact P | apply (py_sorted_perm _ _ E2)].
  - rewrite (py_sorted_exn l1 e1 E1). destruct (py_sorted l2) as [r2 | e2] eqn:E2.
    + destruct (py_sorted_Ok_perm l2 l1 r2 (Permutation_sym P) E2) as [r1 E1'].
      rewrite E1' in E1. discriminate E1.
    + rewrite (py_sorted_exn l2 e2 E2). reflexivity.
Qed.

Lemma members_distinct (nodes : list nattr) (L : Z) :
  distinct (map attr_id nodes) -> distinct (members nodes L).
Proof.
  unfold members. induction nodes as [| n nodes IH]; cbn [map filter distinct]; [auto |].
  intros [Hn Hd]. destruct (attr_layer n =? L); cbn [map distinct]; [| apply IH; exact Hd].
  split; [| apply IH; exact Hd].
  destruct (existsb (atom_eqb (attr_id n))
              (map attr_id (filter (fun n0 => attr_layer n0 =? L) nodes))) eqn:E;
    [| reflexivity].
  apply existsb_exists in E. destruct E as (x & Hx & Hnx).
  apply in_map_iff in Hx. destruct Hx as (n' & <- & Hn'). apply filter_In in Hn'.
  assert (existsb (atom_eqb (attr_id n)) (map attr_id nodes) = true).
  { apply existsb_exists. exists (attr_id n'). split; [apply in_map, Hn' | exact Hnx]. }
  congruence.
Qed.

(** The layout of nodes that differ as keys, none of them NaN, depends on
    the (identifier, layer) pairs only, not on their order. *)
Lemma layout_perm_keys (nodes nodes' : list nattr) :
  distinct (map attr_id nodes) ->
  forallb (fun n => negb (is_nan (attr_id n))) nodes = true ->
  Permutation (map id_layer nodes) (map id_layer nodes') ->
  layered_layout nodes = layered_layout nodes'.
Proof.
  intros Hd Hn P. unfold layered_layout. rewrite (layers_perm nodes nodes' P).
  apply foldM_ext. intros pos L. unfold place_layer.
  rewrite !group_layers_ids.
  rewrite (py_sorted_perm_eq (members nodes L) (members nodes' L)).
  - reflexivity.
  - apply members_distinct. exact Hd.
  - apply forallb_forall. intros x Hx. apply members_In in Hx.
    destruct Hx as (n' & Hin' & _ & <-).
    apply (forallb_In (fun n => negb (is_nan (attr_id n))) nodes n' Hn Hin').
  - apply members_perm. exact P.
Qed.

(** *** Graphs with the same nodes *)

Lemma atom_eqb_nan (k a : atom) : atom_eqb k a = true -> is_nan a = true -> is_nan k = true.
Proof.
  destruct a as [| | | [| |] |]; try discriminate. intros H _.
  destruct k as [| b | z | [m e | n |] | s]; try discriminate H; try reflexivity.
  destruct n; discriminate H.
Qed.

(** C6 (as amended): [layered_layout] is a function of its node list, and
    of less than that.  For nodes with string identifiers, and for the
    nodes of a graph none of whose identifiers is NaN, its result,
    exception included, depends on the (identifier, layer) pairs of the
    nodes taken as a multiset: not on their order, nor on names and kinds.
    It reads no edge: two graphs built from the same node records and
    different edge lists have the same layout, and the positions of their
    drawings are equal. *)
Theorem C6_layout_depends_on_nodes_only :
  (forall nodes nodes',
      forallb (fun n => is_str (attr_id n)) nodes = true ->
      Permutation (map id_layer nodes) (map id_layer nodes') ->
      layered_layout nodes = layered_layout nodes') /\
  (forall records edges records' edges' G G',
      build_graph records edges = Ok G ->
      build_graph records' edges' = Ok G' ->
      (forall k, In k (nx.nodes G) -> is_nan k = false) ->
      Permutation (map id_layer (map snd (nx._node G)))
                  (map id_layer (map snd (nx._node G'))) ->
      layered_layout (map snd (nx._node G)) = layered_layout (map snd (nx._node G'))) /\
  (forall nodes edges1 edges2 G1 G2,
      build_graph nodes edges1 = Ok G1 ->
      build_graph nodes edges2 = Ok G2 ->
      layered_layout (map snd (nx._node G1)) = layered_layout (map snd (nx._node G2)) /\
      forall figsize1 figsize2 labels1 labels2 font1 font2 fig1 fig2,
        draw_graph G1 figsize1 labels1 font1 = Ok fig1 ->
        draw_graph G2 figsize2 labels2 font2 = Ok fig2 ->
        fig_pos fig1 = fig_pos fig2).
Proof.
  split; [apply layout_perm | split].
  - intros records edges records' edges' G G' HG HG' Hnan P.
    apply layout_perm_keys; [apply (build_graph_ids_distinct records edges G HG) | | exact P].
    apply forallb_forall. intros a Ha. apply in_map_iff in Ha.
    destruct Ha as ([k a'] & <- & Hin). cbn [snd].
    destruct (is_nan (attr_id a')) eqn:E; [| reflexivity].
    pose proof (atom_eqb_nan k (attr_id a')
                  (build_graph_key_id records edges G HG k a' Hin) E) as Hk.
    rewrite (Hnan k) in Hk; [discriminate Hk |].
    unfold nx.nodes. apply (in_map fst _ (k, a')). exact Hin.
  - intros nodes edges1 edges2 G1 G2 H1 H2.
    rewrite (build_graph_nodes nodes edges1 edges2 G1 G2 H1 H2).
    split; [reflexivity |].
    intros figsize1 figsize2 labels1 labels2 font1 font2 fig1 fig2 D1 D2.
    apply draw_graph_pos in D1, D2.
    rewrite (build_graph_nodes nodes edges1 edges2 G1 G2 H1 H2) in D1. congruence.
Qed.

(** An instance: the nodes of [scenario] in another order and with other
    names; the graph of [nodes_ab] and the graph of the same records in
    the other order; and one node list with two edge lists. *)
Lemma C6_layout_depends_on_nodes_only_witness :
  layered_layout scenario = layered_layout scenario_shuffled /\
  layered_layout (map snd (nx._node (graph_of nodes_ab [edge_ab]))) =
  layered_layout (map snd (nx._node (graph_of (rev nodes_ab) []))) /\
  exists G1 G2,
    build_graph nodes_ab [edge_ab; edge_a_ghost] = Ok G1 /\
    build_graph nodes_ab [] = Ok G2 /\
    layered_layout (map snd (nx._node G1)) = layered_layout (map snd (nx._node G2)).
Proof.
  destruct C6_layout_depends_on_nodes_only as (Hstr & Hgraph & Hedges).
  split; [| split].
  - apply Hstr.
    + reflexivity.
    + apply Permutation_sym.
      apply (Permutation_cons_append
               [(AStr (str "B"), 0); (AStr (str "A"), 0)] (AStr (str "C"), 1)).
  - apply (Hgraph nodes_ab [edge_ab] (rev nodes_ab) []).
    + reflexivity.
    + reflexivity.
    + intros k [<- | [<- | []]]; reflexivity.
    + apply perm_swap.
  - eexists. eexists. split; [reflexivity |]. split; [reflexivity |].
    apply (Hedges nodes_ab [edge_ab; edge_a_ghost] []).
    + reflexivity.
    + reflexivity.
Defined.

(** C6 (counterexample): the identifiers NaN and [1] in one layer.  [<]
    answers false whichever way the two are asked, so [sorted] leaves them
    as it finds them: the graphs of the two records in the one order and in
    the other have the same (identifier, layer) pairs, and [1] stands on
    the right in the first and on the left in the second. *)
Lemma C6_counterexample :
  exists G G' pos pos',
    build_graph [node_nan; node_one] [] = Ok G /\
    build_graph [node_one; node_nan] [] = Ok G' /\
    Permutation (map id_layer (map snd (nx._node G)))
                (map id_layer (map snd (nx._node G'))) /\
    layered_layout (map snd (nx._node G)) = Ok pos /\
    layered_layout (map snd (nx._node G')) = Ok pos' /\
    assoc (AInt 1) pos = Some (half_gap, zero) /\
    assoc (AInt 1) pos' = Some (fopp half_gap, zero).
Proof.
  do 4 eexists. split; [reflexivity |]. split; [reflexivity |].
  split; [apply perm_swap |]. split; [vm_compute; reflexivity |].
  split; [vm_compute; reflexivity |]. split; reflexivity.
Qed.
